(* ===== verification/_CoqProject ===== *)
-Q . S2P
Prelude.v
Buffer.v
Slice.v
Codec.v
Time.v
Text.v
Status.v
Logger.v
Daemon.v
ProcessInfo.v
Any.v
TimerQueue.v
Channel.v
Poller.v
PollerEquiv.v
EventLoop.v
EventLoopPool.v
LoopLife.v
ThreadPool.v
TcpServer.v
Sockets.v
TcpConn.v
AcceptRace.v
Reactor.v
Streams.v
Closing.v
Session.v
Network.v
RaftLog.v
Raft.v
Rpc.v
RpcStream.v
RaftNode.v
NodeStart.v
Http.v
HttpConn.v
Programs.v
