(* ===== verification/Prelude.v ===== *)
(** * A verification of JNet

    JNet is a network library in the style of muduo: buffers and codecs, timers,
    channels over epoll or poll, event loops, TCP connections and servers, HTTP,
    remote procedure calls over protobuf, and a Raft library on top.  This
    development translates its code under src/ into Gallina definitions, keeping
    the names of the source, and proves what the parts promise, and where the
    code does not keep a promise, what it does instead.

    ** The program and its model

    A connection lives in one event loop.  The loop (EventLoop.v) asks a poller
    (Poller.v) for the channels (Channel.v) with events, calls their callbacks,
    and runs functors that other threads queued.  The timer queue
    (TimerQueue.v) is a channel on a timerfd.  A connection (TcpConn.v) reads
    into and writes from buffers (Buffer.v); codecs (Codec.v), HTTP (Http.v,
    HttpConn.v) and RPC (Rpc.v, RpcStream.v) interpret the bytes.  A server
    (TcpServer.v) spreads connections over a pool of loops (EventLoopPool.v).
    Raft (Raft.v) keeps its log in a file (RaftLog.v) and its nodes exchange
    their messages by RPC (RaftNode.v).

    - Prelude.v (this file): outcomes of C++ code, machine integers, byte
      strings, lists indexed by integers, transition systems, automation.
    - Buffer.v: net/buffer.*.  The array with indeterminate cells, begin, end and
      capacity; every operation, on every well-formed state.
    - Slice.v: net/slice.h.  Codec.v: net/codec.*, the codecs behind the
      interface CodecBase as a class with its law.
    - Time.v: net/timestamp.h, net/timer.*; intervals are IEEE doubles.
    - Text.v: the C library's text functions the program uses, net/util.cc and
      the text forms of net/timestamp.cc.
    - ProcessInfo.v: net/processinfo.*, over a record of the system's answers.
    - Any.v: net/any.h, the container of one value of any type, with the heap of
      the objects it owns, over a class Universe of types.
    - Status.v: net/status.* and net/file.cc on an explicit heap.
    - Logger.v: net/log.*, with the files it writes and rotates.
    - Daemon.v: net/daemon.cc, with the pid file and the answers of kill.
    - TimerQueue.v: net/timerqueue.*, with the heap of Timer objects, the ordered
      set, the timerfd, and callbacks that add and cancel timers while they run.
    - Channel.v, Poller.v: net/channel.*, net/poller.*, net/epollpoller.*,
      net/pollpoller.*.  The class PollerPrim states what a poller promises of
      its own operations; Channel's operations (PollerLaw) and programs that add,
      change and close channels are proved against it, and EpollPoller satisfies it.
    - PollerEquiv.v: PollPoller::Poll with poll(2), and the simulation between
      the two pollers.
    - EventLoop.v: net/eventloop.*.  The loop thread takes one shared access per
      step and is interleaved with calls of other threads.
    - EventLoopPool.v: net/eventloop_pool.*, net/eventloop_thread.*,
      net/countdownlatch.h.  ThreadPool.v: net/threadpool.h.
    - LoopLife.v: constructors and destructors of net/eventloop.cc,
      net/timerqueue.cc, net/channel.cc and net/eventloop_thread.cc, and the
      channel operations of the loop with their check of the thread.
    - TcpServer.v: net/tcpserver.*, Ip4Addr of net/net.*.
    - Sockets.v: a table of open descriptors with the system calls on it, and the
      code that opens, configures and closes them: Net of net/net.cc,
      net/socket.*, net/connector.*, the descriptors of net/channel.cc,
      TcpConn::Connect, Attach and CleanUp, and TcpServer::Bind.
    - TcpConn.v: net/tcpconn.*, over scripts of what read and write return.
    - AcceptRace.v: HandleAccept of net/tcpserver.cc, one action at a time,
      interleaved with the loop that attaches the connection and reads.
    - Reactor.v: an iteration of EventLoop::Loop with its connections: Poll of
      EpollPoller, Channel::HandleEvent with the handlers of TcpConn.v, whose
      channels live in the poller, and queued operations.  Streams.v: the byte
      streams of several connections through it.  Closing.v: Close and the connect
      timeout in it.
    - Session.v, Network.v: many iterations of many loops whose connections are joined
      by TCP; Session.v is the part of one connection and one loop, Network.v has the
      kernel's rules, runs, and their theorems.
    - RaftLog.v: raft/raft_log.*, raft/storage.*.  Raft.v: raft/raft.*, and a
      cluster of nodes that lose, delay and reorder messages.
    - Rpc.v: rpc/protobuf/protobuf_codec.*, rpc/protorpc/rpc_channel.*,
      rpc_server.cc, on buffers.  RpcStream.v: the same channel on connections.
    - RaftNode.v: raft/node.*, raft/raft_peer.*, raft/raft_service.*,
      raft/config.h, raft/random.h and the timeouts of raft/raft.cc.
      NodeStart.v: Start, StartServer and the destructor of a node, with the
      RpcServer of rpc/protorpc/rpc_server.* around TcpServer.v.
    - Http.v: the messages of net/http.*.  HttpConn.v: HttpConnPtr and HttpServer,
      with the context kept as an Any in a connection.
    - Programs.v: examples/http/http_server.cc, unit_test/unit_test.cc,
      net/tcpclient.*, and the statistics that net/socket.cc prints.

    ** Conventions

    A function that may fail returns an [outcome]: a value, a [fault] (undefined
    behaviour, a failed assertion or an exception), or [Diverge] when its fuel is
    used up.  Assertions abort, as the build does not define NDEBUG.  Integers
    are in Z with their wrap-around written out; the host is a little-endian
    64-bit Linux.  What a system call returns is an argument (a script of
    results) with no assumption but the documented one where a theorem states
    it.  Code outside src/ is a parameter: the protobuf serialisation in Rpc.v,
    malloc in TimerQueue.v, name resolution in TcpServer.v, gmtime and localtime
    in Text.v, the random engine in RaftNode.v, the user's callbacks and types
    everywhere.  Logging calls have no effect in the other
    files.  Threads share memory sequentially consistently.

    ** What the theorems show

    - The network: in every legal run of loops and kernel, with any scheduling and
      fragmentation, all iterations return and each connection's bytes arrive whole,
      in order and only once (network_streams); nothing gets stuck and everything is
      answered after boundedly many moves (network_delivers).  Both hold up to 4096
      bytes a connection; beyond them the peer of any idle connection can make a
      serving loop write outside a buffer (network_overrun), with one byte more
      already (its witness).
    - Streams: every mix of sends and writable events keeps the byte stream
      (byte_stream), sending and reading make progress (output_progress,
      handle_read_collects).
    - The loop with its connections: through poller, channels and functors it
      does what the handlers do to each connection alone (reactor_refines), so
      what peers send is answered in order, without cross-talk, and bytes that
      wait are waited for in the kernel (reactor_streams); but a peer that
      disconnects leads to a use after free (reactor_peer_close), and a connection that
      is closed or times out falls silent without notice (close_is_silent).  A callback
      set while a connection is accepted gets every byte, one set later need
      not (accept_race).
    - Buffers: refinement to a queue of bytes (buffer_refines_queue), all cases
      of Append (append_spec), integers (int32_roundtrip).
    - Loops: no wakeup is lost, functors run once and in order, an iteration
      runs what is pending (no_lost_wakeup, functors_fifo,
      iteration_runs_pending); starting threads and choosing loops
      (start_loop_safe, pool_round_robin, accept_spec); what the constructor of
      a loop leaves and why its destructor aborts (loop_life,
      thread_destructor_aborts, node_destructor_aborts).
    - Timers: the timerfd is always armed in time (timers_never_lost), an
      expiration runs, re-arms and frees the due timers (handle_read_spec).
    - Pollers: EpollPoller refines the contract (epoll_refines_contract), programs
      on any poller with the contract (channel_lifecycle), the two pollers agree
      (pollers_equivalent), one poll and one dispatch (epoll_poll_spec,
      handle_event_spec).
    - Descriptors: what Bind opens and closes (server_bind_spec), and who closes
      a descriptor too often or never (descriptor_closed_twice,
      connect_attaches, connector_leaks).
    - Thread pool: order and bound of the queue, every task is taken, what the
      destructor does (tasks_fifo_bounded, tasks_all_run, shutdown_outcome).
    - Remote calls: a call from end to end over two connections (rpc_exchange),
      how many messages an event handles (one_message_per_event), responses in
      any order (responses_matched), and on buffers frame_roundtrip and
      rpc_call_roundtrip.
    - HTTP: a request on a connection is decoded, dispatched and answered
      (http_exchange; request_decoded, query_roundtrip on text), what the server
      does with the context it never stores (http_server_bad_cast) and with the
      text of its own client (encoded_request_hangs), and the example server
      (http_example).
    - Values: an Any behaves like a value and keeps its type
      (any_value_semantics, any_typed); status_value, line_roundtrip.
    - Raft: the log file is read back and refines a list (log_roundtrip,
      log_refines_list, truncate_spec), the handlers (request_vote_spec,
      single_vote, append_entries_spec), a proposal asks all peers
      (propose_asks_all), from the start of a node to the votes it asks for
      (first_election, propose_before_start, node_server), a vote over RPC is a step of the cluster
      (vote_over_rpc), and no run of a cluster elects a leader
      (no_leader_elected).
    - Operation: the log line, rotation from one and many threads, daemon
      commands, what is read from /proc (log_line, rotation_keeps_lines,
      rotate_once, daemon_stop_restart, proc_files_read, threads_listed), the
      statistics of a connection (tcp_info_string).
    - Defects: each file also proves what the code does where it fails, for
      example append_overflow_reachable, stale_cancel_use_after_free,
      header_hangs, term_inverted, concurrent_calls_collide,
      moved_any_null_deref, election_timeout_constant.

    ** Fuel

    Loops whose end depends on data take fuel: HandleRead_loop one unit per
    result of read or byte read, enough by handle_read_collects; Load_loop one
    unit per record, enough by log_roundtrip; trim_nl the length of the line,
    enough by log_line; the loops of Http the length of the text, and
    header_hangs shows that the one that does not advance uses up any fuel;
    loop_run the measure of iteration_runs_pending; dec_digits the binary
    logarithm of the number; lowest_free one unit per descriptor the table may
    hold, so that it finds one whenever there is one.  SteadyMilli calls itself,
    and SteadyMilli_diverges shows that no fuel is enough.

    ** Not modelled

    The copy of fatal log lines on stderr and what logging calls print; the
    kernel's part of a system call beyond its documented result; the functions
    that run inside unit tests (there are none under src/).  Getters that return
    a field are the projections of the records.  The serialisation of protobuf
    is a library, not code of the program.  In Reactor.v a user callback acts on
    its own connection only; a callback that works on another connection of the
    same loop is an operation that the loop runs as a functor.  In AcceptRace.v
    the assignment of a std::function is one step, where C++ has a data race.
    Network.v has no closing of connections and no socket errors, which Reactor.v and
    Closing.v show to end in faults or silence, and starts when the connections are
    established.  Timers run as queued operations of the loop there, not in the round
    of events of the timerfd. *)

From stdpp Require Export base list gmap strings numbers relations.
From Stdlib Require Export ZArith Lia.

#[global] Open Scope Z_scope.

Declare Scope jnet_scope.
Delimit Scope jnet_scope with jnet.
#[global] Open Scope jnet_scope.

(** ** Outcomes of C++ code

    A piece of code returns a value, reaches a point where the C++ abstract
    machine gives it no meaning (or an assertion fails, or an exception leaves
    it), or does not return within the fuel it was given. *)

Inductive fault : Type :=
| OutOfBounds      (* access outside an allocation or a container *)
| BadRange         (* an iterator or pointer range [first, last) with last < first *)
| UseAfterFree     (* access to an object that was deleted *)
| NullDeref        (* access through nullptr *)
| UninitRead       (* use of a value that was never initialised *)
| SignedOverflow   (* signed integer arithmetic out of range *)
| DivByZero        (* integer division by zero *)
| AssertFailed     (* assert(...) with a false argument *)
| ThrowLength      (* std::length_error *)
| ThrowRange       (* std::out_of_range *)
| ThrowAlloc       (* std::bad_alloc *)
| ThrowCast        (* std::bad_cast *)
| EmptyFunction.   (* std::bad_function_call *)

#[export] Instance fault_eq_dec : EqDecision fault.
Proof. solve_decision. Defined.

Inductive outcome (A : Type) : Type :=
| Ret (a : A)
| Fault (f : fault)
| Diverge.
Arguments Ret {A} a.
Arguments Fault {A} f.
Arguments Diverge {A}.

#[export] Instance outcome_ret : MRet outcome := fun A a => Ret a.

#[export] Instance outcome_bind : MBind outcome := fun A B k m =>
  match m with
  | Ret a => k a
  | Fault f => Fault f
  | Diverge => Diverge
  end.

#[export] Instance outcome_fmap : FMap outcome := fun A B g m =>
  match m with
  | Ret a => Ret (g a)
  | Fault f => Fault f
  | Diverge => Diverge
  end.

(** [require f b] goes on when the condition [b] holds and ends in [f] otherwise. *)
Definition require (f : fault) (b : bool) : outcome unit :=
  if b then Ret tt else Fault f.

(** [assert(b)]: the build does not define NDEBUG, so a false argument aborts. *)
Definition assert_ (b : bool) : outcome unit := require AssertFailed b.

Definition from_option_fault {A} (f : fault) (o : option A) : outcome A :=
  match o with Some a => Ret a | None => Fault f end.

Lemma bind_Ret_inv {A B} (m : outcome A) (k : A → outcome B) b :
  m ≫= k = Ret b → ∃ a, m = Ret a ∧ k a = Ret b.
Proof. destruct m; simpl; intros H; try discriminate; eauto. Qed.

Lemma require_Ret_inv f b u : require f b = Ret u → b = true.
Proof. by destruct b. Qed.

Lemma require_true f b : b = true → require f b = Ret tt.
Proof. by intros ->. Qed.

(** Case analysis on a computation that is known to return. *)
Ltac inv_ret :=
  repeat match goal with
  | H : (_ ≫= _) = Ret _ |- _ =>
      let x := fresh "r" in let Hx := fresh "Hr" in
      apply bind_Ret_inv in H; destruct H as (x & Hx & H)
  | H : require _ _ = Ret ?u |- _ => apply require_Ret_inv in H; try (clear u)
  | H : assert_ _ = Ret _ |- _ => apply require_Ret_inv in H
  | H : Ret _ = Ret _ |- _ => injection H as H
  | H : mret _ = Ret _ |- _ => injection H as H
  | H : Fault _ = Ret _ |- _ => discriminate H
  | H : Diverge = Ret _ |- _ => discriminate H
  end.

(** ** Machine integers

    Values are kept in [Z]; [wrap w] is the reduction of an unsigned [w]-bit
    type and [swrap w] the two's complement conversion to a signed one. *)

Definition wrap (w x : Z) : Z := x mod 2 ^ w.
Definition swrap (w x : Z) : Z := (x + 2 ^ (w - 1)) mod 2 ^ w - 2 ^ (w - 1).

Arguments wrap : simpl never.
Arguments swrap : simpl never.

Abbreviation u64 := (wrap 64).
Abbreviation u32 := (wrap 32).
Abbreviation u16 := (wrap 16).
Abbreviation i64 := (swrap 64).
Abbreviation i32 := (swrap 32).
Abbreviation i16 := (swrap 16).

(** std::string::npos, the value [size_t(-1)]. *)
Definition npos : Z := 2 ^ 64 - 1.
(** PTRDIFF_MAX: no allocation is larger. *)
Definition ptrdiff_max : Z := 2 ^ 63 - 1.
(** INT64_MAX *)
Definition int64_max : Z := 2 ^ 63 - 1.

Lemma wrap_id w x : 0 ≤ x < 2 ^ w → wrap w x = x.
Proof. apply Z.mod_small. Qed.

Lemma wrap_bound w x : 0 ≤ w → 0 ≤ wrap w x < 2 ^ w.
Proof. intros. apply Z.mod_pos_bound. lia. Qed.

Lemma swrap_id w x : - 2 ^ (w - 1) ≤ x < 2 ^ (w - 1) → 0 < w → swrap w x = x.
Proof.
  intros Hx Hw. unfold swrap.
  assert (2 ^ w = 2 * 2 ^ (w - 1)) by (rewrite <- Z.pow_succ_r; [f_equal|]; lia).
  rewrite Z.mod_small; lia.
Qed.

Lemma swrap_bound w x : 0 < w → - 2 ^ (w - 1) ≤ swrap w x < 2 ^ (w - 1).
Proof.
  intros Hw. unfold swrap.
  assert (2 ^ w = 2 * 2 ^ (w - 1)) by (rewrite <- Z.pow_succ_r; [f_equal|]; lia).
  pose proof (Z.mod_pos_bound (x + 2 ^ (w - 1)) (2 ^ w)).
  pose proof (Z.pow_pos_nonneg 2 (w - 1)). lia.
Qed.

(** Signed 64-bit arithmetic: leaving the range has no meaning. *)
Definition chk64 (x : Z) : outcome Z :=
  if bool_decide (- 2 ^ 63 ≤ x < 2 ^ 63) then Ret x else Fault SignedOverflow.

(** ** Bytes and byte strings *)

Abbreviation bytes := (list Z).

Definition is_byte (x : Z) : Prop := 0 ≤ x < 256.

#[export] Instance is_byte_dec x : Decision (is_byte x).
Proof. unfold is_byte. apply _. Defined.

(** A C++ string literal. *)
Definition str (s : string) : bytes :=
  (fun a => Z.of_N (Ascii.N_of_ascii a)) <$> String.list_ascii_of_string s.

Abbreviation chr_nl := 10.
Abbreviation chr_cr := 13.
Abbreviation chr_sp := 32.

Definition crlf : bytes := [chr_cr; chr_nl].

(** Little-endian digits of an integer, as an object of [n] bytes lies in memory. *)
Fixpoint le_bytes (n : nat) (x : Z) : bytes :=
  match n with
  | O => []
  | S n => x mod 256 :: le_bytes n (x / 256)
  end.

Fixpoint le_val (l : bytes) : Z :=
  match l with
  | [] => 0
  | x :: l => x + 256 * le_val l
  end.

Lemma length_le_bytes n x : length (le_bytes n x) = n.
Proof. revert x. induction n; intros; simpl; auto. Qed.

Lemma le_val_bytes n x : le_val (le_bytes n x) = x mod 2 ^ (8 * Z.of_nat n).
Proof.
  revert x. induction n as [|n IH]; intros x.
  - by rewrite Z.mod_1_r.
  - cbn [le_bytes le_val]. rewrite IH.
    replace (8 * Z.of_nat (S n)) with (8 + 8 * Z.of_nat n) by lia.
    rewrite Z.pow_add_r by lia. change (2 ^ 8) with 256.
    rewrite Z.rem_mul_r by (try apply Z.pow_pos_nonneg; lia). lia.
Qed.

Lemma le_bytes_is_byte n x : Forall is_byte (le_bytes n x).
Proof.
  revert x. induction n; intros x; constructor; auto.
  apply Z.mod_pos_bound. lia.
Qed.

(** htonl / ntohl on the little-endian host, seen as the memory image of the
    32-bit result: the most significant byte comes first. *)
Definition be32_bytes (x : Z) : bytes := reverse (le_bytes 4 x).
Definition be32_val (l : bytes) : Z := le_val (reverse l).

Lemma be32_roundtrip x : be32_val (be32_bytes x) = u32 x.
Proof. unfold be32_val, be32_bytes. by rewrite reverse_involutive, le_val_bytes. Qed.

Lemma length_be32_bytes x : length (be32_bytes x) = 4%nat.
Proof. unfold be32_bytes. by rewrite length_reverse, length_le_bytes. Qed.

(** ** Lists indexed by machine integers *)

Definition zlen {A} (l : list A) : Z := Z.of_nat (length l).
Definition ztake {A} (n : Z) (l : list A) : list A := take (Z.to_nat n) l.
Definition zdrop {A} (n : Z) (l : list A) : list A := drop (Z.to_nat n) l.
(** The [len] elements from position [off]. *)
Definition zsub {A} (off len : Z) (l : list A) : list A := ztake len (zdrop off l).
(** Overwrite the elements from position [off] with [data]. *)
Definition zsplice {A} (off : Z) (data l : list A) : list A :=
  ztake off l ++ data ++ zdrop (off + zlen data) l.

Lemma zlen_nonneg {A} (l : list A) : 0 ≤ zlen l.
Proof. unfold zlen. lia. Qed.

Lemma zlen_nil {A} : zlen (@nil A) = 0.
Proof. done. Qed.

Lemma zlen_cons {A} (x : A) l : zlen (x :: l) = 1 + zlen l.
Proof. unfold zlen. simpl. lia. Qed.

Lemma zlen_app {A} (l k : list A) : zlen (l ++ k) = zlen l + zlen k.
Proof. unfold zlen. rewrite length_app. lia. Qed.

Lemma zlen_fmap {A B} (g : A → B) l : zlen (g <$> l) = zlen l.
Proof. unfold zlen. by rewrite length_fmap. Qed.

Lemma zlen_le_bytes n x : zlen (le_bytes n x) = Z.of_nat n.
Proof. unfold zlen. by rewrite length_le_bytes. Qed.

Lemma zlen_0_nil {A} (l : list A) : zlen l = 0 → l = [].
Proof. destruct l; [done|]. unfold zlen. simpl. lia. Qed.

Lemma zlen_ztake {A} n (l : list A) : 0 ≤ n ≤ zlen l → zlen (ztake n l) = n.
Proof. unfold zlen, ztake. intros. rewrite length_take. lia. Qed.

Lemma zlen_zdrop {A} n (l : list A) : 0 ≤ n ≤ zlen l → zlen (zdrop n l) = zlen l - n.
Proof. unfold zlen, zdrop. intros. rewrite length_drop. lia. Qed.

Lemma zlen_zsub {A} off len (l : list A) :
  0 ≤ off → 0 ≤ len → off + len ≤ zlen l → zlen (zsub off len l) = len.
Proof.
  intros. unfold zsub. rewrite zlen_ztake; [done|]. rewrite zlen_zdrop by lia. lia.
Qed.

Lemma zlen_zsplice {A} off (data l : list A) :
  0 ≤ off → off + zlen data ≤ zlen l → zlen (zsplice off data l) = zlen l.
Proof.
  intros. pose proof (zlen_nonneg data). unfold zsplice.
  rewrite !zlen_app, zlen_ztake, zlen_zdrop by lia. lia.
Qed.

Lemma ztake_all {A} n (l : list A) : zlen l ≤ n → ztake n l = l.
Proof. unfold zlen, ztake. intros. apply take_ge. lia. Qed.

Lemma ztake_zdrop {A} n (l : list A) : ztake n l ++ zdrop n l = l.
Proof. apply take_drop. Qed.

Lemma ztake_app_le {A} n (l k : list A) : n ≤ zlen l → ztake n (l ++ k) = ztake n l.
Proof. unfold zlen, ztake. intros. apply take_app_le. lia. Qed.

Lemma ztake_app_length {A} (l k : list A) : ztake (zlen l) (l ++ k) = l.
Proof. unfold ztake, zlen. by rewrite Nat2Z.id, take_app_length. Qed.

Lemma zdrop_app_length {A} (l k : list A) : zdrop (zlen l) (l ++ k) = k.
Proof. unfold zdrop, zlen. by rewrite Nat2Z.id, drop_app_length. Qed.

Lemma zdrop_app_ge {A} n (l k : list A) :
  zlen l ≤ n → zdrop n (l ++ k) = zdrop (n - zlen l) k.
Proof.
  unfold zdrop, zlen. intros. rewrite drop_app_ge by lia. f_equal. lia.
Qed.

Lemma zdrop_app_le {A} n (l k : list A) : n ≤ zlen l → zdrop n (l ++ k) = zdrop n l ++ k.
Proof. unfold zdrop, zlen. intros. by rewrite drop_app_le by lia. Qed.

Lemma zdrop_zdrop {A} n m (l : list A) :
  0 ≤ n → 0 ≤ m → zdrop n (zdrop m l) = zdrop (m + n) l.
Proof. unfold zdrop. intros. rewrite drop_drop. f_equal. lia. Qed.

Lemma zdrop_0 {A} (l : list A) : zdrop 0 l = l.
Proof. done. Qed.

Lemma zdrop_all {A} (l : list A) n : zlen l ≤ n → zdrop n l = [].
Proof. unfold zdrop, zlen. intros. apply drop_ge. lia. Qed.

Lemma ztake_nil {A} n : ztake n (@nil A) = [].
Proof. apply take_nil. Qed.

Lemma ztake_0 {A} (l : list A) : ztake 0 l = [].
Proof. done. Qed.

Lemma zsub_app_r {A} off len (l k : list A) :
  0 ≤ off → 0 ≤ len → off + len = zlen l → zsub off (len + zlen k) (l ++ k) = zsub off len l ++ k.
Proof.
  intros. pose proof (zlen_nonneg k). unfold zsub. rewrite zdrop_app_le by lia.
  rewrite !ztake_all; rewrite ?zlen_app, ?zlen_zdrop by lia; [done|lia..].
Qed.

Lemma zsub_split {A} off n m (l : list A) :
  0 ≤ off → 0 ≤ n → 0 ≤ m → zsub off (n + m) l = zsub off n l ++ zsub (off + n) m l.
Proof.
  intros. unfold zsub. rewrite <- zdrop_zdrop by lia. unfold ztake, zdrop.
  rewrite take_take_drop. f_equal. lia.
Qed.

Lemma zsplice_take {A} off (data l : list A) n :
  0 ≤ n ≤ off → off ≤ zlen l → ztake n (zsplice off data l) = ztake n l.
Proof.
  intros. unfold zsplice. rewrite ztake_app_le by (rewrite zlen_ztake; lia).
  unfold ztake. rewrite take_take. f_equal. lia.
Qed.

Lemma zsub_zsplice_eq {A} off (data l : list A) :
  0 ≤ off → off + zlen data ≤ zlen l → zsub off (zlen data) (zsplice off data l) = data.
Proof.
  intros. pose proof (zlen_nonneg data). unfold zsub, zsplice.
  rewrite zdrop_app_ge by (rewrite zlen_ztake; lia).
  rewrite zlen_ztake by lia. rewrite Z.sub_diag, zdrop_0. apply ztake_app_length.
Qed.

Lemma zsub_zsplice_before {A} off (data l : list A) o n :
  0 ≤ o → 0 ≤ n → o + n ≤ off → off ≤ zlen l → zsub o n (zsplice off data l) = zsub o n l.
Proof.
  intros. unfold zsub, zsplice, ztake, zdrop.
  rewrite drop_app_le by (rewrite length_take; unfold zlen in *; lia).
  rewrite take_app_le by (rewrite length_drop, length_take; unfold zlen in *; lia).
  rewrite skipn_firstn_comm, take_take. f_equal. lia.
Qed.

(** Element access: positions outside the list give [None]. *)
Definition znth {A} (i : Z) (l : list A) : option A :=
  if bool_decide (0 ≤ i) then l !! Z.to_nat i else None.

Lemma znth_Some_inv {A} i (l : list A) x : znth i l = Some x → 0 ≤ i < zlen l.
Proof.
  unfold znth, zlen. case_bool_decide; [|done]. intros Hl%lookup_lt_Some. lia.
Qed.

Lemma znth_is_Some {A} i (l : list A) : 0 ≤ i < zlen l → is_Some (znth i l).
Proof.
  unfold znth, zlen. intros. rewrite bool_decide_true by lia. apply lookup_lt_is_Some. lia.
Qed.

(** One element of a list changes, as the program point of a thread does. *)

Lemma Exists_insert_at {A} (P : A → Prop) l i x y :
  l !! i = Some x → P y → Exists P (<[i := y]> l).
Proof.
  intros Hi Hy. apply Exists_exists. exists y. split; [|done].
  apply list_elem_of_lookup. exists i. apply list_lookup_insert_eq. by apply lookup_lt_Some in Hi.
Qed.

Lemma Exists_insert_other {A} (P : A → Prop) l i x y :
  l !! i = Some x → ¬ P x → Exists P l → Exists P (<[i := y]> l).
Proof.
  intros Hi Hx (z & [j Hj]%list_elem_of_lookup & Hz)%Exists_exists.
  apply Exists_exists. exists z. split; [|done]. apply list_elem_of_lookup. exists j.
  rewrite list_lookup_insert_ne; [done|]. intros ->. congruence.
Qed.

Lemma insert_ne_nil {A} (l : list A) i x : l ≠ [] → <[i := x]> l ≠ [].
Proof. destruct l, i; done. Qed.

Lemma sum_insert_at {A} (f : A → nat) l i x y :
  l !! i = Some x →
  (sum_list_with f (<[i := y]> l) + f x = sum_list_with f l + f y)%nat.
Proof.
  revert i. induction l as [|z l IH]; intros [|i] Hi; simplify_eq/=; [lia|].
  specialize (IH i Hi). lia.
Qed.

Lemma Exists_insert_inv {A} (P : A → Prop) l i y :
  Exists P (<[i := y]> l) → P y ∨ Exists P l.
Proof.
  revert i. induction l as [|x l IH]; intros [|i]; simpl; rewrite ?Exists_cons; [tauto..|].
  intros [?|[?|?]%IH]; tauto.
Qed.

(** ** Searching in byte strings (std::string::find) *)

Fixpoint is_prefix (p s : bytes) : bool :=
  match p, s with
  | [], _ => true
  | x :: p, y :: s => (x =? y) && is_prefix p s
  | _ :: _, [] => false
  end.

Fixpoint find_from (p s : bytes) (i : Z) : option Z :=
  if is_prefix p s then Some i
  else match s with
       | [] => None
       | _ :: s => find_from p s (i + 1)
       end.

(** [find p s pos]: the first position at or after [pos] where [p] occurs in [s]. *)
Definition find (p s : bytes) (pos : Z) : option Z :=
  if bool_decide (pos ≤ zlen s) then find_from p (zdrop pos s) pos else None.

(** The size_t the function returns. *)
Definition find_ret (o : option Z) : Z := default npos o.

Lemma is_prefix_app p s : is_prefix p (p ++ s) = true.
Proof. induction p; simpl; [done|]. by rewrite Z.eqb_refl. Qed.

Lemma is_prefix_spec p s : is_prefix p s = true ↔ ∃ k, s = p ++ k.
Proof.
  split.
  - revert s. induction p as [|x p IH]; intros s H; [by exists s|].
    destruct s as [|y s]; [done|]. simpl in H.
    apply andb_prop in H as [->%Z.eqb_eq [k ->]%IH]. by exists k.
  - intros [k ->]. apply is_prefix_app.
Qed.

Lemma find_from_skip p l s i :
  (∀ n, (n < length l)%nat → is_prefix p (drop n l ++ s) = false) →
  find_from p (l ++ s) i = find_from p s (i + zlen l).
Proof.
  revert i. induction l as [|x l IH]; intros i H; simpl.
  - f_equal. unfold zlen. simpl. lia.
  - pose proof (H 0%nat) as H0. simpl in H0. rewrite H0 by lia. rewrite IH.
    + f_equal. rewrite zlen_cons. lia.
    + intros n Hn. apply (H (S n)). simpl. lia.
Qed.

(** A single byte is found at the end of the bytes that differ from it. *)
Lemma find_byte_first c l s : c ∉ l → find_from [c] (l ++ c :: s) 0 = Some (zlen l).
Proof.
  intros Hc. rewrite find_from_skip.
  - simpl. by rewrite Z.eqb_refl.
  - intros n Hn. destruct (drop n l) as [|x k] eqn:E.
    + apply (f_equal length) in E. rewrite length_drop in E. simpl in E. lia.
    + simpl. rewrite andb_true_r. apply Z.eqb_neq. intros <-. apply Hc.
      rewrite <- (take_drop n l), E. set_solver.
Qed.

Lemma find_byte_none c l i : c ∉ l → find_from [c] l i = None.
Proof.
  revert i. induction l as [|x l IH]; intros i Hc; simpl; [done|].
  apply not_elem_of_cons in Hc as [Hx Hc].
  rewrite (proj2 (Z.eqb_neq c x)) by done. simpl. by apply IH.
Qed.

(** C strings: the bytes before the first NUL; without one the read leaves the array. *)
Fixpoint c_str (l : bytes) : outcome bytes :=
  match l with
  | [] => Fault OutOfBounds
  | x :: l => if x =? 0 then Ret [] else k ← c_str l; Ret (x :: k)
  end.

Lemma c_str_app l t : 0 ∉ l → c_str (l ++ 0 :: t) = Ret l.
Proof.
  induction l as [|x l IH]; simpl; [done|]. intros [Hx Hl]%not_elem_of_cons.
  rewrite (proj2 (Z.eqb_neq x 0)) by done. by rewrite IH.
Qed.

(** What "%s" prints of a std::string's c_str(): the bytes before the first NUL; the
    array behind c_str() always ends in one. *)
Fixpoint c_text (l : bytes) : bytes :=
  match l with
  | [] => []
  | x :: l => if x =? 0 then [] else x :: c_text l
  end.

Lemma c_text_c_str l : c_str (l ++ [0]) = Ret (c_text l).
Proof. induction l as [|x l IH]; [done|]. cbn [c_str c_text app]. case_match; [done|]. by rewrite IH. Qed.

Lemma c_text_no_nul l : 0 ∉ c_text l.
Proof.
  induction l as [|x l IH]; cbn [c_text]; [by apply not_elem_of_nil|].
  destruct (Z.eqb_spec x 0); [by apply not_elem_of_nil|]. apply not_elem_of_cons. by split.
Qed.

Lemma c_text_id l : 0 ∉ l → c_text l = l.
Proof.
  induction l as [|x l IH]; [done|]. intros [Hx Hl]%not_elem_of_cons. cbn [c_text].
  rewrite (proj2 (Z.eqb_neq x 0)) by done. by rewrite IH.
Qed.

(** ** Transition systems *)

Section Reachability.
Context {S : Type} (step : relation S).

(** A predicate that holds initially and is kept by every step holds in
    every reachable state. *)
Lemma rtc_invariant (P : S → Prop) s s' :
  P s → (∀ x y, P x → step x y → P y) → rtc step s s' → P s'.
Proof. intros H0 Hstep Hr. induction Hr; eauto. Qed.

End Reachability.

(** ** Automation *)

Create HintDb jnet.
Create Rewrite HintDb jnet.
#[export] Hint Resolve zlen_nonneg : jnet.
#[export] Hint Rewrite @zlen_app @zlen_fmap @zlen_nil @zlen_cons : jnet.

(** Length goals: normalise the lengths and bring their bounds in. *)
Ltac zlen_solve :=
  autorewrite with jnet in *;
  repeat match goal with
  | |- context [zlen ?l] =>
      lazymatch goal with
      | _ : 0 ≤ zlen l |- _ => fail
      | _ => pose proof (zlen_nonneg l)
      end
  end; lia.

(** Evaluate a decidable goal. *)
Ltac by_decide :=
  lazymatch goal with |- ?P => apply (bool_decide_unpack P); vm_compute; exact I end.
