(* ===== verification/Buffer.v ===== *)
(** * net/buffer.h, net/buffer.cc: class Buffer

    The byte buffer of a connection: one heap array [buf_] of [cap_] cells of
    which [b_, e_) holds data.  A cell is [None] while it is indeterminate, as
    [new char[n]] leaves it.  [size_t] arithmetic is reduced modulo 2^64; an
    access outside the array is the fault [OutOfBounds].

    The second half relates the class to its contract, a queue of bytes. *)

From S2P Require Import Prelude.

Abbreviation cell := (option Z).

Record Buffer : Type := mkBuffer {
  buf_ : option (list cell);   (* None is nullptr *)
  b_ : Z;
  e_ : Z;
  cap_ : Z;
  exp_ : Z;
  extra_ : Z;
}.

(** ** Memory primitives *)

(** [new char[n]] *)
Definition new_char (n : Z) : outcome (list cell) :=
  if n <=? ptrdiff_max then Ret (replicate (Z.to_nat n) None) else Fault ThrowAlloc.

(** The cells of [first, last). *)
Definition read_cells (m : option (list cell)) (first last : Z) : outcome (list cell) :=
  if first =? last then Ret [] else
  match m with
  | None => Fault NullDeref
  | Some l =>
      if last <? first then Fault BadRange
      else if zlen l <? last then Fault OutOfBounds
      else Ret (zsub first (last - first) l)
  end.

(** Store [data] from position [off] on. *)
Definition write_cells (m : option (list cell)) (off : Z) (data : list cell)
  : outcome (option (list cell)) :=
  if zlen data =? 0 then Ret m else
  match m with
  | None => Fault NullDeref
  | Some l =>
      if zlen l <? off + zlen data then Fault OutOfBounds
      else Ret (Some (zsplice off data l))
  end.

(** Use of the value of memory cells. *)
Definition init_cells (l : list cell) : outcome bytes :=
  from_option_fault UninitRead (mapM id l).

(** ** The operations *)

Definition Buffer_new : Buffer := mkBuffer None 0 0 0 4096 0.

Definition Clear (b : Buffer) : Buffer :=
  mkBuffer None 0 0 0 (exp_ b) (extra_ b).

Definition GetSize (b : Buffer) : Z := u64 (e_ b - b_ b).

Definition IsEmpty (b : Buffer) : bool := e_ b =? b_ b.

Definition GetSpace (b : Buffer) : Z := u64 (cap_ b - e_ b).

Definition AddSize (len : Z) (b : Buffer) : Buffer :=
  mkBuffer (buf_ b) (b_ b) (u64 (e_ b + len)) (cap_ b) (exp_ b) (extra_ b).

(** The body of MoveHead is empty. *)
Definition MoveHead (b : Buffer) : Buffer := b.

Definition Expand (len : Z) (b : Buffer) : outcome Buffer :=
  let ncap := Z.max (exp_ b) (Z.max (u64 (2 * cap_ b)) (u64 (GetSize b + len))) in
  p ← new_char ncap;
  data ← read_cells (buf_ b) (b_ b) (e_ b);
  p ← write_cells (Some p) 0 data;
  Ret (mkBuffer p 0 (u64 (e_ b - b_ b)) ncap (exp_ b) (extra_ b)).

(** The position returned is [End()], that is [e_] of the buffer returned. *)
Definition MakeRoom (len : Z) (b : Buffer) : outcome Buffer :=
  if u64 (e_ b + len) <=? cap_ b then Ret b
  else if u64 (GetSize b + len) <? cap_ b then Ret (MoveHead b)
  else Expand len b.

(** MakeRoom() without argument *)
Definition MakeRoom0 (b : Buffer) : outcome Buffer :=
  if GetSpace b <? exp_ b then Expand 0 b else Ret b.

Definition AllocRoom (len : Z) (b : Buffer) : outcome (Buffer * Z) :=
  b' ← MakeRoom len b;
  let p := e_ b' in
  Ret (AddSize len b', p).

(** Append(const char* p, size_t len), with [data] the [len] bytes at [p] *)
Definition Append (data : list cell) (b : Buffer) : outcome Buffer :=
  r ← AllocRoom (zlen data) b;
  m ← write_cells (buf_ r.1) r.2 data;
  Ret (mkBuffer m (b_ r.1) (e_ r.1) (cap_ r.1) (exp_ r.1) (extra_ r.1)).

(** Append(const std::string&) *)
Definition AppendStr (s : bytes) (b : Buffer) : outcome Buffer :=
  Append (Some <$> s) b.

(** Append(const char* p): the C string at [p]. *)
Definition AppendCStr (mem : bytes) (b : Buffer) : outcome Buffer := s ← c_str mem; Append (Some <$> s) b.

(** AppendValue for an integer of [w] bytes, in the order of the host. *)
Definition AppendValue (w : nat) (v : Z) (b : Buffer) : outcome Buffer := Append (Some <$> le_bytes w v) b.

Definition AppendInt32 (num : Z) (b : Buffer) : outcome Buffer :=
  Append (Some <$> be32_bytes num) b.

(** PeekInt32() *)
Definition PeekInt32 (b : Buffer) : outcome Z :=
  _ ← assert_ (4 <=? GetSize b);
  l ← read_cells (buf_ b) (b_ b) (b_ b + 4);
  l ← init_cells l;
  Ret (i32 (be32_val l)).

(** PeekInt32() const: neither the assertion nor the byte order conversion *)
Definition PeekInt32_const (b : Buffer) : outcome Z :=
  l ← read_cells (buf_ b) (b_ b) (b_ b + 4);
  l ← init_cells l;
  Ret (i32 (le_val l)).

Definition EnsureWriteableBytes (len : Z) (b : Buffer) : outcome Buffer :=
  if GetSize b <? len then MakeRoom len b else Ret b.

Definition Consume (len : Z) (b : Buffer) : Buffer :=
  let b' := mkBuffer (buf_ b) (u64 (b_ b + len)) (e_ b) (cap_ b) (exp_ b) (extra_ b) in
  if GetSize b' =? 0 then Clear b' else b'.

Definition SetSuggestSize (sz : Z) (b : Buffer) : Buffer :=
  mkBuffer (buf_ b) (b_ b) (e_ b) (cap_ b) sz (extra_ b).

(** [this.Absorb(b)] for two different objects; the result is (this, b). *)
Definition Absorb (this b : Buffer) : outcome (Buffer * Buffer) :=
  if GetSize this =? 0 then
    Ret (mkBuffer (buf_ b) (b_ b) (e_ b) (cap_ b) (exp_ this) (extra_ b),
         mkBuffer (buf_ this) (b_ this) (e_ this) (cap_ this) (exp_ b) (extra_ this))
  else
    data ← read_cells (buf_ b) (b_ b) (b_ b + GetSize b);
    this' ← Append data this;
    Ret (this', Clear b).

(** [b.Absorb(b)] *)
Definition Absorb_self (b : Buffer) : outcome Buffer := Ret b.

Definition CopyFrom (b : Buffer) : outcome Buffer :=
  match buf_ b with
  | None => Ret b
  | Some _ =>
      p ← new_char (cap_ b);
      data ← read_cells (buf_ b) (b_ b) (b_ b + GetSize b);
      m ← write_cells (Some p) (b_ b) data;
      Ret (mkBuffer m (b_ b) (e_ b) (cap_ b) (exp_ b) (extra_ b))
  end.

(** [this = b]: the right operand is the same object when [same] holds. *)
Definition Assign (same : bool) (this b : Buffer) : outcome Buffer :=
  if same then Ret this else CopyFrom b.

(** ** Representation invariant and abstraction *)

Definition buf_wf (b : Buffer) : Prop :=
  match buf_ b with
  | None => cap_ b = 0
  | Some l => zlen l = cap_ b
  end
  ∧ 0 ≤ b_ b ≤ e_ b ∧ e_ b ≤ cap_ b ∧ cap_ b ≤ ptrdiff_max ∧ 0 ≤ exp_ b < 2 ^ 64.

Definition mem (b : Buffer) : list cell := default [] (buf_ b).

(** The cells the buffer holds: the abstract state of the class. *)
Definition content (b : Buffer) : list cell := zsub (b_ b) (e_ b - b_ b) (mem b).

(** A client program of one buffer. *)
Inductive buf_op : Type :=
| OpAppend (data : bytes)
| OpConsume (n : Z)
| OpReserve.   (* MakeRoom() before a read *)

Definition run_op (o : buf_op) (b : Buffer) : outcome Buffer :=
  match o with
  | OpAppend data => AppendStr data b
  | OpConsume n => Ret (Consume n b)
  | OpReserve => MakeRoom0 b
  end.

Fixpoint run_ops (l : list buf_op) (b : Buffer) : outcome Buffer :=
  match l with
  | [] => Ret b
  | o :: l => b' ← run_op o b; run_ops l b'
  end.

(** The contract: a queue of bytes. *)
Definition queue_op (o : buf_op) (q : bytes) : bytes :=
  match o with
  | OpAppend data => q ++ data
  | OpConsume n => zdrop n q
  | OpReserve => q
  end.

Fixpoint queue_ops (l : list buf_op) (q : bytes) : bytes :=
  match l with [] => q | o :: l => queue_ops l (queue_op o q) end.

(** A caller never consumes more than the queue holds, and no object is
    larger than PTRDIFF_MAX. *)
Definition op_legal (o : buf_op) (q : bytes) : Prop :=
  match o with
  | OpAppend data => zlen data ≤ ptrdiff_max
  | OpConsume n => 0 ≤ n ≤ zlen q
  | OpReserve => True
  end.

Fixpoint ops_legal (l : list buf_op) (q : bytes) : Prop :=
  match l with
  | [] => True
  | o :: l => op_legal o q ∧ ops_legal l (queue_op o q)
  end.

(** Bytes appended by a program. *)
Fixpoint appended (l : list buf_op) : Z :=
  match l with
  | [] => 0
  | OpAppend data :: l => zlen data + appended l
  | _ :: l => appended l
  end.

(** ** Lemmas *)

Section Lemmas.
Implicit Types b : Buffer.

Lemma wf_new : buf_wf Buffer_new.
Proof. unfold buf_wf, ptrdiff_max; simpl. lia. Qed.

Lemma wf_Clear b : buf_wf b → buf_wf (Clear b).
Proof. unfold buf_wf, ptrdiff_max; simpl. lia. Qed.

Lemma content_Clear b : content (Clear b) = [].
Proof. done. Qed.

Lemma wf_mem b : buf_wf b → zlen (mem b) = cap_ b.
Proof. unfold buf_wf, mem. destruct (buf_ b); simpl; intros []; lia || done. Qed.

Lemma GetSize_wf b : buf_wf b → GetSize b = e_ b - b_ b.
Proof.
  unfold buf_wf, GetSize, ptrdiff_max. intros. apply wrap_id. lia.
Qed.

Lemma zlen_content b : buf_wf b → zlen (content b) = e_ b - b_ b.
Proof.
  intros Hwf. unfold content. pose proof (wf_mem _ Hwf). unfold buf_wf in Hwf.
  apply zlen_zsub; lia.
Qed.

Lemma GetSize_content b : buf_wf b → GetSize b = zlen (content b).
Proof. intros Hwf. by rewrite zlen_content, GetSize_wf. Qed.

(** A range inside the array is read without fault. *)
Lemma read_cells_ok b first last :
  buf_wf b → 0 ≤ first ≤ last → last ≤ e_ b →
  read_cells (buf_ b) first last = Ret (zsub first (last - first) (mem b)).
Proof.
  intros Hwf Hr Hl. pose proof (wf_mem _ Hwf) as Hm. unfold buf_wf in Hwf.
  unfold read_cells, mem in *. destruct (Z.eqb_spec first last) as [->|Hne].
  { by rewrite Z.sub_diag. }
  destruct (buf_ b) as [l|]; simpl in *; [|lia].
  rewrite (proj2 (Z.ltb_ge last first)) by lia.
  by rewrite (proj2 (Z.ltb_ge (zlen l) last)) by lia.
Qed.

Lemma read_cells_content b :
  buf_wf b → read_cells (buf_ b) (b_ b) (e_ b) = Ret (content b).
Proof. intros Hwf. rewrite read_cells_ok; [done|done|unfold buf_wf in Hwf; lia..]. Qed.

Lemma write_cells_ok l off data :
  0 ≤ off → off + zlen data ≤ zlen l → write_cells (Some l) off data = Ret (Some (zsplice off data l)).
Proof.
  intros Ho Hl. unfold write_cells. destruct (Z.eqb_spec (zlen data) 0) as [E|].
  - apply zlen_0_nil in E as ->. unfold zsplice. rewrite zlen_nil, Z.add_0_r, app_nil_l.
    by rewrite ztake_zdrop.
  - by rewrite (proj2 (Z.ltb_ge _ _)) by lia.
Qed.

Lemma zlen_replicate_None n : 0 ≤ n → zlen (replicate (Z.to_nat n) (@None Z)) = n.
Proof. unfold zlen. intros. rewrite length_replicate. lia. Qed.

(** The capacity Expand asks for. *)
Definition next_cap (len : Z) b : Z := Z.max (exp_ b) (Z.max (2 * cap_ b) (e_ b - b_ b + len)).

Lemma next_cap_eq len b :
  buf_wf b → 0 ≤ len ≤ ptrdiff_max →
  Z.max (exp_ b) (Z.max (u64 (2 * cap_ b)) (u64 (GetSize b + len))) = next_cap len b.
Proof.
  intros Hwf Hl. rewrite GetSize_wf by done. unfold buf_wf, ptrdiff_max in *.
  unfold next_cap. by rewrite !wrap_id by lia.
Qed.

Lemma Expand_ok len b :
  buf_wf b → 0 ≤ len ≤ ptrdiff_max → next_cap len b ≤ ptrdiff_max →
  ∃ b', Expand len b = Ret b' ∧ buf_wf b' ∧ content b' = content b
        ∧ b_ b' = 0 ∧ e_ b' = e_ b - b_ b ∧ cap_ b' = next_cap len b
        ∧ exp_ b' = exp_ b ∧ is_Some (buf_ b').
Proof.
  intros Hwf Hl Hn. unfold Expand. rewrite next_cap_eq by done.
  assert (0 ≤ next_cap len b) by (unfold buf_wf, next_cap in *; lia).
  unfold new_char. rewrite (proj2 (Z.leb_le _ _)) by done. cbn [mbind outcome_bind].
  rewrite read_cells_content by done. cbn [mbind outcome_bind].
  pose proof (zlen_content b Hwf) as Hc.
  assert (zlen (content b) ≤ next_cap len b) by (unfold next_cap; lia).
  rewrite write_cells_ok by (rewrite ?zlen_replicate_None; lia). cbn [mbind outcome_bind].
  assert (Hsz : u64 (e_ b - b_ b) = e_ b - b_ b).
  { unfold buf_wf, ptrdiff_max in Hwf. apply wrap_id. lia. }
  rewrite Hsz. eexists; split; [done|]. split.
  { unfold buf_wf in *; simpl. rewrite zlen_zsplice by (rewrite ?zlen_replicate_None; lia).
    rewrite zlen_replicate_None by lia. lia. }
  split; [|by repeat split; eauto].
  unfold content at 1, mem; simpl. rewrite Z.sub_0_r, <- Hc.
  apply zsub_zsplice_eq; rewrite ?zlen_replicate_None; lia.
Qed.

(** Writing behind the data extends the content. *)
Lemma write_at_end b l data :
  buf_wf b → buf_ b = Some l → e_ b + zlen data ≤ cap_ b →
  let b' := mkBuffer (Some (zsplice (e_ b) data l)) (b_ b) (u64 (e_ b + zlen data))
                     (cap_ b) (exp_ b) (extra_ b) in
  buf_wf b' ∧ content b' = content b ++ data.
Proof.
  intros Hwf Hb Hroom b'. pose proof (zlen_nonneg data) as Hd.
  pose proof (wf_mem _ Hwf) as Hm. unfold mem in Hm. rewrite Hb in Hm; simpl in Hm.
  assert (Hu : u64 (e_ b + zlen data) = e_ b + zlen data).
  { unfold buf_wf, ptrdiff_max in Hwf. apply wrap_id. lia. }
  unfold b'; rewrite Hu. unfold buf_wf in Hwf. split.
  - unfold buf_wf; simpl. rewrite zlen_zsplice by lia. lia.
  - unfold content, mem; simpl. rewrite Hb; simpl.
    replace (e_ b + zlen data - b_ b) with ((e_ b - b_ b) + zlen data) by lia.
    rewrite zsub_split by lia. rewrite zsub_zsplice_before by lia.
    replace (b_ b + (e_ b - b_ b)) with (e_ b) by lia.
    by rewrite zsub_zsplice_eq by lia.
Qed.

(** The three branches of MakeRoom(len), without wrap-around. *)
Lemma MakeRoom_eq len b :
  buf_wf b → 0 ≤ len ≤ ptrdiff_max →
  MakeRoom len b =
    if e_ b + len <=? cap_ b then Ret b
    else if e_ b - b_ b + len <? cap_ b then Ret b else Expand len b.
Proof.
  intros Hwf Hl. unfold MakeRoom, MoveHead. rewrite GetSize_wf by done.
  unfold buf_wf, ptrdiff_max in *. by rewrite !wrap_id by lia.
Qed.
End Lemmas.

(** Append has enough room in place, or grows the array. *)
Definition append_room (data : list cell) (b : Buffer) : Prop :=
  e_ b + zlen data ≤ cap_ b
  ∨ cap_ b ≤ e_ b - b_ b + zlen data ∧ next_cap (zlen data) b ≤ ptrdiff_max.

(** The free space before [b_] and after [e_] would be enough, the space after
    [e_] alone is not: the case MoveHead was meant for. *)
Definition append_gap (data : list cell) (b : Buffer) : Prop :=
  cap_ b < e_ b + zlen data ∧ e_ b - b_ b + zlen data < cap_ b.

Section AppendLemmas.
Implicit Types b : Buffer.

Lemma Append_ok data b :
  buf_wf b → zlen data ≤ ptrdiff_max → append_room data b →
  ∃ b', Append data b = Ret b' ∧ buf_wf b' ∧ content b' = content b ++ data
        ∧ exp_ b' = exp_ b ∧ e_ b' ≤ e_ b + zlen data
        ∧ cap_ b' = if e_ b + zlen data <=? cap_ b then cap_ b else next_cap (zlen data) b.
Proof.
  intros Hwf Hd Hroom. pose proof (zlen_nonneg data) as Hd0.
  assert (∃ b1, MakeRoom (zlen data) b = Ret b1 ∧ buf_wf b1 ∧ content b1 = content b
          ∧ exp_ b1 = exp_ b ∧ e_ b1 + zlen data ≤ cap_ b1 ∧ e_ b1 ≤ e_ b
          ∧ cap_ b1 = if e_ b + zlen data <=? cap_ b then cap_ b else next_cap (zlen data) b)
    as (b1 & Hm & Hwf1 & Hc & He & Hr & Hle & Hcap1).
  { rewrite MakeRoom_eq by done. destruct (Z.leb_spec (e_ b + zlen data) (cap_ b)); [by exists b|].
    destruct Hroom as [?|[Hge Hcap]]; [lia|].
    rewrite (proj2 (Z.ltb_ge _ _)) by lia.
    destruct (Expand_ok (zlen data) b) as (b' & -> & ? & ? & ? & ? & Hc' & ? & ?); [done..|].
    exists b'. unfold buf_wf in Hwf. split_and!; try done; rewrite ?Hc'; unfold next_cap; lia. }
  unfold Append, AllocRoom. rewrite Hm. cbn [mbind outcome_bind fst snd].
  destruct (decide (data = [])) as [->|Hne].
  { rewrite app_nil_r. unfold write_cells; rewrite zlen_nil. cbn [mbind outcome_bind Z.eqb].
    assert (Hu : u64 (e_ b1 + 0) = e_ b1).
    { unfold buf_wf, ptrdiff_max in Hwf1. rewrite Z.add_0_r. apply wrap_id. lia. }
    eexists; split; [done|]. unfold AddSize; simpl. rewrite Hu.
    destruct b1; simpl in *. split_and!; try done. lia. }
  assert (0 < zlen data) by (destruct data; [done|]; rewrite zlen_cons; zlen_solve).
  unfold AddSize; simpl. destruct (buf_ b1) as [l|] eqn:Hb1.
  - rewrite write_cells_ok; [|by unfold buf_wf in Hwf1; lia|].
    2:{ pose proof (wf_mem _ Hwf1) as Hl. unfold mem in Hl. rewrite Hb1 in Hl. simpl in Hl. lia. }
    destruct (write_at_end b1 l data) as [Hw Hcc]; [done..|].
    eexists; split; [done|]. split; [done|]. split; [rewrite <- Hc; exact Hcc|].
    split_and!; [done| |done]. simpl. unfold buf_wf, ptrdiff_max in Hwf1.
    rewrite wrap_id by lia. lia.
  - unfold buf_wf in Hwf1. rewrite Hb1 in Hwf1. lia.
Qed.

Lemma Append_gap data b :
  buf_wf b → zlen data ≤ ptrdiff_max → append_gap data b → Append data b = Fault OutOfBounds.
Proof.
  intros Hwf Hd [Hg1 Hg2]. pose proof (zlen_nonneg data) as Hd0.
  unfold Append, AllocRoom. rewrite MakeRoom_eq by done.
  rewrite (proj2 (Z.leb_gt _ _)), (proj2 (Z.ltb_lt _ _)) by lia.
  cbn [mbind outcome_bind fst snd]. unfold AddSize; simpl.
  pose proof (wf_mem _ Hwf) as Hl. unfold mem in Hl. unfold buf_wf in Hwf.
  unfold write_cells. rewrite (proj2 (Z.eqb_neq _ _)) by lia.
  destruct (buf_ b) as [l|]; simpl in *; [|lia].
  by rewrite (proj2 (Z.ltb_lt _ _)) by lia.
Qed.

Lemma Append_huge data b :
  buf_wf b → zlen data ≤ ptrdiff_max → ¬ append_room data b → ¬ append_gap data b →
  Append data b = Fault ThrowAlloc.
Proof.
  unfold append_room, append_gap. intros Hwf Hd Hr Hg. pose proof (zlen_nonneg data) as Hd0.
  unfold Append, AllocRoom. rewrite MakeRoom_eq by done.
  rewrite (proj2 (Z.leb_gt _ _)), (proj2 (Z.ltb_ge _ _)) by lia.
  unfold Expand. rewrite next_cap_eq by done. unfold new_char.
  by rewrite (proj2 (Z.leb_gt _ _)) by lia.
Qed.

(** An Append that returns did its job. *)
Lemma Append_Ret data b b' :
  buf_wf b → zlen data ≤ ptrdiff_max → Append data b = Ret b' →
  buf_wf b' ∧ content b' = content b ++ data ∧ exp_ b' = exp_ b.
Proof.
  intros Hwf Hd H.
  assert (Hdec : append_room data b ∨ append_gap data b ∨ (¬ append_room data b ∧ ¬ append_gap data b)).
  { unfold append_room, append_gap. lia. }
  destruct Hdec as [Hr|[Hg|[Hr Hg]]].
  - destruct (Append_ok data b Hwf Hd Hr) as (b'' & E & ? & ? & ? & _). by rewrite E in H; injection H as <-.
  - by rewrite (Append_gap data b Hwf Hd Hg) in H.
  - by rewrite (Append_huge data b Hwf Hd Hr Hg) in H.
Qed.

(** A buffer whose data starts at the front, as a new or emptied one has it, with
    an array of at most [2 * n] bytes: [n] bytes fit, whatever the pieces they
    are appended in, as there is no gap in front of the data. *)
Definition appendable (n : Z) (b : Buffer) : Prop :=
  buf_wf b ∧ b_ b = 0 ∧ cap_ b ≤ 2 * n ∧ exp_ b ≤ 2 * n.

Lemma Append_front data b b' : b_ b = 0 → Append data b = Ret b' → b_ b' = 0.
Proof.
  unfold Append, AllocRoom. intros Hb H. inv_ret. subst. simpl.
  assert (b_ r1 = 0) as H1; [|done]. unfold MakeRoom, MoveHead, Expand in *.
  destruct (_ <=? _); [inv_ret; congruence|]. destruct (_ <? _); [inv_ret; congruence|].
  inv_ret. by subst.
Qed.

Lemma AppendStr_fits n s b :
  appendable n b → e_ b + zlen s ≤ n → 2 * n ≤ ptrdiff_max →
  ∃ b', AppendStr s b = Ret b' ∧ appendable n b' ∧ e_ b' ≤ e_ b + zlen s ∧ content b' = content b ++ (Some <$> s).
Proof.
  intros (Hwf & Hb & Hcap & Hexp) Hn H2. pose proof (zlen_nonneg s). unfold AppendStr.
  pose proof Hwf as (_ & ? & ? & ? & ?).
  destruct (Append_ok (Some <$> s) b Hwf) as (b' & E & Hwf' & Hc & He & Hle & Hcap').
  - rewrite zlen_fmap. lia.
  - unfold append_room, next_cap. rewrite zlen_fmap. lia.
  - rewrite zlen_fmap in *. exists b'. split_and!; [done| |done|done]. split_and!; [done|by eapply Append_front| |lia].
    rewrite Hcap'. unfold next_cap. destruct (Z.leb_spec (e_ b + zlen s) (cap_ b)); lia.
Qed.
End AppendLemmas.

Section OpLemmas.
Implicit Types b : Buffer.

Lemma Consume_ok n b :
  buf_wf b → 0 ≤ n ≤ zlen (content b) →
  buf_wf (Consume n b) ∧ content (Consume n b) = zdrop n (content b)
  ∧ exp_ (Consume n b) = exp_ b ∧ e_ (Consume n b) ≤ e_ b
  ∧ (cap_ (Consume n b) = 0 ∨ cap_ (Consume n b) = cap_ b).
Proof.
  intros Hwf Hn. pose proof (zlen_content _ Hwf) as Hc. pose proof (wf_mem _ Hwf) as Hm.
  rewrite Hc in Hn. unfold buf_wf, ptrdiff_max in Hwf. unfold Consume, GetSize; simpl.
  rewrite (wrap_id 64 (b_ b + n)), wrap_id by lia.
  destruct (Z.eqb_spec (e_ b - (b_ b + n)) 0) as [E|E].
  - split_and!; simpl; try lia.
    + unfold buf_wf, ptrdiff_max; simpl. lia.
    + rewrite content_Clear, zdrop_all; [done|lia].
  - split_and!; simpl; try lia.
    + unfold buf_wf, ptrdiff_max; simpl. split; [apply Hwf|lia].
    + unfold content, zsub, mem; simpl. unfold ztake, zdrop.
      rewrite skipn_firstn_comm, drop_drop. f_equal; [lia|f_equal; lia].
Qed.

Lemma MakeRoom0_ok b :
  buf_wf b → next_cap 0 b ≤ ptrdiff_max →
  ∃ b', MakeRoom0 b = Ret b' ∧ buf_wf b' ∧ content b' = content b ∧ exp_ b' = exp_ b
        ∧ e_ b' ≤ e_ b ∧ cap_ b' = if GetSpace b <? exp_ b then next_cap 0 b else cap_ b.
Proof.
  intros Hwf Hcap. unfold MakeRoom0. destruct (_ <? _); [|exists b; split_and!; done || lia].
  destruct (Expand_ok 0 b) as (b' & -> & ? & ? & ? & ? & ? & ? & ?); [done|by unfold ptrdiff_max; lia|done|].
  exists b'. unfold buf_wf in Hwf. split_and!; try done. lia.
Qed.

Lemma MakeRoom0_huge b :
  buf_wf b → ptrdiff_max < next_cap 0 b → GetSpace b < exp_ b → MakeRoom0 b = Fault ThrowAlloc.
Proof.
  intros Hwf Hcap Hs. unfold MakeRoom0. rewrite (proj2 (Z.ltb_lt _ _)) by done.
  unfold Expand. rewrite next_cap_eq by (done || by unfold ptrdiff_max; lia).
  unfold new_char. by rewrite (proj2 (Z.leb_gt _ _)) by done.
Qed.

Lemma GetSpace_wf b : buf_wf b → GetSpace b = cap_ b - e_ b.
Proof. unfold buf_wf, GetSpace, ptrdiff_max. intros. apply wrap_id. lia. Qed.

(** One operation keeps the invariant and does what the queue does, or faults. *)
Lemma run_op_refines o b q :
  buf_wf b → content b = Some <$> q → op_legal o q →
  match run_op o b with
  | Ret b' => buf_wf b' ∧ content b' = Some <$> queue_op o q
  | Fault f => f = OutOfBounds ∨ f = ThrowAlloc
  | Diverge => False
  end.
Proof.
  intros Hwf Hq Hl. destruct o as [data|n|]; simpl in *.
  - unfold AppendStr. assert (zlen (Some <$> data) ≤ ptrdiff_max) by (by rewrite zlen_fmap).
    destruct (decide (e_ b + zlen (Some <$> data) ≤ cap_ b
               ∨ cap_ b ≤ e_ b - b_ b + zlen (Some <$> data)
                 ∧ next_cap (zlen (Some <$> data)) b ≤ ptrdiff_max)) as [Hr|Hr].
    + destruct (Append_ok (Some <$> data) b) as (b' & -> & ? & Hc & ?); [done..|].
      split; [done|]. by rewrite Hc, Hq, fmap_app.
    + destruct (decide (cap_ b < e_ b + zlen (Some <$> data)
                        ∧ e_ b - b_ b + zlen (Some <$> data) < cap_ b)) as [Hg|Hg].
      * rewrite Append_gap by done. by left.
      * rewrite Append_huge by done. by right.
  - destruct (Consume_ok n b) as (? & Hc & _); [done|by rewrite Hq, zlen_fmap|].
    split; [done|]. rewrite Hc, Hq. unfold zdrop. by rewrite fmap_drop.
  - destruct (decide (next_cap 0 b ≤ ptrdiff_max)).
    + destruct (MakeRoom0_ok b) as (b' & -> & ? & Hc & _); [done..|]. by rewrite Hc.
    + destruct (decide (GetSpace b < exp_ b)).
      * rewrite MakeRoom0_huge by (done || lia). by right.
      * unfold MakeRoom0. by rewrite (proj2 (Z.ltb_ge _ _)) by lia.
Qed.

Lemma run_ops_refines l b q :
  buf_wf b → content b = Some <$> q → ops_legal l q →
  match run_ops l b with
  | Ret b' => buf_wf b' ∧ content b' = Some <$> queue_ops l q
  | Fault f => f = OutOfBounds ∨ f = ThrowAlloc
  | Diverge => False
  end.
Proof.
  revert b q. induction l as [|o l IH]; intros b q Hwf Hq Hl; simpl; [done|].
  destruct Hl as [Ho Hl]. pose proof (run_op_refines o b q Hwf Hq Ho) as H.
  destruct (run_op o b) as [b'|f|]; simpl; [|done..]. destruct H. by apply IH.
Qed.

(** Capacities stay small while few bytes are appended. *)
Definition small (a : Z) b : Prop :=
  buf_wf b ∧ exp_ b = 4096 ∧ (cap_ b = 0 ∨ cap_ b = 4096 ∨ cap_ b = 8192) ∧ e_ b ≤ a.

Lemma appended_nonneg l : 0 ≤ appended l.
Proof. induction l as [|[data| |] l IH]; simpl; zlen_solve. Qed.

Lemma small_wf a b : small a b → buf_wf b.
Proof. by intros []. Qed.

Lemma small_mono a a' b : small a b → a ≤ a' → small a' b.
Proof. unfold small. intros (? & ? & ? & ?) ?. split_and!; [done..|lia]. Qed.

Lemma small_new : small 0 Buffer_new.
Proof. unfold small. split_and!; [apply wf_new|done|by left|done]. Qed.

Lemma small_room a data b : small a b → a + zlen data ≤ 4096 → append_room data b.
Proof.
  intros ((? & ? & ? & ? & ?) & He & Hcap & Hea) Ha. pose proof (zlen_nonneg data).
  unfold append_room, next_cap, ptrdiff_max in *. lia.
Qed.

(** The operations on a small buffer return. *)
Lemma small_Append a data b :
  small a b → a + zlen data ≤ 4096 →
  ∃ b', Append data b = Ret b' ∧ small (a + zlen data) b' ∧ content b' = content b ++ data.
Proof.
  intros Hs Ha. pose proof (zlen_nonneg data). pose proof Hs as (Hwf & He & Hcap & Hea).
  pose proof Hwf as (_ & Hb & _).
  destruct (Append_ok data b) as (b' & -> & Hw & Hc & He' & Hle & Hcp);
    [done|unfold ptrdiff_max; lia|by eapply small_room|].
  exists b'. split_and!; try done. unfold small, buf_wf, next_cap in *.
  destruct (Z.leb_spec (e_ b + zlen data) (cap_ b)); split_and!; try lia; try apply Hw.
Qed.

Lemma small_Consume a n b :
  small a b → 0 ≤ n ≤ zlen (content b) → small a (Consume n b) ∧ content (Consume n b) = zdrop n (content b).
Proof.
  intros (Hwf & He & Hcap & Hea) Hn. destruct (Consume_ok n b) as (Hw & Hc & He' & Hle & Hcp); [done..|].
  split; [|done]. unfold small. split_and!; [done|lia|lia|lia].
Qed.

Lemma small_reserve a b :
  small a b → a ≤ 4096 → ∃ b', MakeRoom0 b = Ret b' ∧ small a b' ∧ content b' = content b.
Proof.
  intros (Hwf & He & Hcap & Hea) Ha. destruct (MakeRoom0_ok b) as (b' & -> & Hw & Hc & He' & Hle & Hcp); [done| |].
  { unfold buf_wf, next_cap, ptrdiff_max in *. lia. }
  exists b'. split_and!; try done. rewrite GetSpace_wf in Hcp by done. unfold small. split_and!; [done|lia| |lia].
  destruct (Z.ltb_spec (cap_ b - e_ b) (exp_ b)); unfold next_cap, buf_wf in *; lia.
Qed.

Lemma run_ops_small l b q a :
  small a b → content b = Some <$> q → ops_legal l q → a + appended l ≤ 4096 →
  ∃ b', run_ops l b = Ret b'.
Proof.
  revert b q a. induction l as [|o l IH]; intros b q a Hs Hq Hl Ha; simpl; [by eauto|].
  destruct Hl as [Ho Hl]. pose proof (appended_nonneg l). destruct o as [data|n|]; simpl in *.
  - destruct (small_Append a (Some <$> data) b) as (b' & E & Hs' & Hc); [done|rewrite zlen_fmap; lia|].
    unfold AppendStr. rewrite E. rewrite zlen_fmap in Hs'.
    apply (IH _ (q ++ data) (a + zlen data)); [done|by rewrite Hc, Hq, fmap_app|done|lia].
  - destruct (small_Consume a n b) as [Hs' Hc]; [done|by rewrite Hq, zlen_fmap|].
    apply (IH _ (zdrop n q) a); [done|by rewrite Hc, Hq; unfold zdrop; rewrite fmap_drop|done|lia].
  - destruct (small_reserve a b) as (b' & -> & Hs' & Hc); [done|lia|].
    apply (IH _ q a); [done|by rewrite Hc|done|lia].
Qed.
End OpLemmas.

Section PeekAbsorbLemmas.
Implicit Types b : Buffer.

Lemma mapM_id_Some (l : bytes) : mapM id (Some <$> l) = Some l.
Proof. by apply mapM_fmap_Some. Qed.

(** Reading the first [n] bytes of a buffer whose content starts with them. *)
Lemma read_front b (l : bytes) rest :
  buf_wf b → content b = (Some <$> l) ++ rest →
  read_cells (buf_ b) (b_ b) (b_ b + zlen l) = Ret (Some <$> l).
Proof.
  intros Hwf Hc. pose proof (zlen_content _ Hwf) as Hz. rewrite Hc in Hz.
  autorewrite with jnet in Hz. pose proof (zlen_nonneg rest). pose proof (zlen_nonneg l).
  pose proof (wf_mem _ Hwf). unfold buf_wf in Hwf. rewrite read_cells_ok by (done || lia). f_equal.
  replace (b_ b + zlen l - b_ b) with (zlen l) by lia. unfold content in Hc.
  replace (e_ b - b_ b) with (zlen l + zlen rest) in Hc by lia.
  rewrite zsub_split in Hc by lia. apply app_inj_1 in Hc; [apply Hc|].
  apply Nat2Z.inj. change (zlen (zsub (b_ b) (zlen l) (mem b)) = zlen (Some <$> l)).
  rewrite zlen_fmap, zlen_zsub; lia.
Qed.

Lemma PeekInt32_front b n rest :
  buf_wf b → content b = (Some <$> be32_bytes n) ++ rest → PeekInt32 b = Ret (i32 (u32 n)).
Proof.
  intros Hwf Hc. unfold PeekInt32. rewrite GetSize_content, Hc by done.
  rewrite zlen_app, zlen_fmap. unfold zlen at 1. rewrite length_be32_bytes.
  pose proof (zlen_nonneg rest). unfold assert_. rewrite require_true by (apply Z.leb_le; lia).
  cbn [mbind outcome_bind]. pose proof (read_front b (be32_bytes n) rest Hwf Hc) as Hr.
  unfold zlen in Hr. rewrite length_be32_bytes in Hr. change (Z.of_nat 4) with 4 in Hr.
  rewrite Hr. cbn [mbind outcome_bind]. unfold init_cells. rewrite mapM_id_Some.
  cbn [from_option_fault mbind outcome_bind]. by rewrite be32_roundtrip.
Qed.

Lemma i32_u32 n : - 2 ^ 31 ≤ n < 2 ^ 31 → i32 (u32 n) = n.
Proof.
  intros. unfold swrap, wrap. rewrite Zplus_mod_idemp_l. by apply (swrap_id 32).
Qed.

Lemma Absorb_ok this b :
  buf_wf this → buf_wf b → append_room (content b) this →
  ∃ this' b', Absorb this b = Ret (this', b') ∧ buf_wf this' ∧ buf_wf b'
    ∧ content this' = content this ++ content b ∧ content b' = []
    ∧ exp_ this' = exp_ this ∧ exp_ b' = exp_ b.
Proof.
  intros Ht Hb Hr. unfold Absorb. pose proof (GetSize_content _ Ht) as Hs.
  destruct (Z.eqb_spec (GetSize this) 0) as [E|E].
  - assert (content this = []) as Hnil by (apply zlen_0_nil; lia).
    eexists _, _; split; [done|]. rewrite Hnil. split_and!; try done.
    + unfold buf_wf in *; simpl. split; [apply Hb|lia].
    + unfold buf_wf in *; simpl. split; [apply Ht|lia].
  - rewrite GetSize_wf by done. replace (b_ b + (e_ b - b_ b)) with (e_ b) by lia.
    rewrite read_cells_content by done. cbn [mbind outcome_bind].
    destruct (Append_ok (content b) this) as (t' & -> & ? & ? & ? & _); [done| |done|].
    { rewrite zlen_content by done. unfold buf_wf in Hb. lia. }
    eexists _, _; split; [done|]. split_and!; try done. by apply wf_Clear.
Qed.

(** An Absorb that returns did its job. *)
Lemma Absorb_Ret this b r :
  buf_wf this → buf_wf b → Absorb this b = Ret r →
  buf_wf r.1 ∧ buf_wf r.2 ∧ content r.1 = content this ++ content b ∧ content r.2 = []
  ∧ exp_ r.1 = exp_ this.
Proof.
  intros Ht Hb H. destruct (decide (zlen (content this) = 0)) as [E|E].
  - unfold Absorb in H. rewrite GetSize_content, E in H by done. injection H as <-.
    apply zlen_0_nil in E. rewrite E. unfold buf_wf in *; simpl.
    split_and!; try done; try apply Hb; try apply Ht; try lia.
  - unfold Absorb in H. rewrite GetSize_content in H by done. rewrite (proj2 (Z.eqb_neq _ _)) in H by done.
    inv_ret. rewrite GetSize_wf in Hr by done. replace (b_ b + (e_ b - b_ b)) with (e_ b) in Hr by lia.
    rewrite read_cells_content in Hr by done. injection Hr as <-.
    apply Append_Ret in Hr0 as (? & ? & ?); [|done|].
    + subst r. split_and!; try done. by apply wf_Clear.
    + rewrite zlen_content by done. unfold buf_wf in Hb. lia.
Qed.

Lemma CopyFrom_ok b :
  buf_wf b → ∃ c, CopyFrom b = Ret c ∧ buf_wf c ∧ content c = content b.
Proof.
  intros Hwf. unfold CopyFrom. destruct (buf_ b) as [l|] eqn:Hb; [|by eauto].
  pose proof (zlen_content _ Hwf) as Hc. pose proof (GetSize_wf _ Hwf) as Hs.
  rewrite <- Hb, Hs. replace (b_ b + (e_ b - b_ b)) with (e_ b) by lia.
  rewrite read_cells_content by done. unfold buf_wf in Hwf.
  unfold new_char. rewrite (proj2 (Z.leb_le _ _)) by lia. cbn [mbind outcome_bind].
  rewrite write_cells_ok by (rewrite ?zlen_replicate_None; lia). cbn [mbind outcome_bind].
  eexists; split; [done|]. split.
  - unfold buf_wf; simpl. split; [|lia].
    rewrite zlen_zsplice; rewrite ?zlen_replicate_None; lia.
  - unfold content at 1, mem; simpl. rewrite <- Hc.
    apply zsub_zsplice_eq; rewrite ?zlen_replicate_None; lia.
Qed.
End PeekAbsorbLemmas.

(** ** Properties *)

(** The three behaviours of Append on every well-formed buffer.  With room
    behind [e_], or when the array must grow, the bytes are added at the end of
    the content and the invariant holds again.  When the free space before
    [b_] and behind [e_] together would do but the space behind [e_] does not,
    MoveHead (whose body is empty) leaves the data where it is and the copy
    runs over the end of the array.  Otherwise the allocation is refused. *)
Theorem append_spec (data : list cell) (b : Buffer) :
  buf_wf b → zlen data ≤ ptrdiff_max →
  (append_room data b →
     ∃ b', Append data b = Ret b' ∧ buf_wf b' ∧ content b' = content b ++ data)
  ∧ (append_gap data b → Append data b = Fault OutOfBounds)
  ∧ (¬ append_room data b → ¬ append_gap data b → Append data b = Fault ThrowAlloc).
Proof.
  intros Hwf Hd. split_and!.
  - intros Hr. destruct (Append_ok data b Hwf Hd Hr) as (b' & ? & ? & ? & _). eauto.
  - by apply Append_gap.
  - by apply Append_huge.
Qed.

Lemma append_spec_witness :
  ∃ b', Append [Some 65; Some 66] Buffer_new = Ret b' ∧ buf_wf b' ∧ content b' = [Some 65; Some 66].
Proof.
  destruct (append_spec [Some 65; Some 66] Buffer_new wf_new) as [H _].
  - by vm_compute.
  - apply H. right. split; by vm_compute.
Defined.

(** C7: Buffer refines its contract, a queue of bytes.  Any program of legal
    appends, consumes and reserves on a fresh buffer that returns leaves
    exactly the bytes the queue holds, in order, and the invariant; it never
    runs forever and can only fail by overflowing the array or by running out
    of memory; and it does return when it appends at most 4096 bytes. *)
Theorem buffer_refines_queue (l : list buf_op) :
  ops_legal l [] →
  (∀ b, run_ops l Buffer_new = Ret b → buf_wf b ∧ content b = Some <$> queue_ops l [])
  ∧ (∀ f, run_ops l Buffer_new = Fault f → f = OutOfBounds ∨ f = ThrowAlloc)
  ∧ run_ops l Buffer_new ≠ Diverge
  ∧ (appended l ≤ 4096 → ∃ b, run_ops l Buffer_new = Ret b).
Proof.
  intros Hl. pose proof (run_ops_refines l Buffer_new [] wf_new eq_refl Hl) as H.
  split_and!.
  - intros b Hb. by rewrite Hb in H.
  - intros f Hf. by rewrite Hf in H.
  - intros Hd. by rewrite Hd in H.
  - intros Ha. apply (run_ops_small l Buffer_new [] 0); [|done..].
    unfold small. split_and!; [apply wf_new|done|by left|done].
Qed.

Lemma buffer_refines_queue_witness :
  ∃ b, run_ops [OpAppend [1; 2; 3]; OpConsume 2; OpReserve; OpAppend [4]] Buffer_new = Ret b
       ∧ content b = [Some 3; Some 4].
Proof.
  destruct (buffer_refines_queue [OpAppend [1; 2; 3]; OpConsume 2; OpReserve; OpAppend [4]])
    as (H & _ & _ & Hr).
  - by vm_compute.
  - destruct Hr as [b Hb]; [by vm_compute|]. exists b. split; [done|]. by destruct (H b Hb).
Defined.

(** The overflow of append_spec is reached by ordinary use.  A first message of [a]
    bytes fits the initial array, [c] of them are consumed, and the next
    message of [d] bytes would fit the array as a whole but not behind the
    data: the append writes outside the array. *)
Theorem append_overflow_reachable (x y : bytes) (c : Z) :
  zlen x ≤ 4096 → 0 < c < zlen x → 4096 < zlen x + zlen y → zlen x - c + zlen y < 4096 →
  ops_legal [OpAppend x; OpConsume c; OpAppend y] []
  ∧ run_ops [OpAppend x; OpConsume c; OpAppend y] Buffer_new = Fault OutOfBounds.
Proof.
  intros Hx Hc Hxy Hgap. split.
  { simpl. unfold ptrdiff_max. lia. }
  cbn [run_ops run_op]. unfold AppendStr.
  destruct (Append_ok (Some <$> x) Buffer_new) as (b1 & -> & Hw1 & Hc1 & He1 & Hle1 & Hcap1).
  { apply wf_new. } { rewrite zlen_fmap. unfold ptrdiff_max. lia. }
  { right. unfold next_cap, ptrdiff_max; simpl. rewrite zlen_fmap. lia. }
  cbn [mbind outcome_bind]. pose proof (zlen_content _ Hw1) as Hz1.
  rewrite Hc1 in Hz1. autorewrite with jnet in *. simpl in *.
  assert (Hcap : cap_ b1 = 4096).
  { rewrite Hcap1, (proj2 (Z.leb_gt _ _)) by lia. unfold next_cap; simpl. lia. }
  assert (b_ b1 = 0 ∧ e_ b1 = zlen x) as [Hb1 He]; [unfold buf_wf in Hw1; lia|].
  rewrite Append_gap; [done| |rewrite zlen_fmap; unfold ptrdiff_max; lia|].
  - apply Consume_ok; [done|]. rewrite zlen_content by done. lia.
  - unfold append_gap, Consume, GetSize; simpl. rewrite zlen_fmap, Hb1, He.
    rewrite (wrap_id 64 (0 + c)), wrap_id by lia.
    rewrite (proj2 (Z.eqb_neq _ _)) by lia. simpl. rewrite ?Hcap, ?He. lia.
Qed.

Lemma append_overflow_reachable_witness :
  run_ops [OpAppend (replicate 3000 120); OpConsume 2000; OpAppend (replicate 2000 121)] Buffer_new
  = Fault OutOfBounds.
Proof.
  apply (append_overflow_reachable (replicate 3000 120) (replicate 2000 121) 2000); by vm_compute.
Defined.

(** AppendInt32 and PeekInt32 agree for every 32-bit value: a number
    appended to an empty buffer with room for it is read back unchanged, also
    when more data follows it. *)
Theorem int32_roundtrip (n : Z) (rest : list cell) (b : Buffer) :
  - 2 ^ 31 ≤ n < 2 ^ 31 → buf_wf b → content b = [] →
  append_room (Some <$> be32_bytes n) b →
  ∃ b1, AppendInt32 n b = Ret b1 ∧ PeekInt32 b1 = Ret n
        ∧ ∀ b2, Append rest b1 = Ret b2 → zlen rest ≤ ptrdiff_max → append_room rest b1 →
                PeekInt32 b2 = Ret n.
Proof.
  intros Hn Hwf Hc Hr. unfold AppendInt32.
  assert (zlen (Some <$> be32_bytes n) ≤ ptrdiff_max).
  { rewrite zlen_fmap. unfold zlen, ptrdiff_max. rewrite length_be32_bytes. lia. }
  destruct (Append_ok (Some <$> be32_bytes n) b) as (b1 & -> & Hw1 & Hc1 & _); [done..|].
  rewrite Hc in Hc1. exists b1. split; [done|]. split.
  - rewrite (PeekInt32_front b1 n []); [by rewrite i32_u32|done|]. by rewrite Hc1, app_nil_r.
  - intros b2 H2 Hd Hr2. destruct (Append_ok rest b1) as (b2' & H2' & Hw2 & Hc2 & _); [done..|].
    rewrite H2' in H2. injection H2 as <-. rewrite Hc1 in Hc2.
    by rewrite (PeekInt32_front b2' n rest), i32_u32.
Qed.

Lemma int32_roundtrip_witness :
  ∃ b1, AppendInt32 (-5) Buffer_new = Ret b1 ∧ PeekInt32 b1 = Ret (-5).
Proof.
  destruct (int32_roundtrip (-5) [] Buffer_new) as (b1 & H1 & H2 & _).
  - lia.
  - apply wf_new.
  - done.
  - right. split; by vm_compute.
  - eauto.
Defined.

(** AppendValue writes a 32-bit number in the order of the host, which is the order
    the const overload of PeekInt32 reads; the other overload reads its bytes in
    the reverse order. *)
Lemma value_order (n : Z) (b : Buffer) :
  - 2 ^ 31 ≤ n < 2 ^ 31 → buf_wf b → content b = [] → append_room (Some <$> le_bytes 4 n) b →
  ∃ b', AppendValue 4 n b = Ret b' ∧ PeekInt32_const b' = Ret n ∧ PeekInt32 b' = Ret (i32 (be32_val (le_bytes 4 n))).
Proof.
  intros Hn Hwf Hc Hr. unfold AppendValue.
  destruct (Append_ok (Some <$> le_bytes 4 n) b) as (b' & -> & Hw & Hc' & _); [done|by rewrite zlen_fmap, zlen_le_bytes|done|].
  rewrite Hc in Hc'. pose proof (read_front b' (le_bytes 4 n) [] Hw) as Hrd. rewrite app_nil_r, zlen_le_bytes in Hrd.
  specialize (Hrd Hc'). change (Z.of_nat 4) with 4 in Hrd. exists b'. split; [done|].
  unfold PeekInt32_const, PeekInt32. rewrite GetSize_content, Hc', app_nil_l, zlen_fmap, zlen_le_bytes, Hrd by done.
  change (4 <=? Z.of_nat 4) with true. cbn [mbind outcome_bind assert_ require].
  unfold init_cells. rewrite mapM_id_Some. cbn [from_option_fault mbind outcome_bind]. split; [|done].
  rewrite le_val_bytes. change (8 * Z.of_nat 4) with 32. exact (f_equal Ret (i32_u32 n Hn)).
Qed.

(** Absorb moves the whole content of another buffer behind its own, leaves
    the other one empty, keeps both invariants, and each buffer keeps its own
    suggested size; a buffer absorbing itself is unchanged. *)
Theorem absorb_spec (this b : Buffer) :
  buf_wf this → buf_wf b → append_room (content b) this →
  (∃ this' b', Absorb this b = Ret (this', b') ∧ buf_wf this' ∧ buf_wf b'
     ∧ content this' = content this ++ content b ∧ content b' = []
     ∧ exp_ this' = exp_ this ∧ exp_ b' = exp_ b)
  ∧ Absorb_self this = Ret this.
Proof. intros. split; [by apply Absorb_ok|done]. Qed.

Lemma absorb_spec_witness :
  ∃ t b, Absorb Buffer_new (Consume 1 (default Buffer_new
           match AppendStr [7; 8; 9] Buffer_new with Ret x => Some x | _ => None end)) = Ret (t, b)
         ∧ content t = [Some 8; Some 9].
Proof.
  edestruct (absorb_spec Buffer_new (Consume 1 (default Buffer_new
           match AppendStr [7; 8; 9] Buffer_new with Ret x => Some x | _ => None end)))
    as [(t & b & H & _ & _ & Hc & _) _].
  - apply wf_new.
  - vm_compute. repeat split; discriminate.
  - right. split; by vm_compute.
  - exists t, b. split; [exact H|]. rewrite Hc. by vm_compute.
Defined.
