(* ===== verification/Slice.v ===== *)
(** * net/slice.h: class Slice

    A pointer into external storage and a size.  The model keeps the bytes
    readable from the pointer on, of which the slice refers to the first
    [size_]; the comparison functions call memcmp, whose result has only a sign. *)

From S2P Require Import Prelude.

Record Slice : Type := mkSlice {
  data_ : bytes;   (* the storage from the pointer on *)
  size_ : Z;
}.

(** memcmp(x, y, n): the sign of the first difference among [n] bytes *)
Fixpoint memcmp_nat (x y : bytes) (n : nat) {struct n} : outcome Z :=
  match n, x, y with
  | O, _, _ => Ret 0
  | S n, a :: x, b :: y =>
      if a <? b then Ret (-1) else if b <? a then Ret 1 else memcmp_nat x y n
  | S _, _, _ => Fault OutOfBounds
  end.

Definition memcmp (x y : bytes) (n : Z) : outcome Z := memcmp_nat x y (Z.to_nat n).

(** Slice(const std::string& s) *)
Definition Slice_of (s : bytes) : Slice := mkSlice s (zlen s).

(** Slice(), Slice(d, n) and Slice(const char* s) *)
Definition Slice_default : Slice := mkSlice [0] 0.
Definition Slice_range (d : bytes) (n : Z) : Slice := mkSlice d n.
Definition Slice_cstr (mem : bytes) : outcome Slice := s ← c_str mem; Ret (mkSlice mem (zlen s)).

Definition Slice_clear (s : Slice) : Slice := mkSlice [0] 0.

Definition Slice_empty (s : Slice) : bool := size_ s =? 0.

(** operator[] *)
Definition Slice_index (n : Z) (s : Slice) : outcome Z :=
  _ ← assert_ (n <? size_ s);
  from_option_fault OutOfBounds (znth n (data_ s)).

Definition remove_prefix (n : Z) (s : Slice) : outcome Slice :=
  _ ← assert_ (n <=? size_ s);
  Ret (mkSlice (zdrop n (data_ s)) (u64 (size_ s - n))).

(** std::string(data_, size_) *)
Definition ToString (s : Slice) : bytes := ztake (size_ s) (data_ s).

Definition starts_with (s x : Slice) : outcome bool :=
  if size_ x <=? size_ s then
    r ← memcmp (data_ s) (data_ x) (size_ x); Ret (r =? 0)
  else Ret false.

(** operator== *)
Definition Slice_eqb (x y : Slice) : outcome bool :=
  if size_ x =? size_ y then
    r ← memcmp (data_ x) (data_ y) (size_ x); Ret (r =? 0)
  else Ret false.

(** operator!= *)
Definition Slice_neb (x y : Slice) : outcome bool := negb <$> Slice_eqb x y.

Definition compare (s b : Slice) : outcome Z :=
  let min_len := if size_ s <? size_ b then size_ s else size_ b in
  r ← memcmp (data_ s) (data_ b) min_len;
  if r =? 0 then
    if size_ s <? size_ b then Ret (-1)
    else if size_ b <? size_ s then Ret 1 else Ret r
  else Ret r.

(** ** Specification *)

(** The storage holds at least [size_] bytes. *)
Definition slice_wf (s : Slice) : Prop := 0 ≤ size_ s ≤ zlen (data_ s) ∧ size_ s < 2 ^ 64.

(** Lexicographic order of byte strings. *)
Fixpoint lex (x y : bytes) : Z :=
  match x, y with
  | [], [] => 0
  | [], _ :: _ => -1
  | _ :: _, [] => 1
  | a :: x, b :: y => if a <? b then -1 else if b <? a then 1 else lex x y
  end.

Section Lemmas.
Implicit Types x y : bytes.

Lemma memcmp_app_prefix x y n :
  (n ≤ length x)%nat → (n ≤ length y)%nat →
  memcmp_nat x y n = Ret (lex (take n x) (take n y)).
Proof.
  revert x y. induction n as [|n IH]; intros x y Hx Hy; [done|].
  destruct x as [|a x], y as [|b y]; simpl in *; try lia.
  destruct (a <? b); [done|]. destruct (b <? a); [done|]. apply IH; lia.
Qed.

(** Comparing up to the shorter length, then the lengths. *)
Lemma lex_take x y :
  lex x y =
    let n := Nat.min (length x) (length y) in
    let r := lex (take n x) (take n y) in
    if r =? 0 then
      if bool_decide (length x < length y)%nat then -1
      else if bool_decide (length y < length x)%nat then 1 else 0
    else r.
Proof.
  revert y. induction x as [|a x IH]; intros [|b y]; simpl; try done.
  destruct (a <? b); [done|]. destruct (b <? a); [done|].
  rewrite IH; simpl. destruct (_ =? 0); [|done].
  by repeat case_bool_decide; try lia.
Qed.

Lemma lex_refl x : lex x x = 0.
Proof. induction x; simpl; [done|]. by rewrite Z.ltb_irrefl. Qed.

Lemma lex_0_eq x y : lex x y = 0 ↔ x = y.
Proof.
  split; [|intros ->; apply lex_refl].
  revert y. induction x as [|a x IH]; intros [|b y]; simpl; try done.
  destruct (Z.ltb_spec a b); [done|]. destruct (Z.ltb_spec b a); [done|].
  intros ->%IH. f_equal. lia.
Qed.

Lemma lex_eqb x y : (lex x y =? 0) = bool_decide (x = y).
Proof.
  apply eq_bool_prop_intro. rewrite bool_decide_spec, <- lex_0_eq, Is_true_true.
  apply Z.eqb_eq.
Qed.

Lemma lex_antisym x y : lex y x = - lex x y.
Proof.
  revert y. induction x as [|a x IH]; intros [|b y]; simpl; try done.
  destruct (Z.ltb_spec a b), (Z.ltb_spec b a); try done; lia || apply IH.
Qed.

Lemma lex_trans x y z : lex x y ≤ 0 → lex y z ≤ 0 → lex x z ≤ 0.
Proof.
  revert y z. induction x as [|a x IH]; intros [|b y] [|c z]; simpl; try lia.
  destruct (Z.ltb_spec a b), (Z.ltb_spec b a), (Z.ltb_spec b c), (Z.ltb_spec c b),
    (Z.ltb_spec a c), (Z.ltb_spec c a); try lia. apply IH.
Qed.

Lemma length_ToString s : slice_wf s → Z.of_nat (length (ToString s)) = size_ s.
Proof. intros [? ?]. apply (zlen_ztake (size_ s)). lia. Qed.

Lemma take_ToString s n :
  slice_wf s → (n ≤ Z.to_nat (size_ s))%nat → take n (ToString s) = take n (data_ s).
Proof. intros. unfold ToString, ztake. rewrite take_take. f_equal. lia. Qed.

Lemma memcmp_spec s t n :
  slice_wf s → slice_wf t → 0 ≤ n ≤ size_ s → n ≤ size_ t →
  memcmp (data_ s) (data_ t) n
    = Ret (lex (take (Z.to_nat n) (ToString s)) (take (Z.to_nat n) (ToString t))).
Proof.
  intros Hs Ht Hn1 Hn2. unfold memcmp. unfold slice_wf, zlen in *.
  rewrite memcmp_app_prefix by lia. by rewrite !take_ToString by (done || lia).
Qed.

Lemma compare_lex s t :
  slice_wf s → slice_wf t → compare s t = Ret (lex (ToString s) (ToString t)).
Proof.
  intros Hs Ht. unfold compare.
  pose proof (length_ToString s Hs) as Ls. pose proof (length_ToString t Ht) as Lt.
  replace (if size_ s <? size_ t then size_ s else size_ t) with (Z.min (size_ s) (size_ t))
    by (destruct (Z.ltb_spec (size_ s) (size_ t)); lia).
  rewrite memcmp_spec by (done || unfold slice_wf in *; lia). cbn [mbind outcome_bind].
  rewrite (lex_take (ToString s)).
  replace (Z.to_nat (Z.min (size_ s) (size_ t)))
    with (Nat.min (length (ToString s)) (length (ToString t))) by lia.
  cbv zeta. destruct (_ =? 0) eqn:E; [|done]. apply Z.eqb_eq in E. rewrite E.
  destruct (Z.ltb_spec (size_ s) (size_ t)), (Z.ltb_spec (size_ t) (size_ s));
    repeat case_bool_decide; done || lia.
Qed.
End Lemmas.

(** ** Properties *)

(** On slices whose storage is valid, compare is the lexicographic order of
    the strings they refer to: it is 0 exactly for equal strings, exchanging
    the arguments changes the sign, it is transitive; operator== and
    starts_with decide equality and the prefix relation. *)
Theorem slice_order (s t u : Slice) :
  slice_wf s → slice_wf t → slice_wf u →
  ∃ c, compare s t = Ret c
    ∧ (c = 0 ↔ ToString s = ToString t)
    ∧ compare t s = Ret (- c)
    ∧ (∀ d, compare t u = Ret d → c ≤ 0 → d ≤ 0 → ∃ e, compare s u = Ret e ∧ e ≤ 0)
    ∧ Slice_eqb s t = Ret (bool_decide (ToString s = ToString t))
    ∧ starts_with s t = Ret (bool_decide (ToString t `prefix_of` ToString s)).
Proof.
  intros Hs Ht Hu. exists (lex (ToString s) (ToString t)).
  pose proof (length_ToString s Hs) as Ls. pose proof (length_ToString t Ht) as Lt.
  rewrite !compare_lex by done. split_and!; try done.
  - apply lex_0_eq.
  - by rewrite lex_antisym.
  - intros d [= <-] ? ?. eexists; split; [done|]. by eapply lex_trans.
  - unfold Slice_eqb. destruct (Z.eqb_spec (size_ s) (size_ t)) as [E|E].
    + rewrite memcmp_spec by (done || unfold slice_wf in *; lia). cbn [mbind outcome_bind].
      rewrite !take_ge by lia. f_equal. apply lex_eqb.
    + symmetry. f_equal. apply bool_decide_false. intros H. rewrite H in Ls. lia.
  - unfold starts_with. destruct (Z.leb_spec (size_ t) (size_ s)) as [E|E].
    + rewrite memcmp_spec by (done || unfold slice_wf in *; lia). cbn [mbind outcome_bind].
      f_equal. rewrite (take_ge (ToString t)), lex_eqb by lia. apply bool_decide_ext.
      replace (Z.to_nat (size_ t)) with (length (ToString t)) by lia. split.
      * intros <-. apply prefix_take.
      * intros [k ->]. apply take_app_length.
    + symmetry. f_equal. apply bool_decide_false. intros H%prefix_length. lia.
Qed.

Lemma slice_order_witness :
  compare (Slice_of (str "abc")) (Slice_of (str "abd")) = Ret (-1)
  ∧ compare (Slice_of (str "abd")) (Slice_of (str "abc")) = Ret 1.
Proof.
  destruct (slice_order (Slice_of (str "abc")) (Slice_of (str "abd")) (Slice_of []))
    as (c & H1 & _ & H2 & _).
  - vm_compute. repeat split; discriminate.
  - vm_compute. repeat split; discriminate.
  - vm_compute. repeat split; discriminate.
  - assert (c = -1) as -> by (vm_compute in H1; congruence). split; [exact H1|exact H2].
Defined.
