(* ===== verification/Codec.v ===== *)
(** * net/codec.h, net/codec.cc: message codecs

    [CodecBase] is the interface of the source; [CodecLaw] is what a connection
    relies on when it frames messages with a codec.  LineCode satisfies the
    law, LengthCode (whose Encode has an empty body) does not. *)

From S2P Require Import Prelude.
From S2P Require Import Buffer.

(** class CodecBase.  [TryDecode] returns the message it assigns and its
    [int] result; [Encode] adds the encoded message to a buffer. *)
Class CodecBase (C : Type) : Type := {
  TryDecode : C → bytes → outcome (bytes * Z);
  Encode : C → bytes → Buffer → outcome Buffer;
}.

Inductive LineCode : Type := mkLineCode.
Inductive LengthCode : Type := mkLengthCode.

(** msg.assign(data.c_str(), n): the two-argument overload for character
    arrays refuses a length above max_size(). *)
Definition string_assign (data : bytes) (n : Z) : outcome bytes :=
  if ptrdiff_max <? n then Fault ThrowLength else Ret (ztake n data).

(** LineCode::TryDecode, and LengthCode::TryDecode, which has the same body *)
Definition LineCode_TryDecode (data : bytes) : outcome (bytes * Z) :=
  let pos := find_ret (find [chr_nl] data 0) in
  msg ← string_assign data pos;
  Ret (msg, i32 pos).

Definition LineCode_Encode (msg : bytes) (buffer : Buffer) : outcome Buffer :=
  AppendStr (msg ++ [chr_nl]) buffer.

Definition LengthCode_TryDecode (data : bytes) : outcome (bytes * Z) :=
  let pos := find_ret (find [chr_nl] data 0) in
  msg ← string_assign data pos;
  Ret (msg, i32 pos).

Definition LengthCode_Encode (msg : bytes) (buffer : Buffer) : outcome Buffer := Ret buffer.

#[export] Instance LineCode_base : CodecBase LineCode := {
  TryDecode _ := LineCode_TryDecode;
  Encode _ := LineCode_Encode;
}.

#[export] Instance LengthCode_base : CodecBase LengthCode := {
  TryDecode _ := LengthCode_TryDecode;
  Encode _ := LengthCode_Encode;
}.

(** What the codec accepts: the source's framing cannot carry every message. *)
Class CodecLaw (C : Type) `{CodecBase C} (valid : bytes → Prop) : Prop :=
  decode_encode : ∀ (c : C) (msg : bytes) (b b' : Buffer),
    valid msg → buf_wf b → append_room (Some <$> (msg ++ [chr_nl])) b →
    zlen msg < 2 ^ 31 - 1 →
    Encode c msg b = Ret b' →
    ∃ frame, content b' = content b ++ (Some <$> frame)
      ∧ ∀ rest, TryDecode c (frame ++ rest) = Ret (msg, zlen msg).

(** A line holds no line feed. *)
Definition line_valid (msg : bytes) : Prop := chr_nl ∉ msg.

Section Lemmas.
Lemma find_nl_line msg rest :
  line_valid msg → find [chr_nl] (msg ++ chr_nl :: rest) 0 = Some (zlen msg).
Proof.
  intros Hv. unfold find. rewrite bool_decide_true by zlen_solve.
  rewrite zdrop_0. by apply find_byte_first.
Qed.

Lemma find_nl_none data : chr_nl ∉ data → find [chr_nl] data 0 = None.
Proof.
  intros Hv. unfold find. rewrite bool_decide_true by zlen_solve. by apply find_byte_none.
Qed.

Lemma TryDecode_line msg rest :
  line_valid msg → zlen msg < 2 ^ 31 - 1 →
  LineCode_TryDecode (msg ++ chr_nl :: rest) = Ret (msg, zlen msg).
Proof.
  intros Hv Hl. unfold LineCode_TryDecode. rewrite find_nl_line by done. cbn [find_ret default].
  pose proof (zlen_nonneg msg). unfold string_assign, ptrdiff_max.
  rewrite (proj2 (Z.ltb_ge _ _)) by (simpl; lia). cbn [mbind outcome_bind id].
  rewrite ztake_app_length, swrap_id; simpl; done || lia.
Qed.

#[export] Instance LineCode_law : CodecLaw LineCode line_valid.
Proof.
  intros c msg b b' Hv Hwf Hroom Hl He. cbn in He. unfold LineCode_Encode, AppendStr in He.
  destruct (Append_ok (Some <$> (msg ++ [chr_nl])) b) as (b1 & H1 & _ & Hc & _); [done| |done|].
  { rewrite zlen_fmap, zlen_app, zlen_cons, zlen_nil. unfold ptrdiff_max. lia. }
  rewrite H1 in He. injection He as <-. exists (msg ++ [chr_nl]). split; [done|].
  intros rest. rewrite <- app_assoc. by apply TryDecode_line.
Qed.
End Lemmas.

(** ** Properties *)

(** LineCode satisfies the codec law.  A message without line feed that
    fits the buffer is encoded as one frame added to the content, and
    decoding from the start of that frame gives the message back with the
    position of its line feed, whatever bytes follow. *)
Theorem line_roundtrip (msg : bytes) (b : Buffer) :
  line_valid msg → buf_wf b → append_room (Some <$> (msg ++ [chr_nl])) b →
  zlen msg < 2 ^ 31 - 1 →
  ∃ b', Encode mkLineCode msg b = Ret b'
    ∧ content b' = content b ++ (Some <$> (msg ++ [chr_nl]))
    ∧ ∀ rest, TryDecode mkLineCode ((msg ++ [chr_nl]) ++ rest) = Ret (msg, zlen msg).
Proof.
  intros Hv Hwf Hr Hl. destruct (Append_ok (Some <$> (msg ++ [chr_nl])) b)
    as (b' & Hb & _ & Hc & _); [done| |done|].
  { rewrite zlen_fmap, zlen_app, zlen_cons, zlen_nil. unfold ptrdiff_max. lia. }
  exists b'. split_and!; [done|done|]. intros rest. rewrite <- app_assoc.
  by apply TryDecode_line.
Qed.

Lemma line_roundtrip_witness :
  ∃ b', Encode mkLineCode (str "ping") Buffer_new = Ret b'
    ∧ TryDecode mkLineCode ((str "ping" ++ [chr_nl]) ++ str "po") = Ret (str "ping", 4).
Proof.
  destruct (line_roundtrip (str "ping") Buffer_new) as (b' & H & _ & Hd).
  - unfold line_valid. by_decide.
  - apply wf_new.
  - right. split; by vm_compute.
  - by vm_compute.
  - exists b'. split; [exact H|]. exact (Hd (str "po")).
Defined.

(** On data without a line feed (a line that has not arrived completely)
    TryDecode does not report an incomplete message: [find] returns npos, and
    assigning npos characters throws std::length_error, for LineCode and for
    LengthCode alike. *)
Theorem line_incomplete_throws (data : bytes) :
  chr_nl ∉ data →
  LineCode_TryDecode data = Fault ThrowLength
  ∧ LengthCode_TryDecode data = Fault ThrowLength.
Proof.
  intros Hn. cbn. unfold LineCode_TryDecode, LengthCode_TryDecode.
  by rewrite find_nl_none.
Qed.

Lemma line_incomplete_throws_witness : LineCode_TryDecode (str "par") = Fault ThrowLength.
Proof.
  apply (line_incomplete_throws (str "par")).
  by_decide.
Defined.

(** LengthCode writes nothing, so it breaks the law even for one message:
    the frame it adds is empty and decoding it does not return. *)
Theorem length_code_breaks_law :
  ¬ CodecLaw LengthCode line_valid.
Proof.
  intros Hlaw. destruct (Hlaw mkLengthCode [65] Buffer_new Buffer_new) as (frame & Hc & Hd).
  - unfold line_valid. by rewrite list_elem_of_singleton.
  - apply wf_new.
  - right. split; by vm_compute.
  - by vm_compute.
  - done.
  - destruct frame as [|? ?]; [|done]. specialize (Hd []). by vm_compute in Hd.
Qed.
