(* ===== verification/Time.v ===== *)
(** * net/timestamp.h, net/timestamp.cc, net/timer.h, net/timer.cc

    TimeStamp (microseconds since the epoch, an int64_t) and Timer.  Intervals
    are C++ doubles: they are modelled by the IEEE 754 binary64 numbers of the
    Standard Library's SpecFloat, so the conversion to microseconds rounds as
    the machine does. *)

From S2P Require Import Prelude.
From Stdlib Require Import SpecFloat.

(** ** double *)

Abbreviation double := spec_float.

Definition prec : Z := 53.
Definition emax : Z := 1024.

Definition double_of_Z (n : Z) : double := binary_normalize prec emax n 0 false.
Definition double_mul (x y : double) : double := SFmul prec emax x y.
Definition double_div (x y : double) : double := SFdiv prec emax x y.
(** [x > 0.0] *)
Definition double_pos (x : double) : bool := SFltb (S754_zero false) x.

(** static_cast<int64_t>(x): truncation; out of range it has no meaning. *)
Definition int64_of_double (x : double) : outcome Z :=
  match x with
  | S754_zero _ => Ret 0
  | S754_finite s m e =>
      let a := if 0 <=? e then Z.pos m * 2 ^ e else Z.pos m / 2 ^ (- e) in
      chk64 (if s then - a else a)
  | _ => Fault SignedOverflow
  end.

(** ** TimeStamp *)

Definition kMicroSecondsPerSecond : Z := 1000 * 1000.

(** TimeStamp(), the invalid time stamp *)
Definition TimeStamp_invalid : Z := 0.

Definition Valid (t : Z) : bool := negb (t =? 0).

(** Swap(that): both afterwards *)
Definition Swap (t that : Z) : Z * Z := (that, t).

Definition SecondsSinceEpoch (t : Z) : Z := Z.quot t kMicroSecondsPerSecond.

(** TimeStamp::Now(), from the struct timeval the system call fills in *)
Definition Now (tv_sec tv_usec : Z) : outcome Z :=
  chk64 (tv_sec * kMicroSecondsPerSecond + tv_usec).

Definition FromUnixTime (t microSeconds : Z) : outcome Z :=
  chk64 (t * kMicroSecondsPerSecond + microSeconds).

(** operator< and operator== *)
Definition TimeStamp_lt (lhs rhs : Z) : bool := lhs <? rhs.
Definition TimeStamp_eq (lhs rhs : Z) : bool := lhs =? rhs.

Definition TimeDifference (lhs rhs : Z) : outcome double :=
  diff ← chk64 (rhs - lhs);
  Ret (double_div (double_of_Z diff) (double_of_Z kMicroSecondsPerSecond)).

Definition AddTime (t : Z) (seconds : double) : outcome Z :=
  delta ← int64_of_double (double_mul seconds (double_of_Z kMicroSecondsPerSecond));
  chk64 (t + delta).

(** ** Timer *)

Record Timer : Type := mkTimer {
  callback_ : nat;       (* names the std::function *)
  expiration_ : Z;
  interval_ : double;
  repeat_ : bool;
  sequence_ : Z;
}.

(** Timer(cb, expir, interval); [numCreated] is the atomic counter s_numCreated_. *)
Definition Timer_new (cb : nat) (expir : Z) (interval : double) (numCreated : Z) : Timer :=
  mkTimer cb expir interval (double_pos interval) numCreated.

Definition Restart (now : Z) (tm : Timer) : outcome Timer :=
  if repeat_ tm then
    e ← AddTime now (interval_ tm);
    Ret (mkTimer (callback_ tm) e (interval_ tm) (repeat_ tm) (sequence_ tm))
  else Ret (mkTimer (callback_ tm) TimeStamp_invalid (interval_ tm) (repeat_ tm) (sequence_ tm)).

(** ** Lemmas *)

Section Lemmas.
Lemma chk64_Ret x y : chk64 x = Ret y → y = x ∧ - 2 ^ 63 ≤ x < 2 ^ 63.
Proof. unfold chk64. case_bool_decide; intros [= <-]. done. Qed.

(** The product of a positive double with a positive constant is not negative. *)
Lemma int64_of_double_nonneg x d :
  double_pos x = true →
  int64_of_double (double_mul x (double_of_Z kMicroSecondsPerSecond)) = Ret d → 0 ≤ d.
Proof.
  assert (Hc : ∃ m e, double_of_Z kMicroSecondsPerSecond = S754_finite false m e).
  { eexists _, _. by vm_compute. }
  destruct Hc as (m & e & ->). unfold double_mul, double_pos.
  destruct x as [[]|[]| |[] mx ex]; try done.
  intros _. cbn [SFmul xorb]. unfold binary_round_aux.
  destruct (shr_fexp _ _ _ _ _) as [mrs' e'].
  destruct (shr_fexp _ _ (round_nearest_even _ _) _ _) as [mrs'' e''].
  destruct (shr_m mrs''); simpl; [by intros [= <-]| |done].
  destruct (_ <=? _); simpl; [|done].
  intros [-> _]%chk64_Ret. case_match.
  - apply Z.mul_nonneg_nonneg; [lia|]. apply Z.pow_nonneg. lia.
  - apply Z.div_pos; [lia|]. apply Z.pow_pos_nonneg; lia.
Qed.

Lemma AddTime_pos t s r : double_pos s = true → AddTime t s = Ret r → t ≤ r.
Proof.
  unfold AddTime. intros Hp H. inv_ret. apply chk64_Ret in H as [-> _].
  apply int64_of_double_nonneg in Hr; [lia|done].
Qed.

Lemma Restart_repeat now tm tm' :
  repeat_ tm = true → Restart now tm = Ret tm' →
  AddTime now (interval_ tm) = Ret (expiration_ tm')
  ∧ callback_ tm' = callback_ tm ∧ interval_ tm' = interval_ tm
  ∧ repeat_ tm' = true ∧ sequence_ tm' = sequence_ tm.
Proof.
  unfold Restart. intros Hrep H. rewrite Hrep in H. inv_ret. subst tm'. by rewrite Hr.
Qed.
End Lemmas.

(** A one-second interval is exactly a million microseconds. *)
Example AddTime_one_second : AddTime 5 (double_of_Z 1) = Ret 1000005.
Proof. by vm_compute. Qed.
