(* ===== verification/Text.v ===== *)
(** * Text: the C library's text functions, net/util.cc and net/timestamp.cc

    What the program uses of <ctype.h>, <stdlib.h> and <stdio.h>: character
    classes, atoi and strtol, the conversions of printf it needs and the
    truncation of snprintf; then Util::Format and Util::Atoi, and the text form
    of a TimeStamp. *)

From S2P Require Import Prelude Time.

(** ** Characters and numbers *)

(** isspace in the C locale *)
Definition isspace (c : Z) : bool := (c =? 32) || ((9 <=? c) && (c <=? 13)).

Definition isdigit (c : Z) : bool := (48 <=? c) && (c <=? 57).

Definition tolower (c : Z) : Z := if (65 <=? c) && (c <=? 90) then c + 32 else c.

Fixpoint digits_val (s : bytes) (acc : Z) : Z :=
  match s with
  | c :: s => if isdigit c then digits_val s (10 * acc + (c - 48)) else acc
  | [] => acc
  end.

(** atoi: spaces, a sign, digits *)
Fixpoint atoi (s : bytes) : Z :=
  match s with
  | [] => 0
  | c :: s' =>
      if isspace c then atoi s'
      else if c =? 45 then i32 (- digits_val s' 0)
      else if c =? 43 then i32 (digits_val s' 0)
      else i32 (digits_val s 0)
  end.

(** strtol in base 10: the value is clamped to the range of long. *)
Definition clamp64 (x : Z) : Z := Z.max (- 2 ^ 63) (Z.min int64_max x).
Fixpoint strtol (s : bytes) : Z :=
  match s with
  | [] => 0
  | c :: s' =>
      if isspace c then strtol s'
      else if c =? 45 then clamp64 (- digits_val s' 0)
      else if c =? 43 then clamp64 (digits_val s' 0)
      else clamp64 (digits_val s 0)
  end.

(** The decimal digits of a number, the most significant first. *)
Fixpoint dec_digits (fuel : nat) (x : Z) : bytes :=
  match fuel with
  | O => []
  | S fuel => if x <? 10 then [48 + x] else dec_digits fuel (x / 10) ++ [48 + x mod 10]
  end.
Definition dec (x : Z) : bytes := dec_digits (S (Z.to_nat (Z.log2 x))) x.

(** %0[w]d: padded with zeros to [w] characters, the sign included. *)
Definition printf_d (w : nat) (x : Z) : bytes :=
  if x <? 0 then
    let s := dec (- x) in 45 :: replicate (w - 1 - length s) 48 ++ s
  else
    let s := dec x in replicate (w - length s) 48 ++ s.

(** The bytes snprintf stores in an array of [size] for the text [s]; it returns
    the length of the whole text. *)
Definition snprintf (size : Z) (s : bytes) : bytes :=
  if size <=? 0 then [] else ztake (size - 1) s ++ [0].

(** ** Util *)

(** Util::Format for a format and arguments that print as [s].  [args]: the
    format has a conversion, so the second vsnprintf finds the argument list
    used up. *)
Definition Format (args : bool) (s : bytes) : outcome bytes :=
  if zlen s <? 200 then c_str (snprintf 200 s)
  else if args then Fault UninitRead
  else c_str (snprintf 10000 s).

(** Util::Atoi(const char* b): the C string in [l]; the end pointer only
    receives where strtol stopped. *)
Definition Atoi (l : bytes) : outcome Z := s ← c_str l; Ret (strtol s).

(** TimeMicro() and SteadyMicro() from the nanoseconds of the clock; TimeMilli(). *)
Definition TimeMicro (ns : Z) : Z := Z.quot ns 1000.
Definition TimeMilli (ns : Z) : Z := Z.quot (TimeMicro ns) 1000.

(** SteadyMilli() calls itself; one call per unit of fuel. *)
Fixpoint SteadyMilli (fuel : nat) : outcome Z :=
  match fuel with
  | O => Diverge
  | S fuel => m ← SteadyMilli fuel; Ret (Z.quot m 1000)
  end.

(** ** The text of a TimeStamp *)

(** struct tm *)
Record tm : Type := mkTm {
  tm_sec : Z; tm_min : Z; tm_hour : Z; tm_mday : Z; tm_mon : Z; tm_year : Z;
}.

Definition date_text (t : tm) : bytes :=
  printf_d 4 (tm_year t + 1900) ++ str "-" ++ printf_d 2 (tm_mon t + 1) ++ str "-"
  ++ printf_d 2 (tm_mday t) ++ str " " ++ printf_d 2 (tm_hour t) ++ str ":"
  ++ printf_d 2 (tm_min t) ++ str ":" ++ printf_d 2 (tm_sec t).

(** Util::ReadableTime; [localtime] is localtime_r. *)
Definition ReadableTime (localtime : Z → tm) (t : Z) : outcome bytes := Format true (date_text (localtime t)).

(** TimeStamp::ToFormattedString; [gmtime] is gmtime_r. *)
Definition ToFormattedString (gmtime : Z → tm) (showMicroSeconds : bool) (ts : Z) : outcome bytes :=
  let tm_time := gmtime (SecondsSinceEpoch ts) in
  let s := if showMicroSeconds
           then date_text tm_time ++ str "." ++ printf_d 6 (Z.rem ts kMicroSecondsPerSecond)
           else date_text tm_time in
  c_str (snprintf 31 s).

(** TimeStamp::ToString: [sizeof(buf-1)] is the size of a pointer, and the
    precision .0 prints nothing for zero microseconds. *)
Definition TimeStamp_ToString (ts : Z) : outcome bytes :=
  let micro := Z.rem ts kMicroSecondsPerSecond in
  c_str (snprintf 8 (printf_d 0 (SecondsSinceEpoch ts)
                     ++ (if micro =? 0 then [] else printf_d 0 micro))).

(** ** Lemmas *)

Lemma isdigit_spec c : isdigit c = true ↔ 48 ≤ c ≤ 57.
Proof. unfold isdigit. rewrite andb_true_iff, !Z.leb_le. lia. Qed.

Lemma dec_digits_digit fuel x : 0 ≤ x → Forall (λ c, 48 ≤ c ≤ 57) (dec_digits fuel x).
Proof.
  revert x. induction fuel as [|fuel IH]; intros x Hx; simpl; [done|].
  destruct (Z.ltb_spec x 10); [repeat constructor; lia|].
  apply Forall_app. split; [apply IH, Z.div_pos; lia|]. pose proof (Z.mod_pos_bound x 10).
  repeat constructor; lia.
Qed.

(** Reading digits after a prefix. *)
Lemma dec_digits_val fuel x s acc :
  0 ≤ x < 2 ^ Z.of_nat fuel →
  digits_val (dec_digits fuel x ++ s) acc = digits_val s (acc * 10 ^ zlen (dec_digits fuel x) + x).
Proof.
  revert x s. induction fuel as [|fuel IH]; intros x s Hx.
  { simpl. rewrite zlen_nil, Z.pow_0_r. f_equal. simpl in Hx. lia. }
  rewrite Nat2Z.inj_succ, Z.pow_succ_r in Hx by lia.
  cbn [dec_digits]. destruct (Z.ltb_spec x 10) as [Hlt|Hge].
  - cbn [app digits_val]. rewrite (proj2 (isdigit_spec _)) by lia. f_equal. unfold zlen; simpl. lia.
  - assert (0 ≤ x / 10 < 2 ^ Z.of_nat fuel) as Hd.
    { split; [apply Z.div_pos; lia|]. apply Z.div_lt_upper_bound; lia. }
    rewrite <- app_assoc, IH by done. cbn [app digits_val].
    pose proof (Z.mod_pos_bound x 10). rewrite (proj2 (isdigit_spec _)) by lia.
    f_equal. autorewrite with jnet. rewrite Z.pow_add_r by (try apply zlen_nonneg; lia).
    pose proof (Z.div_mod x 10). change (10 ^ (1 + 0)) with 10. lia.
Qed.

Lemma log2_fuel x : 0 ≤ x → 0 ≤ x < 2 ^ Z.of_nat (S (Z.to_nat (Z.log2 x))).
Proof.
  intros Hx. split; [done|]. rewrite Nat2Z.inj_succ, Z2Nat.id by apply Z.log2_nonneg.
  destruct (Z.eq_dec x 0) as [->|]; [done|]. apply Z.log2_spec. lia.
Qed.

(** A number that is not followed by a digit is read back. *)
Lemma digits_val_dec x s :
  0 ≤ x → (∀ c, head s = Some c → isdigit c = false) → digits_val (dec x ++ s) 0 = x.
Proof.
  intros Hx Hs. unfold dec. rewrite dec_digits_val by by apply log2_fuel.
  destruct s as [|c s]; simpl; [done|]. by rewrite (Hs c).
Qed.

Lemma dec_digits_length fuel n x :
  0 ≤ x < 10 ^ Z.of_nat (S n) → (length (dec_digits fuel x) ≤ S n)%nat.
Proof.
  revert n x. induction fuel as [|fuel IH]; intros n x Hx; simpl; [lia|].
  destruct (Z.ltb_spec x 10); [simpl; lia|]. rewrite length_app. simpl.
  destruct n as [|n]; [simpl in Hx; lia|].
  rewrite (Nat2Z.inj_succ (S n)), Z.pow_succ_r in Hx by lia.
  assert (length (dec_digits fuel (x / 10)) ≤ S n)%nat; [|lia].
  apply IH. split; [apply Z.div_pos; lia|]. apply Z.div_lt_upper_bound; lia.
Qed.

Lemma dec_nonempty x : ∃ c s, dec x = c :: s.
Proof.
  unfold dec. cbn [dec_digits]. destruct (x <? 10); [by eexists _, _|].
  destruct (dec_digits _ _) as [|c s]; by eexists _, _.
Qed.

Lemma printf_d_length w x :
  0 ≤ x < 10 ^ Z.of_nat (S w) → length (printf_d (S w) x) = S w.
Proof.
  intros Hx. unfold printf_d. rewrite (proj2 (Z.ltb_ge x 0)) by lia.
  rewrite length_app, length_replicate. pose proof (dec_digits_length (S (Z.to_nat (Z.log2 x))) w x Hx).
  unfold dec. lia.
Qed.

Lemma printf_d_digit w x : 0 ≤ x → Forall (λ c, 48 ≤ c ≤ 57) (printf_d w x).
Proof.
  intros Hx. unfold printf_d. rewrite (proj2 (Z.ltb_ge x 0)) by lia.
  apply Forall_app. split; [apply Forall_replicate; lia|by apply dec_digits_digit].
Qed.

(** The number an unpadded non-negative %d printed is read back by strtol. *)
Lemma strtol_dec x s :
  0 ≤ x ≤ int64_max → (∀ c, head s = Some c → isdigit c = false) → strtol (dec x ++ s) = x.
Proof.
  intros Hx Hs. pose proof (digits_val_dec x s) as Hd.
  pose proof (dec_digits_digit (S (Z.to_nat (Z.log2 x))) x) as Hall. fold (dec x) in Hall.
  destruct (dec_nonempty x) as (c & k & E). rewrite E in *. specialize (Hall ltac:(lia)).
  apply Forall_cons in Hall as [Hc _]. cbn [app strtol]. change (c :: k ++ s) with ((c :: k) ++ s).
  assert (isspace c = false) as ->.
  { unfold isspace. apply orb_false_iff. split; [apply Z.eqb_neq; lia|].
    apply andb_false_iff. right. apply Z.leb_gt. lia. }
  rewrite (proj2 (Z.eqb_neq c 45)), (proj2 (Z.eqb_neq c 43)) by lia.
  rewrite Hd by (done || lia). unfold clamp64, int64_max in *. lia.
Qed.

Lemma elem_of_ztake {A} n (l : list A) x : x ∈ ztake n l → x ∈ l.
Proof. intros H. rewrite <- (ztake_zdrop n l). apply elem_of_app. by left. Qed.

(** What snprintf stores is the text when it fits. *)
Lemma snprintf_fits n s : zlen s < n → 0 ∉ s → c_str (snprintf n s) = Ret s.
Proof.
  intros Hn Hs. pose proof (zlen_nonneg s). unfold snprintf. rewrite (proj2 (Z.leb_gt n 0)) by lia.
  rewrite ztake_all by lia. by apply c_str_app.
Qed.

(** What gmtime_r documents about its result, for years of up to four digits. *)
Definition tm_ok (t : tm) : Prop :=
  0 ≤ tm_sec t ≤ 60 ∧ 0 ≤ tm_min t < 60 ∧ 0 ≤ tm_hour t < 24 ∧ 1 ≤ tm_mday t ≤ 31
  ∧ 0 ≤ tm_mon t < 12 ∧ 0 ≤ tm_year t + 1900 < 10000.

Lemma printf_d_nul w x : 0 ≤ x → 0 ∉ printf_d w x.
Proof.
  intros Hx Hin. pose proof (printf_d_digit w x Hx) as H. rewrite Forall_forall in H.
  apply H in Hin. lia.
Qed.

Lemma zlen_printf_d w x : 0 ≤ x < 10 ^ Z.of_nat (S w) → zlen (printf_d (S w) x) = Z.of_nat (S w).
Proof. intros Hx. unfold zlen. by rewrite printf_d_length. Qed.

Lemma date_text_ok t : tm_ok t → zlen (date_text t) = 19 ∧ 0 ∉ date_text t.
Proof.
  intros (?&?&?&?&?&?). unfold date_text. split.
  - autorewrite with jnet. rewrite !zlen_printf_d by (simpl; lia). done.
  - rewrite !not_elem_of_app. split_and!; try (apply printf_d_nul; lia); by_decide.
Qed.

Lemma formatted_ok gmtime ts :
  0 ≤ ts → tm_ok (gmtime (SecondsSinceEpoch ts)) →
  ∃ s, ToFormattedString gmtime true ts = Ret s ∧ zlen s = 26 ∧ 0 ∉ s.
Proof.
  intros Hts Htm. destruct (date_text_ok _ Htm) as [Hl Hn]. unfold ToFormattedString.
  assert (0 ≤ Z.rem ts kMicroSecondsPerSecond < 1000000) as Hm.
  { rewrite Z.rem_mod_nonneg by (unfold kMicroSecondsPerSecond; lia).
    apply Z.mod_pos_bound. unfold kMicroSecondsPerSecond. lia. }
  eexists. split; [apply snprintf_fits|].
  - autorewrite with jnet. rewrite Hl, zlen_printf_d by (simpl; lia). done.
  - rewrite !not_elem_of_app. split_and!; [done|by_decide|apply printf_d_nul; lia].
  - split.
    + autorewrite with jnet. rewrite Hl, zlen_printf_d by (simpl; lia). done.
    + rewrite !not_elem_of_app. split_and!; [done|by_decide|apply printf_d_nul; lia].
Qed.

(** A text of no less than [n] digits has at least that value. *)
Lemma dec_length_ge n x : 10 ^ Z.of_nat n ≤ x → (n < length (dec x))%nat.
Proof.
  intros Hx. destruct (decide (n < length (dec x))%nat) as [|Hn]; [done|exfalso].
  assert (0 ≤ x) by (pose proof (Z.pow_nonneg 10 (Z.of_nat n)); lia).
  assert (x < 10 ^ zlen (dec x)); [|pose proof (Z.pow_le_mono_r 10 (zlen (dec x)) (Z.of_nat n)); unfold zlen in *; lia].
  clear Hx Hn n. unfold dec. pose proof (log2_fuel x ltac:(done)) as Hf. revert Hf.
  generalize (S (Z.to_nat (Z.log2 x))). intros fuel. revert x H.
  induction fuel as [|fuel IH]; intros x Hx Hf; [simpl in *; rewrite zlen_nil; lia|].
  cbn [dec_digits]. destruct (Z.ltb_spec x 10); [by rewrite zlen_cons, zlen_nil|].
  rewrite Nat2Z.inj_succ, Z.pow_succ_r in Hf by lia.
  autorewrite with jnet. rewrite Z.pow_add_r by (try apply zlen_nonneg; lia).
  assert (x / 10 < 10 ^ zlen (dec_digits fuel (x / 10))).
  { apply IH; [apply Z.div_pos; lia|]. split; [apply Z.div_pos; lia|]. apply Z.div_lt_upper_bound; lia. }
  pose proof (Z.div_mod x 10). pose proof (Z.mod_pos_bound x 10). lia.
Qed.

(** ** Theorems *)

(** The recursion has no end. *)
Lemma SteadyMilli_diverges fuel : SteadyMilli fuel = Diverge.
Proof. induction fuel as [|fuel IH]; [done|]. cbn. by rewrite IH. Qed.

(** A local time with four digits for the year is printed whole. *)
Lemma ReadableTime_ok localtime t : tm_ok (localtime t) → ReadableTime localtime t = Ret (date_text (localtime t)).
Proof.
  intros Hok. destruct (date_text_ok _ Hok) as [Hl Hn]. unfold ReadableTime, Format.
  rewrite (proj2 (Z.ltb_lt _ _)) by lia. apply snprintf_fits; [lia|done].
Qed.

(** The text of a time stamp.  For a time in the years 0 to 9999
    ToFormattedString gives 26 characters, the width the log relies on; from
    10^7 seconds after the epoch on (April 1970) ToString, which was to print
    seconds and microseconds, gives the first 7 digits of the seconds only. *)
Theorem timestamp_text (gmtime : Z → tm) (ts : Z) :
  0 ≤ ts → tm_ok (gmtime (SecondsSinceEpoch ts)) →
  (∃ s, ToFormattedString gmtime true ts = Ret s ∧ zlen s = 26)
  ∧ (10 ^ 7 ≤ SecondsSinceEpoch ts →
     TimeStamp_ToString ts = Ret (ztake 7 (dec (SecondsSinceEpoch ts)))).
Proof.
  intros Hts Htm. split.
  { destruct (formatted_ok gmtime ts Hts Htm) as (s & ? & ? & _). eauto. }
  intros Hs. unfold TimeStamp_ToString, snprintf. change (8 <=? 0) with false. cbn [negb].
  assert (printf_d 0 (SecondsSinceEpoch ts) = dec (SecondsSinceEpoch ts)) as ->.
  { unfold printf_d. by rewrite (proj2 (Z.ltb_ge _ 0)) by lia. }
  pose proof (dec_length_ge 7 (SecondsSinceEpoch ts) Hs) as Hl.
  rewrite ztake_app_le by (unfold zlen; lia). apply c_str_app. intros Hin.
  apply (printf_d_nul 0 (SecondsSinceEpoch ts)); [lia|].
  unfold printf_d. rewrite (proj2 (Z.ltb_ge _ 0)) by lia.
  by eapply elem_of_ztake.
Qed.

(** 2020-01-02 03:04:05.000006 *)
Lemma timestamp_text_witness :
  (∃ s, ToFormattedString (λ _, mkTm 5 4 3 2 0 120) true 1577934245000006 = Ret s ∧ zlen s = 26)
  ∧ TimeStamp_ToString 1577934245000006 = Ret (ztake 7 (dec 1577934245)).
Proof.
  destruct (timestamp_text (λ _, mkTm 5 4 3 2 0 120) 1577934245000006) as [H1 H2]; [lia| |].
  - unfold tm_ok. simpl. lia.
  - split; [exact H1|]. apply H2. by vm_compute.
Defined.

(** Util::Format.  A text of less than 200 characters comes back as it is.
    A longer one is formatted again with the argument list the first vsnprintf
    has used up, which is undefined; only formats without conversions get
    through, cut at 9999 characters. *)
Theorem format_spec (args : bool) (s : bytes) :
  0 ∉ s →
  Format args s = if zlen s <? 200 then Ret s
                  else if args then Fault UninitRead else Ret (ztake 9999 s).
Proof.
  intros Hs. unfold Format. destruct (Z.ltb_spec (zlen s) 200); [by apply snprintf_fits|].
  destruct args; [done|]. unfold snprintf. simpl (10000 <=? 0). cbn iota.
  apply c_str_app. intros Hin. apply Hs.
  by eapply elem_of_ztake.
Qed.

Lemma format_spec_witness : Format true (str "fd 7 accept at 8") = Ret (str "fd 7 accept at 8").
Proof. apply (format_spec true (str "fd 7 accept at 8")). by_decide. Defined.
