(* ===== verification/Status.v ===== *)
(** * net/status.h, net/status.cc, net/file.cc: error values and whole files

    A Status is a pointer to a heap block (the length of the block, the code,
    the text) or nullptr for success; copies are deep.  The heap is explicit, so
    that ownership, copies and assignments can be checked.  File reads and
    writes whole files and returns a Status. *)

From S2P Require Import Prelude.

(** ** The heap *)

Record heap : Type := mkHeap {
  blocks : gmap Z bytes;
  fresh : Z;              (* addresses from here on are unused *)
}.

(** new char[n], then filled with [l] *)
Definition new_block (l : bytes) (h : heap) : Z * heap :=
  (fresh h, mkHeap (<[fresh h := l]> (blocks h)) (fresh h + 1)).

(** The block behind a pointer. *)
Definition deref (p : Z) (h : heap) : outcome bytes :=
  if p =? 0 then Fault NullDeref else from_option_fault UseAfterFree (blocks h !! p).

(** delete[] p *)
Definition delete_block (p : Z) (h : heap) : outcome heap :=
  if p =? 0 then Ret h
  else _ ← deref p h; Ret (mkHeap (delete p (blocks h)) (fresh h)).

(** The four bytes at [off] of a block. *)
Definition word_at (off : Z) (blk : bytes) : outcome Z :=
  if off + 4 <=? zlen blk then Ret (le_val (zsub off 4 blk)) else Fault OutOfBounds.

(** ** Status *)

(** The field state_ of a Status. *)
Abbreviation status := Z.

(** Status() *)
Definition Status_ok : status := 0.

(** Status(code, msg): the NUL of [msg] is not copied. *)
Definition Status_new (code : Z) (msg : bytes) (h : heap) : status * heap :=
  let sz := u32 (zlen msg + 8) in
  new_block (le_bytes 4 sz ++ le_bytes 4 code ++ ztake (sz - 8) msg) h.

(** FromFormat(code, fmt, ...) for the formatted [text] *)
Definition FromFormat (code : Z) (text : bytes) (h : heap) : status * heap :=
  let sz := u32 (8 + zlen text + 1) in
  new_block (le_bytes 4 sz ++ le_bytes 4 code ++ text ++ [0]) h.

(** FromSystem() and FromSystem(err): strerror is [errstr]. *)
Definition FromSystem (err : Z) (errstr : bytes) (h : heap) : status * heap := Status_new err errstr h.

(** IoError(op, name): "%s %s %s" *)
Definition IoError (errno : Z) (errstr op name : bytes) (h : heap) : status * heap :=
  FromFormat errno (op ++ str " " ++ name ++ str " " ++ errstr) h.

Definition Clone (p : status) (h : heap) : outcome (status * heap) :=
  if p =? 0 then Ret (0, h)
  else
    blk ← deref p h;
    size ← word_at 0 blk;
    if size <=? zlen blk then Ret (new_block (ztake size blk) h) else Fault OutOfBounds.

Definition Code (p : status) (h : heap) : outcome Z :=
  if p =? 0 then Ret 0 else blk ← deref p h; w ← word_at 4 blk; Ret (i32 w).

(** Msg(), and the read of the C string by its user *)
Definition Msg (p : status) (h : heap) : outcome bytes :=
  if p =? 0 then Ret []
  else blk ← deref p h; if 8 <=? zlen blk then c_str (zdrop 8 blk) else Fault OutOfBounds.

Definition Ok (p : status) (h : heap) : outcome bool := c ← Code p h; Ret (c =? 0).

(** operator=(const Status& s) on an object with [state_ = this] *)
Definition copy_assign (this s : status) (h : heap) : outcome (status * heap) :=
  h ← delete_block this h; Clone s h.

(** operator=(Status&& s): (this, s) afterwards, for two objects *)
Definition move_assign (this s : status) (h : heap) : outcome (status * status * heap) :=
  h ← delete_block this h; Ret (s, 0, h).

(** ~Status *)
Definition Status_destroy (p : status) (h : heap) : outcome heap := delete_block p h.

(** ** File *)

(** What read(2) returns in turn. *)
Inductive read_res : Type := RBytes (l : bytes) | REnd | RFail.

(** The loop of GetContent: whether it reached the end of the file, and the
    string.  The list of answers ends with the end of the file. *)
Fixpoint get_loop (rs : list read_res) (result : bytes) : bool * bytes :=
  match rs with
  | RBytes l :: rs => get_loop rs (result ++ ztake 4096 l)
  | RFail :: _ => (false, result)
  | REnd :: _ | [] => (true, result)
  end.

(** GetContent(filename, result): the status, the string and the heap. *)
Definition GetContent (errno : Z) (errstr filename : bytes) (opened : bool) (rs : list read_res)
    (result : bytes) (h : heap) : status * bytes * heap :=
  if negb opened then
    let '(p, h) := IoError errno errstr (str "open") filename h in (p, result, h)
  else
    let '(ok, result) := get_loop rs result in
    if (ok : bool) then (Status_ok, result, h)
    else let '(p, h) := IoError errno errstr (str "read") filename h in (p, result, h).

(** WriteContent(filename, content): the status and the file; [r] is what the
    one call of write returns. *)
Definition WriteContent (errno : Z) (errstr filename content : bytes) (opened : bool) (r : Z)
    (file : bytes) (h : heap) : status * bytes * heap :=
  if negb opened then
    let '(p, h) := IoError errno errstr (str "open") filename h in (p, file, h)
  else if r <? 0 then
    let '(p, h) := IoError errno errstr (str "write") filename h in (p, [], h)
  else (Status_ok, ztake r content, h).

(** ** Invariant *)

(** Allocated addresses are positive and below the next one; every block is
    as long as its first word says and has room for the code. *)
Definition block_ok (blk : bytes) : Prop :=
  8 ≤ zlen blk ∧ le_val (ztake 4 blk) = zlen blk.

Definition heap_wf (h : heap) : Prop :=
  0 < fresh h ∧ ∀ p blk, blocks h !! p = Some blk → 0 < p < fresh h ∧ block_ok blk.

(** ** Lemmas *)

Lemma block_ok_intro sz code rest :
  0 ≤ sz < 2 ^ 32 → sz = 8 + zlen rest → block_ok (le_bytes 4 sz ++ le_bytes 4 code ++ rest).
Proof.
  intros Hs E. unfold block_ok.
  assert (ztake 4 (le_bytes 4 sz ++ le_bytes 4 code ++ rest) = le_bytes 4 sz) as ->
    by apply (ztake_app_length (le_bytes 4 sz)).
  rewrite !zlen_app, !zlen_le_bytes, le_val_bytes. pose proof (zlen_nonneg rest).
  change (8 * Z.of_nat 4) with 32. rewrite Z.mod_small by done. lia.
Qed.

Lemma new_block_wf l h : heap_wf h → block_ok l → heap_wf (new_block l h).2.
Proof.
  intros [Hf Hw] Hl. split; simpl; [lia|]. intros p blk.
  rewrite lookup_insert_Some. intros [[<- <-]|[_ H]]; [split; [lia|done]|].
  apply Hw in H as [? ?]. split; [lia|done].
Qed.

Lemma delete_block_wf p h h' : heap_wf h → delete_block p h = Ret h' → heap_wf h'.
Proof.
  intros [Hf Hw]. unfold delete_block. destruct (p =? 0); [by intros [= <-]|].
  intros H. inv_ret. subst h'. split; [done|]. intros q blk. simpl.
  rewrite lookup_delete_Some. intros [_ H]. by apply Hw in H.
Qed.

Lemma new_block_deref l h : heap_wf h → deref (new_block l h).1 (new_block l h).2 = Ret l.
Proof.
  intros [Hf _]. unfold deref. simpl. rewrite (proj2 (Z.eqb_neq _ 0)) by lia.
  by rewrite lookup_insert_eq.
Qed.

(** A new block does not disturb the others. *)
Lemma new_block_frame l h p blk :
  heap_wf h → blocks h !! p = Some blk →
  p ≠ (new_block l h).1 ∧ blocks (new_block l h).2 !! p = Some blk.
Proof.
  intros [_ Hw] Hp. destruct (Hw _ _ Hp) as [? _]. simpl. split; [lia|].
  rewrite lookup_insert_ne by lia. done.
Qed.

(** A clone is a block of its own with the same content. *)
Lemma Clone_ok p h blk :
  heap_wf h → p ≠ 0 → blocks h !! p = Some blk → Clone p h = Ret (new_block blk h).
Proof.
  intros [_ Hw] H0 Hp. destruct (Hw _ _ Hp) as [_ [Hl Hv]]. unfold Clone, deref.
  rewrite (proj2 (Z.eqb_neq p 0)), Hp by done. cbn [from_option_fault mbind outcome_bind].
  unfold word_at. rewrite (proj2 (Z.leb_le _ _)) by lia. cbn [mbind outcome_bind].
  unfold zsub. rewrite zdrop_0, Hv, Z.leb_refl. by rewrite ztake_all by lia.
Qed.

(** The code and the text of a block. *)
Lemma block_code sz code rest p h :
  p ≠ 0 → blocks h !! p = Some (le_bytes 4 sz ++ le_bytes 4 code ++ rest) →
  - 2 ^ 31 ≤ code < 2 ^ 31 → Code p h = Ret code.
Proof.
  intros H0 Hp Hc. unfold Code, deref. rewrite (proj2 (Z.eqb_neq p 0)), Hp by done.
  cbn [from_option_fault mbind outcome_bind]. unfold word_at.
  pose proof (zlen_nonneg rest).
  rewrite (proj2 (Z.leb_le _ _)) by (rewrite !zlen_app, !zlen_le_bytes; lia). cbn [mbind outcome_bind].
  assert (zsub 4 4 (le_bytes 4 sz ++ le_bytes 4 code ++ rest) = le_bytes 4 code) as ->.
  { unfold zsub. assert (zdrop 4 (le_bytes 4 sz ++ le_bytes 4 code ++ rest) = le_bytes 4 code ++ rest) as ->
      by apply (zdrop_app_length (le_bytes 4 sz)).
    apply (ztake_app_length (le_bytes 4 code)). }
  rewrite le_val_bytes. change (8 * Z.of_nat 4) with 32. f_equal.
  unfold swrap. change (2 ^ (32 - 1)) with (2 ^ 31). rewrite Zplus_mod_idemp_l, Z.mod_small; lia.
Qed.

Lemma block_msg sz code rest p h :
  p ≠ 0 → blocks h !! p = Some (le_bytes 4 sz ++ le_bytes 4 code ++ rest) → Msg p h = c_str rest.
Proof.
  intros H0 Hp. unfold Msg, deref. rewrite (proj2 (Z.eqb_neq p 0)), Hp by done.
  cbn [from_option_fault mbind outcome_bind]. pose proof (zlen_nonneg rest).
  rewrite (proj2 (Z.leb_le _ _)) by (rewrite !zlen_app, !zlen_le_bytes; lia).
  rewrite app_assoc, (zdrop_app_length (le_bytes 4 sz ++ le_bytes 4 code)). done.
Qed.

Lemma c_str_none l : 0 ∉ l → c_str l = Fault OutOfBounds.
Proof.
  induction l as [|x l IH]; simpl; [done|]. intros [Hx Hl]%not_elem_of_cons.
  rewrite (proj2 (Z.eqb_neq x 0)) by done. by rewrite IH.
Qed.

Lemma FromFormat_wf code text h :
  heap_wf h → zlen text + 9 < 2 ^ 32 → heap_wf (FromFormat code text h).2.
Proof.
  intros Hw Hl. apply new_block_wf; [done|]. pose proof (zlen_nonneg text).
  rewrite wrap_id by lia. apply block_ok_intro; [lia|].
  rewrite zlen_app. change (zlen [0]) with 1. lia.
Qed.

(** ** Theorems *)

(** The value of a Status.  A status made by FromFormat gives back its code
    and its text, and so does a copy of it, which is a block of its own, so it
    survives the destruction of the original.  A status made from a code and a
    message gives back its code, but its text was stored without the
    terminating NUL: reading Msg runs past the block, for every message. *)
Theorem status_value (code : Z) (text : bytes) (h : heap) :
  heap_wf h → - 2 ^ 31 ≤ code < 2 ^ 31 → zlen text + 9 < 2 ^ 32 → 0 ∉ text →
  (∃ p q h1 h2 h3, FromFormat code text h = (p, h1) ∧ Code p h1 = Ret code ∧ Msg p h1 = Ret text
     ∧ Clone p h1 = Ret (q, h2) ∧ Status_destroy p h2 = Ret h3
     ∧ Code q h3 = Ret code ∧ Msg q h3 = Ret text)
  ∧ (∃ p h1, Status_new code text h = (p, h1) ∧ Code p h1 = Ret code ∧ Msg p h1 = Fault OutOfBounds).
Proof.
  intros Hw Hc Hl Hn. pose proof (zlen_nonneg text). pose proof Hw as [Hf _]. split.
  - set (blk := le_bytes 4 (u32 (8 + zlen text + 1)) ++ le_bytes 4 code ++ text ++ [0]).
    set (h1 := (new_block blk h).2). assert (heap_wf h1) as Hw1 by by apply FromFormat_wf.
    assert (blocks h1 !! fresh h = Some blk) as Hp by apply lookup_insert_eq.
    pose proof (new_block_frame blk h1 _ _ Hw1 Hp) as [Hne Hp'].
    assert (blocks (mkHeap (delete (fresh h) (blocks (new_block blk h1).2)) (fresh h1 + 1))
              !! fresh h1 = Some blk) as Hq.
    { simpl. rewrite lookup_delete_ne by done. apply lookup_insert_eq. }
    exists (fresh h), (fresh h1), h1, (new_block blk h1).2. eexists. split_and!.
    + done.
    + eapply block_code; [lia|exact Hp|done].
    + erewrite block_msg; [|lia|exact Hp]. by apply c_str_app.
    + rewrite (Clone_ok _ _ blk) by (done || lia). done.
    + unfold Status_destroy, delete_block, deref. rewrite (proj2 (Z.eqb_neq _ 0)) by lia.
      rewrite Hp'. done.
    + eapply block_code; [simpl; lia|exact Hq|done].
    + erewrite block_msg; [|simpl; lia|exact Hq]. by apply c_str_app.
  - eexists _, _. split; [done|]. unfold Status_new. rewrite wrap_id by lia. simpl.
    assert (∀ x : bytes, <[fresh h := x]> (blocks h) !! fresh h = Some x) as Hp
      by (intros; apply lookup_insert_eq).
    split; [eapply block_code; [lia|apply Hp|done]|]. erewrite block_msg; [|lia|apply Hp].
    rewrite ztake_all by lia. by apply c_str_none.
Qed.

Lemma status_value_witness :
  ∃ p h1, Status_new 5 (str "open failed") (mkHeap ∅ 1) = (p, h1) ∧ Code p h1 = Ret 5
          ∧ Msg p h1 = Fault OutOfBounds.
Proof.
  apply (status_value 5 (str "open failed") (mkHeap ∅ 1)).
  - split; [simpl; lia|]. simpl. intros p blk H. by rewrite lookup_empty in H.
  - lia.
  - by vm_compute.
  - by_decide.
Defined.

(** Assignment.  Assigning one status to another frees the old block,
    leaves the source as it was and gives the target a copy: the number of
    blocks is that of the two objects.  Assigning a status to itself reads the
    block it has just freed. *)
Theorem status_assign (this s : status) (b1 b2 : bytes) (h : heap) :
  heap_wf h → blocks h !! this = Some b1 → blocks h !! s = Some b2 → this ≠ s →
  (∃ q h', copy_assign this s h = Ret (q, h') ∧ heap_wf h' ∧ q ≠ s
     ∧ blocks h' = <[q := b2]> (delete this (blocks h)) ∧ blocks h' !! s = Some b2)
  ∧ copy_assign s s h = Fault UseAfterFree.
Proof.
  intros Hw H1 H2 Hne. pose proof Hw as [Hf Hb].
  destruct (Hb _ _ H1) as [Ht _]. destruct (Hb _ _ H2) as [Hs Hok].
  assert (∀ p b, blocks h !! p = Some b → delete_block p h = Ret (mkHeap (delete p (blocks h)) (fresh h))) as Hd.
  { intros p b Hp. destruct (Hb _ _ Hp) as [? _]. unfold delete_block, deref.
    by rewrite (proj2 (Z.eqb_neq p 0)), Hp by lia. }
  unfold copy_assign. rewrite (Hd _ _ H1), (Hd _ _ H2). cbn [mbind outcome_bind]. split.
  - assert (heap_wf (mkHeap (delete this (blocks h)) (fresh h))) as Hw' by eauto using delete_block_wf.
    rewrite (Clone_ok _ _ b2) by (done || lia || (simpl; by rewrite lookup_delete_ne)).
    eexists _, _. split; [done|]. split; [by apply new_block_wf|]. simpl. split_and!; [lia|done|].
    rewrite lookup_insert_ne by lia. by rewrite lookup_delete_ne.
  - unfold Clone, deref. rewrite (proj2 (Z.eqb_neq s 0)) by lia. simpl. by rewrite lookup_delete_eq.
Qed.

Definition demo_heap : heap :=
  mkHeap {[1 := le_bytes 4 8 ++ le_bytes 4 7; 2 := le_bytes 4 9 ++ le_bytes 4 3 ++ [0]]} 3.

Lemma demo_heap_wf : heap_wf demo_heap.
Proof.
  split; [simpl; lia|]. intros p blk. simpl. rewrite lookup_insert_Some, lookup_singleton_Some.
  intros [[<- <-]|[_ [<- <-]]]; (split; [lia|split; vm_compute; congruence]).
Qed.

Lemma status_assign_witness : copy_assign 2 2 demo_heap = Fault UseAfterFree.
Proof.
  apply (status_assign 1 2 (le_bytes 4 8 ++ le_bytes 4 7) (le_bytes 4 9 ++ le_bytes 4 3 ++ [0]) demo_heap).
  - apply demo_heap_wf.
  - reflexivity.
  - reflexivity.
  - lia.
Defined.

Lemma get_loop_ok ls rs result :
  Forall (λ l, zlen l ≤ 4096) ls →
  get_loop ((RBytes <$> ls) ++ rs) result = get_loop rs (result ++ concat ls).
Proof.
  intros H. revert result. induction H as [|l ls Hl _ IH]; intros result; simpl.
  - by rewrite app_nil_r.
  - rewrite IH, ztake_all by done. by rewrite app_assoc.
Qed.

(** Whole files.  GetContent appends every piece that read returns, in
    order, however the file is split, and reports a failed read with a status
    that is not Ok, keeping what it had.  WriteContent reports success even when
    write stored only a part of the content. *)
Theorem file_content (errno : Z) (errstr name result content : bytes) (ls : list bytes) (r : Z) (h : heap) :
  Forall (λ l, zlen l ≤ 4096) ls → heap_wf h →
  0 < errno < 2 ^ 31 → zlen name + zlen errstr < 2 ^ 31 → 0 ≤ r < zlen content →
  GetContent errno errstr name true ((RBytes <$> ls) ++ [REnd]) result h = (Status_ok, result ++ concat ls, h)
  ∧ (∃ p h', GetContent errno errstr name true ((RBytes <$> ls) ++ [RFail]) result h
             = (p, result ++ concat ls, h') ∧ Ok p h' = Ret false)
  ∧ ∃ file, WriteContent errno errstr name content true r result h = (Status_ok, file, h) ∧ file ≠ content.
Proof.
  intros Hls Hw He Hn Hr. pose proof Hw as [Hf _]. unfold GetContent. cbn [negb].
  rewrite !get_loop_ok by done. split; [done|]. split.
  - eexists _, _. split; [done|]. unfold Ok.
    erewrite block_code; [|simpl; lia|apply lookup_insert_eq|lia]. cbn [mbind outcome_bind].
    by rewrite (proj2 (Z.eqb_neq errno 0)) by lia.
  - exists (ztake r content). unfold WriteContent. rewrite (proj2 (Z.ltb_ge r 0)) by lia.
    split; [done|]. intros E%(f_equal zlen). rewrite zlen_ztake in E by lia. lia.
Qed.

Lemma file_content_witness :
  GetContent 2 (str "x") (str "a") true [RBytes [1; 2]; RBytes [3]; REnd] [] (mkHeap ∅ 1)
  = (Status_ok, [1; 2; 3], mkHeap ∅ 1).
Proof.
  destruct (file_content 2 (str "x") (str "a") [] [1; 2] [[1; 2]; [3]] 1 (mkHeap ∅ 1)) as [H _].
  - repeat constructor; by vm_compute.
  - split; [simpl; lia|]. simpl. intros p blk H. by rewrite lookup_empty in H.
  - lia.
  - by vm_compute.
  - by vm_compute.
  - exact H.
Defined.
