(* ===== verification/Logger.v ===== *)
(** * net/log.h, net/log.cc: the logger

    Logger formats a line in an array of 4 KB on the stack and writes it to its
    descriptor, and starts a new file when the day (or another interval)
    changes.  The part of the file system it uses is modelled: names,
    descriptors and contents, so that what happens to the lines already written
    can be stated.  The text printf makes of format and arguments is an
    argument of Write. *)

From S2P Require Import Prelude Text.

(** ** Files *)

Record fs : Type := mkFs {
  dir : gmap bytes nat;      (* name -> inode *)
  fds : gmap Z nat;          (* descriptor -> inode *)
  data : gmap nat bytes;     (* inode -> content *)
  next_ino : nat;
}.

(** open(name, O_APPEND | O_CREAT | O_WRONLY) returning the descriptor [fd]; a
    negative one is a failure. *)
Definition open_append (name : bytes) (fd : Z) (s : fs) : fs :=
  if fd <? 0 then s
  else match dir s !! name with
       | Some i => mkFs (dir s) (<[fd := i]> (fds s)) (data s) (next_ino s)
       | None => mkFs (<[name := next_ino s]> (dir s)) (<[fd := next_ino s]> (fds s))
                      (<[next_ino s := []]> (data s)) (S (next_ino s))
       end.

(** rename(2): whether it succeeded, and the files. *)
Definition rename (old new : bytes) (s : fs) : bool * fs :=
  match dir s !! old with
  | Some i => (true, mkFs (<[new := i]> (delete old (dir s))) (fds s) (data s) (next_ino s))
  | None => (false, s)
  end.

(** dup2(fd, fd2); close(fd) *)
Definition dup2_close (fd fd2 : Z) (s : fs) : fs :=
  match fds s !! fd with
  | Some i => mkFs (dir s) (delete fd (<[fd2 := i]> (fds s))) (data s) (next_ino s)
  | None => s
  end.

Definition write (fd : Z) (line : bytes) (s : fs) : fs :=
  match fds s !! fd with
  | Some i => mkFs (dir s) (fds s) (<[i := default [] (data s !! i) ++ line]> (data s)) (next_ino s)
  | None => s
  end.

(** ** Logger *)

(** A byte of memory, None while it is indeterminate. *)
Abbreviation cell := (option Z).

(** enum LogLevel *)
Definition LFATAL : Z := 0.
Definition LERROR : Z := 1.
Definition LWARN : Z := 2.
Definition LINFO : Z := 3.
Definition LDEBUG : Z := 4.
Definition LTRACE : Z := 5.
Definition LALL : Z := 6.

Record Logger : Type := mkLogger {
  log_fd_ : Z;
  level_ : Z;
  lastRotate_ : Z;
  realRotate_ : Z;
  rotateInterval_ : Z;
  filename_ : bytes;
}.

Definition levelStrs_ : list bytes :=
  str <$> ["FATAL"; "ERROR"; "WARN"; "INFO"; "DEBUG"; "TRAVE"; "ALL"]%string.

Definition Logger_new (now : Z) : Logger := mkLogger (-1) LALL now now 86400 [].

(** ~Logger: the file is closed. *)
Definition Logger_destroy (s : Logger * fs) : fs :=
  if negb (log_fd_ s.1 =? -1) then mkFs (dir s.2) (delete (log_fd_ s.1) (fds s.2)) (data s.2) (next_ino s.2) else s.2.

Definition set_level (v : Z) (l : Logger) : Logger :=
  mkLogger (log_fd_ l) v (lastRotate_ l) (realRotate_ l) (rotateInterval_ l) (filename_ l).

(** SetLogLevel(LogLevel) *)
Definition SetLogLevel (level : Z) (l : Logger) : Logger :=
  set_level (Z.min LALL (Z.max LFATAL level)) l.

(** strcasecmp(a, b) == 0 *)
Definition strcaseeq (a b : bytes) : bool := bool_decide (tolower <$> a = tolower <$> b).

(** The loop of SetLogLevel(const std::string&). *)
Fixpoint level_index (level : bytes) (strs : list bytes) (i : Z) : Z :=
  match strs with
  | [] => LINFO
  | s :: strs => if strcaseeq s level then i else level_index level strs (i + 1)
  end.
Definition SetLogLevel_str (level : bytes) (l : Logger) : Logger :=
  SetLogLevel (level_index level levelStrs_ 0) l.

Definition GetLogLevelStr (l : Logger) : outcome bytes :=
  from_option_fault OutOfBounds (znth (level_ l) levelStrs_).

Definition AdjustLogLevel (adjust : Z) (l : Logger) : Logger := SetLogLevel (level_ l + adjust) l.

Definition SetRotateInterval (v : Z) (l : Logger) : Logger :=
  mkLogger (log_fd_ l) (level_ l) (lastRotate_ l) (realRotate_ l) v (filename_ l).

(** SetFileName; [fd] is what open returned. *)
Definition SetFileName (name : bytes) (fd : Z) (s : Logger * fs) : Logger * fs :=
  let '(l, d) := s in
  if fd <? 0 then (l, d)
  else
    let d := open_append name fd d in
    if log_fd_ l =? -1
    then (mkLogger fd (level_ l) (lastRotate_ l) (realRotate_ l) (rotateInterval_ l) name, d)
    else (mkLogger (log_fd_ l) (level_ l) (lastRotate_ l) (realRotate_ l) (rotateInterval_ l) name,
          dup2_close fd (log_fd_ l) d).

Section WithTimezone.
(** The global of <time.h> that tzset sets. *)
Context (timezone : Z).

(** (t - timezone) / rotateInterval_ *)
Definition interval_of (l : Logger) (t : Z) : outcome Z :=
  if rotateInterval_ l =? 0 then Fault DivByZero
  else Ret (Z.quot (t - timezone) (rotateInterval_ l)).

(** MaybeRotate; [stamp] is the formatted time, [fd] what open returns. *)
Definition MaybeRotate (now : Z) (stamp : bytes) (fd : Z) (s : Logger * fs) : outcome (Logger * fs) :=
  let '(l, d) := s in
  if bool_decide (filename_ l = []) then Ret (l, d)
  else
    a ← interval_of l now;
    b ← interval_of l (lastRotate_ l);
    if a =? b then Ret (l, d)
    else
      let old := realRotate_ l in
      let l := mkLogger (log_fd_ l) (level_ l) now now (rotateInterval_ l) (filename_ l) in
      a ← interval_of l old;
      b ← interval_of l (lastRotate_ l);
      if a =? b then Ret (l, d)
      else
        let '(ok, d) := rename (filename_ l) (filename_ l ++ stamp) d in
        if negb ok then Ret (l, d)
        else if fd <? 0 then Ret (l, d)
        else Ret (l, dup2_close fd (log_fd_ l) (open_append (filename_ l) fd d)).

(** ** One line *)

(** Stores and loads in the array [buffer]. *)
Definition store (m : list cell) (off : Z) (l : bytes) : outcome (list cell) :=
  if bool_decide (0 ≤ off ∧ off + zlen l ≤ zlen m) then Ret (zsplice off (Some <$> l) m)
  else Fault OutOfBounds.
Definition load (m : list cell) (i : Z) : outcome Z :=
  c ← from_option_fault OutOfBounds (znth i m); from_option_fault UninitRead c.

(** while ( *--p == '\n') {}: the position of the last other character. *)
Fixpoint trim_nl (fuel : nat) (m : list cell) (p : Z) : outcome Z :=
  match fuel with
  | O => Diverge
  | S fuel => c ← load m (p - 1); if c =? chr_nl then trim_nl fuel m (p - 1) else Ret (p - 1)
  end.

(** The array and its used length after formatting; [tm] is the formatted time,
    [msg] the text of format and arguments. *)
Definition format_line (tm msg : bytes) : outcome (list cell * Z) :=
  let limit := 4 * 1024 in
  let buffer := replicate (Z.to_nat limit) None in
  let tm := tm ++ str " " in
  m ← store buffer 0 tm;
  let p := zlen tm in
  m ← store m p (snprintf (limit - p) msg);
  let p := p + zlen msg in
  let p := Z.min p (limit - 2) in
  p ← trim_nl (S (Z.to_nat p)) m p;
  m ← store m (p + 1) [chr_nl];
  m ← store m (p + 2) [0];
  Ret (m, p + 2).

(** The bytes of the array from [off] to [off + n). *)
Fixpoint loads (n : nat) (m : list cell) (off : Z) : outcome bytes :=
  match n with
  | O => Ret []
  | S n => c ← load m off; k ← loads n m (off + 1); Ret (c :: k)
  end.

(** The C string at [off]. *)
Fixpoint load_str (fuel : nat) (m : list cell) (off : Z) : outcome bytes :=
  match fuel with
  | O => Diverge
  | S fuel =>
      c ← load m off;
      if c =? 0 then Ret [] else k ← load_str fuel m (off + 1); Ret (c :: k)
  end.

(** Write: the logger and the files, and what went to syslog. *)
Definition Write (level now : Z) (stamp tm : bytes) (newfd : Z) (msg : bytes) (s : Logger * fs)
  : outcome (Logger * fs * option bytes) :=
  if level_ s.1 <? level then Ret (s, None)
  else
    s ← MaybeRotate now stamp newfd s;
    r ← format_line tm msg;
    line ← loads (Z.to_nat r.2) r.1 0;
    let fd := if log_fd_ s.1 =? -1 then 1 else log_fd_ s.1 in
    let s' := (s.1, write fd line s.2) in
    if level <=? LERROR then
      t ← load_str (length r.1) r.1 27; Ret (s', Some t)
    else Ret (s', None).

(** The macro hlog behind TRACE, DEBUG, ..., FATAL, and FATALIF, which goes on after
    the line is written. *)
Definition hlog (level now : Z) (stamp tm : bytes) (newfd : Z) (msg : bytes) (s : Logger * fs)
  : outcome (Logger * fs * option bytes) :=
  if level <=? level_ s.1 then Write level now stamp tm newfd msg s else Ret (s, None).
Definition FATALIF (b : bool) (now : Z) (stamp tm : bytes) (newfd : Z) (msg : bytes) (s : Logger * fs)
  : outcome (Logger * fs * option bytes) :=
  if b then hlog LFATAL now stamp tm newfd msg s else Ret (s, None).

(** The macros test the level once more than needed. *)
Lemma hlog_Write level now stamp tm newfd msg s :
  hlog level now stamp tm newfd msg s = Write level now stamp tm newfd msg s.
Proof. unfold hlog, Write. by rewrite Z.ltb_antisym; destruct (level <=? level_ s.1). Qed.

End WithTimezone.

(** ** Lemmas *)

(** A text without the newlines at its end. *)
Fixpoint drop_nl (l : bytes) : bytes :=
  match l with
  | c :: l' => if c =? chr_nl then drop_nl l' else l
  | [] => []
  end.
Definition strip_nl (l : bytes) : bytes := reverse (drop_nl (reverse l)).

Lemma strip_nl_spec l :
  ∃ k, l = strip_nl l ++ replicate k chr_nl ∧ last (strip_nl l) ≠ Some chr_nl.
Proof.
  unfold strip_nl. assert (l = reverse (reverse l)) as E by by rewrite reverse_involutive.
  revert E. generalize (reverse l). intros r ->. induction r as [|c l (k & IH & Hl)]; simpl.
  - by exists 0%nat.
  - destruct (Z.eqb_spec c chr_nl) as [->|Hc].
    + exists (S k). rewrite reverse_cons, IH. rewrite <- app_assoc, replicate_S_end. done.
    + exists 0%nat. rewrite reverse_cons, app_nil_r, last_snoc. split; [done|congruence].
Qed.

Section Cells.
Implicit Types m : list cell.

Lemma store_ok m off l :
  0 ≤ off → off + zlen l ≤ zlen m → store m off l = Ret (zsplice off (Some <$> l) m).
Proof. intros. unfold store. by rewrite bool_decide_true. Qed.

Lemma ztake_zsplice {A} off k (d m : list A) :
  0 ≤ off ≤ zlen m → 0 ≤ k ≤ zlen d →
  ztake (off + k) (zsplice off d m) = ztake off m ++ ztake k d.
Proof.
  intros. unfold zsplice, ztake, zlen in *.
  rewrite take_app_ge by (rewrite length_take; lia). rewrite length_take.
  rewrite take_app_le by lia. do 2 f_equal. lia.
Qed.

(** The array holds the text [l] from its start on. *)
Definition holds (l : bytes) (m : list cell) : Prop := ztake (zlen l) m = Some <$> l.

Lemma holds_load l m i c : holds l m → znth i l = Some c → load m i = Ret c.
Proof.
  unfold holds, load. intros Hh Hi. pose proof (znth_Some_inv _ _ _ Hi).
  assert (znth i m = Some (Some c)) as ->; [|done].
  unfold znth in *. rewrite bool_decide_true in * by lia.
  assert ((Some <$> l) !! Z.to_nat i = Some (Some c)) as H1 by (rewrite list_lookup_fmap, Hi; done).
  rewrite <- Hh in H1. unfold ztake in H1.
  by apply lookup_take_Some in H1 as [? _].
Qed.

Lemma holds_app_l l k m : holds (l ++ k) m → holds l m.
Proof.
  unfold holds. intros H. apply (f_equal (ztake (zlen l))) in H.
  rewrite fmap_app in H. rewrite ztake_app_le in H by by rewrite zlen_fmap.
  rewrite (ztake_all (zlen l) (Some <$> l)) in H by by rewrite zlen_fmap.
  rewrite <- H. unfold ztake, zlen. rewrite take_take. f_equal. rewrite length_app. lia.
Qed.

Lemma holds_len l m : holds l m → zlen l ≤ zlen m.
Proof.
  intros H%(f_equal length). unfold ztake in H. rewrite length_take, length_fmap in H.
  unfold zlen in *. lia.
Qed.

Lemma znth_app_last {A} (l : list A) x k : znth (zlen l) (l ++ x :: k) = Some x.
Proof.
  unfold znth. rewrite bool_decide_true by apply zlen_nonneg. unfold zlen. rewrite Nat2Z.id.
  by rewrite lookup_app_r, Nat.sub_diag by lia.
Qed.

Lemma trim_nl_ok k u c fuel m :
  holds (u ++ c :: replicate k chr_nl) m → c ≠ chr_nl → (k < fuel)%nat →
  trim_nl fuel m (zlen u + 1 + Z.of_nat k) = Ret (zlen u).
Proof.
  revert fuel. induction k as [|k IH]; intros [|fuel] Hh Hc Hf; try lia; cbn [trim_nl].
  - rewrite (holds_load _ _ _ c Hh); cbn [mbind outcome_bind].
    + rewrite (proj2 (Z.eqb_neq c chr_nl)) by done. f_equal. lia.
    + replace (zlen u + 1 + Z.of_nat 0 - 1) with (zlen u) by lia. apply znth_app_last.
  - rewrite replicate_S_end, app_comm_cons, app_assoc in Hh.
    rewrite (holds_load _ _ _ chr_nl Hh); cbn [mbind outcome_bind].
    + rewrite Z.eqb_refl. rewrite <- IH with (fuel := fuel); [f_equal; lia| |done|lia].
      by eapply holds_app_l.
    + replace (zlen u + 1 + Z.of_nat (S k) - 1) with (zlen (u ++ c :: replicate k chr_nl)).
      * apply znth_app_last.
      * unfold zlen. rewrite length_app. simpl. rewrite length_replicate. lia.
Qed.

Lemma loads_ok l k j m : holds (k ++ l ++ j) m → loads (length l) m (zlen k) = Ret l.
Proof.
  revert k. induction l as [|c l IH]; intros k Hh; [done|]. cbn [length loads].
  rewrite (holds_load _ _ _ c Hh) by apply znth_app_last. cbn [mbind outcome_bind].
  replace (zlen k + 1) with (zlen (k ++ [c])) by (autorewrite with jnet; lia).
  rewrite IH; [done|]. by rewrite <- app_assoc.
Qed.

Lemma load_str_ok l k m fuel :
  holds (k ++ l ++ [0]) m → 0 ∉ l → (length l < fuel)%nat → load_str fuel m (zlen k) = Ret l.
Proof.
  revert k fuel. induction l as [|c l IH]; intros k [|fuel] Hh Hn Hf; simpl in Hf; try lia; cbn [load_str].
  - by rewrite (holds_load _ _ _ 0 Hh) by apply znth_app_last.
  - rewrite (holds_load _ _ _ c Hh) by apply znth_app_last. cbn [mbind outcome_bind].
    apply not_elem_of_cons in Hn as [H0 Hn]. rewrite (proj2 (Z.eqb_neq c 0)) by done.
    replace (zlen k + 1) with (zlen (k ++ [c])) by (autorewrite with jnet; lia).
    rewrite IH; [done| |done|lia]. by rewrite <- app_assoc.
Qed.

(** Storing behind (or over) what an array holds. *)
Lemma holds_zsplice l k j m :
  holds (l ++ k) m → zlen l + zlen j ≤ zlen m → holds (l ++ j) (zsplice (zlen l) (Some <$> j) m).
Proof.
  intros Hh%holds_app_l Hlen. unfold holds in *. pose proof (zlen_nonneg l). pose proof (zlen_nonneg j).
  rewrite zlen_app, ztake_zsplice by (rewrite ?zlen_fmap; lia).
  rewrite Hh, fmap_app. f_equal. apply ztake_all. by rewrite zlen_fmap.
Qed.

End Cells.

(** The formatted line: the time, a space, the message without the newlines at
    its end and cut at 4067 bytes, and one newline. *)
Definition log_text (msg : bytes) : bytes := strip_nl (ztake 4067 msg) ++ [chr_nl].

Lemma holds_snprintf T msg n m :
  holds (T ++ snprintf n msg) m → 0 < n → holds (T ++ ztake (n - 2) msg) m.
Proof.
  intros Hh Hn. unfold snprintf in Hh. rewrite (proj2 (Z.leb_gt n 0)) in Hh by lia.
  rewrite <- (ztake_zdrop (n - 2) (ztake (n - 1) msg)) in Hh.
  assert (ztake (n - 2) (ztake (n - 1) msg) = ztake (n - 2) msg) as E.
  { unfold ztake. rewrite take_take. f_equal. lia. }
  rewrite E, <- app_assoc, app_assoc in Hh. by eapply holds_app_l.
Qed.

Lemma zlen_ztake_min {A} n (l : list A) : 0 ≤ n → zlen (ztake n l) = Z.min n (zlen l).
Proof. intros. unfold zlen, ztake. rewrite length_take. lia. Qed.

(** The two stores in front of the trimming. *)
Lemma format_stores T msg b0 :
  zlen T = 27 → zlen b0 = 4096 →
  ∃ m, (m ← store b0 0 T; store m 27 (snprintf (4096 - 27) msg)) = Ret m
       ∧ zlen m = 4096 ∧ holds (T ++ ztake 4067 msg) m.
Proof.
  intros HT Hb0. assert (zlen (snprintf (4096 - 27) msg) ≤ 4069) as Hsn.
  { unfold snprintf. change (4096 - 27 <=? 0) with false. cbn iota.
    rewrite zlen_app, zlen_ztake_min by lia. change (zlen [0]) with 1. lia. }
  pose proof (zlen_nonneg (snprintf (4096 - 27) msg)).
  rewrite store_ok by lia. cbn [mbind outcome_bind].
  rewrite store_ok by (rewrite ?zlen_zsplice; rewrite ?zlen_fmap; lia).
  eexists. split_and!; [done| |].
  - rewrite !zlen_zsplice; rewrite ?zlen_zsplice; rewrite ?zlen_fmap; lia.
  - apply (holds_snprintf T msg (4096 - 27)); [|lia]. rewrite <- HT at 2.
    apply (holds_zsplice T []); [rewrite app_nil_r|rewrite zlen_zsplice; rewrite ?zlen_fmap; lia].
    apply (holds_zsplice [] [] T); [done|rewrite zlen_nil; lia].
Qed.

(** The two stores behind it. *)
Lemma format_end t k m :
  holds (t ++ k) m → zlen t + 2 ≤ zlen m →
  ∃ m', (m ← store m (zlen t) [chr_nl]; store m (zlen t + 1) [0]) = Ret m'
        ∧ zlen m' = zlen m ∧ holds (t ++ [chr_nl] ++ [0]) m'.
Proof.
  intros Hh Hl. pose proof (zlen_nonneg t).
  assert (zlen (t ++ [chr_nl]) = zlen t + 1) as Ht by by rewrite zlen_app.
  rewrite store_ok by (change (zlen [chr_nl]) with 1; lia). cbn [mbind outcome_bind].
  assert (zlen (zsplice (zlen t) (Some <$> [chr_nl]) m) = zlen m) as Hm.
  { apply zlen_zsplice; change (zlen (Some <$> [chr_nl])) with 1; lia. }
  rewrite store_ok by (rewrite ?Hm; change (zlen [0]) with 1; lia).
  eexists. split_and!; [done| |].
  - rewrite <- Hm. apply zlen_zsplice; change (zlen (Some <$> [0])) with 1; lia.
  - rewrite <- Ht, app_assoc. apply (holds_zsplice _ []).
    + rewrite app_nil_r. eapply holds_zsplice; [exact Hh|]. change (zlen [chr_nl]) with 1. lia.
    + rewrite Hm, Ht. change (zlen [0]) with 1. lia.
Qed.

Lemma bind_assoc_outcome {A B C} (m : outcome A) (f : A → outcome B) (g : B → outcome C) :
  (m ≫= λ x, f x ≫= g) = (m ≫= f) ≫= g.
Proof. by destruct m. Qed.

Lemma format_line_ok tm msg :
  zlen tm = 26 →
  ∃ m, format_line tm msg = Ret (m, zlen (tm ++ str " " ++ log_text msg))
       ∧ zlen m = 4096 ∧ holds (tm ++ str " " ++ log_text msg ++ [0]) m.
Proof.
  intros Htm. unfold format_line. set (T := tm ++ str " ").
  assert (zlen T = 27) as HT by (unfold T; rewrite zlen_app, Htm; done).
  change (4 * 1024) with 4096. rewrite HT.
  destruct (format_stores T msg (replicate (Z.to_nat 4096) None)) as (m & Hm & Hl & Hh); [done| |].
  { unfold zlen. rewrite length_replicate. lia. }
  rewrite bind_assoc_outcome, Hm. cbn [mbind outcome_bind].
  destruct (strip_nl_spec (ztake 4067 msg)) as (k & Ex & Hlast).
  unfold log_text. set (y := strip_nl (ztake 4067 msg)) in *.
  assert (∃ u c, T ++ y = u ++ [c] ∧ c ≠ chr_nl) as (u & c & Eu & Hc).
  { destruct y as [|c y' _] using rev_ind.
    - exists tm, 32. by rewrite app_nil_r.
    - exists (T ++ y'), c. rewrite last_snoc in Hlast. split; [by rewrite app_assoc|congruence]. }
  assert (zlen u + 1 = zlen (T ++ y)) as Huy by (rewrite Eu, zlen_app; done).
  assert (zlen (T ++ ztake 4067 msg) = zlen u + 1 + Z.of_nat k) as Hp.
  { rewrite Ex, app_assoc, zlen_app, <- Huy. unfold zlen at 2. by rewrite length_replicate. }
  assert (zlen (T ++ ztake 4067 msg) = Z.min (27 + zlen msg) (4096 - 2)) as Hmin.
  { rewrite zlen_app, HT, zlen_ztake_min by lia. lia. }
  pose proof (zlen_nonneg u). rewrite <- Hmin, Hp.
  assert (holds (u ++ c :: replicate k chr_nl) m) as Hu.
  { replace (u ++ c :: replicate k chr_nl) with (T ++ ztake 4067 msg); [done|].
    rewrite Ex, app_assoc, Eu, <- app_assoc. done. }
  rewrite (trim_nl_ok k u c) by (done || lia). cbn [mbind outcome_bind].
  rewrite Huy. replace (zlen u + 2) with (zlen (T ++ y) + 1) by lia.
  destruct (format_end (T ++ y) (replicate k chr_nl) m) as (m' & Hm' & Hl' & Hh'); [| lia|].
  { by rewrite Eu, <- app_assoc. }
  rewrite bind_assoc_outcome, Hm'. cbn [mbind outcome_bind]. exists m'. split_and!; [|lia|].
  - do 2 f_equal. change (tm ++ str " " ++ y ++ [chr_nl]) with (tm ++ (str " " ++ (y ++ [chr_nl]))).
    rewrite (app_assoc tm). fold T. rewrite (app_assoc T), !zlen_app. done.
  - rewrite <- !app_assoc. unfold T in Hh'. by rewrite <- !app_assoc in Hh'.
Qed.

(** A logger whose descriptor is the file of its name. *)
Definition log_wf (i : nat) (s : Logger * fs) : Prop :=
  let '(l, d) := s in
  filename_ l ≠ [] ∧ 0 ≤ log_fd_ l ∧ rotateInterval_ l ≠ 0
  ∧ fds d !! log_fd_ l = Some i ∧ dir d !! filename_ l = Some i
  ∧ ∀ n j, dir d !! n = Some j → (j < next_ino d)%nat.

(** ** Rotation from several threads *)

(** A call of MaybeRotate: before its first test, before the store to
    lastRotate_, before the exchange, with the old value of realRotate_, about
    to rename, returned. *)
Inductive rot_pc : Type := RTest | RLast | RExch | RCheck (old : Z) | RRename | RDone.

Record rot : Type := mkRot {
  r_last : Z;
  r_real : Z;
  r_calls : list (Z * rot_pc);    (* the clock each call read, and where it is *)
  renames : nat;
}.

Section Rotation.
(** The interval of a time. *)
Context (f : Z → Z).

(** One shared access of the call [i]. *)
Definition rot_next (i : nat) (r : rot) : option rot :=
  match r_calls r !! i with
  | Some (now, pc) =>
      let goto pc := <[i := (now, pc)]> (r_calls r) in
      match pc with
      | RTest => Some (mkRot (r_last r) (r_real r)
                         (goto (if f now =? f (r_last r) then RDone else RLast)) (renames r))
      | RLast => Some (mkRot now (r_real r) (goto RExch) (renames r))
      | RExch => Some (mkRot (r_last r) now (goto (RCheck (r_real r))) (renames r))
      | RCheck old => Some (mkRot (r_last r) (r_real r)
                              (goto (if f old =? f (r_last r) then RDone else RRename)) (renames r))
      | RRename => Some (mkRot (r_last r) (r_real r) (goto RDone) (S (renames r)))
      | RDone => None
      end
  | None => None
  end.

Definition rot_step (r r' : rot) : Prop := ∃ i, rot_next i r = Some r'.

(** Calls that rename or are going to. *)
Definition renaming (D : Z) (c : Z * rot_pc) : nat :=
  match c.2 with
  | RCheck old => if f old =? D then 0 else 1
  | RRename => 1
  | _ => 0
  end.

Definition rot_inv (D : Z) (r : rot) : Prop :=
  Forall (λ c, f c.1 = D) (r_calls r)
  ∧ (f (r_last r) ≠ D → f (r_real r) ≠ D ∧ Forall (λ c, c.2 = RTest ∨ c.2 = RLast) (r_calls r))
  ∧ (f (r_last r) = D → f (r_real r) ≠ D → Exists (λ c, c.2 = RExch) (r_calls r))
  ∧ (renames r + sum_list_with (renaming D) (r_calls r) = if decide (f (r_real r) = D) then 1 else 0)%nat.

Lemma rot_next_inv D i r r' : rot_inv D r → rot_next i r = Some r' → rot_inv D r'.
Proof.
  intros (Hall & Hlo & Hhi & Hsum) Hn. unfold rot_next in Hn.
  destruct (r_calls r !! i) as [[now pc]|] eqn:Hi; [|done].
  assert (f now = D) as Hnow by (eapply (Forall_lookup_1 _ _ _ _ Hall) in Hi; done).
  assert (∀ pc', Forall (λ c, f c.1 = D) (<[i := (now, pc')]> (r_calls r))) as Hall'.
  { intros. by apply Forall_insert. }
  pose proof (λ y, sum_insert_at (renaming D) _ _ _ y Hi) as Hs.
  assert (pc ≠ RTest → pc ≠ RLast → f (r_last r) = D) as Hlast.
  { intros ??. destruct (decide (f (r_last r) = D)) as [|Hne]; [done|].
    apply Hlo in Hne as [_ Hf]. apply (Forall_lookup_1 _ _ _ _ Hf) in Hi. simpl in Hi. tauto. }
  assert (∀ y, pc ≠ RExch → Exists (λ c, c.2 = RExch) (r_calls r) →
               Exists (λ c, c.2 = RExch) (<[i := y]> (r_calls r))) as Hex.
  { intros y ? He. by eapply Exists_insert_other. }
  destruct pc; simplify_eq/=; unfold rot_inv; simpl.
  - destruct (Z.eqb_spec (f now) (f (r_last r))) as [He|He]; split_and!; auto; try congruence.
    + specialize (Hs (now, RDone)). cbn [renaming snd] in Hs. lia.
    + intros Hne. destruct (Hlo Hne). split; [done|]. apply Forall_insert; auto.
    + specialize (Hs (now, RLast)). cbn [renaming snd] in Hs. lia.
  - split_and!; auto; try congruence.
    + intros _ _. eapply Exists_insert_at; [exact Hi|done].
    + specialize (Hs (now, RExch)). cbn [renaming snd] in Hs. lia.
  - split_and!; auto.
    + intros Hne. by destruct Hne; apply Hlast.
    + specialize (Hs (now, RCheck (r_real r))). cbn [renaming snd] in Hs.
      rewrite decide_True by done.
      destruct (Z.eqb_spec (f (r_real r)) (f now)); [rewrite decide_True in Hsum by done
        |rewrite decide_False in Hsum by done]; lia.
  - rewrite Hlast by done. split_and!; auto.
    + done.
    + specialize (Hs (now, if f old =? f now then RDone else RRename)). cbn [renaming snd] in Hs.
      destruct (f old =? f now); cbn [renaming snd] in Hs; lia.
  - rewrite Hlast by done. split_and!; auto.
    + intros Hne. done.
    + specialize (Hs (now, RDone)). cbn [renaming snd] in Hs. lia.
Qed.

Lemma rot_reach_inv D r0 r : rot_inv D r0 → rtc rot_step r0 r → rot_inv D r.
Proof. intros H. apply rtc_invariant; [done|]. intros x y Hx [i Hy]. by eapply rot_next_inv. Qed.
End Rotation.

(** ** Theorems *)

(** C37: the line of a log call.  Whatever the message, Write stays inside its
    array and terminates; when the level is enabled it appends, after a possible
    rotation, exactly the 26 characters of the time, a space, the message cut at
    4067 bytes without the newlines at its end, and one newline; for errors it
    gives syslog the same text without the time.  A disabled level does
    nothing. *)
Theorem log_line (tz level now : Z) (stamp tm : bytes) (newfd : Z) (msg : bytes) (s s' : Logger * fs) :
  zlen tm = 26 → 0 ∉ msg → MaybeRotate tz now stamp newfd s = Ret s' →
  Write tz level now stamp tm newfd msg s =
    if level_ s.1 <? level then Ret (s, None)
    else Ret (s'.1, write (if log_fd_ s'.1 =? -1 then 1 else log_fd_ s'.1)
                      (tm ++ str " " ++ log_text msg) s'.2,
              if level <=? LERROR then Some (log_text msg) else None).
Proof.
  intros Htm Hmsg Hrot. unfold Write. destruct (level_ s.1 <? level); [done|].
  rewrite Hrot. cbn [mbind outcome_bind].
  destruct (format_line_ok tm msg Htm) as (m & -> & Hlen & Hh). cbn [mbind outcome_bind fst snd].
  set (line := tm ++ str " " ++ log_text msg).
  assert (loads (Z.to_nat (zlen line)) m 0 = Ret line) as Hloads.
  { unfold zlen at 1. rewrite Nat2Z.id. apply (loads_ok line [] [0]). simpl.
    unfold line. by rewrite <- !app_assoc. }
  rewrite Hloads. cbn [mbind outcome_bind]. destruct (level <=? LERROR); [|done].
  replace 27 with (zlen (tm ++ str " ")) by (rewrite zlen_app, Htm; done).
  rewrite (load_str_ok (log_text msg)); [done| | |].
  - by rewrite <- app_assoc.
  - unfold log_text. intros [H|H]%elem_of_app; [|apply list_elem_of_singleton in H; done].
    apply Hmsg. destruct (strip_nl_spec (ztake 4067 msg)) as (k & E & _).
    apply (elem_of_ztake 4067). rewrite E. apply elem_of_app. by left.
  - apply holds_len in Hh. autorewrite with jnet in Hh. change (zlen (str " ")) with 1 in Hh.
    unfold zlen in *. lia.
Qed.

Lemma log_line_witness :
  Write 0 LINFO 86401 [] (replicate 26 65) 9 (str "hello" ++ [10; 10]) (Logger_new 86400, mkFs ∅ ∅ ∅ 0)
  = Ret (Logger_new 86400, write 1 (replicate 26 65 ++ str " hello" ++ [10]) (mkFs ∅ ∅ ∅ 0), None).
Proof.
  etransitivity; [apply (log_line 0 LINFO 86401 [] (replicate 26 65) 9 (str "hello" ++ [10; 10])
                           (Logger_new 86400, mkFs ∅ ∅ ∅ 0) (Logger_new 86400, mkFs ∅ ∅ ∅ 0))|done].
  - done.
  - by_decide.
  - done.
Defined.

(** Starting a new file.  On a logger whose descriptor is the file of its
    name, MaybeRotate changes no file while the interval of the last rotation
    lasts.  When it is over the old file keeps its lines under the new name, and
    the name and the descriptor are a new, empty file, so later lines go there;
    the descriptor is the file of the name again. *)
Theorem rotation_keeps_lines (tz now fd : Z) (stamp : bytes) (l : Logger) (d : fs) (i : nat) :
  log_wf i (l, d) → stamp ≠ [] → 0 ≤ fd → fd ≠ log_fd_ l →
  let day t := Z.quot (t - tz) (rotateInterval_ l) in
  ∃ l' d' i', MaybeRotate tz now stamp fd (l, d) = Ret (l', d') ∧ log_wf i' (l', d') ∧
    if (day now =? day (lastRotate_ l)) || (day (realRotate_ l) =? day now)
    then d' = d
    else dir d' !! (filename_ l ++ stamp) = Some i ∧ i' = next_ino d ∧ data d' = <[i' := []]> (data d).
Proof.
  intros (Hn & Hf & Hiv & Hfd & Hdir & Hino) Hst Hfd0 Hne day.
  assert (∀ t, interval_of tz l t = Ret (day t)) as Hday.
  { intros t. unfold interval_of. by rewrite (proj2 (Z.eqb_neq _ 0)). }
  unfold MaybeRotate. rewrite bool_decide_false by done. rewrite !Hday. cbn [mbind outcome_bind].
  destruct (day now =? day (lastRotate_ l)); [by exists l, d, i|]. cbn [orb].
  set (l' := mkLogger _ _ _ _ _ _). change (interval_of tz l') with (interval_of tz l).
  rewrite !Hday. cbn [mbind outcome_bind lastRotate_ l'].
  destruct (day (realRotate_ l) =? day now); [by exists l', d, i|].
  unfold rename. simpl (filename_ l'). rewrite Hdir. cbn [negb].
  rewrite (proj2 (Z.ltb_ge fd 0)) by lia.
  assert (filename_ l ++ stamp ≠ filename_ l) as Hname.
  { intros E%(f_equal length). rewrite length_app in E. destruct stamp; [done|simpl in E; lia]. }
  eexists _, _, (next_ino d). split; [done|].
  unfold open_append. rewrite (proj2 (Z.ltb_ge fd 0)) by lia. simpl.
  rewrite lookup_insert_ne, lookup_delete_eq by done. unfold dup2_close. simpl.
  rewrite lookup_insert_eq. simpl. split; [|split_and!; [|done|done]].
  - split_and!; simpl; try done.
    + by rewrite lookup_delete_ne, lookup_insert_eq by done.
    + by rewrite lookup_insert_eq.
    + intros n j. rewrite !lookup_insert_Some, lookup_delete_Some.
      intros [[_ <-]|[_ [[_ <-]|[_ [_ Hj]]]]]; [lia| |]; [apply Hino in Hdir|apply Hino in Hj]; lia.
  - by rewrite lookup_insert_ne, lookup_insert_eq by done.
Qed.

Lemma rotation_keeps_lines_witness :
  ∃ l' d' i',
    MaybeRotate 0 86400 (str "2") 5
      (mkLogger 3 LALL 7 7 86400 (str "a.log"), mkFs {[str "a.log" := 0%nat]} {[3 := 0%nat]} {[0%nat := str "x"]} 1)
      = Ret (l', d') ∧ log_wf i' (l', d') ∧
    dir d' !! (str "a.log" ++ str "2") = Some 0%nat ∧ i' = 1%nat ∧ data d' = <[i' := []]> {[0%nat := str "x"]}.
Proof.
  destruct (rotation_keeps_lines 0 86400 5 (str "2") (mkLogger 3 LALL 7 7 86400 (str "a.log"))
              (mkFs {[str "a.log" := 0%nat]} {[3 := 0%nat]} {[0%nat := str "x"]} 1) 0)
    as (l' & d' & i' & H1 & H2 & H3); try done.
  - split_and!; try done. simpl. intros n j [_ <-]%lookup_singleton_Some. lia.
  - exists l', d', i'. split; [exact H1|]. split; [exact H2|].
    replace (_ || _) with false in H3 by (by vm_compute). exact H3.
Defined.

(** C38: one rotation for all threads.  When several threads log after the
    interval [D] began, with the last rotation before it, then in every
    interleaving of their accesses at most one of them renames the file, and
    once all calls have returned exactly one has: the atomic exchange decides
    which. *)
Theorem rotate_once (f : Z → Z) (D last real : Z) (nows : list Z) (r : rot) :
  f last ≠ D → f real ≠ D → Forall (λ t, f t = D) nows →
  rtc (rot_step f) (mkRot last real ((λ t, (t, RTest)) <$> nows) 0) r →
  (renames r ≤ 1)%nat ∧
  (nows ≠ [] → Forall (λ c, c.2 = RDone) (r_calls r) → length (r_calls r) = length nows → renames r = 1%nat).
Proof.
  intros Hl Hr Hn Hrtc. apply (rot_reach_inv f D) in Hrtc as (Hall & Hlo & Hhi & Hsum).
  - split; [destruct (decide (f (r_real r) = D)); lia|]. intros Hne Hdone Hlen.
    destruct (r_calls r) as [|c cs] eqn:Ec; [by destruct nows|].
    assert (f (r_last r) = D) as HD.
    { destruct (decide (f (r_last r) = D)) as [|[_ Hf]%Hlo]; [done|].
      apply Forall_cons in Hf as [Hf _], Hdone as [Hd _]. rewrite Hd in Hf. by destruct Hf. }
    destruct (decide (f (r_real r) = D)) as [HR|HR].
    + assert (sum_list_with (renaming f D) (c :: cs) = 0%nat) as E; [|lia].
      clear -Hdone. induction Hdone as [|[] ? Hd ? IH]; simpl in *; [done|]. by subst.
    + apply Exists_exists in Hhi as (x & Hx & Hx2); [|done..].
      rewrite Forall_forall in Hdone. apply Hdone in Hx. congruence.
  - split_and!; simpl; try done.
    + rewrite Forall_fmap. done.
    + intros _. split; [done|]. rewrite Forall_fmap. apply Forall_true. by left.
    + rewrite decide_False by done. clear. induction nows; simpl; auto.
Qed.

(** A schedule of the threads. *)
Fixpoint rot_run (f : Z → Z) (sched : list nat) (r : rot) : option rot :=
  match sched with [] => Some r | i :: sched => r ← rot_next f i r; rot_run f sched r end.

Lemma rot_run_rtc f sched r r' : rot_run f sched r = Some r' → rtc (rot_step f) r r'.
Proof.
  revert r. induction sched as [|i sched IH]; intros r H; cbn in H; [injection H as <-; apply rtc_refl|].
  apply bind_Some in H as (r1 & H1 & H). eapply rtc_l; [by exists i|by apply IH].
Qed.

Definition demo_rotated : rot := mkRot 11 10 [(10, RDone); (11, RDone)] 1.

Lemma rotate_once_witness : (renames demo_rotated ≤ 1)%nat ∧ renames demo_rotated = 1%nat.
Proof.
  destruct (rotate_once (λ t, t / 10) 1 5 5 [10; 11] demo_rotated) as [H1 H2].
  - done.
  - done.
  - by repeat constructor.
  - apply (rot_run_rtc _ [0; 1; 0; 1; 1; 0; 1; 0; 1]%nat). by vm_compute.
  - split; [exact H1|]. apply H2; [done|by repeat constructor|done].
Defined.

(** Level names: the name of a level sets it again in any case, but TRACE is
    spelled TRAVE in the table, so the name "trace" sets the default INFO. *)
Theorem level_names (l : Logger) :
  (∀ level, 0 ≤ level ≤ 6 →
     ∃ s, GetLogLevelStr (SetLogLevel level l) = Ret s ∧ level_ (SetLogLevel_str (tolower <$> s) l) = level)
  ∧ level_ (SetLogLevel_str (str "trace") l) = LINFO.
Proof.
  split; [|done]. intros level Hl.
  assert (level = 0 ∨ level = 1 ∨ level = 2 ∨ level = 3 ∨ level = 4 ∨ level = 5 ∨ level = 6) as Hc by lia.
  destruct_or! Hc; subst; eexists; (split; [reflexivity|by vm_compute]).
Qed.
