(* ===== verification/Daemon.v ===== *)
(** * net/daemon.cc: running as a daemon

    The pid file and the commands start, stop and restart.  The system is its
    pid file and the answers of kill(2): the k-th call of kill gets the answer
    [kill k pid].  The other system calls succeed or fail as [env] says; fork
    leaves the process [child] running this code, the others exit. *)

From S2P Require Import Prelude Text.

(** ** The system *)

Inductive kill_res : Type := KOk | KPerm | KSrch.
#[export] Instance kill_res_eq_dec : EqDecision kill_res.
Proof. solve_decision. Defined.

Record world : Type := mkWorld {
  pidfile : option bytes;     (* None: there is no such file *)
  kills : nat;                (* calls of kill so far *)
}.

Record env : Type := mkEnv {
  open_ok : bool;      (* open of the pid file for writing *)
  lock_ok : bool;      (* lockf *)
  write_ok : bool;     (* the whole text was written *)
  null_ok : bool;      (* open of /dev/null *)
  ppid : Z;
  child : Z;
}.

(** ** The pid file *)

(** "%d\n" *)
Definition pid_text (pid : Z) : bytes := printf_d 0 pid ++ [chr_nl].

(** WritePidFile: O_TRUNC empties the file before the lock is tried. *)
Definition WritePidFile (e : env) (w : world) : Z * world :=
  if negb (open_ok e) then (-1, w)
  else if negb (lock_ok e) then (-1, mkWorld (Some []) (kills w))
  else if negb (write_ok e) then (-1, mkWorld (Some []) (kills w))
  else (0, mkWorld (Some (pid_text (child e))) (kills w)).

(** strchr(buffer, '\n') on memory cells: the position, or nothing; it fails
    when it reads an indeterminate cell or leaves the array. *)
Fixpoint strchr_nl (m : list (option Z)) (i : Z) : outcome (option Z) :=
  match m with
  | [] => Fault OutOfBounds
  | None :: _ => Fault UninitRead
  | Some c :: m =>
      if c =? chr_nl then Ret (Some i)
      else if c =? 0 then Ret None
      else strchr_nl m (i + 1)
  end.

(** GetPidFromFile on the content of the file. *)
Definition GetPidFromFile (w : world) : outcome Z :=
  match pidfile w with
  | None => Ret (-1)
  | Some content =>
      let got := ztake 64 content in
      if zlen got <=? 0 then Ret (-1)
      else
        let buffer := (Some <$> got) ++ replicate (64 - length got) None in
        let buffer := zsplice 63 [Some 0] buffer in
        p ← strchr_nl buffer 0;
        match p with
        | None => Ret (-1)
        | Some i => v ← Atoi (ztake i got ++ [0]); Ret (i32 v)
        end
  end.

Section WithSystem.
Context (kill : nat → Z → kill_res).

(** kill(pid, sig): the answer and the count. *)
Definition do_kill (pid : Z) (w : world) : kill_res * world :=
  (kill (kills w) pid, mkWorld (pidfile w) (S (kills w))).

Definition unlink (w : world) : world := mkWorld None (kills w).

(** ** The commands *)

(** DaemonStart, from the check of a running daemon to the redirection *)
Definition DaemonStart (e : env) (w : world) : outcome (Z * world) :=
  pid ← GetPidFromFile w;
  let '(running, w) :=
    if 0 <? pid then let '(r, w) := do_kill pid w in (negb (bool_decide (r = KSrch)), w)
    else (false, w) in
  if running then Ret (-1, w)
  else if ppid e =? 1 then Ret (-1, w)
  else
    let '(ret, w) := WritePidFile e w in
    if negb (ret =? 0) then Ret (ret, w)
    else if null_ok e then Ret (0, w) else Ret (-1, w).

(** The loop of DaemonStop: signals until the process is gone. *)
Fixpoint stop_loop (i : nat) (pid : Z) (w : world) : Z * world :=
  match i with
  | O => (-1, w)
  | S i =>
      let '(r, w) := do_kill pid w in
      if bool_decide (r = KOk) then stop_loop i pid w else (0, unlink w)
  end.

Definition DaemonStop (w : world) : outcome (Z * world) :=
  pid ← GetPidFromFile w;
  if pid <=? 0 then Ret (-1, w)
  else
    let '(r, w) := do_kill pid w in
    if negb (bool_decide (r = KOk)) then Ret (-1, w)
    else Ret (stop_loop 1000 pid w).

Definition DaemonRestart (e : env) (w : world) : outcome (Z * world) :=
  pid ← GetPidFromFile w;
  if 0 <? pid then
    let '(r, w) := do_kill pid w in
    match r with
    | KOk => s ← DaemonStop w; if s.1 <? 0 then Ret s else DaemonStart e s.2
    | KPerm => Ret (-1, w)
    | KSrch => DaemonStart e w
    end
  else DaemonStart e w.

(** How DaemonProcess ends: it returns, or the process exits with a code. *)
Inductive ending : Type := Returns | Exits (code : Z).

Definition DaemonProcess (cmd : option bytes) (e : env) (w : world) : outcome (ending * world) :=
  let finish (r : Z * world) := Ret (if r.1 =? 0 then Returns else Exits 1, r.2) in
  let cmd_is s := bool_decide (cmd = Some (str s)) in
  if bool_decide (cmd = None) || cmd_is "start"%string then r ← DaemonStart e w; finish r
  else if cmd_is "stop"%string then
    r ← DaemonStop w; if r.1 =? 0 then Ret (Exits 0, r.2) else finish r
  else if cmd_is "restart"%string then r ← DaemonRestart e w; finish r
  else Ret (Exits 1, w).

End WithSystem.

(** ** Lemmas *)

Lemma strchr_nl_found l i m :
  chr_nl ∉ l → 0 ∉ l → strchr_nl ((Some <$> l) ++ (Some chr_nl :: m)) i = Ret (Some (i + zlen l)).
Proof.
  revert i. induction l as [|c l IH]; intros i Hn H0; simpl.
  - rewrite zlen_nil, Z.add_0_r. done.
  - apply not_elem_of_cons in Hn as [Hc Hn], H0 as [Hc0 H0].
    rewrite (proj2 (Z.eqb_neq c chr_nl)), (proj2 (Z.eqb_neq c 0)) by done.
    rewrite IH by done. do 2 f_equal. rewrite zlen_cons. lia.
Qed.

(** A pid has at most ten digits. *)
Lemma pid_digits pid :
  0 < pid < 2 ^ 31 →
  printf_d 0 pid = dec pid ∧ zlen (dec pid) ≤ 10 ∧ (chr_nl ∉ dec pid) ∧ (0 ∉ dec pid).
Proof.
  intros Hp. split_and!.
  - unfold printf_d. by rewrite (proj2 (Z.ltb_ge pid 0)) by lia.
  - assert (length (dec pid) ≤ 10)%nat; [|unfold zlen; lia].
    apply (dec_digits_length _ 9). simpl. lia.
  - intros H. pose proof (dec_digits_digit (S (Z.to_nat (Z.log2 pid))) pid) as Hd.
    rewrite Forall_forall in Hd. apply Hd in H; lia.
  - intros H. pose proof (dec_digits_digit (S (Z.to_nat (Z.log2 pid))) pid) as Hd.
    rewrite Forall_forall in Hd. apply Hd in H; lia.
Qed.

Lemma get_pid_text pid k :
  0 < pid < 2 ^ 31 → GetPidFromFile (mkWorld (Some (pid_text pid)) k) = Ret pid.
Proof.
  intros Hp. destruct (pid_digits pid Hp) as (Ht & Hl & Hn & H0).
  unfold GetPidFromFile, pid_text. cbn [pidfile]. rewrite Ht.
  rewrite ztake_all by (rewrite zlen_app; change (zlen [chr_nl]) with 1; lia).
  pose proof (zlen_nonneg (dec pid)).
  rewrite (proj2 (Z.leb_gt _ 0)) by (rewrite zlen_app; change (zlen [chr_nl]) with 1; lia).
  assert (∃ m, zsplice 63 [Some 0] ((Some <$> dec pid ++ [chr_nl])
                 ++ replicate (64 - length (dec pid ++ [chr_nl])) None)
               = (Some <$> dec pid) ++ (Some chr_nl :: m)) as (m & ->).
  { unfold zsplice. rewrite fmap_app, <- !app_assoc. unfold ztake at 1.
    rewrite take_app_ge by (rewrite length_fmap; unfold zlen in *; lia).
    rewrite <- app_assoc. simpl. rewrite length_fmap.
    destruct (Z.to_nat 63 - length (dec pid))%nat eqn:E; [unfold zlen in *; lia|].
    by eexists. }
  rewrite strchr_nl_found by done. cbn [mbind outcome_bind]. rewrite Z.add_0_l, ztake_app_length.
  unfold Atoi. rewrite c_str_app by done. cbn [mbind outcome_bind].
  rewrite <- (app_nil_r (dec pid)), strtol_dec; [|unfold int64_max; lia|done].
  f_equal. apply swrap_id; lia.
Qed.

(** Whether the daemon of the pid file answers signals. *)
Lemma stop_loop_spec kill n pid w :
  stop_loop kill n pid w = (-1, mkWorld (pidfile w) (n + kills w))
    ∧ (∀ i, (i < n)%nat → kill (i + kills w)%nat pid = KOk)
  ∨ ∃ i, (i < n)%nat ∧ kill (i + kills w)%nat pid ≠ KOk
      ∧ (∀ j, (j < i)%nat → kill (j + kills w)%nat pid = KOk)
      ∧ stop_loop kill n pid w = (0, mkWorld None (S (i + kills w))).
Proof.
  revert w. induction n as [|n IH]; intros w; simpl.
  { left. split; [by destruct w|]. intros i Hi. lia. }
  case_bool_decide as Hk.
  - destruct (IH (mkWorld (pidfile w) (S (kills w)))) as [[-> Hall]|(i & Hi & Hki & Hj & ->)]; simpl in *.
    + left. split; [do 2 f_equal; lia|]. intros [|i] Hi; [done|]. specialize (Hall i ltac:(lia)).
      by rewrite Nat.add_succ_r in Hall.
    + right. exists (S i). rewrite Nat.add_succ_r in Hki. split_and!; [lia|done| |by rewrite Nat.add_succ_r].
      intros [|j] ?; [done|]. specialize (Hj j ltac:(lia)). by rewrite Nat.add_succ_r in Hj.
  - right. exists 0%nat. split_and!; [lia|done| |done]. intros j Hj. lia.
Qed.

Lemma DaemonStop_eq kill pid k :
  0 < pid < 2 ^ 31 →
  DaemonStop kill (mkWorld (Some (pid_text pid)) k) =
    Ret (if bool_decide (kill k pid = KOk)
         then stop_loop kill 1000 pid (mkWorld (Some (pid_text pid)) (S k))
         else (-1, mkWorld (Some (pid_text pid)) (S k))).
Proof.
  intros Hp. unfold DaemonStop. rewrite get_pid_text by done. cbn [mbind outcome_bind].
  rewrite (proj2 (Z.leb_gt pid 0)) by lia. cbn [do_kill kills pidfile]. by case_bool_decide.
Qed.

(** ** Theorems *)

(** The pid file.  What WritePidFile writes, GetPidFromFile reads back, for
    every process id; and a second start finds the running daemon: while the
    process answers kill (or may not be signalled) DaemonStart returns -1 and
    leaves the file, and when it does not and the system calls succeed the file
    names the new process. *)
Theorem daemon_start_spec (kill : nat → Z → kill_res) (e : env) (pid : Z) (k : nat) :
  0 < pid < 2 ^ 31 → 0 < child e < 2 ^ 31 → ppid e ≠ 1 →
  open_ok e = true → lock_ok e = true → write_ok e = true → null_ok e = true →
  GetPidFromFile (mkWorld (Some (pid_text pid)) k) = Ret pid ∧
  DaemonStart kill e (mkWorld (Some (pid_text pid)) k) =
    Ret (if bool_decide (kill k pid = KSrch)
         then (0, mkWorld (Some (pid_text (child e))) (S k))
         else (-1, mkWorld (Some (pid_text pid)) (S k))).
Proof.
  intros Hp Hc Hpp Ho Hlk Hw Hn. split; [by apply get_pid_text|].
  unfold DaemonStart. rewrite get_pid_text by done. cbn [mbind outcome_bind].
  rewrite (proj2 (Z.ltb_lt 0 pid)) by lia. cbn [do_kill kills pidfile].
  case_bool_decide; simpl; [|done]. rewrite (proj2 (Z.eqb_neq _ 1)) by done.
  unfold WritePidFile. rewrite Ho, Hlk, Hw. simpl. by rewrite Hn.
Qed.

Lemma daemon_start_spec_witness :
  GetPidFromFile (mkWorld (Some (pid_text 4711)) 0) = Ret 4711 ∧
  DaemonStart (λ _ _, KSrch) (mkEnv true true true true 7 4712) (mkWorld (Some (pid_text 4711)) 0)
  = Ret (0, mkWorld (Some (pid_text 4712)) 1).
Proof.
  apply (daemon_start_spec (λ _ _, KSrch) (mkEnv true true true true 7 4712) 4711 0); simpl; done || lia.
Defined.

(** Stop and restart.  For a daemon that answers the first signals and is
    gone at signal [n] of the up to 1001 that DaemonStop sends, restart ends
    with the new process in the pid file; DaemonStop always ends, after at most
    1001 signals, with 0 and no pid file when a signal was no longer taken, and
    with -1 and the file as it was otherwise. *)
Theorem daemon_stop_restart (kill : nat → Z → kill_res) (e : env) (pid : Z) (k : nat) :
  0 < pid < 2 ^ 31 → 0 < child e < 2 ^ 31 → ppid e ≠ 1 →
  open_ok e = true → lock_ok e = true → write_ok e = true → null_ok e = true →
  (∃ r w', DaemonStop kill (mkWorld (Some (pid_text pid)) k) = Ret (r, w')
     ∧ (kills w' ≤ k + 1001)%nat
     ∧ (r = 0 ∧ pidfile w' = None ∧ kill (pred (kills w')) pid ≠ KOk
        ∨ r = -1 ∧ pidfile w' = Some (pid_text pid)))
  ∧ (∀ n, (2 ≤ n ≤ 1001)%nat →
       (∀ i, (i < n)%nat → kill (i + k)%nat pid = KOk) → kill (n + k)%nat pid ≠ KOk →
       DaemonRestart kill e (mkWorld (Some (pid_text pid)) k)
       = Ret (0, mkWorld (Some (pid_text (child e))) (S (n + k)))).
Proof.
  intros Hp Hc Hpp Ho Hlk Hw Hn. pose proof (λ k, DaemonStop_eq kill pid k Hp) as Hstop.
  split.
  - rewrite Hstop. case_bool_decide as Hk.
    + destruct (stop_loop_spec kill 1000 pid (mkWorld (Some (pid_text pid)) (S k)))
        as [[-> _]|(i & Hi & Hki & _ & ->)]; cbn [pidfile kills] in *.
      * eexists _, _. split; [done|]. cbn [pidfile kills]. split; [lia|]. by right.
      * eexists _, _. split; [done|]. cbn [pidfile kills]. split; [lia|]. left. done.
    + eexists _, _. split; [done|]. cbn [pidfile kills]. split; [lia|]. by right.
  - intros n Hnn Hok Hgone. unfold DaemonRestart. rewrite get_pid_text by done. cbn [mbind outcome_bind].
    rewrite (proj2 (Z.ltb_lt 0 pid)) by lia. cbn [do_kill kills pidfile].
    pose proof (Hok 0%nat ltac:(lia)) as H0. simpl in H0. rewrite H0, Hstop.
    pose proof (Hok 1%nat ltac:(lia)) as H1. rewrite bool_decide_true by done. cbn [mbind outcome_bind].
    destruct (stop_loop_spec kill 1000 pid (mkWorld (Some (pid_text pid)) (S (S k))))
      as [[-> Hall]|(i & Hi & Hki & Hj & ->)]; cbn [pidfile kills] in *.
    + exfalso. apply Hgone. specialize (Hall (n - 2)%nat ltac:(lia)).
      by replace (n - 2 + S (S k))%nat with (n + k)%nat in Hall by lia.
    + assert (i = n - 2)%nat as ->.
      { destruct (lt_eq_lt_dec i (n - 2)) as [[Hlt| ->]|Hgt]; [|done|]; exfalso.
        - apply Hki. replace (i + S (S k))%nat with (S (S i) + k)%nat by lia. apply Hok. lia.
        - apply Hgone. replace (n + k)%nat with (n - 2 + S (S k))%nat by lia. apply Hj. lia. }
      cbn [fst snd Z.ltb Z.compare]. unfold DaemonStart. cbn [GetPidFromFile pidfile mbind outcome_bind].
      simpl. rewrite (proj2 (Z.eqb_neq _ 1)) by done. unfold WritePidFile. rewrite Ho, Hlk, Hw. simpl.
      rewrite Hn. do 3 f_equal. lia.
Qed.

Lemma daemon_stop_restart_witness :
  (∃ r w', DaemonStop (λ i _, if (i <? 5)%nat then KOk else KSrch) (mkWorld (Some (pid_text 77)) 0) = Ret (r, w')
     ∧ (kills w' ≤ 0 + 1001)%nat
     ∧ (r = 0 ∧ pidfile w' = None ∧ (if (pred (kills w') <? 5)%nat then KOk else KSrch) ≠ KOk
        ∨ r = -1 ∧ pidfile w' = Some (pid_text 77)))
  ∧ DaemonRestart (λ i _, if (i <? 5)%nat then KOk else KSrch) (mkEnv true true true true 7 78)
      (mkWorld (Some (pid_text 77)) 0) = Ret (0, mkWorld (Some (pid_text 78)) 6).
Proof.
  destruct (daemon_stop_restart (λ i _, if (i <? 5)%nat then KOk else KSrch)
              (mkEnv true true true true 7 78) 77 0) as [H1 H2];
    [simpl; lia|simpl; lia|done..|].
  split; [exact H1|]. apply (H2 5%nat); [lia| |done].
  intros i Hi. rewrite Nat.add_0_r. apply Nat.ltb_lt in Hi. by rewrite Hi.
Defined.

(** A pid file whose text has not been completed makes GetPidFromFile search
    uninitialised memory for the end of the line. *)
Theorem partial_pid_file_uninit : GetPidFromFile (mkWorld (Some (str "471")) 0) = Fault UninitRead.
Proof. by vm_compute. Qed.
