(* ===== verification/ProcessInfo.v ===== *)
(** * net/processinfo.h, net/processinfo.cc: what the process knows of itself

    What the kernel and the C library answer is a record of the model: the files
    under /proc (as answers of open and read, Status.v), directory listings in
    the kernel's order, links, names and limits.  The two thread-local variables
    that the directory filters use are explicit state. *)

From stdpp Require Import sorting.
From S2P Require Import Prelude Time Text Status.

(** ** The system *)

Record System : Type := mkSystem {
  sys_file : bytes → bool * list read_res;      (* open succeeds, answers of read *)
  sys_errno : Z;
  sys_errstr : bytes;
  sys_dir : bytes → option (list bytes);        (* scandir: names of the entries *)
  sys_link : bytes → option bytes;              (* readlink *)
  sys_hostname : option bytes;                  (* gethostname *)
  sys_passwd : Z → option bytes;                (* getpwuid_r: pw_name *)
  sys_pid : Z;
  sys_tid : Z;
  sys_uid : Z;
  sys_euid : Z;
  sys_times : option (Z * Z);                   (* times: tms_utime, tms_stime *)
}.

(** g_startTime, g_clockTicks, g_pageSize and g_openMax, set before main. *)
Record Globals : Type := mkGlobals {
  g_startTime : Z;
  g_clockTicks : Z;
  g_pageSize : Z;
  g_openMax : Z;
}.

(** The answers of sysconf are long, the variables int. *)
Definition Globals_init (now clk page open_max : Z) : Globals := mkGlobals now (i32 clk) (i32 page) (i32 open_max).

(** The variables of the thread; [t_pids] points to a vector or is null. *)
Record Tls : Type := mkTls { t_numOpenedFiles : Z; t_pids : option (list Z) }.

(** ** Directories *)

Definition first_digit (name : bytes) : bool :=
  match name with c :: _ => isdigit c | [] => false end.

Definition FdDirFilter (name : bytes) (t : Tls) : outcome (bool * Tls) :=
  if first_digit name then
    _ ← require SignedOverflow (t_numOpenedFiles t <? 2 ^ 31 - 1);
    Ret (false, mkTls (t_numOpenedFiles t + 1) (t_pids t))
  else Ret (false, t).

Definition TaskDirFilter (name : bytes) (t : Tls) : outcome (bool * Tls) :=
  if first_digit name then
    pids ← from_option_fault NullDeref (t_pids t);
    n ← Atoi (name ++ [0]);
    Ret (false, mkTls (t_numOpenedFiles t) (Some (pids ++ [i32 n])))
  else Ret (false, t).

(** scandir: the filter sees every entry; the entries it selects are counted. *)
Fixpoint scandir_loop (filter : bytes → Tls → outcome (bool * Tls)) (names : list bytes) (t : Tls)
  : outcome (Z * Tls) :=
  match names with
  | [] => Ret (0, t)
  | name :: names =>
      '(sel, t) ← filter name t;
      '(n, t) ← scandir_loop filter names t;
      Ret ((if sel : bool then 1 else 0) + n, t)
  end.

Definition ScanDir (s : System) (dirpath : bytes) (filter : bytes → Tls → outcome (bool * Tls)) (t : Tls)
  : outcome (Z * Tls) :=
  match sys_dir s dirpath with
  | None => Ret (-1, t)
  | Some names => scandir_loop filter names t
  end.

(** ** ProcessInfo *)

Definition pid (s : System) : Z := sys_pid s.
(** Format("%ld", pid()): the int is printed as a long. *)
Definition pidString (s : System) : outcome bytes := Format true (printf_d 0 (pid s)).
Definition uid (s : System) : Z := sys_uid s.
Definition userName (s : System) : bytes := default (str "unknowuser") (sys_passwd s (uid s)).
Definition euid (s : System) : Z := sys_euid s.
Definition startTime (g : Globals) : Z := g_startTime g.
Definition clockTicksPerSecond (g : Globals) : Z := g_clockTicks g.
Definition pageSize (g : Globals) : Z := g_pageSize g.
Definition maxOpenFiles (g : Globals) : Z := g_openMax g.
(** The build does not define NDEBUG. *)
Definition isDebugBuild : bool := true.

(** gethostname stores the name with its NUL as far as the array goes. *)
Definition hostName (s : System) : outcome bytes :=
  match sys_hostname s with
  | None => Ret (str "unknowhost")
  | Some name => c_str (ztake 255 (name ++ [0]) ++ [0])
  end.

(** File::GetContent into a new string; the Status it returns is destroyed. *)
Definition proc_file (s : System) (name : bytes) (h : heap) : outcome (bytes * heap) :=
  let '(opened, rs) := sys_file s name in
  let '(st, result, h) := GetContent (sys_errno s) (sys_errstr s) name opened rs [] h in
  h ← Status_destroy st h;
  Ret (result, h).

Definition procStat (s : System) : heap → outcome (bytes * heap) := proc_file s (str "/proc/self/stat").
Definition procStatus (s : System) : heap → outcome (bytes * heap) := proc_file s (str "/proc/self/status").

Definition threadStat (s : System) (h : heap) : outcome (bytes * heap) :=
  name ← c_str (snprintf 64 (str "/proc/self/task/" ++ printf_d 0 (sys_tid s) ++ str "/stat"));
  proc_file s name h.

(** s.rfind(c) *)
Fixpoint rfind_byte (c : Z) (s : bytes) (i : Z) : option Z :=
  match s with
  | [] => None
  | x :: s =>
      match rfind_byte c s (i + 1) with
      | Some k => Some k
      | None => if x =? c then Some i else None
      end
  end.

(** The name in parentheses. *)
Definition comm_of (stat : bytes) : bytes :=
  let lp := find_ret (find [40] stat 0) in
  let rp := find_ret (rfind_byte 41 stat 0) in
  if negb (lp =? npos) && negb (rp =? npos) && (lp <? rp)
  then zsub (lp + 1) (rp - lp - 1) stat else [].

Definition procName (s : System) (h : heap) : outcome (bytes * heap) :=
  '(stat, h) ← procStat s h; Ret (comm_of stat, h).

(** readlink writes at most 1024 bytes and no NUL. *)
Definition exePath (s : System) : bytes :=
  match sys_link s (str "/proc/self/exe") with
  | None => []
  | Some target => let n := zlen (ztake 1024 target) in if 0 <? n then ztake 1024 target else []
  end.

Definition openedFiles (s : System) (t : Tls) : outcome (Z * Tls) :=
  '(_, t) ← ScanDir s (str "/proc/self/fd") FdDirFilter (mkTls 0 (t_pids t));
  Ret (t_numOpenedFiles t, t).

(** userSeconds, systemSeconds *)
Definition cpuTime (s : System) (g : Globals) : double * double :=
  match sys_times s with
  | None => (double_of_Z 0, double_of_Z 0)
  | Some (utime, stime) =>
      let hz := double_of_Z (clockTicksPerSecond g) in
      (double_div (double_of_Z utime) hz, double_div (double_of_Z stime) hz)
  end.

(** The number behind the first "Threads:"; c_str() ends the string with a NUL. *)
Definition threads_field (status : bytes) : outcome Z :=
  match find (str "Threads:") status 0 with
  | None => Ret 0
  | Some pos => n ← Atoi (zdrop (pos + 8) (status ++ [0])); Ret (i32 n)
  end.

Definition numThreads (s : System) (h : heap) : outcome (Z * heap) :=
  '(status, h) ← procStatus s h;
  n ← threads_field status;
  Ret (n, h).

(** std::sort on the vector. *)
Definition sort_pids : list Z → list Z := merge_sort Z.le.

Definition threads (s : System) (t : Tls) : outcome (list Z * Tls) :=
  '(_, t) ← ScanDir s (str "/proc/self/task") TaskDirFilter (mkTls (t_numOpenedFiles t) (Some []));
  result ← from_option_fault NullDeref (t_pids t);
  Ret (sort_pids result, mkTls (t_numOpenedFiles t) None).

(** ** Lemmas *)

(** The file [name] can be read, in pieces that make up [text]. *)
Definition serves (s : System) (name text : bytes) : Prop :=
  ∃ ls, sys_file s name = (true, (RBytes <$> ls) ++ [REnd]) ∧ Forall (λ l, zlen l ≤ 4096) ls ∧ concat ls = text.

Lemma proc_file_ok s name text h : serves s name text → proc_file s name h = Ret (text, h).
Proof.
  intros (ls & E & Hls & <-). unfold proc_file. rewrite E. unfold GetContent. cbn [negb].
  by rewrite get_loop_ok by done.
Qed.

Lemma rfind_byte_none c l i : c ∉ l → rfind_byte c l i = None.
Proof.
  revert i. induction l as [|x l IH]; intros i Hc; [done|]. apply not_elem_of_cons in Hc as [Hx Hc].
  cbn. rewrite IH by done. by rewrite (proj2 (Z.eqb_neq x c)).
Qed.

Lemma rfind_byte_last c l s i : c ∉ s → rfind_byte c (l ++ c :: s) i = Some (i + zlen l).
Proof.
  intros Hc. revert i. induction l as [|x l IH]; intros i; cbn.
  - rewrite rfind_byte_none, Z.eqb_refl by done. f_equal. rewrite zlen_nil. lia.
  - rewrite IH, zlen_cons. f_equal. lia.
Qed.

(** The name between the first opening and the last closing parenthesis; it may
    contain both. *)
Lemma comm_of_ok pre name post :
  40 ∉ pre → 41 ∉ post → zlen (pre ++ [40] ++ name ++ [41] ++ post) < npos →
  comm_of (pre ++ [40] ++ name ++ [41] ++ post) = name.
Proof.
  intros Hpre Hpost Hlen. rewrite !zlen_app in Hlen. change (zlen [40]) with 1 in Hlen. change (zlen [41]) with 1 in Hlen.
  pose proof (zlen_nonneg pre). pose proof (zlen_nonneg name). pose proof (zlen_nonneg post).
  unfold comm_of, find. rewrite bool_decide_true by apply zlen_nonneg. rewrite zdrop_0. cbn [app].
  rewrite find_byte_first by done.
  replace (pre ++ 40 :: name ++ 41 :: post) with ((pre ++ [40] ++ name) ++ 41 :: post) by (by rewrite <- !app_assoc).
  rewrite rfind_byte_last by done. cbn [find_ret default from_option]. unfold find_ret. cbn.
  rewrite !zlen_app, !zlen_cons.
  rewrite !(proj2 (Z.eqb_neq _ npos)) by lia. rewrite (proj2 (Z.ltb_lt _ _)) by lia. cbn.
  replace ((pre ++ 40 :: name) ++ 41 :: post) with ((pre ++ [40]) ++ name ++ 41 :: post) by (by rewrite <- !app_assoc).
  replace (zlen pre + 1) with (zlen (pre ++ [40])) by (by rewrite zlen_app).
  unfold zsub. rewrite zdrop_app_length. replace (0 + (zlen pre + (1 + zlen name)) - zlen pre - 1) with (zlen name) by lia.
  apply ztake_app_length.
Qed.

Lemma strtol_space c s : isspace c = true → strtol (c :: s) = strtol s.
Proof. cbn. by intros ->. Qed.

Lemma dec_nul x : 0 ≤ x → 0 ∉ dec x.
Proof.
  intros Hx Hin. pose proof (dec_digits_digit (S (Z.to_nat (Z.log2 x))) x Hx) as Hd.
  rewrite Forall_forall in Hd. specialize (Hd 0 Hin). lia.
Qed.

(** The first "Threads:" starts a line of the status file. *)
Lemma threads_field_ok pre n post :
  0 ≤ n < 2 ^ 31 → 0 ∉ post →
  (∀ k, (k < length pre)%nat → is_prefix (str "Threads:") (drop k pre ++ str "Threads:" ++ [9] ++ dec n ++ [chr_nl] ++ post) = false) →
  threads_field (pre ++ str "Threads:" ++ [9] ++ dec n ++ [chr_nl] ++ post) = Ret n.
Proof.
  intros Hn Hpost Hno. pose proof (zlen_nonneg pre). unfold threads_field, find.
  rewrite bool_decide_true by apply zlen_nonneg. rewrite zdrop_0, find_from_skip by done.
  change (str "Threads:" ++ [9] ++ dec n ++ [chr_nl] ++ post)
    with (84 :: str "hreads:" ++ [9] ++ dec n ++ [chr_nl] ++ post) at 1.
  assert (∀ i t, find_from (str "Threads:") (84 :: str "hreads:" ++ t) i = Some i) as -> by done.
  rewrite <- app_assoc, zdrop_app_ge by lia. replace (0 + zlen pre + 8 - zlen pre) with (zlen (str "Threads:")) by (change (zlen (str "Threads:")) with 8; lia).
  rewrite <- app_assoc, zdrop_app_length. unfold Atoi.
  replace (([9] ++ dec n ++ [chr_nl] ++ post) ++ [0]) with (([9] ++ dec n ++ [chr_nl] ++ post) ++ 0 :: []) by done.
  rewrite c_str_app. 2:{ pose proof (dec_nul n). set_solver. }
  cbn [mbind outcome_bind app]. rewrite strtol_space by done. rewrite strtol_dec.
  - by rewrite (swrap_id 32) by lia.
  - unfold int64_max. lia.
  - intros c [= <-]. done.
Qed.

(** A directory of tasks or descriptors: numbers and other names. *)
Inductive entry : Type := ENumber (n : Z) | EOther (name : bytes).

Definition entry_name (e : entry) : bytes := match e with ENumber n => dec n | EOther name => name end.
Definition entry_number (e : entry) : option Z := match e with ENumber n => Some n | EOther _ => None end.
Definition entry_ok (e : entry) : Prop :=
  match e with ENumber n => 0 ≤ n < 2 ^ 31 | EOther name => first_digit name = false end.

Lemma first_digit_dec n : 0 ≤ n → first_digit (dec n) = true.
Proof.
  intros Hn. pose proof (dec_digits_digit (S (Z.to_nat (Z.log2 n))) n Hn) as Hd. fold (dec n) in Hd.
  destruct (dec_nonempty n) as (c & k & E). rewrite E in *. apply Forall_cons in Hd as [Hc _]. by apply isdigit_spec.
Qed.

Lemma TaskDirFilter_entry e k ids :
  entry_ok e →
  TaskDirFilter (entry_name e) (mkTls k (Some ids)) = Ret (false, mkTls k (Some (ids ++ option_list (entry_number e)))).
Proof.
  unfold TaskDirFilter. destruct e as [n|name]; cbn [entry_ok entry_name entry_number option_list].
  - intros Hn. rewrite first_digit_dec by lia. cbn [t_pids t_numOpenedFiles from_option_fault mbind outcome_bind]. unfold Atoi.
    rewrite c_str_app by (apply dec_nul; lia). cbn [mbind outcome_bind].
    rewrite <- (app_nil_r (dec n)), strtol_dec by (done || unfold int64_max; lia). by rewrite (swrap_id 32) by lia.
  - intros ->. by rewrite app_nil_r.
Qed.

Lemma task_scan es k ids :
  Forall entry_ok es →
  scandir_loop TaskDirFilter (entry_name <$> es) (mkTls k (Some ids)) = Ret (0, mkTls k (Some (ids ++ omap entry_number es))).
Proof.
  intros Hes. revert ids. induction Hes as [|e es He _ IH]; intros ids; cbn [fmap list_fmap scandir_loop].
  { by rewrite app_nil_r. }
  rewrite TaskDirFilter_entry by done. cbn [mbind outcome_bind]. rewrite IH. cbn [mbind outcome_bind].
  rewrite <- app_assoc. by destruct e.
Qed.

Lemma FdDirFilter_name name k p :
  k + (if first_digit name then 1 else 0) < 2 ^ 31 →
  FdDirFilter name (mkTls k p) = Ret (false, mkTls (k + if first_digit name then 1 else 0) p).
Proof.
  intros Hk. unfold FdDirFilter. destruct (first_digit name); cbn [t_numOpenedFiles t_pids].
  - rewrite require_true by (apply Z.ltb_lt; lia). done.
  - by rewrite Z.add_0_r.
Qed.

Lemma fd_scan names k p :
  0 ≤ k → k + zlen (filter first_digit names) < 2 ^ 31 →
  scandir_loop FdDirFilter names (mkTls k p) = Ret (0, mkTls (k + zlen (filter first_digit names)) p).
Proof.
  revert k. induction names as [|name names IH]; intros k Hk Hlen; cbn [scandir_loop].
  { rewrite Z.add_0_r. done. }
  assert (zlen (filter first_digit (name :: names)) = (if first_digit name then 1 else 0) + zlen (filter first_digit names)) as Hz.
  { rewrite filter_cons. destruct (first_digit name); case_decide as Hd; [by rewrite zlen_cons|by destruct Hd|done|done]. }
  rewrite Hz in Hlen |- *. pose proof (zlen_nonneg (filter first_digit names)).
  assert (0 ≤ (if first_digit name then 1 else 0)) by (destruct (first_digit name); lia).
  rewrite FdDirFilter_name by lia. cbn [mbind outcome_bind]. rewrite IH by lia. cbn [mbind outcome_bind].
  do 3 f_equal. lia.
Qed.

(** ** Properties *)

(** The files under /proc are read back.  However read(2) splits
    /proc/self/stat, procName returns the command name, parentheses and spaces
    inside it included, as the text behind it has no closing parenthesis; and
    numThreads returns the number on the Threads: line of /proc/self/status,
    unless an earlier line (the name of the process) contains that word. *)
Theorem proc_files_read (s : System) (h : heap) (stat_pre name stat_post status_pre status_post : bytes) (n : Z) :
  serves s (str "/proc/self/stat") (stat_pre ++ [40] ++ name ++ [41] ++ stat_post) →
  serves s (str "/proc/self/status") (status_pre ++ str "Threads:" ++ [9] ++ dec n ++ [chr_nl] ++ status_post) →
  40 ∉ stat_pre → 41 ∉ stat_post → zlen (stat_pre ++ [40] ++ name ++ [41] ++ stat_post) < npos →
  0 ≤ n < 2 ^ 31 → 0 ∉ status_post →
  (∀ k, (k < length status_pre)%nat →
     is_prefix (str "Threads:") (drop k status_pre ++ str "Threads:" ++ [9] ++ dec n ++ [chr_nl] ++ status_post) = false) →
  procName s h = Ret (name, h) ∧ numThreads s h = Ret (n, h).
Proof.
  intros H1 H2 Hp Hq Hlen Hn Hnul Hno. unfold procName, numThreads, procStat, procStatus.
  rewrite (proc_file_ok _ _ _ h H1), (proc_file_ok _ _ _ h H2). cbn [mbind outcome_bind].
  rewrite comm_of_ok, threads_field_ok by done. done.
Qed.

(** Threads() lists the numeric entries of /proc/self/task in increasing
    order, each once as often as the directory has it, and leaves the
    thread-local pointer null; openedFiles() counts the numeric entries of
    /proc/self/fd whatever an earlier call counted. *)
Theorem threads_listed (s : System) (t : Tls) (tasks : list entry) (fds : list bytes) :
  sys_dir s (str "/proc/self/task") = Some (entry_name <$> tasks) → Forall entry_ok tasks →
  sys_dir s (str "/proc/self/fd") = Some fds → zlen (filter first_digit fds) < 2 ^ 31 →
  (∃ ids t', threads s t = Ret (ids, t') ∧ Sorted Z.le ids ∧ ids ≡ₚ omap entry_number tasks ∧ t_pids t' = None)
  ∧ ∃ t', openedFiles s t = Ret (zlen (filter first_digit fds), t').
Proof.
  intros Ht Hok Hf Hlen. split.
  - unfold threads, ScanDir. rewrite Ht, task_scan by done. cbn. eexists _, _. split; [done|].
    split_and!; [apply Sorted_merge_sort; exact Z.le_total|by apply merge_sort_Permutation|done].
  - unfold openedFiles, ScanDir. rewrite Hf, fd_scan by (done || lia). cbn. by eexists.
Qed.

(** A process whose name contains the word gets its number of threads from its name. *)
Lemma threads_field_fooled :
  threads_field (str "Name:" ++ [9] ++ str "Threads:99" ++ [chr_nl] ++ str "Threads:" ++ [9] ++ str "4" ++ [chr_nl]) = Ret 99.
Proof. by vm_compute. Qed.

(** The host name is terminated, and the path of the executable cut at 1024 bytes. *)
Lemma hostName_spec s name : sys_hostname s = Some name → 0 ∉ name → hostName s = Ret (ztake 255 name).
Proof.
  intros E Hn. unfold hostName. rewrite E. destruct (decide (zlen name < 255)) as [Hl|Hl].
  - rewrite ztake_all by (rewrite zlen_app; change (zlen [0]) with 1; lia). rewrite <- app_assoc. cbn [app].
    rewrite c_str_app by done. by rewrite ztake_all by lia.
  - rewrite ztake_app_le by lia. apply c_str_app. intros H%elem_of_ztake. done.
Qed.

Lemma exePath_spec s : exePath s = ztake 1024 (default [] (sys_link s (str "/proc/self/exe"))).
Proof.
  unfold exePath. destruct (sys_link s _) as [l|]; [|done]. change (default [] (Some l)) with l.
  destruct (Z.ltb_spec 0 (zlen (ztake 1024 l))) as [|Hz]; [done|].
  symmetry. apply zlen_0_nil. pose proof (zlen_nonneg (ztake 1024 l)). lia.
Qed.

(** ** Witnesses *)

Definition demo_system : System :=
  mkSystem (λ f, if bool_decide (f = str "/proc/self/stat")
                 then (true, [RBytes (str "12 (a (b"); RBytes (str ")) S 1"); REnd])
                 else (true, [RBytes (str "Name:" ++ [9] ++ str "a" ++ [chr_nl] ++ str "Threads:" ++ [9] ++ str "4" ++ [chr_nl]); REnd]))
    2 [] (λ d, Some [str "."; str ".."; str "14"; str "3"]) (λ _, None) None (λ _, None) 12 12 0 0 None.

Lemma proc_files_read_witness :
  procName demo_system (mkHeap ∅ 1) = Ret (str "a (b)", mkHeap ∅ 1)
  ∧ numThreads demo_system (mkHeap ∅ 1) = Ret (4, mkHeap ∅ 1).
Proof.
  apply (proc_files_read demo_system (mkHeap ∅ 1) (str "12 ") (str "a (b)") (str " S 1")
           (str "Name:" ++ [9] ++ str "a" ++ [chr_nl]) [] 4).
  - exists [str "12 (a (b"; str ")) S 1"]. split; [by vm_compute|]. split; [repeat constructor; by vm_compute|reflexivity].
  - exists [str "Name:" ++ [9] ++ str "a" ++ [chr_nl] ++ str "Threads:" ++ [9] ++ str "4" ++ [chr_nl]].
    split; [by vm_compute|]. split; [repeat constructor; by vm_compute|reflexivity].
  - by_decide.
  - by_decide.
  - by vm_compute.
  - lia.
  - by_decide.
  - intros k Hk. cbn in Hk. do 8 (destruct k as [|k]; [reflexivity|]). lia.
Defined.

Lemma threads_listed_witness :
  ∃ ids t', threads demo_system (mkTls 7 None) = Ret (ids, t') ∧ Sorted Z.le ids ∧ ids ≡ₚ [14; 3].
Proof.
  destruct (threads_listed demo_system (mkTls 7 None) [EOther (str "."); EOther (str ".."); ENumber 14; ENumber 3]
              [str "."; str ".."; str "14"; str "3"]) as [(ids & t' & H1 & H2 & H3 & _) _].
  - reflexivity.
  - repeat constructor; cbn; lia.
  - reflexivity.
  - by vm_compute.
  - exists ids, t'. split; [exact H1|]. split; [exact H2|exact H3].
Defined.
