(* ===== verification/Any.v ===== *)
(** * net/any.h: a container for one value of any type

    An Any owns a heap object Derived<T> through a unique_ptr and remembers
    typeid(T).  Types are the elements of a universe with decidable equality
    (std::type_index compares them); a value is a dependent pair.  Objects live
    in an explicit heap, as operator= compares addresses and the copies are made
    by Clone.  The programs below create, copy, move, assign, cast, write through
    the reference a cast returns, and destroy Any objects in any order. *)

From S2P Require Import Prelude.

(** The types a program stores, and their values.  There is no code for void,
    whose type_index a default Any has. *)
Class Universe : Type := {
  tcode : Type;
  #[global] tcode_dec :: EqDecision tcode;
  El : tcode → Type
}.

Section Any.
Context {U : Universe}.

(** Derived<T> *)
Record Derived : Type := mkDerived { d_type : tcode; m_value : El d_type }.
Abbreviation heap := (gmap Z Derived).

(** [m_tpIndex] is [None] for typeid(void). *)
Record Any : Type := mkAny { m_ptr : option Z; m_tpIndex : option tcode }.

(** ** Constructors, destructor *)

Definition Any_void : Any := mkAny None None.

(** [new Derived<T>(v)] *)
Definition new_derived (v : Derived) (h : heap) : Z * heap :=
  let a := fresh (dom h) in (a, <[a := v]> h).

Definition Any_value (v : Derived) (h : heap) : Any * heap :=
  let '(a, h) := new_derived v h in (mkAny (Some a) (Some (d_type v)), h).

Definition any_deref (a : Z) (h : heap) : outcome Derived := from_option_fault UseAfterFree (h !! a).

Definition Clone (x : Any) (h : heap) : outcome (option Z * heap) :=
  match m_ptr x with
  | Some a => v ← any_deref a h; let '(b, h) := new_derived v h in Ret (Some b, h)
  | None => Ret (None, h)
  end.

Definition Any_copy (that : Any) (h : heap) : outcome (Any * heap) :=
  '(p, h) ← Clone that h; Ret (mkAny p (m_tpIndex that), h).

(** The new object and what is left of [that]: the index is not reset. *)
Definition Any_move (that : Any) : Any * Any :=
  (mkAny (m_ptr that) (m_tpIndex that), mkAny None (m_tpIndex that)).

(** The deleter of the unique_ptr. *)
Definition delete_ptr (p : option Z) (h : heap) : outcome heap :=
  match p with
  | Some a => _ ← any_deref a h; Ret (delete a h)
  | None => Ret h
  end.

(** ** Queries and assignment *)

Definition IsNull (x : Any) : bool := bool_decide (m_ptr x = None).

Definition Is (u : tcode) (x : Any) : bool := bool_decide (m_tpIndex x = Some u).

(** dynamic_cast<Derived<U>*>, a null pointer when the types differ. *)
Definition dyn_cast (u : tcode) (v : Derived) : option (El u) :=
  match decide (d_type v = u) with
  | left e => Some (eq_rect (d_type v) El (m_value v) u e)
  | right _ => None
  end.

(** The reference it returns: the object's address, with its present value. *)
Definition AnyCast (u : tcode) (x : Any) (h : heap) : outcome (Z * El u) :=
  if negb (Is u x) then Fault ThrowCast
  else match m_ptr x with
       | None => Fault NullDeref
       | Some a => v ← any_deref a h; w ← from_option_fault NullDeref (dyn_cast u v); Ret (a, w)
       end.

Definition assign (x a : Any) (h : heap) : outcome (Any * heap) :=
  if bool_decide (m_ptr x = m_ptr a) then Ret (x, h)
  else '(p, h) ← Clone a h; h ← delete_ptr (m_ptr x) h; Ret (mkAny p (m_tpIndex a), h).

(** ** Programs *)

Inductive any_op : Type :=
| ODefault                                   (* Any x; *)
| OValue (v : Derived)                       (* Any x(v); *)
| OCopy (i : nat)                            (* Any x(i); *)
| OMove (i : nat)                            (* Any x(std::move(i)); *)
| OAssign (i j : nat)                        (* i = j; *)
| OCast (u : tcode) (i : nat)                (* i.AnyCast<u>() is read *)
| OStore (u : tcode) (i : nat) (w : El u)    (* i.AnyCast<u>() = w; *)
| ODestroy (i : nat).                        (* the end of i's lifetime *)

(** The objects alive, by number, and the heap.  A new object takes a free number. *)
Record any_state : Type := mkAnySt { objs : gmap nat Any; aheap : heap }.

Definition obj (i : nat) (s : any_state) : outcome Any := from_option_fault UseAfterFree (objs s !! i).

Definition declare (x : Any) (h : heap) (s : any_state) : any_state :=
  mkAnySt (<[fresh (dom (objs s)) := x]> (objs s)) h.

(** The value a cast read is the second component. *)
Definition run_any (o : any_op) (s : any_state) : outcome (any_state * option Derived) :=
  match o with
  | ODefault => Ret (declare Any_void (aheap s) s, None)
  | OValue v => let '(x, h) := Any_value v (aheap s) in Ret (declare x h s, None)
  | OCopy i => y ← obj i s; '(x, h) ← Any_copy y (aheap s); Ret (declare x h s, None)
  | OMove i =>
      y ← obj i s;
      let '(x, y) := Any_move y in
      Ret (declare x (aheap s) (mkAnySt (<[i := y]> (objs s)) (aheap s)), None)
  | OAssign i j =>
      x ← obj i s; y ← obj j s; '(x, h) ← assign x y (aheap s);
      Ret (mkAnySt (<[i := x]> (objs s)) h, None)
  | OCast u i => x ← obj i s; '(_, w) ← AnyCast u x (aheap s); Ret (s, Some (mkDerived u w))
  | OStore u i w =>
      x ← obj i s; '(a, _) ← AnyCast u x (aheap s);
      Ret (mkAnySt (objs s) (<[a := mkDerived u w]> (aheap s)), None)
  | ODestroy i =>
      x ← obj i s; h ← delete_ptr (m_ptr x) (aheap s); Ret (mkAnySt (delete i (objs s)) h, None)
  end.

Fixpoint run_anys (os : list any_op) (s : any_state) : outcome (any_state * list Derived) :=
  match os with
  | [] => Ret (s, [])
  | o :: os =>
      '(s, r) ← run_any o s; '(s, rs) ← run_anys os s; Ret (s, option_list r ++ rs)
  end.

(** ** Value semantics

    An Any is a pair of an index and perhaps a value; there are no addresses. *)

Abbreviation value := (option tcode * option Derived)%type.
Abbreviation values := (gmap nat value).

Definition vcast (u : tcode) (x : value) : outcome (El u) :=
  if bool_decide (x.1 = Some u) then from_option_fault NullDeref (x.2 ≫= dyn_cast u) else Fault ThrowCast.

Definition val_of (i : nat) (m : values) : outcome value := from_option_fault UseAfterFree (m !! i).

Definition vdeclare (x : value) (m : values) : values := <[fresh (dom m) := x]> m.

Definition spec_any (o : any_op) (m : values) : outcome (values * option Derived) :=
  match o with
  | ODefault => Ret (vdeclare (None, None) m, None)
  | OValue v => Ret (vdeclare (Some (d_type v), Some v) m, None)
  | OCopy i => y ← val_of i m; Ret (vdeclare y m, None)
  | OMove i => y ← val_of i m; Ret (vdeclare y (<[i := (y.1, None)]> m), None)
  | OAssign i j =>
      x ← val_of i m; y ← val_of j m;
      Ret (if bool_decide (i = j) || (bool_decide (x.2 = @None Derived) && bool_decide (y.2 = @None Derived)) then m else <[i := y]> m, None)
  | OCast u i => x ← val_of i m; w ← vcast u x; Ret (m, Some (mkDerived u w))
  | OStore u i w => x ← val_of i m; _ ← vcast u x; Ret (<[i := (x.1, Some (mkDerived u w))]> m, None)
  | ODestroy i => _ ← val_of i m; Ret (delete i m, None)
  end.

Fixpoint spec_anys (os : list any_op) (m : values) : outcome (values * list Derived) :=
  match os with
  | [] => Ret (m, [])
  | o :: os => '(m, r) ← spec_any o m; '(m, rs) ← spec_anys os m; Ret (m, option_list r ++ rs)
  end.

(** ** The type invariant *)

(** An Any that holds an object holds one of the type its index names; every heap
    object has exactly one owner. *)
Definition any_inv (s : any_state) : Prop :=
  (∀ i x a, objs s !! i = Some x → m_ptr x = Some a →
     ∃ v, aheap s !! a = Some v ∧ m_tpIndex x = Some (d_type v))
  ∧ (∀ i j x y a, objs s !! i = Some x → objs s !! j = Some y → m_ptr x = Some a → m_ptr y = Some a → i = j)
  ∧ (∀ a v, aheap s !! a = Some v → ∃ i x, objs s !! i = Some x ∧ m_ptr x = Some a).

Definition contents (h : heap) (x : Any) : value := (m_tpIndex x, m_ptr x ≫= (h !!.)).
Definition abs (s : any_state) : values := contents (aheap s) <$> objs s.
Arguments abs : simpl never.

(** What the object with number [i] owns, and the heap without it. *)
Definition optr (i : nat) (s : any_state) : option Z := objs s !! i ≫= m_ptr.
Definition release (p : option Z) (h : heap) : heap := match p with Some a => delete a h | None => h end.

Implicit Types (s : any_state) (h : heap) (x y : Any).

Lemma any_inv_empty : any_inv (mkAnySt ∅ ∅).
Proof. split_and!; cbn; intros *; rewrite ?lookup_empty; try done. Qed.

Lemma abs_empty : abs (mkAnySt ∅ ∅) = ∅.
Proof. apply fmap_empty. Qed.

(** Objects other than [i] do not notice that [i]'s object is released. *)
Lemma release_other s i j y a :
  any_inv s → objs s !! j = Some y → j ≠ i → m_ptr y = Some a →
  release (optr i s) (aheap s) !! a = aheap s !! a.
Proof.
  intros (_ & Hown & _) Hj Hne Ha. unfold release, optr. destruct (objs s !! i) as [x|] eqn:Hi; [|done]. cbn.
  destruct (m_ptr x) as [b|] eqn:Hb; [|done]. rewrite lookup_delete_ne; [done|].
  intros ->. apply Hne. eauto.
Qed.

Lemma release_Some s i a v :
  any_inv s → release (optr i s) (aheap s) !! a = Some v → aheap s !! a = Some v ∧ optr i s ≠ Some a.
Proof.
  unfold release. intros _ H. destruct (optr i s) as [b|]; [|done].
  apply lookup_delete_Some in H as [Hne ?]. split; [done|]. congruence.
Qed.

Lemma abs_set s i x h' :
  (∀ j y, objs s !! j = Some y → j ≠ i → contents h' y = contents (aheap s) y) →
  abs (mkAnySt (<[i := x]> (objs s)) h') = <[i := contents h' x]> (abs s).
Proof.
  intros H. apply map_eq. intros j. unfold abs. cbn. rewrite lookup_fmap.
  destruct (decide (i = j)) as [->|Hne]; [by rewrite !lookup_insert_eq|].
  rewrite !lookup_insert_ne, lookup_fmap by done. destruct (objs s !! j) as [y|] eqn:E; [|done]. cbn. f_equal. by apply (H j).
Qed.

(** Object [i] becomes the owner of a new object, or of none. *)
Lemma set_new s i b v :
  any_inv s → aheap s !! b = None →
  let s' := mkAnySt (<[i := mkAny (Some b) (Some (d_type v))]> (objs s)) (<[b := v]> (release (optr i s) (aheap s))) in
  any_inv s' ∧ abs s' = <[i := (Some (d_type v), Some v)]> (abs s).
Proof.
  intros Hinv Hb. pose proof Hinv as (Hty & Hown & Hleak). intros s'. subst s'.
  assert (Hne : ∀ j y, objs s !! j = Some y → m_ptr y ≠ Some b).
  { intros j y Hj Hy. destruct (Hty _ _ _ Hj Hy) as (? & ? & _). congruence. }
  split; [split_and!|].
  - intros j y a Hj Ha. cbn in *. apply lookup_insert_Some in Hj as [[-> <-]|[Hji Hj]].
    + cbn in *. injection Ha as ->. exists v. by rewrite lookup_insert_eq.
    + assert (b ≠ a) by (intros ->; eapply Hne; eassumption). rewrite lookup_insert_ne by done.
      erewrite release_other; eauto.
  - intros j k y z a Hj Hk Hy Hz. cbn in *.
    apply lookup_insert_Some in Hj as [[-> <-]|[? Hj]]; apply lookup_insert_Some in Hk as [[-> <-]|[? Hk]];
      cbn in *; [done| | |by eauto]; simplify_eq; exfalso; eapply Hne; eassumption.
  - intros a w Ha. cbn in *. apply lookup_insert_Some in Ha as [[-> <-]|[Hba Ha]].
    + exists i. eexists. by rewrite lookup_insert_eq.
    + apply release_Some in Ha as [Ha Ho]; [|done]. destruct (Hleak _ _ Ha) as (j & y & Hj & Hy).
      exists j, y. split; [|done]. rewrite lookup_insert_ne; [done|]. intros ->. apply Ho. unfold optr. by rewrite Hj.
  - rewrite abs_set; [unfold contents; cbn; by rewrite lookup_insert_eq|]. intros j y Hj Hji. unfold contents. f_equal.
    destruct (m_ptr y) as [a|] eqn:Ha; [|done]. cbn. rewrite lookup_insert_ne by (intros ->; eapply Hne; eassumption).
    eapply release_other; eassumption.
Qed.

Lemma set_null s i t :
  any_inv s →
  let s' := mkAnySt (<[i := mkAny None t]> (objs s)) (release (optr i s) (aheap s)) in
  any_inv s' ∧ abs s' = <[i := (t, None)]> (abs s).
Proof.
  intros Hinv. pose proof Hinv as (Hty & Hown & Hleak). intros s'. subst s'. split; [split_and!|].
  - intros j y a Hj Ha. cbn in *. apply lookup_insert_Some in Hj as [[-> <-]|[Hji Hj]]; [done|].
    erewrite release_other; eauto.
  - intros j k y z a Hj Hk Hy Hz. cbn in *.
    apply lookup_insert_Some in Hj as [[-> <-]|[? Hj]]; apply lookup_insert_Some in Hk as [[-> <-]|[? Hk]];
      cbn in *; try done; eauto.
  - intros a w [Ha Ho]%release_Some; [|done]. cbn. destruct (Hleak _ _ Ha) as (j & y & Hj & Hy).
    exists j, y. split; [|done]. rewrite lookup_insert_ne; [done|]. intros ->. apply Ho. unfold optr. by rewrite Hj.
  - rewrite abs_set; [done|]. intros j y Hj Hji. unfold contents. f_equal.
    destruct (m_ptr y) as [a|] eqn:Ha; [|done]. cbn. eapply release_other; eassumption.
Qed.

Lemma move_obj s i k x :
  any_inv s → objs s !! i = Some x → objs s !! k = None →
  let s' := mkAnySt (<[k := x]> (<[i := mkAny None (m_tpIndex x)]> (objs s))) (aheap s) in
  any_inv s' ∧ abs s' = <[k := contents (aheap s) x]> (<[i := (m_tpIndex x, None)]> (abs s)).
Proof.
  intros (Hty & Hown & Hleak) Hi Hk s'. subst s'. assert (k ≠ i) as Hki by congruence.
  split; [split_and!; cbn|].
  - intros j y a [[-> <-]|[? [[-> <-]|[? Hj]]%lookup_insert_Some]]%lookup_insert_Some Ha; [by eauto|done|by eauto].
  - intros j l y z a Hj Hl Hy Hz.
    apply lookup_insert_Some in Hj as [[-> <-]|[? [[-> <-]|[? Hj]]%lookup_insert_Some]];
    apply lookup_insert_Some in Hl as [[-> <-]|[? [[-> <-]|[? Hl]]%lookup_insert_Some]]; cbn in *; try done; try by eauto.
    + exfalso. by pose proof (Hown _ _ _ _ _ Hi Hl Hy Hz).
    + exfalso. by pose proof (Hown _ _ _ _ _ Hi Hj Hz Hy).
  - intros a v (j & y & Hj & Hy)%Hleak. destruct (decide (j = i)) as [->|Hji].
    + exists k, y. rewrite lookup_insert_eq. split; congruence.
    + exists j, y. rewrite !lookup_insert_ne; [done|done|]. congruence.
  - unfold abs. cbn. by rewrite !fmap_insert.
Qed.

Lemma store_obj s i x a u (w w' : El u) :
  any_inv s → objs s !! i = Some x → m_ptr x = Some a → aheap s !! a = Some (mkDerived u w) →
  let s' := mkAnySt (objs s) (<[a := mkDerived u w']> (aheap s)) in
  any_inv s' ∧ abs s' = <[i := (m_tpIndex x, Some (mkDerived u w'))]> (abs s).
Proof.
  intros (Hty & Hown & Hleak) Hi Ha Hh s'. subst s'. split; [split_and!; cbn|].
  - intros j y b Hj Hb. destruct (decide (a = b)) as [<-|Hne].
    + rewrite lookup_insert_eq. eexists. split; [done|]. cbn. destruct (Hty _ _ _ Hj Hb) as (v & Hv & ->).
      rewrite Hh in Hv. by injection Hv as <-.
    + rewrite lookup_insert_ne by done. by eauto.
  - done.
  - intros b v [[-> <-]|[? ?]]%lookup_insert_Some; eauto.
  - rewrite <- (insert_id (objs s) i x Hi) at 1.
    rewrite abs_set; [unfold contents; rewrite Ha; cbn; by rewrite lookup_insert_eq|].
    intros j y Hj Hji. unfold contents. f_equal. destruct (m_ptr y) as [b|] eqn:Hb; [|done]. cbn.
    rewrite lookup_insert_ne; [done|]. intros ->. eauto.
Qed.

Lemma destroy_obj s i :
  any_inv s →
  let s' := mkAnySt (delete i (objs s)) (release (optr i s) (aheap s)) in
  any_inv s' ∧ abs s' = delete i (abs s).
Proof.
  intros Hinv s'. subst s'. pose proof Hinv as (Hty & Hown & Hleak). split; [split_and!; cbn|].
  - intros j y a [Hji Hj]%lookup_delete_Some Ha. erewrite release_other; eauto.
  - intros j l y z a [? ?]%lookup_delete_Some [? ?]%lookup_delete_Some; eauto.
  - intros a w [Ha Ho]%release_Some; [|done]. destruct (Hleak _ _ Ha) as (j & y & Hj & Hy).
    exists j, y. split; [|done]. rewrite lookup_delete_ne; [done|]. intros ->. apply Ho. unfold optr. by rewrite Hj.
  - unfold abs. cbn. rewrite <- fmap_delete. apply map_fmap_ext. intros j y [Hji Hj]%lookup_delete_Some.
    unfold contents. f_equal. destruct (m_ptr y) as [a|] eqn:Ha; [|done]. cbn. eapply release_other; eauto.
Qed.

(** *** Simulation of one operation *)

Lemma val_of_abs i s : val_of i (abs s) = contents (aheap s) <$> obj i s.
Proof. unfold val_of, obj, abs. rewrite lookup_fmap. by destruct (objs s !! i). Qed.

Lemma fresh_abs s : fresh (dom (abs s)) = fresh (dom (objs s)).
Proof. unfold abs. by rewrite dom_fmap_L. Qed.

Lemma fresh_lookup {A} (m : gmap nat A) : m !! fresh (dom m) = None.
Proof. apply not_elem_of_dom, is_fresh. Qed.

Lemma fresh_lookup_heap h : h !! fresh (dom h) = None.
Proof. apply not_elem_of_dom, is_fresh. Qed.

Lemma optr_fresh s : optr (fresh (dom (objs s))) s = None.
Proof. unfold optr. by rewrite fresh_lookup. Qed.

Lemma dyn_cast_same u (w : El u) : dyn_cast u (mkDerived u w) = Some w.
Proof.
  unfold dyn_cast. cbn. destruct (decide (u = u)) as [e|]; [|done]. f_equal.
  by rewrite <- Eqdep_dec.eq_rect_eq_dec by (intros; apply tcode_dec).
Qed.

Lemma AnyCast_spec s i x u :
  any_inv s → objs s !! i = Some x →
  match AnyCast u x (aheap s) with
  | Ret (a, w) => m_ptr x = Some a ∧ aheap s !! a = Some (mkDerived u w) ∧ vcast u (contents (aheap s) x) = Ret w
  | Fault f => vcast u (contents (aheap s) x) = Fault f
                 ∧ (f = ThrowCast ∧ m_tpIndex x ≠ Some u ∨ f = NullDeref ∧ m_tpIndex x = Some u ∧ m_ptr x = None)
  | Diverge => False
  end.
Proof.
  intros (Hty & _ & _) Hi. unfold AnyCast, vcast, Is, contents, any_deref. cbn.
  destruct (bool_decide_reflect (m_tpIndex x = Some u)) as [Hu|Hu]; cbn; [|by auto].
  destruct (m_ptr x) as [a|] eqn:Ha; cbn; [|by auto].
  destruct (Hty _ _ _ Hi Ha) as ([t w] & Hv & Ht). rewrite Hv. cbn in *. assert (t = u) as -> by congruence.
  rewrite dyn_cast_same. cbn. auto.
Qed.

(** How an operation on [s] and the same operation on the values [m] must end. *)
Definition sim_result (r : outcome (any_state * option Derived)) (q : outcome (values * option Derived)) : Prop :=
  match r with
  | Ret (s', v) => any_inv s' ∧ q = Ret (abs s', v)
  | Fault f => q = Fault f
  | Diverge => False
  end.

Lemma sim_copy s k y :
  any_inv s → (∃ i, objs s !! i = Some y) → objs s !! k = None →
  match Any_copy y (aheap s) with
  | Ret (x, h) => any_inv (mkAnySt (<[k := x]> (objs s)) h)
                  ∧ abs (mkAnySt (<[k := x]> (objs s)) h) = <[k := contents (aheap s) y]> (abs s)
  | _ => False
  end.
Proof.
  intros Hinv [i Hi] Hk. unfold Any_copy, Clone, contents, any_deref.
  destruct (m_ptr y) as [a|] eqn:Ha; cbn.
  - pose proof Hinv as (Hty & _). destruct (Hty _ _ _ Hi Ha) as (v & Hv & Ht). rewrite Hv. cbn. rewrite Ht.
    pose proof (set_new s k (fresh (dom (aheap s))) v Hinv (fresh_lookup_heap _)) as H.
    unfold optr in H. by rewrite Hk in H.
  - pose proof (set_null s k (m_tpIndex y) Hinv) as H. unfold optr in H. by rewrite Hk in H.
Qed.

(** operator= on two objects that do not hold the same pointer. *)
Lemma sim_assign s i j x y :
  any_inv s → objs s !! i = Some x → objs s !! j = Some y → m_ptr x ≠ m_ptr y →
  match assign x y (aheap s) with
  | Ret (x', h) => any_inv (mkAnySt (<[i := x']> (objs s)) h)
                   ∧ abs (mkAnySt (<[i := x']> (objs s)) h) = <[i := contents (aheap s) y]> (abs s)
  | _ => False
  end.
Proof.
  intros Hinv Hi Hj Hne. pose proof Hinv as (Hty & _). unfold assign, Clone, contents, any_deref.
  rewrite bool_decide_false by done.
  assert (Ho : optr i s = m_ptr x) by (unfold optr; by rewrite Hi).
  destruct (m_ptr y) as [a|] eqn:Ha; cbn.
  - destruct (Hty _ _ _ Hj Ha) as (v & Hv & Ht). rewrite Hv. cbn.
    set (b := fresh (dom (aheap s))). pose proof (set_new s i b v Hinv (fresh_lookup_heap _)) as H.
    assert (Hd : delete_ptr (m_ptr x) (<[b := v]> (aheap s)) = Ret (<[b := v]> (release (optr i s) (aheap s)))).
    { rewrite Ho. destruct (m_ptr x) as [c|] eqn:Hc; [|done]. destruct (Hty _ _ _ Hi Hc) as (w & Hw & _).
      assert (b ≠ c) by (intros <-; unfold b in Hw; by rewrite fresh_lookup_heap in Hw).
      unfold delete_ptr, any_deref. rewrite lookup_insert_ne, Hw by done. cbn. by rewrite delete_insert_ne. }
    rewrite Hd. cbn. by rewrite Ht.
  - pose proof (set_null s i (m_tpIndex y) Hinv) as H.
    assert (Hd : delete_ptr (m_ptr x) (aheap s) = Ret (release (optr i s) (aheap s))).
    { rewrite Ho. destruct (m_ptr x) as [c|] eqn:Hc; [|done]. destruct (Hty _ _ _ Hi Hc) as (w & Hw & _).
      unfold delete_ptr, any_deref. by rewrite Hw. }
    by rewrite Hd.
Qed.

(** A pointer of a live object is equal to another's only if both are null or
    the objects are the same. *)
Lemma same_ptr s i j x y :
  any_inv s → objs s !! i = Some x → objs s !! j = Some y →
  m_ptr x = m_ptr y ↔
  i = j ∨ ((contents (aheap s) x).2 = @None Derived ∧ (contents (aheap s) y).2 = @None Derived).
Proof.
  intros (Hty & Hown & _) Hi Hj. unfold contents. cbn. split.
  - intros He. destruct (m_ptr x) as [a|] eqn:Hx.
    + left. by eapply (Hown i j x y a).
    + right. by rewrite <- He.
  - intros [->|[H1 H2]]; [congruence|].
    destruct (m_ptr x) as [a|] eqn:Hx; [|destruct (m_ptr y) as [b|] eqn:Hy; [|done]].
    + destruct (Hty _ _ _ Hi Hx) as (v & Hv & _). cbn in H1. congruence.
    + destruct (Hty _ _ _ Hj Hy) as (v & Hv & _). cbn in H2. congruence.
Qed.

Lemma sim_any o s : any_inv s → sim_result (run_any o s) (spec_any o (abs s)).
Proof.
  intros Hinv. pose proof Hinv as (Hty & _).
  destruct o as [|v|i|i|i j|u i|u i w|i]; cbn; rewrite ?val_of_abs; unfold vdeclare, declare, Any_void; rewrite ?fresh_abs;
    unfold obj; try (destruct (objs s !! i) as [x|] eqn:Hi; cbn; [|done]).
  - pose proof (set_null s (fresh (dom (objs s))) None Hinv) as [? H]. rewrite optr_fresh in *. cbn in *. by rewrite H.
  - pose proof (set_new s (fresh (dom (objs s))) _ v Hinv (fresh_lookup_heap _)) as [? H].
    rewrite optr_fresh in *. cbn in *. by rewrite H.
  - pose proof (sim_copy s (fresh (dom (objs s))) x Hinv (ex_intro _ _ Hi) (fresh_lookup _)) as H.
    destruct (Any_copy x (aheap s)) as [[y h]|f|]; [|done..]. cbn. destruct H as [? H]. by rewrite H.
  - assert (dom (<[i := mkAny None (m_tpIndex x)]> (objs s)) = dom (objs s)) as Hd.
    { apply dom_insert_lookup_L. by eexists. }
    assert (dom (<[i := (m_tpIndex x, @None Derived)]> (abs s)) = dom (objs s)) as Hd'.
    { unfold abs. rewrite dom_insert_lookup_L, dom_fmap_L; [done|]. rewrite lookup_fmap, Hi. by eexists. }
    destruct (move_obj s i (fresh (dom (objs s))) x Hinv Hi (fresh_lookup _)) as [H1 H2].
    destruct x as [p t]. cbn in *. rewrite Hd, Hd'. by rewrite H2.
  - destruct (objs s !! j) as [y|] eqn:Hj; cbn; [|done].
    pose proof (same_ptr s i j x y Hinv Hi Hj) as Hp.
    destruct (decide (m_ptr x = m_ptr y)) as [He|Hne].
    + unfold assign. rewrite bool_decide_true by done. cbn. rewrite insert_id by done.
      split; [by destruct s|]. apply Hp in He.
      replace (_ || _) with true; [by destruct s|]. symmetry. apply orb_true_iff. rewrite andb_true_iff, !bool_decide_eq_true.
      done.
    + pose proof (sim_assign s i j x y Hinv Hi Hj Hne) as H.
      destruct (assign x y (aheap s)) as [[x' h]|f|]; [|done..]. cbn. destruct H as [? H]. split; [done|]. rewrite H.
      replace (_ || _) with false; [done|]. symmetry. apply not_true_iff_false.
      rewrite orb_true_iff, andb_true_iff, !bool_decide_eq_true. by rewrite <- Hp.
  - pose proof (AnyCast_spec s i x u Hinv Hi) as H.
    destruct (AnyCast u x (aheap s)) as [[a w]|f|]; cbn; [|by destruct H as [-> _]|done].
    destruct H as (_ & _ & ->). done.
  - pose proof (AnyCast_spec s i x u Hinv Hi) as H.
    destruct (AnyCast u x (aheap s)) as [[a w0]|f|]; cbn; [|by destruct H as [-> _]|done].
    destruct H as (Ha & Hw & ->). destruct (store_obj s i x a u w0 w Hinv Hi Ha Hw) as [? H]. cbn. by rewrite H.
  - pose proof (destroy_obj s i Hinv) as [H1 H2]. unfold optr, release in H1, H2. rewrite Hi in H1, H2. cbn in H1, H2.
    destruct (m_ptr x) as [a|] eqn:Ha; cbn; [|by rewrite H2].
    destruct (Hty _ _ _ Hi Ha) as (v & Hv & _). unfold any_deref. rewrite Hv. cbn. by rewrite H2.
Qed.

(** ** Theorems *)

Lemma sim_anys os s :
  any_inv s →
  prod_map abs id <$> run_anys os s = spec_anys os (abs s)
  ∧ ∀ s' rs, run_anys os s = Ret (s', rs) → any_inv s'.
Proof.
  revert s. induction os as [|o os IH]; intros s Hinv; cbn; [split; [done|]; by intros ? ? [= <- _]|].
  pose proof (sim_any o s Hinv) as H. destruct (run_any o s) as [[s1 r]|f|]; cbn in H; [|by rewrite H|done].
  destruct H as [Hinv1 ->]. cbn. destruct (IH s1 Hinv1) as [<- Hk].
  destruct (run_anys os s1) as [[s2 rs]|f|]; cbn; [|done..]. split; [done|]. intros ? ? [= <- _]. by eapply Hk.
Qed.

(** C17: the objects behave like values.  A program that creates, copies, moves,
    assigns, casts, writes through references and destroys Any objects in any
    order reads the same values, and fails with the same exception or fault at
    the same point, as the program on plain pairs of an index and a value: no
    copy is aliased, no object is used after it was freed or freed twice. *)
Theorem any_value_semantics (os : list any_op) :
  prod_map abs id <$> run_anys os (mkAnySt ∅ ∅) = spec_anys os ∅.
Proof. destruct (sim_anys os _ any_inv_empty) as [-> _]. by rewrite abs_empty. Qed.

(** C18: type safety.  In every state a program reaches, an Any that owns an object
    owns one of the type its index names, every heap object has exactly one
    owner (so nothing is leaked), and AnyCast<U> returns a reference to an
    object of type U, or throws bad_cast because the index is not U, or, only
    for an Any that was moved from, dereferences a null pointer. *)
Theorem any_typed (os : list any_op) (s : any_state) (rs : list Derived) :
  run_anys os (mkAnySt ∅ ∅) = Ret (s, rs) →
  any_inv s ∧
  ∀ i x u, objs s !! i = Some x →
    (∃ a w, AnyCast u x (aheap s) = Ret (a, w) ∧ aheap s !! a = Some (mkDerived u w) ∧ Is u x = true ∧ IsNull x = false)
    ∨ (AnyCast u x (aheap s) = Fault ThrowCast ∧ Is u x = false)
    ∨ (AnyCast u x (aheap s) = Fault NullDeref ∧ Is u x = true ∧ IsNull x = true).
Proof.
  intros Hrun. assert (any_inv s) as Hinv by (eapply (sim_anys os); [apply any_inv_empty|done]).
  split; [done|]. intros i x u Hi. pose proof (AnyCast_spec s i x u Hinv Hi) as H. pose proof Hinv as (Hty & _).
  unfold Is, IsNull. destruct (AnyCast u x (aheap s)) as [[a w]|f|]; [|destruct H as [_ [[-> ?]|(-> & ? & ?)]]|done].
  - destruct H as (Ha & Hh & _). left. exists a, w. destruct (Hty _ _ _ Hi Ha) as (v & Hv & Ht).
    rewrite Hh in Hv. injection Hv as <-. rewrite Ht, Ha. split_and!; [done..| |]; [by apply bool_decide_true|done].
  - right. left. split; [done|]. by apply bool_decide_false.
  - right. right. split; [done|]. split; by apply bool_decide_true.
Qed.

(** A default object has no type that can be cast to. *)
Lemma AnyCast_void u h : AnyCast u Any_void h = Fault ThrowCast.
Proof. unfold AnyCast, Is, Any_void. cbn. by rewrite bool_decide_false. Qed.

(** The move constructor leaves the index: an object that was moved from still
    claims its type, and casting it is undefined behaviour instead of bad_cast. *)
Lemma moved_any_null_deref u i s s' x r :
  objs s !! i = Some x → Is u x = true → run_any (OMove i) s = Ret (s', r) → run_any (OCast u i) s' = Fault NullDeref.
Proof.
  intros Hi Hu. cbn. unfold obj. rewrite Hi. cbn. intros [= <- _]. cbn.
  rewrite lookup_insert_ne, lookup_insert_eq; cbn.
  - unfold AnyCast, Is in *. cbn. by rewrite Hu.
  - intros He. pose proof (fresh_lookup (<[i := mkAny None (m_tpIndex x)]> (objs s))) as Hf.
    by rewrite He, lookup_insert_eq in Hf.
Qed.

(** operator= compares the pointers, so an empty object assigned to an empty one
    leaves the index of the target as it was. *)
Lemma assign_null_keeps_index x y h : IsNull x = true → IsNull y = true → assign x y h = Ret (x, h).
Proof.
  unfold IsNull, assign. intros Hx%bool_decide_eq_true Hy%bool_decide_eq_true. by rewrite Hx, Hy, bool_decide_true.
Qed.

End Any.
Arguments Any : clear implicits.

(** ** An instance: integers and strings *)

Definition demo_universe : Universe :=
  {| tcode := bool; El := fun t => if t then Z else bytes |}.

Definition t_int : @tcode demo_universe := true.
Definition any_int (n : Z) : @Derived demo_universe := mkDerived t_int n.

(** The copy is written and read; the original and the assigned object keep 7. *)
Definition demo_any_program : list (@any_op demo_universe) :=
  [OValue (any_int 7); OCopy 0; OStore t_int 1 8; OCast t_int 0; OCast t_int 1;
   OMove 0; OAssign 1 2; OCast t_int 1; ODestroy 2].

Lemma any_typed_witness :
  ∃ s : @any_state demo_universe,
    run_anys demo_any_program (mkAnySt ∅ ∅) = Ret (s, [any_int 7; any_int 8; any_int 7]) ∧ any_inv s.
Proof.
  destruct (run_anys demo_any_program (mkAnySt ∅ ∅)) as [[s rs]|f|] eqn:E; [|by vm_compute in E..].
  pose proof (any_typed _ _ _ E) as [Hinv _]. exists s. split; [|exact Hinv]. vm_compute in E. injection E as <- <-. by vm_compute.
Defined.
