(* ===== verification/TimerQueue.v ===== *)
(** * net/timerqueue.h, net/timerqueue.cc, net/timerid.h: class TimerQueue

    The queue keeps [Timer*] pointers in a std::set ordered by (expiration,
    address); Timer objects live on a heap and are deleted by the queue, so
    the model has the heap explicitly and an access to a deleted timer is the
    fault [UseAfterFree].  The operations run in the loop thread (the
    functions AddTimer and Cancel hand them to EventLoop::RunInLoop).

    The allocator is a parameter: it returns an address that is not in use.
    The user's callbacks are programs of queue operations. *)

From S2P Require Import Prelude.
From S2P Require Import Time.
From Stdlib Require Import SpecFloat Sorted.

(** ** std::set of pairs *)

Abbreviation entry := (Z * Z)%type.

(** operator< of std::pair *)
Definition entry_ltb (x y : entry) : bool :=
  (x.1 <? y.1) || (negb (y.1 <? x.1) && (x.2 <? y.2)).

Fixpoint set_insert (e : entry) (s : list entry) : list entry :=
  match s with
  | [] => [e]
  | x :: s' =>
      if entry_ltb e x then e :: s
      else if entry_ltb x e then x :: set_insert e s' else s
  end.

Fixpoint set_erase (e : entry) (s : list entry) : list entry :=
  match s with
  | [] => []
  | x :: s' => if bool_decide (x = e) then s' else x :: set_erase e s'
  end.

(** The elements before lower_bound(e), and those from it on *)
Fixpoint set_split (e : entry) (s : list entry) : list entry * list entry :=
  match s with
  | [] => ([], [])
  | x :: s' =>
      if entry_ltb x e then let r := set_split e s' in (x :: r.1, r.2) else ([], s)
  end.

(** ** The class *)

(** struct timespec *)
Record timespec : Type := mkTimespec { tv_sec : Z; tv_nsec : Z }.

(** TimerId: the pointer (0 is nullptr) and the sequence number *)
Record TimerId : Type := mkTimerId { timer_ : Z; tid_sequence_ : Z }.

Record TimerQueue : Type := mkTQ {
  heap : gmap Z Timer;             (* live Timer objects *)
  timers_ : list entry;            (* std::set<std::pair<TimeStamp, Timer*>> *)
  cancelingTimers_ : list entry;   (* std::set<std::pair<Timer*, int64_t>> *)
  numCreated : Z;                  (* Timer::s_numCreated_ *)
  armed : option (Z * timespec);   (* the timerfd: the time it was set for, the relative value *)
  fired : list nat;                (* the callbacks run so far, latest first *)
}.

Definition UINTPTR_MAX : Z := 2 ^ 64 - 1.

(** What a user callback does to the queue. *)
Inductive action : Type :=
| DoAdd (cb : nat) (expiration : Z) (interval : double)
| DoCancel (id : TimerId).

Definition set_heap (h : gmap Z Timer) (q : TimerQueue) : TimerQueue :=
  mkTQ h (timers_ q) (cancelingTimers_ q) (numCreated q) (armed q) (fired q).
Definition set_timers (s : list entry) (q : TimerQueue) : TimerQueue :=
  mkTQ (heap q) s (cancelingTimers_ q) (numCreated q) (armed q) (fired q).
Definition set_armed (a : option (Z * timespec)) (q : TimerQueue) : TimerQueue :=
  mkTQ (heap q) (timers_ q) (cancelingTimers_ q) (numCreated q) a (fired q).

(** Access through a Timer*. *)
Definition deref (p : Z) (q : TimerQueue) : outcome Timer :=
  from_option_fault UseAfterFree (heap q !! p).

Definition TimerQueue_new : TimerQueue := mkTQ ∅ [] [] 0 None [].

Definition HowMuchTimeFromNow (when now : Z) : outcome timespec :=
  microseconds ← chk64 (when - now);
  let microseconds := if microseconds <? 100 then 100 else microseconds in
  Ret (mkTimespec (Z.quot microseconds kMicroSecondsPerSecond)
                  (Z.rem microseconds kMicroSecondsPerSecond * 1000)).

(** timerfd_settime succeeds; [now] is the clock read by HowMuchTimeFromNow *)
Definition ResetTimerfd (expiration now : Z) (q : TimerQueue) : outcome TimerQueue :=
  ts ← HowMuchTimeFromNow expiration now;
  Ret (set_armed (Some (expiration, ts)) q).

Definition Insert (p : Z) (q : TimerQueue) : outcome (bool * TimerQueue) :=
  tm ← deref p q;
  let expiration := expiration_ tm in
  let isEarliest := match timers_ q with
                    | [] => true
                    | it :: _ => TimeStamp_lt expiration it.1
                    end in
  Ret (isEarliest, set_timers (set_insert (expiration, p) (timers_ q)) q).

Definition AddTimerInLoop (p now : Z) (q : TimerQueue) : outcome TimerQueue :=
  r ← Insert p q;
  if (r.1 : bool) then
    tm ← deref p r.2;
    ResetTimerfd (expiration_ tm) now r.2
  else Ret r.2.

Definition CancelTimerIdInLoop (timerid : TimerId) (q : TimerQueue) : outcome TimerQueue :=
  let timer := timer_ timerid in
  if timer =? 0 then Ret q else
  tm ← deref timer q;
  let expiration := expiration_ tm in
  Ret (set_timers (set_erase (expiration, timer) (timers_ q)) q).

Definition GetExpired (now : Z) (q : TimerQueue) : list entry * TimerQueue :=
  let sentry := (now, UINTPTR_MAX) in
  let r := set_split sentry (timers_ q) in
  (r.1, set_timers r.2 q).

(** The loop of Reset: repeat or delete each expired timer. *)
Fixpoint ResetLoop (expired : list entry) (now : Z) (q : TimerQueue) : outcome TimerQueue :=
  match expired with
  | [] => Ret q
  | it :: expired =>
      tm ← deref it.2 q;
      let timer := (it.2, sequence_ tm) in
      let isCancelled := repeat_ tm && negb (bool_decide (timer ∈ cancelingTimers_ q)) in
      if repeat_ tm && isCancelled then
        tm' ← Restart now tm;
        r ← Insert it.2 (set_heap (<[it.2 := tm']> (heap q)) q);
        ResetLoop expired now r.2
      else ResetLoop expired now (set_heap (delete it.2 (heap q)) q)
  end.

(** [clk] is the clock read when the timerfd is set again. *)
Definition Reset (expired : list entry) (now clk : Z) (q : TimerQueue) : outcome TimerQueue :=
  q ← ResetLoop expired now q;
  nextExpire ← match timers_ q with
               | [] => Ret TimeStamp_invalid
               | it :: _ => tm ← deref it.2 q; Ret (expiration_ tm)
               end;
  if Valid nextExpire then ResetTimerfd nextExpire clk q else Ret q.

Section WithEnvironment.
(** operator new for a Timer: a free address, or none. *)
Context (malloc : gmap Z Timer → option Z).
(** The bodies of the user's callbacks. *)
Context (cbs : nat → list action).

(** AddTimer called in the loop thread: the id and the queue. *)
Definition AddTimer (cb : nat) (expiration : Z) (interval : double) (now : Z) (q : TimerQueue)
  : outcome (TimerId * TimerQueue) :=
  p ← from_option_fault ThrowAlloc (malloc (heap q));
  let tm := Timer_new cb expiration interval (numCreated q) in
  q' ← AddTimerInLoop p now
         (mkTQ (<[p := tm]> (heap q)) (timers_ q) (cancelingTimers_ q)
               (numCreated q + 1) (armed q) (fired q));
  Ret (mkTimerId p (sequence_ tm), q').

(** Cancel called in the loop thread *)
Definition Cancel (timerid : TimerId) (q : TimerQueue) : outcome TimerQueue :=
  CancelTimerIdInLoop timerid q.

Definition run_action (now : Z) (a : action) (q : TimerQueue) : outcome TimerQueue :=
  match a with
  | DoAdd cb expiration interval => r ← AddTimer cb expiration interval now q; Ret r.2
  | DoCancel id => Cancel id q
  end.

Fixpoint run_actions (now : Z) (l : list action) (q : TimerQueue) : outcome TimerQueue :=
  match l with
  | [] => Ret q
  | a :: l => q' ← run_action now a q; run_actions now l q'
  end.

(** it.second->Run() for each expired entry *)
Fixpoint RunExpired (expired : list entry) (now : Z) (q : TimerQueue) : outcome TimerQueue :=
  match expired with
  | [] => Ret q
  | it :: expired =>
      tm ← deref it.2 q;
      q' ← run_actions now (cbs (callback_ tm))
             (mkTQ (heap q) (timers_ q) (cancelingTimers_ q) (numCreated q) (armed q)
                   (callback_ tm :: fired q));
      RunExpired expired now q'
  end.

(** HandleRead: the timerfd has expired, so it is no longer armed.  [now] is
    the clock read first, [clk] the one read when the timer is set again. *)
Definition HandleRead (now clk : Z) (q : TimerQueue) : outcome TimerQueue :=
  let q := set_armed None q in
  let r := GetExpired now q in
  let q := r.2 in
  let q := mkTQ (heap q) (timers_ q) [] (numCreated q) (armed q) (fired q) in
  q ← RunExpired r.1 now q;
  Reset r.1 now clk q.
End WithEnvironment.

(** ** Invariants *)

Definition entry_lt (x y : entry) : Prop := entry_ltb x y = true.

Definition sorted (s : list entry) : Prop := StronglySorted entry_lt s.

(** Every entry of the set points to a live timer and carries its expiration. *)
Definition tq_wf (q : TimerQueue) : Prop :=
  sorted (timers_ q)
  ∧ (∀ t p, (t, p) ∈ timers_ q → ∃ tm, heap q !! p = Some tm ∧ expiration_ tm = t)
  ∧ (∀ p tm, heap q !! p = Some tm → 0 < p < UINTPTR_MAX ∧ repeat_ tm = double_pos (interval_ tm)).

(** Entries taken out of the set but not yet reset. *)
Definition expired_ok (x : list entry) (q : TimerQueue) : Prop :=
  NoDup x.*2
  ∧ ∀ t p, (t, p) ∈ x → (∃ tm, heap q !! p = Some tm ∧ expiration_ tm = t)
                        ∧ ∀ t', (t', p) ∉ timers_ q.

(** malloc returns addresses that are free and are valid pointers. *)
Definition malloc_ok (malloc : gmap Z Timer → option Z) : Prop :=
  ∀ h p, malloc h = Some p → h !! p = None ∧ 0 < p < UINTPTR_MAX.

(** ** Lemmas on std::set *)

Section SetLemmas.
Implicit Types (s : list entry) (x y e : entry).

Lemma entry_lt_spec x y : entry_lt x y ↔ x.1 < y.1 ∨ x.1 = y.1 ∧ x.2 < y.2.
Proof.
  unfold entry_lt, entry_ltb.
  destruct (Z.ltb_spec x.1 y.1), (Z.ltb_spec y.1 x.1), (Z.ltb_spec x.2 y.2); simpl; split;
    intros; try done; lia.
Qed.

Lemma entry_ltb_false x y : entry_ltb x y = false ↔ ¬ entry_lt x y.
Proof. unfold entry_lt. by rewrite not_true_iff_false. Qed.

Lemma entry_eq x y : ¬ entry_lt x y → ¬ entry_lt y x → x = y.
Proof. rewrite !entry_lt_spec. destruct x, y; simpl. intros. f_equal; lia. Qed.

Lemma elem_of_set_insert e s x : x ∈ set_insert e s ↔ x = e ∨ x ∈ s.
Proof.
  induction s as [|y s IH]; simpl; [set_solver|].
  destruct (entry_ltb e y) eqn:E1; [set_solver|].
  destruct (entry_ltb y e) eqn:E2; [set_solver|].
  apply entry_ltb_false in E1, E2. rewrite (entry_eq e y) by done. set_solver.
Qed.

Lemma set_insert_sorted e s : sorted s → sorted (set_insert e s).
Proof.
  induction 1 as [|y s Hs IH Hy]; simpl; [by repeat constructor|].
  destruct (entry_ltb e y) eqn:E1.
  - constructor; [by constructor|]. constructor; [done|].
    eapply Forall_impl; [exact Hy|]. intros z. unfold entry_lt in *. revert E1.
    change (entry_lt e y → entry_lt y z → entry_lt e z). rewrite !entry_lt_spec. lia.
  - destruct (entry_ltb y e) eqn:E2; [|by constructor].
    constructor; [done|]. apply Forall_forall. intros z [->|Hz]%elem_of_set_insert; [done|].
    by eapply Forall_forall in Hy.
Qed.

Lemma sorted_NoDup s : sorted s → NoDup s.
Proof.
  induction 1 as [|y s Hs IH Hy]; constructor; [|done].
  intros Hin. eapply Forall_forall in Hy; [|exact Hin]. apply entry_lt_spec in Hy. lia.
Qed.

Lemma elem_of_set_erase e s x : NoDup s → x ∈ set_erase e s ↔ x ∈ s ∧ x ≠ e.
Proof.
  induction 1 as [|y s Hy Hs IH]; simpl; [set_solver|].
  case_bool_decide as E; [subst; set_solver|]. rewrite !elem_of_cons, IH. set_solver.
Qed.

Lemma set_erase_sorted e s : sorted s → sorted (set_erase e s).
Proof.
  induction 1 as [|y s Hs IH Hy]; simpl; [constructor|].
  case_bool_decide; [done|]. constructor; [done|]. apply Forall_forall. intros z Hz.
  apply elem_of_set_erase in Hz as [Hz _]; [|by apply sorted_NoDup].
  by eapply Forall_forall in Hy.
Qed.

Lemma set_split_spec e s :
  sorted s →
  (set_split e s).1 ++ (set_split e s).2 = s
  ∧ Forall (λ x, entry_lt x e) (set_split e s).1
  ∧ Forall (λ x, ¬ entry_lt x e) (set_split e s).2.
Proof.
  induction 1 as [|y s Hs IH Hy]; simpl; [done|].
  destruct (entry_ltb y e) eqn:E; simpl.
  - destruct IH as (IH1 & IH2 & IH3). split_and!; [by f_equal|by constructor|done].
  - split_and!; [done|constructor|]. apply entry_ltb_false in E. constructor; [done|].
    eapply Forall_impl; [exact Hy|]. intros z Hz. revert Hz E. rewrite !entry_lt_spec. lia.
Qed.

Lemma sorted_app s1 s2 : sorted (s1 ++ s2) → sorted s1 ∧ sorted s2.
Proof.
  induction s1 as [|x s1 IH]; simpl; intros H; [split; [constructor|done]|].
  inversion H as [|? ? Hs Hx]; subst. destruct (IH Hs) as [H1 H2]. split; [|done].
  constructor; [done|]. by apply Forall_app in Hx as [? _].
Qed.
End SetLemmas.

(** ** Lemmas on the operations *)

Section OpLemmas.
Implicit Types q : TimerQueue.

(** Inserting a timer whose entry is not in the set. *)
Lemma Insert_ok p tm q :
  tq_wf q → heap q !! p = Some tm → (∀ t, (t, p) ∉ timers_ q) →
  ∃ r, Insert p q = Ret r ∧ tq_wf r.2 ∧ heap r.2 = heap q
    ∧ timers_ r.2 = set_insert (expiration_ tm, p) (timers_ q)
    ∧ armed r.2 = armed q ∧ fired r.2 = fired q
    ∧ cancelingTimers_ r.2 = cancelingTimers_ q
    ∧ (r.1 = true ↔ Forall (λ e, expiration_ tm < e.1) (timers_ q)).
Proof.
  intros (Hs & Hh & Ha) Hp Hnew. unfold Insert, deref. rewrite Hp. cbn [from_option_fault mbind outcome_bind].
  eexists; split; [done|]. simpl. split_and!; try done.
  - split_and!; simpl; [by apply set_insert_sorted| |done].
    intros t p' [[= -> ->]|Hin]%elem_of_set_insert; eauto.
  - destruct (timers_ q) as [|it s] eqn:E; [by split|]. unfold TimeStamp_lt. rewrite Z.ltb_lt.
    inversion Hs as [|? ? Hs' Hit]; subst. rewrite Forall_cons. split; [|tauto].
    intros Hlt. split; [done|]. eapply Forall_impl; [exact Hit|].
    intros z Hz%entry_lt_spec. lia.
Qed.

Lemma ResetTimerfd_Ret e now q q' :
  ResetTimerfd e now q = Ret q' → ∃ ts, HowMuchTimeFromNow e now = Ret ts ∧ q' = set_armed (Some (e, ts)) q.
Proof. unfold ResetTimerfd. intros H. inv_ret. eauto. Qed.

(** AddTimerInLoop adds the entry and, for the earliest timer, sets the timerfd. *)
Lemma AddTimerInLoop_ok p tm now q q' :
  tq_wf q → heap q !! p = Some tm → (∀ t, (t, p) ∉ timers_ q) →
  AddTimerInLoop p now q = Ret q' →
  tq_wf q' ∧ heap q' = heap q ∧ timers_ q' = set_insert (expiration_ tm, p) (timers_ q)
  ∧ fired q' = fired q ∧ cancelingTimers_ q' = cancelingTimers_ q
  ∧ (armed q' = armed q ∧ (∃ e, e ∈ timers_ q ∧ e.1 ≤ expiration_ tm)
     ∨ (∀ e, e ∈ timers_ q → expiration_ tm < e.1)
       ∧ ∃ ts, armed q' = Some (expiration_ tm, ts)).
Proof.
  intros Hwf Hp Hnew. unfold AddTimerInLoop.
  destruct (Insert_ok p tm q) as (r & -> & Hw & Hh & Ht & Har & Hf & Hc & He); [done..|].
  cbn [mbind outcome_bind]. destruct r.1.
  - unfold deref. rewrite Hh, Hp. cbn [from_option_fault mbind outcome_bind].
    intros (ts & _ & ->)%ResetTimerfd_Ret. simpl. rewrite Hh, Ht, Hf, Hc.
    split_and!; try done. right. split; [|by eauto]. apply Forall_forall. by apply He.
  - intros [= <-]. rewrite Hh, Ht, Hf, Hc, Har. split_and!; try done. left. split; [done|].
    destruct (timers_ q) as [|it s] eqn:E; [by discriminate (proj2 He (Forall_nil_2 _))|].
    exists it. split; [set_solver|]. apply Z.nlt_ge. intros Hlt.
    destruct He as [_ He]. cut (false = true); [done|]. apply He.
    destruct Hwf as (Hs & _). rewrite E in Hs. inversion Hs as [|? ? Hs' Hit]; subst.
    constructor; [done|]. eapply Forall_impl; [exact Hit|]. intros z Hz%entry_lt_spec. lia.
Qed.

Lemma AddTimer_ok malloc cb e iv now q id q' :
  malloc_ok malloc → tq_wf q → AddTimer malloc cb e iv now q = Ret (id, q') →
  let tm := Timer_new cb e iv (numCreated q) in
  heap q !! timer_ id = None ∧ tid_sequence_ id = sequence_ tm
  ∧ tq_wf q' ∧ heap q' = <[timer_ id := tm]> (heap q)
  ∧ timers_ q' = set_insert (e, timer_ id) (timers_ q)
  ∧ fired q' = fired q ∧ cancelingTimers_ q' = cancelingTimers_ q
  ∧ (armed q' = armed q ∧ (∃ x, x ∈ timers_ q ∧ x.1 ≤ e)
     ∨ (∀ x, x ∈ timers_ q → e < x.1) ∧ ∃ ts, armed q' = Some (e, ts)).
Proof.
  intros Hmalloc Hwf H. unfold AddTimer in H. inv_ret. subst.
  destruct (malloc (heap q)) as [p|] eqn:Hm; [|done]. injection Hr as <-.
  apply Hmalloc in Hm as [Hfree Hrange]. destruct Hwf as (Hs & Hh & Ha).
  assert (Hnew : ∀ t, (t, p) ∉ timers_ q).
  { intros t Hin. destruct (Hh _ _ Hin) as (? & ? & _). congruence. }
  eapply (AddTimerInLoop_ok p (Timer_new cb e iv (numCreated q))) in Hr0 as (? & Hh' & Ht & Hf & Hc & Har);
    simpl in *.
  - rewrite Hh', Ht, Hf, Hc. by split_and!.
  - split_and!; simpl; [done| |].
    + intros t p' Hin. destruct (Hh _ _ Hin) as (tm & Hl & He). exists tm. split; [|done].
      rewrite lookup_insert_ne; [done|]. intros ->. congruence.
    + intros p' tm. rewrite lookup_insert. case_decide; [|by eauto]. subst p'. by intros [= <-].
  - by rewrite lookup_insert_eq.
  - done.
Qed.

Lemma Cancel_ok id q q' :
  tq_wf q → CancelTimerIdInLoop id q = Ret q' →
  tq_wf q' ∧ heap q' = heap q ∧ armed q' = armed q ∧ fired q' = fired q
  ∧ cancelingTimers_ q' = cancelingTimers_ q
  ∧ (∀ x, x ∈ timers_ q' ↔ x ∈ timers_ q ∧ (timer_ id = 0 ∨ x.2 ≠ timer_ id)).
Proof.
  intros (Hs & Hh & Ha) H. unfold CancelTimerIdInLoop in H.
  destruct (Z.eqb_spec (timer_ id) 0) as [E|E].
  { injection H as <-. split_and!; [by split_and!|done..|]. intros x. tauto. }
  inv_ret. subst q'. unfold deref in Hr. destruct (heap q !! timer_ id) as [tm|] eqn:Hl; [|done].
  injection Hr as <-. pose proof (sorted_NoDup _ Hs) as Hnd. split_and!; simpl; try done.
  - split_and!; simpl; [by apply set_erase_sorted| |done].
    intros t p [Hin _]%elem_of_set_erase; eauto.
  - intros [t p]. rewrite elem_of_set_erase by done. simpl. split.
    + intros [Hin Hne]. split; [done|right]. intros ->. destruct (Hh _ _ Hin) as (tm' & Hl' & He).
      rewrite Hl in Hl'. injection Hl' as <-. congruence.
    + intros [Hin [?|Hne]]; [done|]. split; [done|congruence].
Qed.
End OpLemmas.

(** ** Lemmas on HandleRead *)

(** What the callbacks keep: the invariant, the entries taken out of the set,
    the log, and every live timer. *)
Definition kept (x : list entry) (q q' : TimerQueue) : Prop :=
  tq_wf q' ∧ expired_ok x q' ∧ cancelingTimers_ q' = cancelingTimers_ q
  ∧ (∀ p tm, heap q !! p = Some tm → heap q' !! p = Some tm).

(** No entry carries the invalid time stamp. *)
Definition nonzero (q : TimerQueue) : Prop := ∀ e, e ∈ timers_ q → e.1 ≠ 0.

(** The callbacks of a list of entries, in the order of the list. *)
Definition callbacks_of (x : list entry) (q : TimerQueue) : list nat :=
  omap (λ e : entry, callback_ <$> heap q !! e.2) x.

(** A repeating timer is in the set again, a one-shot timer is deleted. *)
Definition after_reset (now : Z) (tm : Timer) (p : Z) (q : TimerQueue) : Prop :=
  if repeat_ tm
  then ∃ e tm', AddTime now (interval_ tm) = Ret e ∧ now ≤ e ∧ (e, p) ∈ timers_ q
                ∧ heap q !! p = Some tm' ∧ callback_ tm' = callback_ tm
  else heap q !! p = None.

Section ResetLemmas.
Implicit Types (q : TimerQueue) (x : list entry).

Lemma kept_refl x q : tq_wf q → expired_ok x q → kept x q q.
Proof. intros. by split_and!. Qed.

Lemma kept_trans x q1 q2 q3 : kept x q1 q2 → kept x q2 q3 → kept x q1 q3.
Proof.
  intros (? & ? & Hc1 & Hg1) (? & ? & Hc2 & Hg2). split_and!; try done; [congruence|eauto].
Qed.

(** Fields the callbacks' log does not touch. *)
Lemma wf_same q q' : heap q' = heap q → timers_ q' = timers_ q → tq_wf q → tq_wf q'.
Proof. unfold tq_wf. by intros -> ->. Qed.

Lemma expired_ok_same x q q' :
  heap q' = heap q → timers_ q' = timers_ q → expired_ok x q → expired_ok x q'.
Proof. unfold expired_ok. by intros -> ->. Qed.

Lemma callbacks_of_grow x q q' :
  (∀ p tm, heap q !! p = Some tm → heap q' !! p = Some tm) →
  (∀ z, z ∈ x → is_Some (heap q !! z.2)) → callbacks_of x q = callbacks_of x q'.
Proof.
  intros Hg. unfold callbacks_of. induction x as [|z x IH]; intros Hx; [done|]. simpl.
  destruct (Hx z) as [tm Hz]; [set_solver|]. rewrite Hz, (Hg _ _ Hz). simpl. f_equal.
  apply IH. set_solver.
Qed.

(** Changing or freeing a timer that is not in the set keeps the queue
    well formed; the other expired timers do not notice. *)
Lemma wf_heap_insert p tm tm' q :
  tq_wf q → heap q !! p = Some tm → (∀ t, (t, p) ∉ timers_ q) →
  repeat_ tm' = double_pos (interval_ tm') → tq_wf (set_heap (<[p := tm']> (heap q)) q).
Proof.
  intros (Hs & Hh & Ha) Hl Hnew Hrep. split_and!; simpl; [done| |].
  - intros t' p' Hin. destruct (Hh _ _ Hin) as (tm0 & ? & ?). exists tm0.
    rewrite lookup_insert_ne; [done|]. intros <-. by apply (Hnew t').
  - intros p' tm0. rewrite lookup_insert. case_decide; [|by eauto]. subst p'.
    intros [= <-]. by destruct (Ha p tm Hl) as [? _].
Qed.

Lemma wf_heap_delete p q :
  tq_wf q → (∀ t, (t, p) ∉ timers_ q) → tq_wf (set_heap (delete p (heap q)) q).
Proof.
  intros (Hs & Hh & Ha) Hnew. split_and!; simpl; [done| |].
  - intros t' p' Hin. destruct (Hh _ _ Hin) as (tm0 & ? & ?). exists tm0.
    rewrite lookup_delete_ne; [done|]. intros <-. by apply (Hnew t').
  - intros p' tm0 [_ ?]%lookup_delete_Some. eauto.
Qed.

Lemma expired_ok_frame x p q q' :
  expired_ok x q → p ∉ x.*2 → (∀ p', p' ≠ p → heap q' !! p' = heap q !! p') →
  (∀ t' p', p' ≠ p → (t', p') ∈ timers_ q' → (t', p') ∈ timers_ q) → expired_ok x q'.
Proof.
  intros [Hnd Hx] Hp Hh Ht. split; [done|]. intros t' p' Hin.
  assert (p' ≠ p) as Hne by (intros ->; apply Hp; by apply (list_elem_of_fmap_2 snd) in Hin).
  destruct (Hx t' p' Hin) as [(tm0 & ? & ?) Hn']. split; [exists tm0; by rewrite Hh|].
  intros t'' Hin'. by apply (Hn' t''), Ht.
Qed.

(** The loop of Reset puts repeating timers back and deletes the others;
    cancelled timers are not told apart because cancelingTimers_ is empty. *)
Lemma ResetLoop_ok x now q q' :
  tq_wf q → expired_ok x q → cancelingTimers_ q = [] → ResetLoop x now q = Ret q' →
  tq_wf q' ∧ fired q' = fired q ∧ (nonzero q → 0 < now → nonzero q')
  ∧ (∀ e, e ∈ timers_ q → e ∈ timers_ q')
  ∧ (∀ p, p ∉ x.*2 → heap q' !! p = heap q !! p)
  ∧ (∀ t p tm, (t, p) ∈ x → heap q !! p = Some tm → after_reset now tm p q').
Proof.
  revert q. induction x as [|[t p] x IH]; intros q Hwf Hx Hc H; simpl in H.
  { injection H as <-. split_and!; try done; set_solver. }
  destruct Hx as [Hnd Hx]. simpl in Hnd. apply NoDup_cons in Hnd as [Hp Hnd].
  destruct (Hx t p) as [(tm & Hl & He) Hnew]; [set_solver|].
  unfold deref in H at 1. rewrite Hl in H. cbn [from_option_fault mbind outcome_bind] in H.
  assert (Hx' : expired_ok x q) by (split; [done|]; intros; apply Hx; set_solver).
  assert (Hne : ∀ t' p', (t', p') ∈ x → p' ≠ p).
  { intros t' p' Hin ->. apply Hp. apply (list_elem_of_fmap_2 snd) in Hin. done. }
  rewrite Hc in H. rewrite bool_decide_false in H by (apply not_elem_of_nil).
  destruct (repeat_ tm) eqn:Hrep; cbn [andb negb] in H.
  - inv_ret. rename r into tm', r0 into r.
    destruct (Restart_repeat _ _ _ Hrep Hr) as (Hadd & Hcb & Hiv & Hrep' & Hseq).
    destruct Hwf as (Hs & Hh & Ha). destruct (Ha p tm Hl) as [_ Hd].
    set (q1 := set_heap _ _) in Hr0.
    assert (Hw1 : tq_wf q1) by (eapply wf_heap_insert; [done|exact Hl|done|congruence]).
    destruct (Insert_ok p tm' q1) as (r' & Hi & Hw & Hh1 & Ht1 & _ & Hf1 & Hc1 & _);
      [done|by simpl; rewrite lookup_insert_eq|done|].
    rewrite Hi in Hr0. injection Hr0 as <-. simpl in Hh1, Ht1, Hf1, Hc1.
    destruct (IH r'.2 Hw) as (HwF & HfF & HzF & HtF & HhF & HaF); [|by rewrite Hc1|done|].
    { eapply expired_ok_frame; [exact Hx'|exact Hp|..].
      - intros p' ?. by rewrite Hh1, lookup_insert_ne.
      - intros t' p' ? Hin. rewrite Ht1 in Hin. by apply elem_of_set_insert in Hin as [[= -> ->]|?]. }
    assert (Hle : now ≤ expiration_ tm') by (apply (AddTime_pos now (interval_ tm)); congruence).
    split_and!; try done.
    + congruence.
    + intros Hnz Hnow. apply HzF; [|done]. intros e Hin. rewrite Ht1 in Hin.
      apply elem_of_set_insert in Hin as [->|Hin]; [simpl; lia|by apply Hnz].
    + intros e Hin. apply HtF. rewrite Ht1. apply elem_of_set_insert. by right.
    + intros p' Hp'. simpl in Hp'. rewrite HhF by set_solver. rewrite Hh1.
      rewrite lookup_insert_ne; [done|]. set_solver.
    + intros t' p' tm0 [[= -> ->]|Hin]%elem_of_cons Hl0.
      * rewrite Hl in Hl0. injection Hl0 as <-. unfold after_reset. rewrite Hrep.
        exists (expiration_ tm'), tm'. split_and!; try done.
        -- apply HtF. rewrite Ht1. apply elem_of_set_insert. by left.
        -- rewrite HhF by done. by rewrite Hh1, lookup_insert_eq.
      * eapply HaF; [done|]. rewrite Hh1, lookup_insert_ne; [done|]. by apply not_eq_sym, (Hne t').
  - destruct (IH _ (wf_heap_delete p q Hwf Hnew)) as (HwF & HfF & HzF & HtF & HhF & HaF); [|done|done|].
    { eapply expired_ok_frame; [exact Hx'|exact Hp| |done]. intros p' ?. simpl. by rewrite lookup_delete_ne. }
    split_and!; try done.
    + intros p' Hp'. simpl in Hp'. rewrite HhF by set_solver. simpl.
      rewrite lookup_delete_ne; [done|]. set_solver.
    + intros t' p' tm0 [[= -> ->]|Hin]%elem_of_cons Hl0.
      * rewrite Hl in Hl0. injection Hl0 as <-. unfold after_reset. rewrite Hrep, HhF by done.
        simpl. by rewrite lookup_delete_eq.
      * eapply HaF; [done|]. simpl. rewrite lookup_delete_ne; [done|]. by apply not_eq_sym, (Hne t').
Qed.

Lemma wf_addr_unique q t t' p : tq_wf q → (t, p) ∈ timers_ q → (t', p) ∈ timers_ q → t = t'.
Proof.
  intros (_ & Hh & _) H1 H2. destruct (Hh _ _ H1) as (? & ? & ?), (Hh _ _ H2) as (? & ? & ?).
  congruence.
Qed.

Lemma GetExpired_ok now q :
  tq_wf q →
  let r := GetExpired now q in
  r.1 ++ timers_ r.2 = timers_ q
  ∧ (∀ e, e ∈ r.1 → e.1 ≤ now) ∧ (∀ e, e ∈ timers_ r.2 → now < e.1)
  ∧ tq_wf r.2 ∧ expired_ok r.1 r.2.
Proof.
  intros Hwf r. pose proof Hwf as (Hs & Hh & Ha). unfold r, GetExpired. simpl.
  destruct (set_split_spec (now, UINTPTR_MAX) (timers_ q) Hs) as (Happ & Hlt & Hge).
  set (a := (set_split _ _).1) in *. set (b := (set_split _ _).2) in *.
  assert (Hb : ∀ e, e ∈ b → e ∈ timers_ q) by (intros e; rewrite <- Happ; set_solver).
  assert (Hea : ∀ e, e ∈ a → e ∈ timers_ q) by (intros e; rewrite <- Happ; set_solver).
  pose proof (sorted_NoDup _ Hs) as Hnd. rewrite <- Happ in Hnd.
  apply NoDup_app in Hnd as (Hnda & Hdisj & _). split_and!; [done|..].
  - intros e He. eapply Forall_forall in Hlt; [|exact He]. apply entry_lt_spec in Hlt. simpl in Hlt. lia.
  - intros [t p] He. eapply Forall_forall in Hge; [|exact He]. rewrite entry_lt_spec in Hge.
    destruct (Hh t p) as (tm & Hl & _); [by apply Hb|]. apply Ha in Hl. simpl in *. lia.
  - split_and!; simpl; [|by eauto|done]. rewrite <- Happ in Hs. by apply sorted_app in Hs as [_ ?].
  - split.
    + apply NoDup_fmap_2_strong; [|done]. intros [t p] [t' p'] H1 H2 E. simpl in E. subst p'.
      f_equal. apply (wf_addr_unique q t t' p); auto.
    + intros t p Hin. split; [by apply Hh, Hea|]. simpl. intros t' Hin'.
      assert (t = t') as <- by (apply (wf_addr_unique q t t' p); auto). by apply (Hdisj (t, p)).
Qed.

(** Reset sets the timerfd for the first entry left in the set. *)
Lemma Reset_ok x now clk q q' :
  tq_wf q → expired_ok x q → cancelingTimers_ q = [] → Reset x now clk q = Ret q' →
  tq_wf q' ∧ fired q' = fired q
  ∧ (∀ e, e ∈ timers_ q → e ∈ timers_ q')
  ∧ (∀ t p tm, (t, p) ∈ x → heap q !! p = Some tm → after_reset now tm p q')
  ∧ (nonzero q → 0 < now →
     nonzero q' ∧ match timers_ q' with
                  | [] => True
                  | it :: _ => ∃ ts, armed q' = Some (it.1, ts)
                  end).
Proof.
  intros Hwf Hx Hc H. unfold Reset in H. inv_ret. rename r into q1, r0 into next.
  destruct (ResetLoop_ok x now q q1 Hwf Hx Hc Hr) as (Hw1 & Hf1 & Hz1 & Ht1 & _ & Ha1).
  destruct (Valid next) eqn:Hv.
  - apply ResetTimerfd_Ret in H as (ts & _ & ->). split_and!; try done.
    intros Hnz Hnow. split; [by apply Hz1|]. simpl.
    destruct (timers_ q1) as [|it s] eqn:E; [done|]. inv_ret. subst next.
    destruct Hw1 as (_ & Hh & _). destruct it as [t p].
    destruct (Hh t p) as (tm & Hl & He); [rewrite E; set_solver|].
    unfold deref in Hr1. simpl in Hr1. rewrite Hl in Hr1. injection Hr1 as <-. rewrite He. eauto.
  - injection H as <-. split_and!; try done. intros Hnz Hnow. split; [by apply Hz1|].
    destruct (timers_ q1) as [|[t p] s] eqn:E; [done|]. exfalso. inv_ret. subst next.
    destruct Hw1 as (_ & Hh & _). destruct (Hh t p) as (tm & Hl & He); [rewrite E; set_solver|].
    unfold deref in Hr1. simpl in Hr1. rewrite Hl in Hr1. injection Hr1 as <-.
    apply (Hz1 Hnz Hnow (t, p)); [rewrite E; set_solver|]. simpl.
    unfold Valid in Hv. rewrite He in Hv. by destruct (Z.eqb_spec t 0).
Qed.
End ResetLemmas.

Section HandleReadLemmas.
Context (malloc : gmap Z Timer → option Z) (cbs : nat → list action).
Hypothesis Hmalloc : malloc_ok malloc.
Implicit Types (q : TimerQueue) (x : list entry).

Lemma run_action_ok x now a q q' :
  tq_wf q → expired_ok x q → run_action malloc now a q = Ret q' →
  kept x q q' ∧ fired q' = fired q
  ∧ (nonzero q → (∀ cb e iv, a = DoAdd cb e iv → e ≠ 0) → nonzero q').
Proof.
  intros Hwf [Hnd Hx] H. destruct a as [cb e iv|id]; simpl in H.
  - inv_ret. destruct r as [id q1]. simpl in H. subst q1.
    destruct (AddTimer_ok _ _ _ _ _ _ _ _ Hmalloc Hwf Hr)
      as (Hfree & _ & Hw & Hh & Ht & Hf & Hc & _).
    assert (Hgrow : ∀ p tm, heap q !! p = Some tm → heap q' !! p = Some tm).
    { intros p tm Hp. rewrite Hh, lookup_insert_ne; [done|congruence]. }
    split_and!; try done.
    + split_and!; try done. split; [done|]. intros t p Hin.
      destruct (Hx _ _ Hin) as [(tm & Hl & He) Hn]. split; [by eauto|].
      intros t' Hin'. rewrite Ht in Hin'. apply elem_of_set_insert in Hin' as [[= -> ->]|Hin'].
      * congruence.
      * by apply (Hn t').
    + intros Hnz Hadd y Hy. rewrite Ht in Hy. apply elem_of_set_insert in Hy as [->|Hy]; eauto.
  - destruct (Cancel_ok _ _ _ Hwf H) as (Hw & Hh & _ & Hf & Hc & Ht).
    split_and!; try done.
    + split_and!; try done; [|by rewrite Hh]. split; [done|]. intros t p Hin. rewrite Hh.
      destruct (Hx _ _ Hin) as [? Hn]. split; [done|]. intros t' [Hin' _]%Ht. by apply (Hn t').
    + intros Hnz _ y [Hy _]%Ht. eauto.
Qed.

Lemma run_actions_ok x now l q q' :
  tq_wf q → expired_ok x q → run_actions malloc now l q = Ret q' →
  kept x q q' ∧ fired q' = fired q
  ∧ (nonzero q → (∀ cb e iv, DoAdd cb e iv ∈ l → e ≠ 0) → nonzero q').
Proof.
  revert q. induction l as [|a l IH]; intros q Hwf Hx H; simpl in H.
  { injection H as <-. split_and!; [by apply kept_refl|done..]. }
  inv_ret. destruct (run_action_ok x _ _ _ _ Hwf Hx Hr) as (Hk & Hf & Hz).
  pose proof Hk as (Hw1 & Hx1 & _).
  destruct (IH _ Hw1 Hx1 H) as (Hk' & Hf' & Hz'). split_and!.
  - by eapply kept_trans.
  - congruence.
  - intros Hnz Hadd. apply Hz'.
    + apply Hz; [done|]. intros cb e iv ->. apply (Hadd cb e iv). set_solver.
    + intros cb e iv Hin. apply (Hadd cb e iv). set_solver.
Qed.

Lemma RunExpired_ok x y now q q' :
  tq_wf q → expired_ok y q → x ⊆ y → RunExpired malloc cbs x now q = Ret q' →
  kept y q q' ∧ fired q' = reverse (callbacks_of x q) ++ fired q
  ∧ (nonzero q → (∀ n cb e iv, DoAdd cb e iv ∈ cbs n → e ≠ 0) → nonzero q').
Proof.
  revert q. induction x as [|it x IH]; intros q Hwf Hy Hsub H; simpl in H.
  { injection H as <-. split_and!; [by apply kept_refl|done..]. }
  inv_ret. rename r into tm. unfold deref in Hr.
  destruct (heap q !! it.2) as [tm'|] eqn:Hl; [|done]. injection Hr as ->.
  set (q0 := mkTQ _ _ _ _ _ _) in Hr0.
  destruct (run_actions_ok y _ _ _ _ (wf_same q q0 eq_refl eq_refl Hwf)
              (expired_ok_same y q q0 eq_refl eq_refl Hy) Hr0) as (Hk & Hf & Hz).
  pose proof Hk as (Hw1 & Hy1 & Hc1 & Hg1).
  destruct (IH _ Hw1 Hy1 ltac:(set_solver) H) as (Hk' & Hf' & Hz'). split_and!.
  - apply (kept_trans y q0 r0 q') in Hk'; [|done]. destruct Hk' as (? & ? & ? & ?). by split_and!.
  - rewrite Hf', Hf. simpl. rewrite Hl; simpl. rewrite reverse_cons, <- app_assoc. f_equal.
    f_equal. symmetry. apply callbacks_of_grow; [done|]. intros [tz pz] Hz0.
    destruct Hy as [_ Hy]. destruct (Hy tz pz) as [(tmz & Hlz & _) _]; [set_solver|]. by eauto.
  - intros Hnz Hadd. apply Hz'; [|done]. apply Hz; [done|]. by intros cb e iv; apply Hadd.
Qed.

End HandleReadLemmas.

Section HandleReadSpec.
Context (malloc : gmap Z Timer → option Z) (cbs : nat → list action).
Hypothesis Hmalloc : malloc_ok malloc.
Implicit Types (q : TimerQueue) (x : list entry).

Definition expired_at (now : Z) q : list entry := (GetExpired now q).1.

Lemma HandleRead_ok now clk q q' :
  tq_wf q → HandleRead malloc cbs now clk q = Ret q' →
  tq_wf q'
  ∧ fired q' = reverse (callbacks_of (expired_at now q) q) ++ fired q
  ∧ (∀ t p tm, (t, p) ∈ expired_at now q → heap q !! p = Some tm → after_reset now tm p q')
  ∧ (nonzero q → 0 < now → (∀ n cb e iv, DoAdd cb e iv ∈ cbs n → e ≠ 0) →
     nonzero q' ∧ match timers_ q' with
                  | [] => True
                  | it :: _ => ∃ ts, armed q' = Some (it.1, ts)
                  end).
Proof.
  intros Hwf H. unfold HandleRead in H. inv_ret. rename r into q2.
  pose proof (GetExpired_ok now (set_armed None q) (wf_same q (set_armed None q) eq_refl eq_refl Hwf))
    as (Happ & _ & _ & Hw1 & Hx1).
  change (GetExpired now (set_armed None q)).1 with (expired_at now q) in *.
  set (q1 := (GetExpired now (set_armed None q)).2) in *.
  set (q1' := mkTQ _ _ _ _ _ _) in Hr.
  destruct (RunExpired_ok malloc cbs Hmalloc (expired_at now q) (expired_at now q) now q1' q2)
    as ((Hw2 & Hx2 & Hc2 & Hg2) & Hf2 & Hz2); [by apply (wf_same q1)|by apply (expired_ok_same _ q1)|done|done|].
  destruct (Reset_ok _ _ _ _ _ Hw2 Hx2 Hc2 H) as (Hw3 & Hf3 & Ht3 & Ha3 & Hz3).
  split_and!; [done|by rewrite Hf3, Hf2|..].
  - intros t p tm Hin Hl. by apply (Ha3 t p tm Hin), Hg2.
  - intros Hnz Hnow Hadd. apply Hz3; [|done]. apply Hz2; [|done].
    intros e He. apply Hnz. simpl in Happ. rewrite <- Happ. set_solver.
Qed.
End HandleReadSpec.

(** ** The queue as a transition system *)

(** What the loop thread does to the queue between two calls of the poller:
    add a timer for a valid time, cancel one, or handle the timerfd. *)
Inductive tq_step (malloc : gmap Z Timer → option Z) (cbs : nat → list action)
  : TimerQueue → TimerQueue → Prop :=
| step_add cb e iv now id q q' :
    Valid e = true → AddTimer malloc cb e iv now q = Ret (id, q') → tq_step malloc cbs q q'
| step_cancel id q q' : Cancel id q = Ret q' → tq_step malloc cbs q q'
| step_fire now clk q q' :
    0 < now → is_Some (armed q) → HandleRead malloc cbs now clk q = Ret q' →
    tq_step malloc cbs q q'.

(** The timerfd is set for the first entry of the set or for an earlier time. *)
Definition armed_ok (q : TimerQueue) : Prop :=
  match timers_ q with
  | [] => True
  | it :: _ => ∃ w ts, armed q = Some (w, ts) ∧ w ≤ it.1
  end.

Definition tq_inv (q : TimerQueue) : Prop := tq_wf q ∧ nonzero q ∧ armed_ok q.

Section StepLemmas.
Context (malloc : gmap Z Timer → option Z) (cbs : nat → list action).
Implicit Types q : TimerQueue.

Lemma armed_ok_alt q :
  sorted (timers_ q) →
  armed_ok q ↔ (timers_ q ≠ [] → ∃ w ts, armed q = Some (w, ts) ∧ ∀ e, e ∈ timers_ q → w ≤ e.1).
Proof.
  unfold armed_ok. destruct (timers_ q) as [|it s]; intros Hs; [done|].
  inversion Hs as [|? ? Hs' Hit]; subst. split.
  - intros (w & ts & ? & ?) _. exists w, ts. split; [done|]. intros e [->|He]%elem_of_cons; [done|].
    eapply Forall_forall in Hit; [|exact He]. apply entry_lt_spec in Hit. lia.
  - intros H. destruct H as (w & ts & ? & H); [done|]. exists w, ts. split; [done|]. apply H. set_solver.
Qed.

Lemma inv_add cb e iv now id q q' :
  malloc_ok malloc → tq_inv q → Valid e = true → AddTimer malloc cb e iv now q = Ret (id, q') → tq_inv q'.
Proof.
  intros Hm (Hwf & Hnz & Har) Hv H.
  destruct (AddTimer_ok _ _ _ _ _ _ _ _ Hm Hwf H) as (_ & _ & Hw & _ & Ht & _ & _ & Ha).
  split_and!; [done|..].
  - intros x Hx. rewrite Ht in Hx. apply elem_of_set_insert in Hx as [->|Hx]; [|by apply Hnz].
    simpl. unfold Valid in Hv. by destruct (Z.eqb_spec e 0).
  - rewrite armed_ok_alt in Har by apply Hwf. rewrite armed_ok_alt by apply Hw. intros _.
    destruct Ha as [[-> (x & Hx & Hxe)]|[Hall [ts ->]]].
    + destruct Har as (w & ts & Hw' & Hle); [by intros E; rewrite E in Hx; apply not_elem_of_nil in Hx|]. exists w, ts. split; [done|].
      intros y Hy. rewrite Ht in Hy. apply elem_of_set_insert in Hy as [->|Hy]; [|by apply Hle].
      specialize (Hle x Hx). simpl. lia.
    + exists e, ts. split; [done|]. intros y Hy. rewrite Ht in Hy.
      apply elem_of_set_insert in Hy as [->|Hy]; [done|]. apply Z.lt_le_incl. by apply Hall.
Qed.

Lemma inv_cancel id q q' : tq_inv q → Cancel id q = Ret q' → tq_inv q'.
Proof.
  intros (Hwf & Hnz & Har) H. destruct (Cancel_ok _ _ _ Hwf H) as (Hw & _ & Ha & _ & _ & Ht).
  split_and!; [done|by intros x [? _]%Ht; apply Hnz|].
  rewrite armed_ok_alt in Har by apply Hwf. rewrite armed_ok_alt by apply Hw. intros Hne.
  rewrite Ha. destruct Har as (w & ts & ? & Hle).
  - intros E. apply Hne. destruct (timers_ q') as [|x s]; [done|]. exfalso.
    destruct (Ht x) as [Hx _]. rewrite E in Hx. set_solver.
  - exists w, ts. split; [done|]. intros x [? _]%Ht. by apply Hle.
Qed.

Lemma inv_fire now clk q q' :
  malloc_ok malloc → (∀ n cb e iv, DoAdd cb e iv ∈ cbs n → e ≠ 0) → 0 < now →
  tq_inv q → HandleRead malloc cbs now clk q = Ret q' → tq_inv q'.
Proof.
  intros Hm Hadd Hnow (Hwf & Hnz & _) H.
  destruct (HandleRead_ok _ _ Hm _ _ _ _ Hwf H) as (Hw & _ & _ & Hz).
  destruct (Hz Hnz Hnow Hadd) as [Hnz' Hfirst]. split_and!; [done..|].
  unfold armed_ok. destruct (timers_ q'); [done|]. destruct Hfirst as [ts ?]. eauto with lia.
Qed.

Lemma inv_new : tq_inv TimerQueue_new.
Proof. split_and!; [split_and!; [constructor|set_solver|done]|by intros e He; set_solver|done]. Qed.
End StepLemmas.

(** A concrete allocator, for the witnesses. *)
Definition malloc16 (h : gmap Z Timer) : option Z :=
  let p := 16 * (1 + Z.of_nat (size h)) in
  if bool_decide (h !! p = None ∧ 0 < p < UINTPTR_MAX) then Some p else None.

Lemma malloc16_ok : malloc_ok malloc16.
Proof. intros h p. unfold malloc16. case_bool_decide; [|done]. by intros [= <-]. Qed.

(** ** Properties *)

(** GetExpired splits the set at the current time.  On a well-formed queue
    it returns exactly the entries whose time has come, in the order of the
    set, and leaves exactly those that are due later; the expired timers are
    distinct live objects that the set no longer refers to. *)
Theorem get_expired_spec (now : Z) (q : TimerQueue) :
  tq_wf q →
  let r := GetExpired now q in
  r.1 ++ timers_ r.2 = timers_ q
  ∧ (∀ e, e ∈ r.1 → e.1 ≤ now) ∧ (∀ e, e ∈ timers_ r.2 → now < e.1)
  ∧ tq_wf r.2 ∧ expired_ok r.1 r.2.
Proof. apply GetExpired_ok. Qed.

(** C27: HandleRead runs the callback of every expired timer exactly once, in
    the order of expiration, whatever timers the callbacks add or cancel; it
    then deletes the one-shot timers and puts every repeating timer back for
    [now] plus its interval.  The queue is well formed again.  A repeating
    timer is put back even when a callback (its own included) has cancelled
    it, because cancelingTimers_ is never filled. *)
Theorem handle_read_spec (malloc : gmap Z Timer → option Z) (cbs : nat → list action)
    (now clk : Z) (q q' : TimerQueue) :
  malloc_ok malloc → tq_wf q → HandleRead malloc cbs now clk q = Ret q' →
  tq_wf q'
  ∧ fired q' = reverse (callbacks_of (expired_at now q) q) ++ fired q
  ∧ (∀ t p tm, (t, p) ∈ timers_ q → t ≤ now → heap q !! p = Some tm → after_reset now tm p q').
Proof.
  intros Hm Hwf H. destruct (HandleRead_ok _ _ Hm _ _ _ _ Hwf H) as (Hw & Hf & Ha & _).
  split_and!; [done..|]. intros t p tm Hin Hle Hl. apply (Ha t p tm); [|done].
  destruct (GetExpired_ok now q Hwf) as (Happ & _ & Hlt & _). rewrite <- Happ in Hin.
  apply elem_of_app in Hin as [?|Hin]; [done|]. specialize (Hlt _ Hin). simpl in Hlt. lia.
Qed.

(** C26: no timer is lost.  In every state the loop thread can reach from a new
    queue by adding timers for valid times, cancelling timers and handling the
    timerfd (with callbacks that do the same), the set is well formed and,
    whenever it is not empty, the timerfd is armed for the earliest timer or
    for a time before it. *)
Theorem timers_never_lost (malloc : gmap Z Timer → option Z) (cbs : nat → list action)
    (q : TimerQueue) :
  malloc_ok malloc → (∀ n cb e iv, DoAdd cb e iv ∈ cbs n → e ≠ 0) →
  rtc (tq_step malloc cbs) TimerQueue_new q →
  tq_wf q ∧ (timers_ q ≠ [] → ∃ w ts, armed q = Some (w, ts) ∧ ∀ e, e ∈ timers_ q → w ≤ e.1).
Proof.
  intros Hm Hadd Hr. assert (tq_inv q) as (Hw & _ & Ha).
  { eapply rtc_invariant; [apply inv_new| |exact Hr]. intros x y Hx Hxy. destruct Hxy.
    - by eapply inv_add.
    - by eapply inv_cancel.
    - by eapply inv_fire. }
  split; [done|]. by rewrite armed_ok_alt in Ha by apply Hw.
Qed.

(** Cancel takes a pending timer out of the set and touches no other
    entry, so the timer does not fire; the Timer object itself is not deleted
    and stays allocated. *)
Theorem cancel_spec (id : TimerId) (tm : Timer) (q : TimerQueue) :
  tq_wf q → heap q !! timer_ id = Some tm →
  ∃ q', Cancel id q = Ret q' ∧ tq_wf q'
    ∧ (∀ e, e ∈ timers_ q' ↔ e ∈ timers_ q ∧ e.2 ≠ timer_ id)
    ∧ heap q' !! timer_ id = Some tm.
Proof.
  intros Hwf Hl. destruct (Cancel id q) as [q'| |] eqn:E.
  - destruct (Cancel_ok _ _ _ Hwf E) as (Hw & Hh & _ & _ & _ & Ht). exists q'.
    split_and!; [done..| |by rewrite Hh]. intros e. rewrite Ht.
    destruct Hwf as (_ & _ & Ha). apply Ha in Hl as [? _]. split; [|tauto].
    intros [? [?|?]]; [lia|done].
  - exfalso. unfold Cancel, CancelTimerIdInLoop in E. destruct (_ =? 0); [done|].
    unfold deref in E. by rewrite Hl in E.
  - exfalso. unfold Cancel, CancelTimerIdInLoop in E. destruct (_ =? 0); [done|].
    unfold deref in E. by rewrite Hl in E.
Qed.

Lemma fired_id_stale (malloc : gmap Z Timer → option Z) (cbs : nat → list action)
    (now clk t p : Z) (tm : Timer) (q q' : TimerQueue) :
  malloc_ok malloc → tq_wf q → (t, p) ∈ timers_ q → t ≤ now → heap q !! p = Some tm →
  repeat_ tm = false → HandleRead malloc cbs now clk q = Ret q' →
  Cancel (mkTimerId p (sequence_ tm)) q' = Fault UseAfterFree.
Proof.
  intros Hm Hwf Hin Hle Hl Hrep H. destruct (HandleRead_ok _ _ Hm _ _ _ _ Hwf H) as (_ & _ & Ha & _).
  assert (Hx : (t, p) ∈ expired_at now q).
  { destruct (GetExpired_ok now q Hwf) as (Happ & _ & Hlt & _). rewrite <- Happ in Hin.
    apply elem_of_app in Hin as [?|Hin]; [done|]. specialize (Hlt _ Hin). simpl in Hlt. lia. }
  specialize (Ha t p tm Hx Hl). unfold after_reset in Ha. rewrite Hrep in Ha.
  destruct Hwf as (_ & _ & Haddr). apply Haddr in Hl as [? _].
  unfold Cancel, CancelTimerIdInLoop; simpl. rewrite (proj2 (Z.eqb_neq p 0)) by lia.
  unfold deref. by rewrite Ha.
Qed.

(** Cancelling a one-shot timer after it has fired reads the deleted
    object: HandleRead has deleted it, the TimerId still holds the pointer, and
    Cancel dereferences it (TcpConn::CleanUp does this with timeoutId_). *)
Theorem stale_cancel_use_after_free (malloc : gmap Z Timer → option Z) (cbs : nat → list action)
    (now clk t p : Z) (tm : Timer) (q q' : TimerQueue) :
  malloc_ok malloc → tq_wf q → (t, p) ∈ timers_ q → t ≤ now → heap q !! p = Some tm →
  repeat_ tm = false → HandleRead malloc cbs now clk q = Ret q' →
  Cancel (mkTimerId p (sequence_ tm)) q' = Fault UseAfterFree.
Proof. apply fired_id_stale. Qed.

(** HowMuchTimeFromNow never yields a value that would disarm the
    timerfd, nor an invalid one: the result is the time to go, at least 100
    microseconds, with the nanosecond part below one second. *)
Theorem how_much_time_spec (when now : Z) (ts : timespec) :
  HowMuchTimeFromNow when now = Ret ts →
  tv_sec ts * 10 ^ 9 + tv_nsec ts = 1000 * Z.max 100 (when - now)
  ∧ 0 ≤ tv_sec ts ∧ 0 ≤ tv_nsec ts < 10 ^ 9.
Proof.
  unfold HowMuchTimeFromNow. intros H. inv_ret. apply chk64_Ret in Hr as [-> _]. subst ts. simpl.
  set (m := if when - now <? 100 then 100 else when - now).
  assert (Hm : m = Z.max 100 (when - now)) by (unfold m; destruct (Z.ltb_spec (when - now) 100); lia).
  rewrite <- Hm. unfold kMicroSecondsPerSecond. rewrite Z.quot_div_nonneg, Z.rem_mod_nonneg by lia.
  pose proof (Z.div_mod m (1000 * 1000)). pose proof (Z.mod_pos_bound m (1000 * 1000)).
  pose proof (Z.div_pos m (1000 * 1000)). lia.
Qed.

(** *** A concrete run, for the witnesses *)

Definition zero_interval : double := S754_zero false.

(** A one-shot timer for time 1000 and a repeating one for time 2000, added at
    time 500. *)
Definition demo_add : outcome TimerQueue :=
  r ← AddTimer malloc16 1 1000 zero_interval 500 TimerQueue_new;
  r ← AddTimer malloc16 2 2000 (double_of_Z 1) 500 r.2;
  Ret r.2.

Definition demo : TimerQueue := match demo_add with Ret q => q | _ => TimerQueue_new end.

Definition demo_timer : Timer := Timer_new 1 1000 zero_interval 0.

(** The second callback cancels its own timer. *)
Definition demo_cbs (n : nat) : list action :=
  match n with 2%nat => [DoCancel (mkTimerId 32 1)] | _ => [] end.

Definition demo_fired : TimerQueue :=
  match HandleRead malloc16 demo_cbs 3000 3001 demo with Ret q => q | _ => TimerQueue_new end.

Lemma demo_steps : rtc (tq_step malloc16 demo_cbs) TimerQueue_new demo.
Proof.
  eapply rtc_l; [eapply (step_add _ _ 1 1000 zero_interval 500); by vm_compute|].
  eapply rtc_l; [eapply (step_add _ _ 2 2000 (double_of_Z 1) 500); by vm_compute|].
  apply rtc_refl.
Defined.

Lemma demo_wf : tq_wf demo.
Proof.
  assert (tq_inv demo) as [? _]; [|done]. eapply rtc_invariant; [apply inv_new| |apply demo_steps].
  intros x y Hx Hxy. destruct Hxy.
  - by eapply inv_add; [apply malloc16_ok|..].
  - by eapply inv_cancel.
  - eapply inv_fire; [apply malloc16_ok| |done..]. intros [|[|[|n]]] cb e iv; simpl; set_solver.
Qed.

Lemma get_expired_spec_witness : (GetExpired 1500 demo).1 = [(1000, 16)] ∧ tq_wf (GetExpired 1500 demo).2.
Proof.
  destruct (get_expired_spec 1500 demo demo_wf) as (_ & _ & _ & H & _).
  split; [by vm_compute|exact H].
Defined.

Lemma handle_read_spec_witness :
  tq_wf demo_fired ∧ fired demo_fired = [2; 1]%nat
  ∧ ∃ e, (e, 32) ∈ timers_ demo_fired.
Proof.
  destruct (handle_read_spec malloc16 demo_cbs 3000 3001 demo demo_fired) as (Hw & Hf & Ha).
  - apply malloc16_ok.
  - apply demo_wf.
  - by vm_compute.
  - split_and!; [exact Hw|rewrite Hf; by vm_compute|].
    destruct (Ha 2000 32 (Timer_new 2 2000 (double_of_Z 1) 1)) as (e & _ & _ & _ & He & _).
    + by_decide.
    + lia.
    + by vm_compute.
    + exists e. exact He.
Defined.

Lemma timers_never_lost_witness :
  ∃ w ts, armed demo_fired = Some (w, ts) ∧ w ≤ 1003000.
Proof.
  destruct (timers_never_lost malloc16 demo_cbs demo_fired) as [_ H].
  - apply malloc16_ok.
  - intros [|[|[|n]]] cb e iv; simpl; set_solver.
  - eapply rtc_r; [apply demo_steps|]. apply (step_fire _ _ 3000 3001); [lia|by eexists; vm_compute|by vm_compute].
  - destruct H as (w & ts & Ha & Hle); [by vm_compute|]. exists w, ts. split; [exact Ha|].
    apply (Hle (1003000, 32)). by_decide.
Defined.

Lemma cancel_spec_witness :
  ∃ q', Cancel (mkTimerId 16 0) demo = Ret q' ∧ (1000, 16) ∉ timers_ q'.
Proof.
  destruct (cancel_spec (mkTimerId 16 0) demo_timer demo) as (q' & H & _ & Ht & _).
  - apply demo_wf.
  - by vm_compute.
  - exists q'. split; [exact H|]. intros [_ Hne]%Ht. by apply Hne.
Defined.

Lemma stale_cancel_use_after_free_witness :
  Cancel (mkTimerId 16 0) demo_fired = Fault UseAfterFree.
Proof.
  apply (stale_cancel_use_after_free malloc16 demo_cbs 3000 3001 1000 16 demo_timer demo).
  - apply malloc16_ok.
  - apply demo_wf.
  - by_decide.
  - lia.
  - by vm_compute.
  - done.
  - by vm_compute.
Defined.

Lemma how_much_time_spec_witness :
  HowMuchTimeFromNow 1000 990 = Ret (mkTimespec 0 100000) ∧ 0 ≤ 100000 < 10 ^ 9.
Proof.
  split; [done|]. by destruct (how_much_time_spec 1000 990 (mkTimespec 0 100000)) as (_ & _ & H).
Defined.
