(* ===== verification/Channel.v ===== *)
(** * net/channel.h, net/channel.cc: class Channel

    A channel is a file descriptor with the events it wants ([events_]), the
    events the poller reported ([revents_]) and up to four callbacks.  The
    fields a poller reads are here; the poller's side is in Poller.v. *)

From S2P Require Import Prelude Text.

(** poll.h *)
Definition POLLIN : Z := 1.
Definition POLLPRI : Z := 2.
Definition POLLOUT : Z := 4.
Definition POLLERR : Z := 8.
Definition POLLHUP : Z := 16.
Definition POLLNVAL : Z := 32.
Definition POLLRDHUP : Z := 8192.

Definition kWriteEvent : Z := POLLOUT.
Definition kReadEvent : Z := Z.lor POLLIN POLLPRI.

Inductive cb_kind : Type := CbRead | CbWrite | CbClose | CbError.

#[export] Instance cb_kind_eq_dec : EqDecision cb_kind.
Proof. solve_decision. Defined.

Record Channel : Type := mkChannel {
  fd_ : Z;
  events_ : Z;                 (* short *)
  revents_ : Z;                (* short *)
  id_ : Z;
  index_ : option Z;           (* not initialised by the constructors *)
  callbacks_ : list cb_kind;   (* the callbacks that are set *)
}.

(** EventsToString(fd, ev): %d prints the low 32 bits of the id. *)
Definition EventsToString (fd ev : Z) (c : Channel) : outcome bytes :=
  s ← Format true (str "channel id = " ++ printf_d 0 (i32 (id_ c)) ++ str ", fd = " ++ printf_d 0 fd);
  let has f text := if Z.land ev f =? 0 then [] else str text in
  Ret (s ++ has POLLIN "IN "%string ++ has POLLPRI "PRI "%string ++ has POLLOUT "OUT "%string ++ has POLLHUP "HUP"%string
         ++ has POLLRDHUP "RDHUP"%string ++ has POLLERR "ERR"%string ++ has POLLNVAL "NVAL"%string).

(** Channel(loop, fd, events); [id] is the next value of the atomic counter. *)
Definition Channel_new (fd events id : Z) : Channel := mkChannel fd (i16 events) 0 id None [].

Definition SetCallback (k : cb_kind) (c : Channel) : Channel :=
  mkChannel (fd_ c) (events_ c) (revents_ c) (id_ c) (index_ c) (k :: callbacks_ c).

Definition set_events (ev : Z) (c : Channel) : Channel :=
  mkChannel (fd_ c) ev (revents_ c) (id_ c) (index_ c) (callbacks_ c).

(** The assignments of EnableRead, EnableWrite, DisableRead, DisableWrite; each
    is followed by Update(). *)
Definition EnableRead (c : Channel) : Channel := set_events (i16 (Z.lor (events_ c) kReadEvent)) c.
Definition EnableWrite (c : Channel) : Channel := set_events (i16 (Z.lor (events_ c) kWriteEvent)) c.
Definition DisableRead (c : Channel) : Channel :=
  set_events (i16 (Z.land (events_ c) (Z.lnot kReadEvent))) c.
Definition DisableWrite (c : Channel) : Channel :=
  set_events (i16 (Z.land (events_ c) (Z.lnot kWriteEvent))) c.

(** The four of them, to choose from. *)
Inductive ev_change : Type := ERead | EWrite | DRead | DWrite.
Definition change_fn (e : ev_change) : Channel → Channel :=
  match e with
  | ERead => EnableRead | EWrite => EnableWrite | DRead => DisableRead | DWrite => DisableWrite
  end.

Definition IsWriting (c : Channel) : bool := negb (Z.land (events_ c) kWriteEvent =? 0).
Definition IsReading (c : Channel) : bool := negb (Z.land (events_ c) kReadEvent =? 0).

Definition SetREvents (revents : Z) (c : Channel) : Channel :=
  mkChannel (fd_ c) (events_ c) (i16 revents) (id_ c) (index_ c) (callbacks_ c).

Definition SetIndex (idx : Z) (c : Channel) : Channel :=
  mkChannel (fd_ c) (events_ c) (revents_ c) (id_ c) (Some (i32 idx)) (callbacks_ c).

Definition has_bits (ev mask : Z) : bool := negb (Z.land ev mask =? 0).

Section HandleEvent.
(** The callbacks that delete the channel they are called from, as
    TcpConn::HandleRead does when it ends in CleanUp. *)
Context (destroys : cb_kind → bool).

(** [if (revents_ & ...) { if (callback_) callback_(); }] on a channel that
    is [alive]; the log has the callbacks called, latest first. *)
Definition dispatch (c : Channel) (cond : Z → bool) (k : cb_kind) (st : bool * list cb_kind)
  : outcome (bool * list cb_kind) :=
  if negb st.1 then Fault UseAfterFree
  else if cond (revents_ c) && bool_decide (k ∈ callbacks_ c)
  then Ret (negb (destroys k), k :: st.2) else Ret st.

Definition HandleEvent (c : Channel) : outcome (list cb_kind) :=
  st ← dispatch c (λ rev, has_bits rev POLLHUP && negb (has_bits rev POLLIN)) CbClose (true, []);
  (* POLLNVAL is logged *)
  _ ← require UseAfterFree st.1;
  st ← dispatch c (λ rev, has_bits rev (Z.lor POLLERR POLLNVAL)) CbError st;
  st ← dispatch c (λ rev, has_bits rev (Z.lor (Z.lor POLLIN POLLPRI) POLLRDHUP)) CbRead st;
  st ← dispatch c (λ rev, has_bits rev POLLOUT) CbWrite st;
  Ret (reverse st.2).
End HandleEvent.

(** ** Lemmas *)

(** A short. *)
Definition is_short (x : Z) : Prop := - 2 ^ 15 ≤ x < 2 ^ 15.

Lemma change_fn_ok e x :
  fd_ (change_fn e x) = fd_ x ∧ index_ (change_fn e x) = index_ x ∧ is_short (events_ (change_fn e x)).
Proof. destruct e; (split_and!; [done..|]; apply (swrap_bound 16); lia). Qed.

(** [k] runs when the reported events satisfy [cond] and the callback is set. *)
Definition asked (c : Channel) (cond : Z → bool) (k : cb_kind) : list cb_kind :=
  if cond (revents_ c) && bool_decide (k ∈ callbacks_ c) then [k] else [].

(** The callbacks a channel's reported events ask for, in calling order. *)
Definition wanted (c : Channel) : list cb_kind :=
  asked c (λ rev, has_bits rev POLLHUP && negb (has_bits rev POLLIN)) CbClose
  ++ asked c (λ rev, has_bits rev (Z.lor POLLERR POLLNVAL)) CbError
  ++ asked c (λ rev, has_bits rev (Z.lor (Z.lor POLLIN POLLPRI) POLLRDHUP)) CbRead
  ++ asked c (λ rev, has_bits rev POLLOUT) CbWrite.

Section Lemmas.
(** The low bits survive the conversion back to short. *)
Lemma i16_testbit x n : 0 ≤ n < 16 → Z.testbit (i16 x) n = Z.testbit x n.
Proof.
  intros Hn. unfold swrap. change (2 ^ (16 - 1)) with 32768.
  rewrite <- (Z.mod_pow2_bits_low ((x + 32768) mod 2 ^ 16 - 32768) 16 n) by lia.
  rewrite Zminus_mod_idemp_l. replace (x + 32768 - 32768) with x by lia.
  apply Z.mod_pow2_bits_low. lia.
Qed.

Lemma land_i16 x m : 0 ≤ m < 2 ^ 16 → Z.land (i16 x) m = Z.land x m.
Proof.
  intros Hm. apply Z.bits_inj'. intros n Hn. rewrite !Z.land_spec.
  destruct (Z.lt_ge_cases n 16).
  - by rewrite i16_testbit by lia.
  - rewrite (Z.bits_above_log2 m n); [by rewrite !andb_false_r|lia|].
    destruct (Z.eq_dec m 0) as [->|]; [simpl; lia|].
    apply Z.lt_le_trans with 16; [|lia]. apply Z.log2_lt_pow2; lia.
Qed.

Lemma lor_land_disjoint x a m : Z.land a m = 0 → Z.land (Z.lor x a) m = Z.land x m.
Proof. intros H. by rewrite Z.land_lor_distr_l, H, Z.lor_0_r. Qed.

Lemma lor_land_absorb x a : Z.land (Z.lor x a) a = a.
Proof.
  apply Z.bits_inj'. intros n Hn. rewrite Z.land_spec, Z.lor_spec.
  by destruct (Z.testbit x n), (Z.testbit a n).
Qed.

Lemma land_lnot_same x a : Z.land (Z.land x (Z.lnot a)) a = 0.
Proof. rewrite <- Z.land_assoc, (Z.land_comm (Z.lnot a)), Z.land_lnot_diag. apply Z.land_0_r. Qed.

Lemma land_lnot_disjoint x a m : Z.land a m = 0 → Z.land (Z.land x (Z.lnot a)) m = Z.land x m.
Proof.
  intros H. rewrite <- Z.land_assoc. f_equal. apply Z.bits_inj'. intros n Hn.
  apply (f_equal (λ z, Z.testbit z n)) in H. rewrite !Z.land_spec, Z.lnot_spec in * by done.
  rewrite Z.bits_0 in H. destruct (Z.testbit a n), (Z.testbit m n); done.
Qed.

Lemma IsWriting_EnableWrite c : IsWriting (EnableWrite c) = true.
Proof. unfold IsWriting; simpl. rewrite land_i16 by (by vm_compute). by rewrite lor_land_absorb. Qed.

Lemma IsWriting_DisableWrite c : IsWriting (DisableWrite c) = false.
Proof. unfold IsWriting; simpl. rewrite land_i16 by (by vm_compute). by rewrite land_lnot_same. Qed.

(** The callbacks run in order until one of them deletes the channel; the
    next look at [revents_] is then an access to a deleted object. *)
Lemma HandleEvent_cases destroys c :
  HandleEvent destroys c =
    if existsb destroys (filter (λ k, k ≠ CbWrite) (wanted c)) then Fault UseAfterFree
    else Ret (wanted c).
Proof.
  unfold HandleEvent, dispatch, wanted, asked.
  destruct (_ && bool_decide (CbClose ∈ _)); simpl;
    [destruct (destroys CbClose) eqn:E1; simpl; [done|]|];
  (destruct (_ && bool_decide (CbError ∈ _)); simpl;
    [destruct (destroys CbError) eqn:E2; simpl; rewrite ?E1; simpl; [done|]|]);
  (destruct (_ && bool_decide (CbRead ∈ _)); simpl;
    [destruct (destroys CbRead) eqn:E3; simpl; rewrite ?E1, ?E2; simpl; [done|]|]);
  destruct (_ && bool_decide (CbWrite ∈ _)); simpl; rewrite ?E1, ?E2, ?E3; simpl; done.
Qed.
End Lemmas.

(** ** Properties *)

(** The event mask of a channel.  On every value of the 16-bit field,
    enabling or disabling one direction turns exactly that direction on or off
    and leaves the other one as it was. *)
Theorem channel_events_spec (c : Channel) :
  (IsReading (EnableRead c) = true ∧ IsWriting (EnableRead c) = IsWriting c)
  ∧ (IsWriting (EnableWrite c) = true ∧ IsReading (EnableWrite c) = IsReading c)
  ∧ (IsReading (DisableRead c) = false ∧ IsWriting (DisableRead c) = IsWriting c)
  ∧ (IsWriting (DisableWrite c) = false ∧ IsReading (DisableWrite c) = IsReading c)
  ∧ is_short (events_ (EnableRead c)) ∧ is_short (events_ (EnableWrite c))
  ∧ is_short (events_ (DisableRead c)) ∧ is_short (events_ (DisableWrite c)).
Proof.
  unfold IsReading, IsWriting; simpl. rewrite !land_i16 by (by vm_compute).
  rewrite !lor_land_absorb, !land_lnot_same, !lor_land_disjoint, !land_lnot_disjoint by done.
  unfold is_short. split_and!; try done; apply (swrap_bound 16); lia.
Qed.

(** HandleEvent calls the close, error, read and write callbacks in this
    order, each exactly when its bits are reported and it is set; if one of
    the first three deletes the channel (as the read callback of a TcpConn
    does when the peer has closed), the function goes on to read [revents_]
    of the deleted channel. *)
Theorem handle_event_spec (destroys : cb_kind → bool) (c : Channel) :
  ((∀ k, k ∈ wanted c → k ≠ CbWrite → destroys k = false) → HandleEvent destroys c = Ret (wanted c))
  ∧ (∀ k, k ∈ wanted c → k ≠ CbWrite → destroys k = true → HandleEvent destroys c = Fault UseAfterFree).
Proof.
  rewrite HandleEvent_cases. split.
  - intros H. destruct (existsb _ _) eqn:E; [|done]. exfalso.
    apply existsb_exists in E as (k & Hk & Hd). apply list_elem_of_In, list_elem_of_filter in Hk as [? Hk].
    rewrite H in Hd; done.
  - intros k Hk Hw Hd. replace (existsb _ _) with true; [done|]. symmetry.
    apply existsb_exists. exists k. split; [|done].
    by apply list_elem_of_In, list_elem_of_filter.
Qed.
