(* ===== verification/Poller.v ===== *)
(** * net/poller.h, net/poller.cc, net/epollpoller.cc, net/pollpoller.cc

    The Poller interface and its two implementations.  Channels are objects
    with an address; a poller keeps a map from file descriptors to channel
    addresses and, for EpollPoller, the kernel keeps the interest list.

    [PollerOps] is the abstract class of the source, [PollerPrim] what a poller
    promises of each of its own operations, [PollerLaw] what the event loop relies
    on: the poller watches exactly the channels that were added and not closed, with
    their current events.  The second follows from the first for Channel::Update and
    Channel::Close on any poller, and so does the behaviour of any program of
    channels ([client_run]).  EpollPoller (the default) satisfies both;
    PollPoller::RemoveChannel does not. *)

From S2P Require Import Prelude.
From S2P Require Import Channel.

(** ** The interface *)

Class PollerOps (P : Type) : Type := {
  chans : P → gmap Z Channel;                  (* the live Channel objects *)
  set_chan : Z → Channel → P → P;              (* assignment to one of them *)
  watched : P → gmap Z Z;                      (* descriptor ↦ events of the next Poll *)
  os_close : Z → P → P;                        (* what close(fd) does in the kernel *)
  UpdateChannel : Z → P → outcome P;
  RemoveChannel : Z → P → outcome P;
  AddChannel : Z → P → outcome P;
  HasChannel : Z → P → outcome bool;
}.

(** Access through a Channel*. *)
Definition chan_at `{PollerOps P} (ch : Z) (p : P) : outcome Channel :=
  from_option_fault UseAfterFree (chans p !! ch).

(** EnableRead and its siblings: change [events_], then Update(). *)
Definition change_events `{PollerOps P} (g : Channel → Channel) (ch : Z) (p : P) : outcome P :=
  c ← chan_at ch p;
  UpdateChannel ch (set_chan ch (g c) p).

(** Channel::Close *)
Definition Close `{PollerOps P} (ch : Z) (p : P) : outcome P :=
  c ← chan_at ch p;
  if 0 <=? fd_ c then
    let p := os_close (fd_ c) p in
    p ← RemoveChannel ch p;
    c ← chan_at ch p;
    Ret (set_chan ch (mkChannel (-1) (events_ c) (revents_ c) (id_ c) (index_ c) (callbacks_ c)) p)
  else Ret p.

(** A descriptor -1, as Close leaves it. *)
Definition closed_chan (c : Channel) : Channel :=
  mkChannel (-1) (events_ c) (revents_ c) (id_ c) (index_ c) (callbacks_ c).

(** An operation on the channel at [ch] left the other channels alone. *)
Definition others_kept `{PollerOps P} (ch : Z) (p p' : P) : Prop :=
  ∀ ch', ch' ≠ ch → chans p' !! ch' = chans p !! ch' ∧ HasChannel ch' p' = HasChannel ch' p.

(** What a poller promises of its own operations; [inv] is the implementation's
    invariant.  A registered channel may be given other events when UpdateChannel
    follows, its descriptor may be closed when RemoveChannel follows, and an
    unregistered channel may be assigned to. *)
Class PollerPrim (P : Type) `{PollerOps P} (inv : P → Prop) : Prop := {
  prim_set ch c p : chans (set_chan ch c p) = <[ch := c]> (chans p);
  prim_add ch c p :
    inv p → chans p !! ch = Some c → watched p !! fd_ c = None → is_short (events_ c) →
    ∃ p', AddChannel ch p = Ret p' ∧ inv p'
      ∧ watched p' = <[fd_ c := events_ c]> (watched p) ∧ HasChannel ch p' = Ret true
      ∧ (∃ c', chans p' !! ch = Some c' ∧ fd_ c' = fd_ c ∧ events_ c' = events_ c) ∧ others_kept ch p p';
  prim_update ch c c' p :
    inv p → chans p !! ch = Some c → HasChannel ch p = Ret true →
    fd_ c' = fd_ c → index_ c' = index_ c → is_short (events_ c') →
    ∃ p', UpdateChannel ch (set_chan ch c' p) = Ret p' ∧ inv p'
      ∧ watched p' = <[fd_ c := events_ c']> (watched p) ∧ HasChannel ch p' = Ret true
      ∧ chans p' !! ch = Some c' ∧ others_kept ch p p';
  prim_remove ch c p :
    inv p → chans p !! ch = Some c → 0 ≤ fd_ c → HasChannel ch p = Ret true →
    ∃ p', RemoveChannel ch (os_close (fd_ c) p) = Ret p' ∧ inv p'
      ∧ watched p' = delete (fd_ c) (watched p) ∧ HasChannel ch p' = Ret false
      ∧ chans p' !! ch = Some c ∧ others_kept ch p p';
  prim_assign ch c c' p :
    inv p → chans p !! ch = Some c → HasChannel ch p = Ret false →
    inv (set_chan ch c' p) ∧ watched (set_chan ch c' p) = watched p
      ∧ HasChannel ch (set_chan ch c' p) = Ret false ∧ others_kept ch p (set_chan ch c' p);
}.

(** What the loop relies on: Channel's operations on top of the poller's. *)
Class PollerLaw (P : Type) `{PollerOps P} (inv : P → Prop) : Prop := {
  law_add ch c p :
    inv p → chans p !! ch = Some c → watched p !! fd_ c = None → is_short (events_ c) →
    ∃ p', AddChannel ch p = Ret p' ∧ inv p'
      ∧ watched p' = <[fd_ c := events_ c]> (watched p) ∧ HasChannel ch p' = Ret true
      ∧ ∃ c', chans p' !! ch = Some c' ∧ fd_ c' = fd_ c ∧ events_ c' = events_ c;
  law_update g ch c p :
    inv p → chans p !! ch = Some c → HasChannel ch p = Ret true →
    fd_ (g c) = fd_ c → index_ (g c) = index_ c → is_short (events_ (g c)) →
    ∃ p', change_events g ch p = Ret p' ∧ inv p'
      ∧ watched p' = <[fd_ c := events_ (g c)]> (watched p) ∧ HasChannel ch p' = Ret true
      ∧ chans p' !! ch = Some (g c);
  law_close ch c p :
    inv p → chans p !! ch = Some c → 0 ≤ fd_ c → HasChannel ch p = Ret true →
    ∃ p', Close ch p = Ret p' ∧ inv p'
      ∧ watched p' = delete (fd_ c) (watched p) ∧ HasChannel ch p' = Ret false;
}.

(** ** EpollPoller *)

Record EpollPoller : Type := mkEpoll {
  ep_chans : gmap Z Channel;
  ep_channels_ : gmap Z Z;         (* std::map<int, Channel*> *)
  interest : gmap Z (Z * Z);       (* the kernel's list: fd ↦ (events, data.ptr) *)
  ep_nevents : Z;                  (* events_.size() *)
}.

Definition kInitEventListSize : Z := 16.

Definition EpollPoller_new : EpollPoller := mkEpoll ∅ ∅ ∅ kInitEventListSize.

(** Poller::NewDefaultPoller *)
Definition NewDefaultPoller : EpollPoller := EpollPoller_new.

Inductive epoll_op : Type := EPOLL_CTL_ADD | EPOLL_CTL_MOD | EPOLL_CTL_DEL.

(** OperationToString; the default branch is for numbers that are no operation. *)
Definition OperationToString (op : epoll_op) : bytes :=
  match op with
  | EPOLL_CTL_ADD => str "ADD"
  | EPOLL_CTL_DEL => str "DEL"
  | EPOLL_CTL_MOD => str "MOD"
  end.

(** epoll_ctl(2): adding a present or changing an absent descriptor fails and
    has no effect (the FATALIF that follows only logs). *)
Definition epoll_ctl (op : epoll_op) (fd ev ptr : Z) (k : gmap Z (Z * Z)) : gmap Z (Z * Z) :=
  match op, k !! fd with
  | EPOLL_CTL_ADD, None => <[fd := (ev, ptr)]> k
  | EPOLL_CTL_MOD, Some _ => <[fd := (ev, ptr)]> k
  | EPOLL_CTL_DEL, Some _ => delete fd k
  | _, _ => k
  end.

Definition ep_chan_at (ch : Z) (p : EpollPoller) : outcome Channel :=
  from_option_fault UseAfterFree (ep_chans p !! ch).

Definition ep_set_chan (ch : Z) (c : Channel) (p : EpollPoller) : EpollPoller :=
  mkEpoll (<[ch := c]> (ep_chans p)) (ep_channels_ p) (interest p) (ep_nevents p).

(** EpollPoller::Update; event.events is a uint32_t. *)
Definition EpollPoller_Update (op : epoll_op) (ch : Z) (p : EpollPoller) : outcome EpollPoller :=
  c ← ep_chan_at ch p;
  Ret (mkEpoll (ep_chans p) (ep_channels_ p)
         (epoll_ctl op (fd_ c) (u32 (events_ c)) ch (interest p)) (ep_nevents p)).

Definition EpollPoller_UpdateChannel (ch : Z) (p : EpollPoller) : outcome EpollPoller :=
  EpollPoller_Update EPOLL_CTL_MOD ch p.

Definition EpollPoller_AddChannel (ch : Z) (p : EpollPoller) : outcome EpollPoller :=
  p ← EpollPoller_Update EPOLL_CTL_ADD ch p;
  c ← ep_chan_at ch p;
  Ret (mkEpoll (ep_chans p) (<[fd_ c := ch]> (ep_channels_ p)) (interest p) (ep_nevents p)).

Definition EpollPoller_RemoveChannel (ch : Z) (p : EpollPoller) : outcome EpollPoller :=
  c ← ep_chan_at ch p;
  _ ← assert_ (bool_decide (is_Some (ep_channels_ p !! fd_ c)));
  _ ← assert_ (bool_decide (ep_channels_ p !! fd_ c = Some ch));
  Ret (mkEpoll (ep_chans p) (delete (fd_ c) (ep_channels_ p)) (interest p) (ep_nevents p)).

Definition EpollPoller_HasChannel (ch : Z) (p : EpollPoller) : outcome bool :=
  c ← ep_chan_at ch p;
  Ret (bool_decide (ep_channels_ p !! fd_ c = Some ch)).

(** close(fd): the kernel drops the descriptor from the interest list. *)
Definition ep_os_close (fd : Z) (p : EpollPoller) : EpollPoller :=
  mkEpoll (ep_chans p) (ep_channels_ p) (delete fd (interest p)) (ep_nevents p).

(** FillActiveChannels on the events epoll_wait stored: (data.ptr, events). *)
Fixpoint EpollPoller_FillActiveChannels (evs : list (Z * Z)) (active : list Z) (p : EpollPoller)
  : outcome (list Z * EpollPoller) :=
  match evs with
  | [] => Ret (active, p)
  | ev :: evs =>
      c ← ep_chan_at ev.1 p;
      EpollPoller_FillActiveChannels evs (active ++ [ev.1]) (ep_set_chan ev.1 (SetREvents ev.2 c) p)
  end.

(** Poll: [evs] is what epoll_wait reports, at most events_.size() of them;
    [None] is its error return. *)
Definition EpollPoller_Poll (evs : option (list (Z * Z))) (p : EpollPoller)
  : outcome (list Z * EpollPoller) :=
  match evs with
  | None => Ret ([], p)
  | Some evs =>
      if 0 <? zlen evs then
        _ ← assert_ (zlen evs <=? ep_nevents p);
        r ← EpollPoller_FillActiveChannels evs [] p;
        let p := r.2 in
        Ret (r.1, if zlen evs =? ep_nevents p
                  then mkEpoll (ep_chans p) (ep_channels_ p) (interest p) (u64 (ep_nevents p * 2))
                  else p)
      else Ret ([], p)
  end.

#[export] Instance EpollPoller_ops : PollerOps EpollPoller := {
  chans := ep_chans;
  set_chan := ep_set_chan;
  watched p := (λ e : Z * Z, i16 e.1) <$> interest p;
  os_close := ep_os_close;
  UpdateChannel := EpollPoller_UpdateChannel;
  RemoveChannel := EpollPoller_RemoveChannel;
  AddChannel := EpollPoller_AddChannel;
  HasChannel := EpollPoller_HasChannel;
}.

(** ** PollPoller *)

Record pollfd : Type := mkPollfd { pfd_fd : Z; pfd_events : Z; pfd_revents : Z }.

Record PollPoller : Type := mkPoll {
  pp_chans : gmap Z Channel;
  pp_channels_ : gmap Z Z;     (* 0 is nullptr *)
  pollfds_ : list pollfd;
}.

Definition PollPoller_new : PollPoller := mkPoll ∅ ∅ [].

Definition pp_chan_at (ch : Z) (p : PollPoller) : outcome Channel :=
  from_option_fault UseAfterFree (pp_chans p !! ch).

Definition pp_set_chan (ch : Z) (c : Channel) (p : PollPoller) : PollPoller :=
  mkPoll (<[ch := c]> (pp_chans p)) (pp_channels_ p) (pollfds_ p).

Definition PollPoller_UpdateChannel (ch : Z) (p : PollPoller) : outcome PollPoller :=
  c ← pp_chan_at ch p;
  _ ← assert_ (bool_decide (is_Some (pp_channels_ p !! fd_ c)));
  let pfd := mkPollfd (fd_ c) (i16 (events_ c)) 0 in
  index ← from_option_fault UninitRead (index_ c);
  _ ← require OutOfBounds (bool_decide (0 ≤ index < zlen (pollfds_ p)));
  Ret (mkPoll (pp_chans p) (pp_channels_ p) (<[Z.to_nat index := pfd]> (pollfds_ p))).

Definition PollPoller_AddChannel (ch : Z) (p : PollPoller) : outcome PollPoller :=
  c ← pp_chan_at ch p;
  let pfd := mkPollfd (fd_ c) (events_ c) 0 in
  let pollfds := pollfds_ p ++ [pfd] in
  let idx := zlen pollfds - 1 in
  Ret (mkPoll (<[ch := SetIndex idx c]> (pp_chans p)) (<[fd_ c := ch]> (pp_channels_ p)) pollfds).

(** std::iter_swap(begin()+i, end()-1) *)
Definition swap_last (i : Z) (l : list pollfd) : outcome (list pollfd) :=
  x ← from_option_fault OutOfBounds (znth i l);
  y ← from_option_fault OutOfBounds (last l);
  Ret (<[(length l - 1)%nat := x]> (<[Z.to_nat i := y]> l)).

(** RemoveChannel.  [endPfd] is a reference to the last element, so after the
    swap it denotes the entry of the channel that is being removed. *)
Definition PollPoller_RemoveChannel (ch : Z) (p : PollPoller) : outcome PollPoller :=
  c ← pp_chan_at ch p;
  _ ← assert_ (bool_decide (is_Some (pp_channels_ p !! fd_ c)));
  _ ← assert_ (bool_decide (pp_channels_ p !! fd_ c = Some ch));
  idx ← from_option_fault UninitRead (index_ c);
  if u64 idx =? u64 (zlen (pollfds_ p) - 1) then
    Ret (mkPoll (pp_chans p) (pp_channels_ p) (removelast (pollfds_ p)))
  else if 1 <? zlen (pollfds_ p) then
    pollfds ← swap_last idx (pollfds_ p);
    endPfd ← from_option_fault OutOfBounds (last pollfds);
    (* channels_[endPfd.fd]: operator[] adds a null entry when there is none *)
    let e := default 0 (pp_channels_ p !! pfd_fd endPfd) in
    let channels := <[pfd_fd endPfd := e]> (pp_channels_ p) in
    if e =? 0 then Ret (mkPoll (pp_chans p) channels (removelast pollfds))
    else
      ec ← pp_chan_at e p;
      Ret (mkPoll (<[e := SetIndex idx ec]> (pp_chans p)) (delete (fd_ c) channels)
                  (removelast pollfds))
  else Ret p.

Definition PollPoller_HasChannel (ch : Z) (p : PollPoller) : outcome bool :=
  c ← pp_chan_at ch p;
  Ret (bool_decide (pp_channels_ p !! fd_ c = Some ch)).

(** FillActiveChannels: the descriptors poll(2) reported. *)
Fixpoint PollPoller_FillActiveChannels (pfds : list pollfd) (numEvents : Z) (active : list Z)
    (p : PollPoller) : outcome (list Z * PollPoller) :=
  match pfds with
  | [] => Ret (active, p)
  | pfd :: pfds =>
      if 0 <? numEvents then
        if 0 <? pfd_revents pfd then
          ch ← from_option_fault OutOfBounds (pp_channels_ p !! pfd_fd pfd);
          c ← pp_chan_at ch p;
          PollPoller_FillActiveChannels pfds (numEvents - 1) (active ++ [ch])
            (pp_set_chan ch (SetREvents (pfd_revents pfd) c) p)
        else PollPoller_FillActiveChannels pfds numEvents active p
      else Ret (active, p)
  end.

#[export] Instance PollPoller_ops : PollerOps PollPoller := {
  chans := pp_chans;
  set_chan := pp_set_chan;
  watched p := list_to_map ((λ f, (pfd_fd f, pfd_events f)) <$> pollfds_ p);
  os_close _ p := p;
  UpdateChannel := PollPoller_UpdateChannel;
  RemoveChannel := PollPoller_RemoveChannel;
  AddChannel := PollPoller_AddChannel;
  HasChannel := PollPoller_HasChannel;
}.

(** ** Lemmas on EpollPoller *)

(** The map of channels and the kernel's interest list agree, and the latter
    has the current events of live channels. *)
Definition ep_inv (p : EpollPoller) : Prop :=
  (∀ fd ch, ep_channels_ p !! fd = Some ch ↔ ∃ ev, interest p !! fd = Some (ev, ch))
  ∧ (∀ fd ev ch, interest p !! fd = Some (ev, ch) →
       ∃ c, ep_chans p !! ch = Some c ∧ fd_ c = fd ∧ ev = u32 (events_ c) ∧ is_short (events_ c))
  ∧ 0 < ep_nevents p.

Section EpollLemmas.
Implicit Types p : EpollPoller.

Lemma i16_u32 x : is_short x → i16 (u32 x) = x.
Proof.
  unfold is_short, swrap, wrap. intros Hx. change (2 ^ (16 - 1)) with 32768.
  replace (2 ^ 32) with (65536 * 2 ^ 16) by lia. rewrite <- Zplus_mod_idemp_l.
  rewrite Z.mod_mod_divide by (exists 65536; lia).
  rewrite Zplus_mod_idemp_l, Z.mod_small; lia.
Qed.

Lemma ep_inv_new : ep_inv EpollPoller_new.
Proof.
  split_and!; simpl; [|done..]. intros fd ch. rewrite lookup_empty. split; [done|by intros [? ?]].
Qed.

Lemma ep_chan_at_Some ch c p : ep_chans p !! ch = Some c → ep_chan_at ch p = Ret c.
Proof. unfold ep_chan_at. by intros ->. Qed.

Lemma HasChannel_true ch c p :
  ep_chans p !! ch = Some c → HasChannel ch p = Ret true ↔ ep_channels_ p !! fd_ c = Some ch.
Proof.
  intros Hc. cbn. unfold EpollPoller_HasChannel. rewrite (ep_chan_at_Some _ _ _ Hc). simpl.
  split; [|by intros; rewrite bool_decide_true]. intros [= H]. by apply bool_decide_eq_true in H.
Qed.

(** Only [fd_ c] is registered for a channel. *)
Lemma ep_inv_fd p fd ev ch c :
  ep_inv p → interest p !! fd = Some (ev, ch) → ep_chans p !! ch = Some c → fd_ c = fd.
Proof. intros (_ & H & _) Hi Hc. destruct (H _ _ _ Hi) as (? & ? & ? & _). congruence. Qed.

(** What the operations on a channel [c] at [ch] leave, field by field. *)
Lemma AddChannel_eq ch c p :
  ep_chans p !! ch = Some c →
  AddChannel ch p = Ret (mkEpoll (ep_chans p) (<[fd_ c := ch]> (ep_channels_ p))
                           (epoll_ctl EPOLL_CTL_ADD (fd_ c) (u32 (events_ c)) ch (interest p)) (ep_nevents p)).
Proof.
  intros Hc. cbn. unfold EpollPoller_AddChannel, EpollPoller_Update, ep_chan_at. rewrite Hc.
  cbn [from_option_fault mbind outcome_bind ep_chans]. by rewrite Hc.
Qed.

Lemma change_events_eq g ch c p :
  ep_chans p !! ch = Some c →
  change_events g ch p = Ret (mkEpoll (<[ch := g c]> (ep_chans p)) (ep_channels_ p)
    (epoll_ctl EPOLL_CTL_MOD (fd_ (g c)) (u32 (events_ (g c))) ch (interest p)) (ep_nevents p)).
Proof.
  intros Hc. unfold change_events, chan_at. cbn. rewrite Hc. cbn [from_option_fault mbind outcome_bind].
  unfold EpollPoller_UpdateChannel, EpollPoller_Update, ep_chan_at; simpl. by rewrite lookup_insert_eq.
Qed.

Lemma Close_eq ch c p :
  ep_chans p !! ch = Some c → 0 ≤ fd_ c → ep_channels_ p !! fd_ c = Some ch →
  Close ch p = Ret (mkEpoll (<[ch := mkChannel (-1) (events_ c) (revents_ c) (id_ c) (index_ c) (callbacks_ c)]> (ep_chans p))
    (delete (fd_ c) (ep_channels_ p)) (delete (fd_ c) (interest p)) (ep_nevents p)).
Proof.
  intros Hc Hfd Hr. unfold Close, chan_at. cbn. rewrite Hc. cbn [from_option_fault mbind outcome_bind].
  rewrite (proj2 (Z.leb_le _ _)) by done. unfold EpollPoller_RemoveChannel, ep_chan_at; simpl. rewrite Hc. simpl.
  rewrite !bool_decide_true by (try rewrite Hr; done). simpl. by rewrite Hc.
Qed.

Lemma HasChannel_eq ch p :
  HasChannel ch p = (c ← ep_chan_at ch p; Ret (bool_decide (ep_channels_ p !! fd_ c = Some ch))).
Proof. done. Qed.

Lemma HasChannel_false ch c p :
  ep_chans p !! ch = Some c → HasChannel ch p = Ret false ↔ ep_channels_ p !! fd_ c ≠ Some ch.
Proof.
  intros Hc. rewrite HasChannel_eq, (ep_chan_at_Some _ _ _ Hc). cbn [mbind outcome_bind].
  split; [intros [= H]; by apply bool_decide_eq_false in H|intros H; by rewrite bool_decide_false].
Qed.

(** Another channel is registered as before when its object and the map's answer
    for its descriptor are. *)
Lemma ep_others_kept ch p p' :
  (∀ ch', ch' ≠ ch → ep_chans p' !! ch' = ep_chans p !! ch') →
  (∀ ch' fd, ch' ≠ ch → ep_channels_ p' !! fd = Some ch' ↔ ep_channels_ p !! fd = Some ch') → others_kept ch p p'.
Proof.
  intros H1 H2 ch' Hne. split; [by apply H1|]. rewrite !HasChannel_eq. unfold ep_chan_at. rewrite H1 by done.
  destruct (ep_chans p !! ch') as [c|]; [|done]. cbn. f_equal. apply bool_decide_ext. by apply H2.
Qed.

Lemma EpollPoller_prim_add ch c p :
  ep_inv p → ep_chans p !! ch = Some c → watched p !! fd_ c = None → is_short (events_ c) →
  ∃ p', AddChannel ch p = Ret p' ∧ ep_inv p'
    ∧ watched p' = <[fd_ c := events_ c]> (watched p) ∧ HasChannel ch p' = Ret true
    ∧ (∃ c', chans p' !! ch = Some c' ∧ fd_ c' = fd_ c ∧ events_ c' = events_ c) ∧ others_kept ch p p'.
Proof.
  intros (Hm & Hi & Hn) Hc Hw Hs. cbn in Hw. rewrite lookup_fmap, fmap_None in Hw.
  rewrite (AddChannel_eq ch c) by done. unfold epoll_ctl. rewrite Hw.
  eexists; split; [done|]. split_and!.
  - split_and!; simpl; [| |done].
    + intros fd ch'. rewrite !lookup_insert. case_decide; [|by apply Hm]. subst. naive_solver.
    + intros fd ev ch'. rewrite lookup_insert. case_decide; [|by apply Hi]. naive_solver.
  - simpl. rewrite fmap_insert. cbn [fst]. by rewrite i16_u32.
  - apply (HasChannel_true ch c); [done|]. apply lookup_insert_eq.
  - eauto.
  - apply ep_others_kept; [done|]. intros ch' fd Hne. cbn. rewrite lookup_insert. case_decide; [|done].
    subst. rewrite Hm, Hw. naive_solver.
Qed.

Lemma EpollPoller_prim_update ch c c' p :
  ep_inv p → ep_chans p !! ch = Some c → HasChannel ch p = Ret true →
  fd_ c' = fd_ c → index_ c' = index_ c → is_short (events_ c') →
  ∃ p', UpdateChannel ch (set_chan ch c' p) = Ret p' ∧ ep_inv p'
    ∧ watched p' = <[fd_ c := events_ c']> (watched p) ∧ HasChannel ch p' = Ret true
    ∧ chans p' !! ch = Some c' ∧ others_kept ch p p'.
Proof.
  intros Hinv Hc Hh Hfd _ Hs. pose proof Hinv as (Hm & Hi & Hn).
  apply (HasChannel_true _ _ _ Hc) in Hh. pose proof Hh as [ev Hint]%Hm.
  cbn [UpdateChannel set_chan EpollPoller_ops]. unfold EpollPoller_UpdateChannel, EpollPoller_Update, ep_chan_at; simpl.
  rewrite lookup_insert_eq. cbn [from_option_fault mbind outcome_bind]. rewrite Hfd. unfold epoll_ctl. rewrite Hint.
  eexists; split; [done|]. split; [split_and!; simpl; [| |done]|split_and!].
  - intros fd ch'. rewrite Hm, lookup_insert. case_decide; [subst; naive_solver|done].
  - intros fd ev' ch'. rewrite lookup_insert. case_decide as E.
    + intros [= <- <-]. exists c'. rewrite lookup_insert_eq. split_and!; try done. congruence.
    + intros Hint'. destruct (Hi _ _ _ Hint') as (d & Hd & Hfd' & ?). exists d.
      rewrite lookup_insert_ne; [done|]. intros <-. congruence.
  - simpl. rewrite fmap_insert. cbn [fst]. by rewrite i16_u32.
  - apply (HasChannel_true ch c'); [apply lookup_insert_eq|]. cbn. by rewrite Hfd.
  - simpl. by rewrite lookup_insert_eq.
  - apply ep_others_kept; [|done]. intros ch' Hne. cbn. by rewrite lookup_insert_ne.
Qed.

Lemma EpollPoller_prim_remove ch c p :
  ep_inv p → ep_chans p !! ch = Some c → 0 ≤ fd_ c → HasChannel ch p = Ret true →
  ∃ p', RemoveChannel ch (os_close (fd_ c) p) = Ret p' ∧ ep_inv p'
    ∧ watched p' = delete (fd_ c) (watched p) ∧ HasChannel ch p' = Ret false
    ∧ chans p' !! ch = Some c ∧ others_kept ch p p'.
Proof.
  intros Hinv Hc _ Hh. pose proof Hinv as (Hm & Hi & Hn). apply (HasChannel_true _ _ _ Hc) in Hh.
  cbn [RemoveChannel os_close EpollPoller_ops]. unfold EpollPoller_RemoveChannel, ep_chan_at; simpl. rewrite Hc. simpl.
  rewrite !bool_decide_true by (try rewrite Hh; done). simpl.
  eexists; split; [done|]. split; [split_and!; simpl; [| |done]|split_and!].
  - intros fd ch'. rewrite !lookup_delete. case_decide; [naive_solver|]. by apply Hm.
  - intros fd ev ch'. rewrite lookup_delete. case_decide as E; [done|]. apply Hi.
  - simpl. by rewrite fmap_delete.
  - apply (HasChannel_false ch c); [done|]. cbn. by rewrite lookup_delete_eq.
  - done.
  - apply ep_others_kept; [done|]. intros ch' fd Hne. cbn. rewrite lookup_delete. case_decide; [|done]. subst. rewrite Hh. naive_solver.
Qed.

Lemma EpollPoller_prim_assign ch c c' p :
  ep_inv p → ep_chans p !! ch = Some c → HasChannel ch p = Ret false →
  ep_inv (set_chan ch c' p) ∧ watched (set_chan ch c' p) = watched p
    ∧ HasChannel ch (set_chan ch c' p) = Ret false ∧ others_kept ch p (set_chan ch c' p).
Proof.
  intros Hinv Hc Hh. pose proof Hinv as (Hm & Hi & Hn). apply (HasChannel_false _ _ _ Hc) in Hh.
  assert (Hno : ∀ fd ev, interest p !! fd ≠ Some (ev, ch)).
  { intros fd ev Hint. apply Hh. rewrite (ep_inv_fd _ _ _ _ _ Hinv Hint Hc). apply Hm. by exists ev. }
  split; [split_and!; simpl; [done| |done]|split_and!].
  - intros fd ev ch' Hint. destruct (Hi _ _ _ Hint) as (d & Hd & ?). exists d.
    rewrite lookup_insert_ne; [done|]. intros <-. by eapply Hno.
  - done.
  - apply (HasChannel_false ch c'); [apply lookup_insert_eq|]. cbn. intros [ev Hint]%Hm. by eapply Hno.
  - apply ep_others_kept; [|done]. intros ch' Hne. cbn. by rewrite lookup_insert_ne.
Qed.

#[export] Instance EpollPoller_prim : PollerPrim EpollPoller ep_inv.
Proof.
  split; intros; cbn [chans set_chan EpollPoller_ops] in *; [done|..];
    eauto using EpollPoller_prim_add, EpollPoller_prim_update, EpollPoller_prim_remove, EpollPoller_prim_assign.
Qed.
End EpollLemmas.

(** ** Channel's operations on any poller *)

Section Channels.
Context {P : Type} `{Hops : PollerOps P} (inv : P → Prop) {Hprim : PollerPrim P inv}.
Implicit Types p : P.

Lemma others_kept_trans ch p p1 p2 : others_kept ch p p1 → others_kept ch p1 p2 → others_kept ch p p2.
Proof. intros H1 H2 ch' Hne. destruct (H1 ch' Hne) as [<- <-]. by apply H2. Qed.

Lemma change_events_prim g ch c p :
  inv p → chans p !! ch = Some c → HasChannel ch p = Ret true →
  fd_ (g c) = fd_ c → index_ (g c) = index_ c → is_short (events_ (g c)) →
  ∃ p', change_events g ch p = Ret p' ∧ inv p'
    ∧ watched p' = <[fd_ c := events_ (g c)]> (watched p) ∧ HasChannel ch p' = Ret true
    ∧ chans p' !! ch = Some (g c) ∧ others_kept ch p p'.
Proof.
  intros Hi Hc Hh H1 H2 H3. unfold change_events, chan_at. rewrite Hc. cbn [from_option_fault mbind outcome_bind].
  by apply (prim_update ch c).
Qed.

Lemma Close_prim ch c p :
  inv p → chans p !! ch = Some c → 0 ≤ fd_ c → HasChannel ch p = Ret true →
  ∃ p', Close ch p = Ret p' ∧ inv p'
    ∧ watched p' = delete (fd_ c) (watched p) ∧ HasChannel ch p' = Ret false
    ∧ chans p' !! ch = Some (closed_chan c) ∧ others_kept ch p p'.
Proof.
  intros Hi Hc Hfd Hh. unfold Close, chan_at. rewrite Hc. cbn [from_option_fault mbind outcome_bind].
  rewrite (proj2 (Z.leb_le 0 (fd_ c))) by done.
  destruct (prim_remove ch c p Hi Hc Hfd Hh) as (p1 & -> & Hi1 & Hw1 & Hh1 & Hc1 & Ho1).
  cbn [mbind outcome_bind]. rewrite Hc1. cbn [from_option_fault mbind outcome_bind].
  destruct (prim_assign ch c (closed_chan c) p1 Hi1 Hc1 Hh1) as (Hi2 & Hw2 & Hh2 & Ho2).
  eexists. split; [done|]. split; [done|]. split; [by rewrite <- Hw1|]. split; [done|].
  split; [rewrite (prim_set (inv := inv)); apply lookup_insert_eq|by eapply others_kept_trans].
Qed.

Lemma Close_again ch c p : chans p !! ch = Some c → fd_ c < 0 → Close ch p = Ret p.
Proof.
  intros Hc Hfd. unfold Close, chan_at. rewrite Hc. cbn [from_option_fault mbind outcome_bind].
  by rewrite (proj2 (Z.leb_gt 0 (fd_ c))).
Qed.

(** A poller that keeps its promises gives the loop what it relies on. *)
Lemma prim_law : PollerLaw P inv.
Proof.
  split.
  - intros ch c p Hi Hc Hw Hs. destruct (prim_add ch c p Hi Hc Hw Hs) as (p' & ? & ? & ? & ? & ? & _). by exists p'.
  - intros g ch c p Hi Hc Hh H1 H2 H3. destruct (change_events_prim g ch c p) as (p' & ? & ? & ? & ? & ? & _); try done. by exists p'.
  - intros ch c p Hi Hc Hfd Hh. destruct (Close_prim ch c p) as (p' & ? & ? & ? & ? & _); try done. by exists p'.
Qed.
End Channels.

#[export] Instance EpollPoller_law : PollerLaw EpollPoller ep_inv := prim_law ep_inv.

Lemma EpollPoller_add ch c (p : EpollPoller) :
  ep_inv p → ep_chans p !! ch = Some c → watched p !! fd_ c = None → is_short (events_ c) →
  ∃ p', AddChannel ch p = Ret p' ∧ ep_inv p'
    ∧ watched p' = <[fd_ c := events_ c]> (watched p) ∧ HasChannel ch p' = Ret true
    ∧ ∃ c', chans p' !! ch = Some c' ∧ fd_ c' = fd_ c ∧ events_ c' = events_ c.
Proof. exact (law_add (inv := ep_inv) ch c p). Qed.

Lemma EpollPoller_update g ch c (p : EpollPoller) :
  ep_inv p → ep_chans p !! ch = Some c → HasChannel ch p = Ret true →
  fd_ (g c) = fd_ c → index_ (g c) = index_ c → is_short (events_ (g c)) →
  ∃ p', change_events g ch p = Ret p' ∧ ep_inv p'
    ∧ watched p' = <[fd_ c := events_ (g c)]> (watched p) ∧ HasChannel ch p' = Ret true
    ∧ chans p' !! ch = Some (g c).
Proof. exact (law_update (inv := ep_inv) g ch c p). Qed.

Lemma EpollPoller_close ch c (p : EpollPoller) :
  ep_inv p → ep_chans p !! ch = Some c → 0 ≤ fd_ c → HasChannel ch p = Ret true →
  ∃ p', Close ch p = Ret p' ∧ ep_inv p'
    ∧ watched p' = delete (fd_ c) (watched p) ∧ HasChannel ch p' = Ret false.
Proof. exact (law_close (inv := ep_inv) ch c p). Qed.

(** ** A client of the interface *)

(** What connections, acceptors and timer queues do with their channels: add them to
    the loop, turn events on and off, close them. *)
Inductive client_op : Type := DoAdd (ch : Z) | DoChange (e : ev_change) (ch : Z) | DoClose (ch : Z).

Definition client_step `{PollerOps P} (o : client_op) (p : P) : outcome P :=
  match o with
  | DoAdd ch => AddChannel ch p
  | DoChange e ch => change_events (change_fn e) ch p
  | DoClose ch => Close ch p
  end.

Fixpoint client_run `{PollerOps P} (os : list client_op) (p : P) : outcome P :=
  match os with [] => Ret p | o :: os => p ← client_step o p; client_run os p end.

(** The specification knows of a channel its descriptor, its events, and whether it
    is open. *)
Record spec_chan : Type := mkSpec { sc_fd : Z; sc_events : Z; sc_open : bool }.

Definition change_spec (e : ev_change) (ev : Z) : Z :=
  i16 match e with
      | ERead => Z.lor ev kReadEvent
      | EWrite => Z.lor ev kWriteEvent
      | DRead => Z.land ev (Z.lnot kReadEvent)
      | DWrite => Z.land ev (Z.lnot kWriteEvent)
      end.

(** A channel is added once, with a descriptor no open channel has; it is changed
    while it is open; it may be closed again. *)
Definition spec_step (o : client_op) (A : gmap Z spec_chan) : option (gmap Z spec_chan) :=
  match o with
  | DoAdd ch =>
      c ← A !! ch;
      if (0 <=? sc_fd c) && negb (sc_open c)
         && bool_decide (map_Forall (λ _ d, sc_open d = true → sc_fd d ≠ sc_fd c) A)
      then Some (<[ch := mkSpec (sc_fd c) (sc_events c) true]> A) else None
  | DoChange e ch =>
      c ← A !! ch;
      if sc_open c then Some (<[ch := mkSpec (sc_fd c) (change_spec e (sc_events c)) true]> A) else None
  | DoClose ch =>
      c ← A !! ch;
      if sc_fd c <? 0 then Some A
      else if sc_open c then Some (<[ch := mkSpec (-1) (sc_events c) false]> A) else None
  end.

Fixpoint spec_run (os : list client_op) (A : gmap Z spec_chan) : option (gmap Z spec_chan) :=
  match os with [] => Some A | o :: os => A ← spec_step o A; spec_run os A end.

(** An open channel has a descriptor, and no two have the same. *)
Definition spec_ok (A : gmap Z spec_chan) : Prop :=
  (∀ ch d, A !! ch = Some d → is_short (sc_events d) ∧ (sc_open d = true → 0 ≤ sc_fd d))
  ∧ ∀ ch ch' d d', A !! ch = Some d → A !! ch' = Some d' → sc_open d = true → sc_open d' = true → sc_fd d = sc_fd d' → ch = ch'.

Section Client.
Context {P : Type} `{Hops : PollerOps P} (inv : P → Prop) {Hprim : PollerPrim P inv}.
Implicit Types (p : P) (A : gmap Z spec_chan).

(** The poller has the channels of the specification and watches exactly the open
    ones, for their current events. *)
Definition models A p : Prop :=
  inv p ∧ spec_ok A
  ∧ (∀ ch d, A !! ch = Some d → ∃ c, chans p !! ch = Some c ∧ fd_ c = sc_fd d ∧ events_ c = sc_events d
       ∧ HasChannel ch p = Ret (sc_open d))
  ∧ ∀ fd ev, watched p !! fd = Some ev ↔ ∃ ch, A !! ch = Some (mkSpec fd ev true).

Lemma change_spec_ok e c : events_ (change_fn e c) = change_spec e (events_ c) ∧ is_short (change_spec e (events_ c)).
Proof. split; [by destruct e|]. apply (swrap_bound 16). lia. Qed.

(** Only the channel at [ch] changed. *)
Lemma models_chans A p p' ch d c :
  models A p → others_kept ch p p' → chans p' !! ch = Some c → fd_ c = sc_fd d → events_ c = sc_events d →
  HasChannel ch p' = Ret (sc_open d) →
  ∀ ch' d', <[ch := d]> A !! ch' = Some d' → ∃ c', chans p' !! ch' = Some c' ∧ fd_ c' = sc_fd d'
    ∧ events_ c' = sc_events d' ∧ HasChannel ch' p' = Ret (sc_open d').
Proof.
  intros (_ & _ & Hch & _) Ho Hc H1 H2 H3 ch' d' [[<- <-]|[Hne Hd]]%lookup_insert_Some; [by exists c|].
  destruct (Ho ch') as [-> ->]; [done|]. by apply Hch.
Qed.

Lemma spec_ok_insert A ch d :
  spec_ok A → is_short (sc_events d) → (sc_open d = true → 0 ≤ sc_fd d) →
  (sc_open d = true → ∀ ch' d', ch' ≠ ch → A !! ch' = Some d' → sc_open d' = true → sc_fd d' ≠ sc_fd d) →
  spec_ok (<[ch := d]> A).
Proof.
  intros [H1 H2] Hs Hfd Hun. split.
  - intros ch' d' [[<- <-]|[_ Hd]]%lookup_insert_Some; [done|by eapply H1].
  - intros c1 c2 d1 d2 [[<- <-]|[N1 E1]]%lookup_insert_Some [[<- <-]|[N2 E2]]%lookup_insert_Some O1 O2 Hf; [done| | |by eapply H2].
    + exfalso. by eapply (Hun O1 c2 d2).
    + exfalso. by eapply (Hun O2 c1 d1).
Qed.

(** What is watched after [ch] got open with [fd] and [ev]. *)
Lemma watched_open (w : gmap Z Z) A ch fd ev :
  (∀ f v, w !! f = Some v ↔ ∃ c, A !! c = Some (mkSpec f v true)) →
  (∀ c v, c ≠ ch → A !! c ≠ Some (mkSpec fd v true)) → (∀ f v, A !! ch = Some (mkSpec f v true) → f = fd) →
  ∀ f v, <[fd := ev]> w !! f = Some v ↔ ∃ c, <[ch := mkSpec fd ev true]> A !! c = Some (mkSpec f v true).
Proof.
  intros Hw Hun Hch f v. rewrite lookup_insert_Some. split.
  - intros [[<- <-]|[Hne [c Hc]%Hw]]; [exists ch; by rewrite lookup_insert_eq|]. exists c.
    rewrite lookup_insert_ne; [done|]. intros <-. by apply Hch in Hc.
  - intros [c [[<- [= <- <-]]|[Hne Hc]]%lookup_insert_Some]; [by left|right]. split; [|apply Hw; by exists c].
    intros <-. by eapply Hun.
Qed.

Lemma client_add_ok A A' ch p :
  models A p → spec_step (DoAdd ch) A = Some A' → ∃ p', AddChannel ch p = Ret p' ∧ models A' p'.
Proof.
  intros Hm E. pose proof Hm as (Hi & Hok & Hch & Hw). cbn [spec_step] in E. apply bind_Some in E as (d & Hd & E).
  destruct (Hch ch d Hd) as (c & Hc & Hf & He & _). destruct (proj1 Hok ch d Hd) as [Hs _].
  destruct (0 <=? sc_fd d) eqn:E0; [|done]. destruct (sc_open d) eqn:Eo; [done|]. cbn [andb negb] in E.
  case_bool_decide as Hun; [|done]. injection E as <-. apply Z.leb_le in E0.
  assert (watched p !! fd_ c = None) as Hno.
  { destruct (watched p !! fd_ c) as [v|] eqn:Ev; [|done]. apply Hw in Ev as [ch' H']. by destruct (Hun ch' _ H' eq_refl Hf). }
  destruct (prim_add ch c p Hi Hc Hno) as (p' & -> & Hi' & Hw' & Hh' & (c' & Hc' & Hf' & He') & Ho); [by rewrite He|].
  exists p'. split; [done|]. split; [done|]. split; [|split].
  - apply spec_ok_insert; [done|done|done|]. intros _ ch' d' _. apply Hun.
  - eapply (models_chans A p); [exact Hm|exact Ho|exact Hc'|cbn; congruence..|exact Hh'].
  - rewrite Hw', Hf, He. apply watched_open; [done|intros c0 v _ H; by apply (Hun _ _ H)|].
    intros f v H. rewrite Hd in H. injection H as ->. done.
Qed.

Lemma client_change_ok A A' e ch p :
  models A p → spec_step (DoChange e ch) A = Some A' → ∃ p', change_events (change_fn e) ch p = Ret p' ∧ models A' p'.
Proof.
  intros Hm E. pose proof Hm as (Hi & Hok & Hch & Hw). cbn [spec_step] in E. apply bind_Some in E as (d & Hd & E).
  destruct (Hch ch d Hd) as (c & Hc & Hf & He & Hh). destruct Hok as [Hok1 Hok2]. destruct (Hok1 ch d Hd) as [_ Hfd].
  destruct (sc_open d) eqn:Eo; [|done]. injection E as <-. destruct (change_fn_ok e c) as (G1 & G2 & G3).
  destruct (change_spec_ok e c) as [Hev Hsh].
  destruct (change_events_prim inv (change_fn e) ch c p Hi Hc Hh G1 G2 G3) as (p' & -> & Hi' & Hw' & Hh' & Hc' & Ho).
  exists p'. split; [done|]. split; [done|]. rewrite <- He. split; [|split].
  - apply spec_ok_insert; [done|done|by intros _; apply Hfd|]. cbn. intros _ ch' d' Hne Hd' Ho' Hf'. by apply Hne, (Hok2 ch' ch d' d).
  - eapply (models_chans A p); [exact Hm|exact Ho|exact Hc'|cbn; congruence..|exact Hh'].
  - rewrite Hw', Hf, Hev. apply watched_open; [done| |].
    + intros c0 v Hne H. by apply Hne, (Hok2 c0 ch _ d H Hd).
    + intros f v H. rewrite Hd in H. by injection H as ->.
Qed.

Lemma client_close_ok A A' ch p :
  models A p → spec_step (DoClose ch) A = Some A' → ∃ p', Close ch p = Ret p' ∧ models A' p'.
Proof.
  intros Hm E. pose proof Hm as (Hi & Hok & Hch & Hw). cbn [spec_step] in E. apply bind_Some in E as (d & Hd & E).
  destruct (Hch ch d Hd) as (c & Hc & Hf & He & Hh). pose proof Hok as [Hok1 Hok2]. destruct (Hok1 ch d Hd) as [Hs _].
  destruct (Z.ltb_spec (sc_fd d) 0) as [Hneg|Hpos].
  { injection E as <-. exists p. rewrite (Close_again ch c) by (done || lia). done. }
  destruct (sc_open d) eqn:Eo; [|done]. injection E as <-.
  destruct (Close_prim inv ch c p Hi Hc) as (p' & -> & Hi' & Hw' & Hh' & Hc' & Ho); [lia|done|].
  exists p'. split; [done|]. split; [done|]. split; [|split].
  - by apply spec_ok_insert.
  - eapply (models_chans A p); [exact Hm|exact Ho|exact Hc'|cbn; congruence..|exact Hh'].
  - intros f v. rewrite Hw', lookup_delete_Some, Hw. split.
    + intros [Hne [c0 Hc0]]. exists c0. rewrite lookup_insert_ne; [done|]. intros <-. rewrite Hd in Hc0. injection Hc0 as ->. by rewrite Hf in Hne.
    + intros [c0 [[_ [=]]|[Hne Hc0]]%lookup_insert_Some]. split; [|by exists c0]. rewrite Hf. intros <-. by apply Hne, (Hok2 ch c0 d _ Hd Hc0).
Qed.

Lemma client_step_ok o A A' p :
  models A p → spec_step o A = Some A' → ∃ p', client_step o p = Ret p' ∧ models A' p'.
Proof. destruct o; [apply client_add_ok|apply client_change_ok|apply client_close_ok]. Qed.

Lemma client_run_ok os A A' p :
  models A p → spec_run os A = Some A' → ∃ p', client_run os p = Ret p' ∧ models A' p'.
Proof.
  revert A p. induction os as [|o os IH]; intros A p Hm E; cbn in *; [injection E as <-; by exists p|].
  apply bind_Some in E as (A1 & E1 & E). destruct (client_step_ok o A A1 p Hm E1) as (p1 & -> & Hm1). by apply (IH A1).
Qed.
End Client.

(** ** Lemmas on Poll *)

Section PollLemmas.
Implicit Types p : EpollPoller.

(** The reported events belong to registered channels. *)
Definition reported (evs : list (Z * Z)) p : Prop :=
  ∀ ch rev, (ch, rev) ∈ evs → ∃ fd ev, interest p !! fd = Some (ev, ch).

Lemma set_REvents_inv ch c rev p :
  ep_inv p → ep_chans p !! ch = Some c → ep_inv (ep_set_chan ch (SetREvents rev c) p).
Proof.
  intros (Hm & Hi & Hn) Hc. split_and!; simpl; [done| |done]. intros fd ev ch' Hint.
  destruct (Hi _ _ _ Hint) as (c' & Hc' & ? & ? & ?). rewrite lookup_insert. case_decide; [|by eauto].
  subst. assert (c' = c) as -> by congruence. by exists (SetREvents rev c).
Qed.

Lemma FillActiveChannels_ok evs active p :
  ep_inv p → reported evs p →
  ∃ p', EpollPoller_FillActiveChannels evs active p = Ret (active ++ evs.*1, p')
    ∧ ep_inv p' ∧ interest p' = interest p ∧ ep_channels_ p' = ep_channels_ p
    ∧ ep_nevents p' = ep_nevents p
    ∧ (∀ ch, ch ∉ evs.*1 → ep_chans p' !! ch = ep_chans p !! ch)
    ∧ (NoDup evs.*1 → ∀ ch rev, (ch, rev) ∈ evs → ∃ c, ep_chans p' !! ch = Some c ∧ revents_ c = i16 rev).
Proof.
  revert active p. induction evs as [|[ch rev] evs IH]; intros active p Hi Hr; simpl.
  { exists p. rewrite app_nil_r. split_and!; try done. intros _ ch rev. by rewrite elem_of_nil. }
  destruct (Hr ch rev) as (fd & ev & Hint); [set_solver|].
  pose proof Hi as (_ & Hl & _). destruct (Hl _ _ _ Hint) as (c & Hc & _).
  rewrite (ep_chan_at_Some _ _ _ Hc). cbn [mbind outcome_bind].
  destruct (IH (active ++ [ch]) (ep_set_chan ch (SetREvents rev c) p))
    as (p' & -> & Hi' & ? & ? & ? & Hfr & Hrev); [by apply set_REvents_inv| |].
  { intros ch' rev' Hin. apply (Hr ch' rev'). set_solver. }
  exists p'. rewrite <- app_assoc. split_and!; try done.
  - intros ch' Hn. rewrite Hfr by set_solver. simpl. rewrite lookup_insert_ne; [done|]. set_solver.
  - intros Hnd ch' rev'. apply NoDup_cons in Hnd as [Hn Hnd]. intros [[= -> ->]|Hin]%elem_of_cons.
    + exists (SetREvents rev c). rewrite Hfr by done. simpl. by rewrite lookup_insert_eq.
    + by apply Hrev.
Qed.
End PollLemmas.

(** ** Properties *)

(** C29: EpollPoller implements the poller contract.  A new poller satisfies the
    invariant (the map of channels and the kernel's interest list agree and hold the
    current events of live channels); its own operations keep their promises, to
    every channel they are not about too; and adding a channel, changing its events
    and closing it keep the invariant and change the watched set exactly as asked. *)
Theorem epoll_refines_contract :
  ep_inv EpollPoller_new ∧ PollerPrim EpollPoller ep_inv ∧ PollerLaw EpollPoller ep_inv.
Proof. split; [apply ep_inv_new|]. split; apply _. Qed.

(** C30: the life of channels, on any poller whose AddChannel, UpdateChannel,
    RemoveChannel and HasChannel keep the promises of PollerPrim.  Any number of
    channels are added, changed and closed, also twice, in any order the
    specification allows: every call returns, and at the end the poller watches
    exactly the channels that are open, each for its current events; a channel that
    was closed is unregistered and has the descriptor -1. *)
Theorem channel_lifecycle {P : Type} `{PollerOps P} (inv : P → Prop) {Hprim : PollerPrim P inv}
    (os : list client_op) (A A' : gmap Z spec_chan) (p : P) :
  models inv A p → spec_run os A = Some A' → ∃ p', client_run os p = Ret p' ∧ models inv A' p'.
Proof. apply client_run_ok. done. Qed.

(** Two channels; the second is added after the first was closed, on its descriptor. *)
Lemma channel_lifecycle_witness :
  ∃ p', client_run [DoAdd 64; DoChange DWrite 64; DoClose 64; DoClose 64; DoAdd 80; DoChange ERead 80]
          (mkEpoll {[64 := Channel_new 5 7 1; 80 := Channel_new 5 4 2]} ∅ ∅ 16) = Ret p'
    ∧ watched p' !! 5 = Some 7 ∧ HasChannel 64 p' = Ret false ∧ fd_ <$> chans p' !! 64 = Some (-1).
Proof.
  destruct (channel_lifecycle ep_inv [DoAdd 64; DoChange DWrite 64; DoClose 64; DoClose 64; DoAdd 80; DoChange ERead 80]
              {[64 := mkSpec 5 7 false; 80 := mkSpec 5 4 false]} {[64 := mkSpec (-1) 3 false; 80 := mkSpec 5 7 true]}
              (mkEpoll {[64 := Channel_new 5 7 1; 80 := Channel_new 5 4 2]} ∅ ∅ 16)) as (p' & E & _ & _ & Hch & Hw).
  - split; [|split; [|split]].
    + split_and!; simpl; [|done..]. intros fd ch. rewrite lookup_empty. split; [done|by intros [? ?]].
    + split; [intros ch d|intros ch ch' d d'];
        rewrite ?lookup_insert_Some, ?lookup_singleton_Some; [|naive_solver].
      intros [[<- <-]|(_ & <- & <-)]; (split; [unfold is_short; cbn; lia|done]).
    + intros ch d. rewrite lookup_insert_Some, lookup_singleton_Some.
      intros [[<- <-]|(_ & <- & <-)]; eexists; (split; [by vm_compute|split_and!; by vm_compute]).
    + intros fd ev. cbn. rewrite fmap_empty, lookup_empty. split; [done|]. intros [ch Hd].
      rewrite lookup_insert_Some, lookup_singleton_Some in Hd. naive_solver.
  - by vm_compute.
  - exists p'. split; [exact E|]. split; [apply Hw; exists 80; by vm_compute|].
    destruct (Hch 64 (mkSpec (-1) 3 false)) as (c & Hc & Hf & _ & Hh); [by vm_compute|]. split; [exact Hh|]. rewrite Hc. cbn. by rewrite Hf.
Defined.

(** Poll hands the loop exactly the reported channels, in order, with their
    reported events, without touching a deleted channel; the registrations are
    unchanged, and the event list doubles when it was full. *)
Theorem epoll_poll_spec (evs : list (Z * Z)) (p : EpollPoller) :
  ep_inv p → reported evs p → NoDup evs.*1 → zlen evs ≤ ep_nevents p < 2 ^ 63 →
  ∃ p', EpollPoller_Poll (Some evs) p = Ret (evs.*1, p') ∧ ep_inv p' ∧ watched p' = watched p
    ∧ (∀ ch rev, (ch, rev) ∈ evs → ∃ c, ep_chans p' !! ch = Some c ∧ revents_ c = i16 rev)
    ∧ ep_nevents p' = if zlen evs =? ep_nevents p then 2 * ep_nevents p else ep_nevents p.
Proof.
  intros Hi Hr Hnd Hlen. unfold EpollPoller_Poll. destruct (Z.ltb_spec 0 (zlen evs)) as [Hpos|Hz].
  - unfold assert_. rewrite require_true by (apply Z.leb_le; lia). cbn [mbind outcome_bind].
    destruct (FillActiveChannels_ok evs [] p Hi Hr) as (p' & -> & Hi' & Hint & Hm & Hn & _ & Hrev).
    cbn [mbind outcome_bind fst snd]. rewrite Hn. eexists; split; [done|].
    specialize (Hrev Hnd). destruct (_ =? _); simpl.
    + rewrite Hint, ?Hn. split_and!; try done; [|rewrite wrap_id; lia].
      destruct Hi' as (Hi1 & Hi2 & ?). rewrite <- Hint. refine (conj Hi1 (conj Hi2 _)). simpl. rewrite wrap_id; lia.
    + by rewrite Hint.
  - assert (evs = []) as -> by (apply zlen_0_nil; pose proof (zlen_nonneg evs); lia).
    exists p. pose proof Hi as (_ & _ & Hpos). do 2 (split; [done|]). split; [done|].
    split; [by intros ? ? ?%elem_of_nil|].
    rewrite (proj2 (Z.eqb_neq _ _)); [done|]. rewrite zlen_nil. lia.
Qed.

Lemma epoll_poll_spec_witness :
  ∃ p', EpollPoller_Poll (Some [(64, 1)])
          (mkEpoll {[64 := Channel_new 5 3 1]} {[5 := 64]} {[5 := (3, 64)]} 16) = Ret ([64], p')
        ∧ ep_inv p'.
Proof.
  destruct (epoll_poll_spec [(64, 1)]
              (mkEpoll {[64 := Channel_new 5 3 1]} {[5 := 64]} {[5 := (3, 64)]} 16)) as (p' & H & Hi & _).
  - split_and!; simpl; [| |done].
    + intros fd ch. rewrite !lookup_singleton. case_decide; naive_solver.
    + intros fd ev ch [<- [= <- <-]]%lookup_singleton_Some. by exists (Channel_new 5 3 1).
  - intros ch rev [= -> ->]%list_elem_of_singleton. exists 5, 3. by vm_compute.
  - apply NoDup_singleton.
  - by vm_compute.
  - exists p'. split; [exact H|exact Hi].
Defined.

Lemma swap_last_ok (i : Z) (l : list pollfd) (pf : pollfd) :
  znth i l = Some pf →
  ∃ l1, swap_last i l = Ret l1 ∧ last l1 = Some pf ∧ length l1 = length l.
Proof.
  intros Hpf. pose proof (znth_Some_inv _ _ _ Hpf) as Hir.
  unfold swap_last. rewrite Hpf. cbn [from_option_fault mbind outcome_bind].
  destruct (last l) as [y|] eqn:Hy.
  2:{ apply last_None in Hy. apply (f_equal zlen) in Hy. rewrite zlen_nil in Hy. lia. }
  cbn [from_option_fault mbind outcome_bind]. eexists; split; [done|]. split.
  - rewrite last_lookup, !length_insert, Nat.sub_1_r. apply list_lookup_insert_eq.
    rewrite length_insert. unfold zlen in Hir. lia.
  - by rewrite !length_insert.
Qed.

(** PollPoller::RemoveChannel spoils another channel.  It means to record
    the new position of the entry it moves, but updates the index of the
    channel it removes; so after removing a channel that is not the last, the
    channel that was last is still registered, with an index outside the
    array, and updating its events accesses the array out of bounds. *)
Theorem poll_remove_stale_index (p : PollPoller) (ch ch' : Z) (c c' : Channel) (i : Z) (pf : pollfd) :
  pp_chans p !! ch = Some c → pp_chans p !! ch' = Some c' → ch ≠ 0 → fd_ c ≠ fd_ c' →
  pp_channels_ p !! fd_ c = Some ch → pp_channels_ p !! fd_ c' = Some ch' →
  index_ c = Some i → znth i (pollfds_ p) = Some pf → pfd_fd pf = fd_ c →
  index_ c' = Some (zlen (pollfds_ p) - 1) → i < zlen (pollfds_ p) - 1 < 2 ^ 31 →
  ∃ p', RemoveChannel ch p = Ret p' ∧ HasChannel ch' p' = Ret true
        ∧ UpdateChannel ch' p' = Fault OutOfBounds.
Proof.
  intros Hc Hc' Hne Hfd Hm Hm' Hi Hpf Hpfd Hi' Hlt. pose proof (znth_Some_inv _ _ _ Hpf) as Hir.
  assert (Hcc : ch ≠ ch') by congruence. set (l := pollfds_ p) in *.
  pose proof (swap_last_ok i l pf Hpf) as Hsw.
  destruct Hsw as (l1 & Hsw & Hlast & Hlen1).
  cbn. unfold PollPoller_RemoveChannel, pp_chan_at. rewrite Hc. cbn [from_option_fault mbind outcome_bind].
  rewrite Hm, !bool_decide_true by done. cbn [assert_ require mbind outcome_bind]. rewrite Hi.
  cbn [from_option_fault mbind outcome_bind]. fold l. rewrite !wrap_id by lia.
  rewrite (proj2 (Z.eqb_neq _ _)), (proj2 (Z.ltb_lt _ _)) by lia. rewrite Hsw.
  cbn [mbind outcome_bind]. rewrite Hlast. cbn [from_option_fault mbind outcome_bind].
  rewrite Hpfd, Hm. cbn [default]. rewrite (proj2 (Z.eqb_neq _ _)) by done. unfold id. rewrite Hc.
  cbn [from_option_fault mbind outcome_bind]. eexists; split; [done|].
  unfold PollPoller_HasChannel, PollPoller_UpdateChannel, pp_chan_at; simpl.
  rewrite lookup_insert_ne, Hc' by done. simpl.
  rewrite lookup_delete_ne, lookup_insert_ne, Hm' by done.
  rewrite !bool_decide_true by done. split; [done|]. simpl. rewrite Hi'. simpl.
  rewrite bool_decide_false; [done|]. unfold zlen. rewrite removelast_firstn_len, length_take, Hlen1.
  unfold zlen in *. fold l. lia.
Qed.

(** Two channels for descriptors 3 and 4, not registered yet. *)
Definition two_channels : PollPoller :=
  mkPoll {[16 := Channel_new 3 1 1; 32 := Channel_new 4 1 2]} ∅ [].

Definition two_added : PollPoller :=
  mkPoll {[16 := SetIndex 0 (Channel_new 3 1 1); 32 := SetIndex 1 (Channel_new 4 1 2)]}
         {[3 := 16; 4 := 32]} [mkPollfd 3 1 0; mkPollfd 4 1 0].

Lemma poll_remove_stale_index_witness :
  ∃ p', RemoveChannel 16 two_added = Ret p' ∧ UpdateChannel 32 p' = Fault OutOfBounds.
Proof.
  destruct (poll_remove_stale_index two_added 16 32 (SetIndex 0 (Channel_new 3 1 1))
              (SetIndex 1 (Channel_new 4 1 2)) 0 (mkPollfd 3 1 0)) as (p' & H & _ & Hu);
    try by vm_compute.
  exists p'. split; [exact H|exact Hu].
Defined.

(** No invariant makes PollPoller satisfy the poller contract: starting
    from two unregistered channels, adding both and closing the first breaks
    the second. *)
Theorem poll_poller_breaks_contract (inv : PollPoller → Prop) :
  inv two_channels → ¬ PollerLaw PollPoller inv.
Proof.
  intros Hi Hlaw.
  destruct (law_add 16 (Channel_new 3 1 1) two_channels Hi) as (p1 & H1 & Hi1 & _ & Hh1 & _); [by vm_compute..|].
  assert (E1 : AddChannel 16 two_channels = Ret (mkPoll
    {[16 := SetIndex 0 (Channel_new 3 1 1); 32 := Channel_new 4 1 2]} {[3 := 16]} [mkPollfd 3 1 0])) by (by vm_compute).
  rewrite E1 in H1. injection H1 as <-.
  destruct (law_add 32 (Channel_new 4 1 2) _ Hi1) as (p2 & H2 & Hi2 & _); [by vm_compute..|].
  match type of H2 with ?m = _ => assert (E2 : m = Ret two_added) by (by vm_compute) end.
  rewrite E2 in H2. injection H2 as <-.
  destruct (law_close 16 (SetIndex 0 (Channel_new 3 1 1)) _ Hi2) as (p3 & H3 & Hi3 & _); [by vm_compute..|].
  vm_compute in H3. injection H3 as <-.
  edestruct (law_update EnableRead 32 (SetIndex 1 (Channel_new 4 1 2)) _ Hi3) as (p4 & H4 & _);
    [by vm_compute..|]. by vm_compute in H4.
Qed.

Lemma poll_poller_breaks_contract_witness :
  ¬ PollerLaw PollPoller (λ _, True).
Proof. exact (poll_poller_breaks_contract (λ _, True) I). Defined.
