(* ===== verification/PollerEquiv.v ===== *)
(** * net/pollpoller.cc, Poll: the two pollers report the same events

    PollPoller::Poll and the kernel's side of poll(2) and epoll_wait(2) over one
    readiness function; then a simulation between EpollPoller and PollPoller for
    programs that add channels and change their events, and from it that both
    hand the loop the same channels with the same events.  Channels are compared
    up to [index_], which only PollPoller uses. *)

From S2P Require Import Prelude Channel Poller.

(** ** The kernel *)

(** The events of [ready] that a caller waiting for [events] is told: errors and
    hang-ups always are.  The registered descriptors are open, so there is no
    POLLNVAL. *)
Definition poll_mask (events ready : Z) : Z := Z.land ready (Z.lor events (Z.lor POLLERR POLLHUP)).

(** poll(2) on the array: the answers, and their number. *)
Definition poll2 (ready : Z → Z) (fds : list pollfd) : list pollfd :=
  (λ pf, mkPollfd (pfd_fd pf) (pfd_events pf) (poll_mask (pfd_events pf) (ready (pfd_fd pf)))) <$> fds.

Definition poll2_count (fds : list pollfd) : Z :=
  zlen (filter (λ pf, pfd_revents pf ≠ 0) fds).

(** What epoll_wait(2) can report for the interest list, in the order of its
    descriptors: (data.ptr, events). *)
Definition report (ready : Z → Z) (e : Z * (Z * Z)) : option (Z * Z) :=
  let ev := poll_mask e.2.1 (ready e.1) in
  if ev =? 0 then None else Some (e.2.2, ev).

Definition epoll_ready (ready : Z → Z) (k : gmap Z (Z * Z)) : list (Z * Z) :=
  omap (report ready) (map_to_list k).

(** ** PollPoller::Poll *)

(** [ready] is [None] when poll(2) fails.  The time it returns is the clock's,
    which EventLoop takes separately. *)
Definition PollPoller_Poll (ready : option (Z → Z)) (p : PollPoller) : outcome (list Z * PollPoller) :=
  match ready with
  | None => Ret ([], p)
  | Some ready =>
      let fds := poll2 ready (pollfds_ p) in
      let numEvents := poll2_count fds in
      let p := mkPoll (pp_chans p) (pp_channels_ p) fds in
      if 0 <? numEvents then PollPoller_FillActiveChannels fds numEvents [] p else Ret ([], p)
  end.

(** ** Programs on a poller *)

Inductive poll_op : Type := OpAdd (ch : Z) | OpChange (e : ev_change) (ch : Z).

Definition run_op `{PollerOps P} (o : poll_op) (p : P) : outcome P :=
  match o with
  | OpAdd ch => AddChannel ch p
  | OpChange e ch => change_events (change_fn e) ch p
  end.

Fixpoint run_ops `{PollerOps P} (os : list poll_op) (p : P) : outcome P :=
  match os with
  | [] => Ret p
  | o :: os => p ← run_op o p; run_ops os p
  end.

(** A channel is added once per descriptor, and changed while it is registered. *)
Definition legal_op (o : poll_op) (p : EpollPoller) : Prop :=
  match o with
  | OpAdd ch => ∃ c, ep_chans p !! ch = Some c ∧ ep_channels_ p !! fd_ c = None ∧ is_short (events_ c)
  | OpChange _ ch => ∃ c, ep_chans p !! ch = Some c ∧ ep_channels_ p !! fd_ c = Some ch
  end.

Fixpoint legal_ops (os : list poll_op) (p : EpollPoller) : Prop :=
  match os with
  | [] => True
  | o :: os => legal_op o p ∧ ∀ p', run_op o p = Ret p' → legal_ops os p'
  end.

(** ** The simulation *)

(** A channel without the field of PollPoller. *)
Definition strip (c : Channel) : Channel :=
  mkChannel (fd_ c) (events_ c) (revents_ c) (id_ c) None (callbacks_ c).

(** The array of PollPoller as an interest list. *)
Definition entry_of (p : PollPoller) (pf : pollfd) : Z * (Z * Z) :=
  (pfd_fd pf, (u32 (pfd_events pf), default 0 (pp_channels_ p !! pfd_fd pf))).
Definition entries (p : PollPoller) : list (Z * (Z * Z)) := entry_of p <$> pollfds_ p.

(** Every entry of the array belongs to a registered channel that knows its place. *)
Definition pp_inv (p : PollPoller) : Prop :=
  NoDup (pfd_fd <$> pollfds_ p)
  ∧ ∀ i pf, pollfds_ p !! i = Some pf →
      ∃ ch c, pp_channels_ p !! pfd_fd pf = Some ch ∧ pp_chans p !! ch = Some c
        ∧ fd_ c = pfd_fd pf ∧ index_ c = Some (Z.of_nat i) ∧ pfd_events pf = events_ c.

Definition poller_sim (pe : EpollPoller) (pp : PollPoller) : Prop :=
  ep_inv pe ∧ pp_inv pp
  ∧ strip <$> ep_chans pe = strip <$> pp_chans pp
  ∧ ep_channels_ pe = pp_channels_ pp
  ∧ interest pe = list_to_map (entries pp).

(** ** Lemmas *)

Lemma list_to_map_insert_at {A} (l : list (Z * A)) i k x y :
  NoDup l.*1 → l !! i = Some (k, x) →
  list_to_map (M := gmap Z A) (<[i := (k, y)]> l) = <[k := y]> (list_to_map l).
Proof.
  revert i. induction l as [|[k' x'] l IH]; intros [|i] Hnd Hi; simplify_eq/=.
  - by rewrite insert_insert_eq.
  - apply NoDup_cons in Hnd as [Hk Hnd]. rewrite IH by done.
    rewrite insert_insert_ne; [done|]. intros ->. apply Hk.
    apply list_elem_of_fmap. exists (k, x). split; [done|]. by eapply list_elem_of_lookup_2.
Qed.

Lemma strip_lookup pe pp ch c :
  strip <$> ep_chans pe = strip <$> pp_chans pp → ep_chans pe !! ch = Some c →
  ∃ c', pp_chans pp !! ch = Some c' ∧ strip c = strip c'.
Proof.
  intros Hs Hc. assert ((strip <$> ep_chans pe) !! ch = Some (strip c)) as H by by rewrite lookup_fmap, Hc.
  rewrite Hs, lookup_fmap in H. apply fmap_Some in H as (c' & -> & H). by exists c'.
Qed.

Lemma entries_fds p : (entries p).*1 = pfd_fd <$> pollfds_ p.
Proof. unfold entries. rewrite <- list_fmap_compose. done. Qed.

Lemma strip_fields c c' :
  strip c = strip c' →
  fd_ c = fd_ c' ∧ events_ c = events_ c' ∧ revents_ c = revents_ c' ∧ id_ c = id_ c' ∧ callbacks_ c = callbacks_ c'.
Proof. destruct c, c'. unfold strip; simpl. by intros [= -> -> -> -> ->]. Qed.

Lemma strip_change e c c' : strip c = strip c' → strip (change_fn e c) = strip (change_fn e c').
Proof.
  intros (H1 & H2 & H3 & H4 & H5)%strip_fields. unfold strip.
  destruct e; simpl; rewrite ?H1, ?H2, ?H3, ?H4, ?H5; done.
Qed.

(** A registered descriptor has an entry. *)
Lemma sim_entry pe pp fd ch :
  poller_sim pe pp → pp_channels_ pp !! fd = Some ch →
  ∃ i pf, pollfds_ pp !! i = Some pf ∧ pfd_fd pf = fd.
Proof.
  intros ((Hm & _) & _ & _ & Hch & Hint) Hfd. rewrite <- Hch in Hfd. apply Hm in Hfd as [ev Hfd].
  rewrite Hint in Hfd. apply elem_of_list_to_map_2 in Hfd. unfold entries in Hfd.
  apply list_elem_of_fmap in Hfd as (pf & Heq & [i Hi]%list_elem_of_lookup). exists i, pf.
  split; [done|]. unfold entry_of in Heq. by simplify_eq.
Qed.

Section Simulation.
Implicit Types pe : EpollPoller.
Implicit Types pp : PollPoller.

Lemma pp_inv_unregistered pp fd :
  pp_inv pp → pp_channels_ pp !! fd = None → fd ∉ pfd_fd <$> pollfds_ pp.
Proof.
  intros [_ Hp] Hn Hin. apply list_elem_of_fmap in Hin as (pf & -> & [i Hi]%list_elem_of_lookup).
  destruct (Hp _ _ Hi) as (ch & c & H & _). congruence.
Qed.

(** The entries do not notice a change of the map elsewhere. *)
Lemma entry_of_ext p p' pf :
  pp_channels_ p !! pfd_fd pf = pp_channels_ p' !! pfd_fd pf → entry_of p pf = entry_of p' pf.
Proof. unfold entry_of. by intros ->. Qed.

Lemma sim_add pe pp ch :
  poller_sim pe pp → legal_op (OpAdd ch) pe → zlen (pollfds_ pp) < 2 ^ 31 - 1 →
  ∃ pe' pp', run_op (OpAdd ch) pe = Ret pe' ∧ run_op (OpAdd ch) pp = Ret pp'
    ∧ poller_sim pe' pp' ∧ zlen (pollfds_ pp') = zlen (pollfds_ pp) + 1.
Proof.
  intros (Hep & Hpp & Hst & Hch & Hint) (c & Hc & Hn & Hs) Hlen.
  destruct (strip_lookup _ _ _ _ Hst Hc) as (c' & Hc' & (Hfd & Hev & _)%strip_fields).
  assert (interest pe !! fd_ c = None) as Hin.
  { destruct (interest pe !! fd_ c) as [[ev ch']|] eqn:E; [|done].
    destruct Hep as (Hm & _). assert (ep_channels_ pe !! fd_ c = Some ch') by (apply Hm; eauto). congruence. }
  destruct (EpollPoller_add ch c pe Hep Hc) as (pe' & Hadd & Hep' & _); [by cbn; rewrite lookup_fmap, Hin|done|].
  pose proof Hadd as Hadd'. cbn in Hadd'. unfold EpollPoller_AddChannel, EpollPoller_Update in Hadd'.
  rewrite (ep_chan_at_Some _ _ _ Hc) in Hadd'. cbn [mbind outcome_bind] in Hadd'.
  unfold ep_chan_at in Hadd'; simpl in Hadd'. rewrite Hc in Hadd'. simpl in Hadd'.
  unfold epoll_ctl in Hadd'. rewrite Hin in Hadd'. injection Hadd' as <-.
  eexists _, _. split; [exact Hadd|]. split.
  { cbn. unfold PollPoller_AddChannel, pp_chan_at. rewrite Hc'. reflexivity. }
  assert (pp_channels_ pp !! fd_ c' = None) as Hn' by (rewrite <- Hch, <- Hfd; done).
  pose proof (pp_inv_unregistered _ _ Hpp Hn') as Hfresh. destruct Hpp as [Hnd Hpp].
  split; [|cbn [pollfds_]; rewrite zlen_app; done].
  split; [done|]. split; [split|split_and!]; cbn [pollfds_ pp_channels_ pp_chans ep_chans ep_channels_ interest].
  - rewrite fmap_app. apply NoDup_app. split_and!; [done| |by apply NoDup_singleton].
    by intros x Hx ->%list_elem_of_singleton.
  - intros i pf. rewrite lookup_app_Some. intros [Hi|[Hge Hi]].
    + destruct (Hpp _ _ Hi) as (ch0 & c0 & H1 & H2 & H3 & H4 & H5). exists ch0, c0.
      rewrite !lookup_insert_ne; [done| |].
      * intros <-. assert (c0 = c') as -> by congruence. rewrite H3 in Hn'. congruence.
      * intros E. rewrite E in Hn'. congruence.
    + apply list_lookup_singleton_Some in Hi as [Hi <-].
      exists ch, (SetIndex (zlen (pollfds_ pp ++ [mkPollfd (fd_ c') (events_ c') 0]) - 1) c').
      cbn [pfd_fd pfd_events]. rewrite !lookup_insert_eq. split_and!; try done. cbn. f_equal.
      rewrite zlen_app. change (zlen [_]) with 1. unfold zlen in *. rewrite swrap_id by lia. lia.
  - rewrite fmap_insert, Hst. symmetry. apply insert_id. by rewrite lookup_fmap, Hc'.
  - by rewrite Hch, Hfd.
  - unfold entries. cbn [pollfds_]. rewrite fmap_app. cbn [fmap list_fmap].
    match goal with |- context [entry_of ?p (mkPollfd (fd_ c') ?x ?y)] =>
      assert (entry_of p (mkPollfd (fd_ c') x y) = (fd_ c', (u32 (events_ c'), ch))) as ->
        by (unfold entry_of; cbn; by rewrite lookup_insert_eq) end.
    rewrite list_to_map_snoc.
    + rewrite Hint, <- Hfd, <- Hev. f_equal. unfold entries. f_equal. apply list_fmap_ext. intros i pf Hi. apply entry_of_ext. cbn.
      rewrite lookup_insert_ne; [done|]. intros E. rewrite <- Hfd, E in Hfresh.
      apply Hfresh, list_elem_of_fmap. exists pf. split; [done|]. by eapply list_elem_of_lookup_2.
    + rewrite <- list_fmap_compose. done.
Qed.

Lemma sim_change pe pp e ch :
  poller_sim pe pp → legal_op (OpChange e ch) pe →
  ∃ pe' pp', run_op (OpChange e ch) pe = Ret pe' ∧ run_op (OpChange e ch) pp = Ret pp'
    ∧ poller_sim pe' pp' ∧ zlen (pollfds_ pp') = zlen (pollfds_ pp).
Proof.
  intros Hsim (c & Hc & Hr). pose proof Hsim as (Hep & [Hnd Hpp] & Hst & Hch & Hint).
  destruct (change_fn_ok e c) as (Gf & Gi & Gs).
  destruct (EpollPoller_update (change_fn e) ch c pe Hep Hc) as (pe' & Hup & Hep' & _);
    [by apply (HasChannel_true ch c)|done..|].
  destruct (strip_lookup _ _ _ _ Hst Hc) as (c' & Hc' & Hsc).
  pose proof Hsc as (Hfd & Hev & _)%strip_fields. destruct (change_fn_ok e c') as (Gf' & Gi' & Gs').
  assert (pp_channels_ pp !! fd_ c' = Some ch) as Hr' by (rewrite <- Hch, <- Hfd; done).
  destruct (sim_entry _ _ _ _ Hsim Hr') as (i & pf & Hi & Hpf).
  destruct (Hpp _ _ Hi) as (ch0 & c0 & H1 & H2 & H3 & H4 & H5).
  rewrite Hpf in H1. assert (ch0 = ch) as -> by congruence. assert (c0 = c') as -> by congruence.
  pose proof (lookup_lt_Some _ _ _ Hi) as Hlt.
  pose proof Hup as Hup'. cbn in Hup'. unfold change_events, chan_at in Hup'. cbn in Hup'. rewrite Hc in Hup'.
  cbn [from_option_fault mbind outcome_bind] in Hup'.
  unfold EpollPoller_UpdateChannel, EpollPoller_Update, ep_chan_at in Hup'; simpl in Hup'.
  rewrite lookup_insert_eq in Hup'. simpl in Hup'. unfold epoll_ctl in Hup'. rewrite Gf in Hup'.
  assert (∃ ev, interest pe !! fd_ c = Some (ev, ch)) as [ev Hin] by by apply Hep.
  rewrite Hin in Hup'. injection Hup' as <-.
  set (g := change_fn e) in *. set (pf' := mkPollfd (fd_ c') (events_ (g c')) 0).
  assert (change_events g ch pp = Ret (mkPoll (<[ch := g c']> (pp_chans pp)) (pp_channels_ pp) (<[i := pf']> (pollfds_ pp)))) as Hpp'.
  { unfold change_events, chan_at. cbn. rewrite Hc'. cbn [from_option_fault mbind outcome_bind].
    unfold PollPoller_UpdateChannel, pp_chan_at; simpl. rewrite lookup_insert_eq. simpl.
    rewrite Gf', Hr', bool_decide_true by done. simpl. rewrite Gi', H4. simpl.
    rewrite bool_decide_true by (unfold zlen; lia). simpl. rewrite Nat2Z.id.
    unfold pf'. by rewrite (swrap_id 16) by (unfold is_short in Gs'; lia || lia). }
  eexists _, _. split; [exact Hup|]. split; [exact Hpp'|].
  split; [|cbn; unfold zlen; by rewrite length_insert].
  split; [done|]. split; [split|split_and!]; cbn [pollfds_ pp_channels_ pp_chans ep_chans ep_channels_ interest].
  - rewrite list_fmap_insert. cbn. rewrite list_insert_id; [done|]. rewrite list_lookup_fmap, Hi. cbn. congruence.
  - intros j pfj Hj. destruct (decide (j = i)) as [->|Hji].
    + rewrite list_lookup_insert_eq in Hj by done. injection Hj as <-. exists ch, (g c'). cbn.
      rewrite lookup_insert_eq. split_and!; try done. by rewrite Gi'.
    + rewrite list_lookup_insert_ne in Hj by done.
      destruct (Hpp _ _ Hj) as (ch1 & c1 & K1 & K2 & K3 & K4 & K5). exists ch1, c1.
      rewrite lookup_insert_ne; [done|]. intros <-. assert (c1 = c') as -> by congruence.
      rewrite H4 in K4. injection K4 as K4. lia.
  - rewrite !fmap_insert, Hst. f_equal. by apply strip_change.
  - done.
  - rewrite Hint. unfold entries. cbn [pollfds_]. rewrite list_fmap_insert.
    unfold entry_of at 2. unfold pf'. cbn [pfd_fd pfd_events pp_channels_]. rewrite Hr'. cbn.
    rewrite <- Hfd, (list_to_map_insert_at _ i (fd_ c) (u32 (pfd_events pf), ch)).
    + pose proof (strip_change e _ _ Hsc) as (_ & E & _)%strip_fields. fold g in E. by rewrite E.
    + change (NoDup (entries pp).*1). by rewrite entries_fds.
    + rewrite list_lookup_fmap, Hi. unfold entry_of. cbn. by rewrite Hpf, Hr', Hfd.
Qed.

Lemma sim_run os pe pp :
  poller_sim pe pp → legal_ops os pe → zlen (pollfds_ pp) + zlen os < 2 ^ 31 →
  ∃ pe' pp', run_ops os pe = Ret pe' ∧ run_ops os pp = Ret pp' ∧ poller_sim pe' pp'.
Proof.
  revert pe pp. induction os as [|o os IH]; intros pe pp Hsim Hleg Hlen; [by exists pe, pp|].
  destruct Hleg as [Hlo Hleg]. rewrite zlen_cons in Hlen. pose proof (zlen_nonneg os).
  assert (∃ pe' pp', run_op o pe = Ret pe' ∧ run_op o pp = Ret pp' ∧ poller_sim pe' pp'
            ∧ zlen (pollfds_ pp') ≤ zlen (pollfds_ pp) + 1) as (pe1 & pp1 & E1 & E2 & Hs1 & Hl1).
  { destruct o as [ch|e ch].
    - destruct (sim_add pe pp ch) as (pe' & pp' & ? & ? & ? & ?); [done..|lia|]. exists pe', pp'. split_and!; [done..|lia].
    - destruct (sim_change pe pp e ch) as (pe' & pp' & ? & ? & ? & ?); [done..|]. exists pe', pp'. split_and!; [done..|lia]. }
  destruct (IH pe1 pp1 Hs1 (Hleg _ E1)) as (pe' & pp' & R1 & R2 & Hs'); [lia|].
  exists pe', pp'. cbn [run_ops]. rewrite E1, E2. done.
Qed.
End Simulation.

(** ** Both Polls as one function of what is reported *)

(** The reported events are stored in the channels. *)
Definition mark (evs : list (Z * Z)) (m : gmap Z Channel) : gmap Z Channel :=
  foldl (λ m e, alter (SetREvents e.2) e.1 m) m evs.
Arguments mark : simpl never.

Lemma mark_cons ch rev evs m : mark ((ch, rev) :: evs) m = mark evs (alter (SetREvents rev) ch m).
Proof. done. Qed.

Lemma mark_perm evs evs' m : evs ≡ₚ evs' → NoDup evs.*1 → mark evs m = mark evs' m.
Proof.
  intros Hp. revert m. induction Hp as [|[ch r] l l' Hp IH|[ch r] [ch' r'] l|l1 l2 l3 Hp1 IH1 Hp2 IH2]; intros m Hnd.
  - done.
  - rewrite !mark_cons. apply IH. by apply NoDup_cons in Hnd as [_ ?].
  - rewrite !mark_cons. f_equal. apply alter_alter_ne.
    apply NoDup_cons in Hnd as [Hn _]. intros ->. apply Hn. by left.
  - rewrite IH1 by done. apply IH2. by rewrite <- Hp1.
Qed.

Lemma strip_mark evs m : strip <$> mark evs m = mark evs (strip <$> m).
Proof.
  revert m. induction evs as [|[ch r] evs IH]; intros m; [done|].
  rewrite !mark_cons, IH. f_equal. by apply fmap_alter.
Qed.

Lemma EpollPoller_fill evs active p :
  (∀ ch, ch ∈ evs.*1 → is_Some (ep_chans p !! ch)) →
  EpollPoller_FillActiveChannels evs active p
  = Ret (active ++ evs.*1, mkEpoll (mark evs (ep_chans p)) (ep_channels_ p) (interest p) (ep_nevents p)).
Proof.
  revert active p. induction evs as [|[ch r] evs IH]; intros active p Hin.
  { rewrite app_nil_r. by destruct p. }
  destruct (Hin ch) as [c Hc]; [by left|]. cbn [EpollPoller_FillActiveChannels fst].
  rewrite (ep_chan_at_Some _ _ _ Hc). cbn [mbind outcome_bind]. rewrite IH.
  - cbn. rewrite <- app_assoc, mark_cons, alter_alt, Hc. done.
  - intros ch' Hch'. cbn. rewrite lookup_insert. case_decide; [done|]. apply Hin. by right.
Qed.

(** What the array of PollPoller reports. *)
Definition reported_by (p : PollPoller) (pf : pollfd) : option (Z * Z) :=
  if pfd_revents pf =? 0 then None else Some (default 0 (pp_channels_ p !! pfd_fd pf), pfd_revents pf).

Lemma PollPoller_fill fds active p :
  (∀ pf, pf ∈ fds → 0 ≤ pfd_revents pf ∧ ∃ ch, pp_channels_ p !! pfd_fd pf = Some ch ∧ is_Some (pp_chans p !! ch)) →
  PollPoller_FillActiveChannels fds (poll2_count fds) active p
  = Ret (active ++ (omap (reported_by p) fds).*1,
         mkPoll (mark (omap (reported_by p) fds) (pp_chans p)) (pp_channels_ p) (pollfds_ p)).
Proof.
  revert active p. induction fds as [|pf fds IH]; intros active p Hin.
  { cbn. rewrite app_nil_r. by destruct p. }
  destruct (Hin pf) as (Hge & ch & Hch & c & Hc); [by left|].
  assert (∀ pf', pf' ∈ fds → 0 ≤ pfd_revents pf' ∧ ∃ ch, pp_channels_ p !! pfd_fd pf' = Some ch ∧ is_Some (pp_chans p !! ch))
    as Hin' by (intros; apply Hin; by right).
  assert (poll2_count (pf :: fds) = poll2_count fds + if pfd_revents pf =? 0 then 0 else 1) as Hcnt.
  { unfold poll2_count. rewrite filter_cons. destruct (Z.eqb_spec (pfd_revents pf) 0);
      [rewrite decide_False by tauto|rewrite decide_True, zlen_cons by done]; lia. }
  assert (0 ≤ poll2_count fds) by apply zlen_nonneg.
  cbn [PollPoller_FillActiveChannels omap list_omap]. rewrite Hcnt.
  destruct (Z.eqb_spec (pfd_revents pf) 0) as [E|E].
  - assert (reported_by p pf = None) as -> by (unfold reported_by; by rewrite E).
    rewrite Z.add_0_r, E. cbn. destruct (Z.ltb_spec 0 (poll2_count fds)) as [|Hz]; [by apply IH|].
    assert (omap (reported_by p) fds = []) as ->; [|cbn; rewrite app_nil_r; by destruct p].
    clear -Hz. unfold poll2_count in Hz. induction fds as [|pf fds IH]; [done|].
    rewrite filter_cons in Hz. cbn. unfold reported_by at 1. destruct (Z.eqb_spec (pfd_revents pf) 0) as [E|E].
    + apply IH. by rewrite decide_False in Hz by tauto.
    + rewrite decide_True, zlen_cons in Hz by done. pose proof (zlen_nonneg (filter (λ pf, pfd_revents pf ≠ 0) fds)). lia.
  - assert (reported_by p pf = Some (ch, pfd_revents pf)) as ->.
    { unfold reported_by. rewrite (proj2 (Z.eqb_neq _ _)), Hch by done. done. }
    rewrite (proj2 (Z.ltb_lt 0 (poll2_count fds + 1))), (proj2 (Z.ltb_lt 0 (pfd_revents pf))) by lia.
    rewrite Hch. cbn [from_option_fault mbind outcome_bind]. unfold pp_chan_at. rewrite Hc.
    cbn [from_option_fault mbind outcome_bind].
    replace (poll2_count fds + 1 - 1) with (poll2_count fds) by lia. rewrite IH.
    + cbn. rewrite <- app_assoc, mark_cons, alter_alt, Hc. done.
    + intros pf' Hpf'. destruct (Hin' pf' Hpf') as (? & ch' & ? & ?). split; [done|]. exists ch'.
      split; [done|]. cbn. rewrite lookup_insert. by case_decide.
Qed.

Lemma poll_mask_u32 ev r : 0 ≤ r < 2 ^ 15 → poll_mask (u32 ev) r = poll_mask ev r ∧ 0 ≤ poll_mask ev r.
Proof.
  intros Hr. unfold poll_mask. split; [|apply Z.land_nonneg; lia].
  apply Z.bits_inj'. intros n Hn. rewrite !Z.land_spec, !Z.lor_spec.
  destruct (decide (n < 15)).
  - unfold wrap. rewrite Z.mod_pow2_bits_low by lia. done.
  - rewrite (Z.bits_above_log2 r n); [done|lia|].
    destruct (decide (r = 0)) as [->|]; [simpl; lia|]. apply Z.log2_lt_pow2; [lia|].
    pose proof (Z.pow_le_mono_r 2 15 n). lia.
Qed.

Lemma reported_entries ready p p' :
  (∀ fd, 0 ≤ ready fd < 2 ^ 15) → pp_channels_ p' = pp_channels_ p →
  omap (reported_by p') (poll2 ready (pollfds_ p)) = omap (report ready) (entries p).
Proof.
  intros Hr Hch. unfold entries, poll2. generalize (pollfds_ p). intros l.
  induction l as [|pf l IH]; [done|]. cbn [fmap list_fmap omap list_omap]. rewrite IH.
  destruct (poll_mask_u32 (pfd_events pf) (ready (pfd_fd pf))) as [E _]; [done|].
  assert (reported_by p' (mkPollfd (pfd_fd pf) (pfd_events pf) (poll_mask (pfd_events pf) (ready (pfd_fd pf))))
          = report ready (entry_of p pf)) as ->; [|done].
  unfold reported_by, report, entry_of. cbn. by rewrite E, Hch.
Qed.

(** Different entries belong to different channels. *)
Lemma report_NoDup ready (l : list (Z * (Z * Z))) :
  NoDup ((λ e, e.2.2) <$> l) → NoDup (omap (report ready) l).*1.
Proof.
  induction l as [|e l IH]; intros Hnd; [constructor|]. cbn in Hnd. apply NoDup_cons in Hnd as [Hn Hnd].
  cbn [omap list_omap]. destruct (report ready e) as [r|] eqn:E; [|by apply IH]. cbn. apply NoDup_cons.
  split; [|by apply IH]. unfold report in E. case_match; [done|]. injection E as <-. cbn. intros Hin. apply Hn.
  apply list_elem_of_fmap in Hin as (y & Hy & Hin). apply list_elem_of_omap in Hin as (x & Hx & Hxy).
  unfold report in Hxy. case_match; [done|]. injection Hxy as <-. cbn in Hy. rewrite Hy.
  apply list_elem_of_fmap. by exists x.
Qed.

Lemma entries_NoDup p : pp_inv p → NoDup ((λ e : Z * (Z * Z), e.2.2) <$> entries p).
Proof.
  intros [Hnd Hp]. unfold entries. rewrite <- list_fmap_compose.
  assert (NoDup (pollfds_ p)) as Hnd' by (by eapply NoDup_fmap_1).
  apply NoDup_fmap_2_strong; [|done]. intros x y [i Hi]%list_elem_of_lookup [j Hj]%list_elem_of_lookup. cbn.
  destruct (Hp _ _ Hi) as (ch & c & H1 & H2 & H3 & H4 & _). destruct (Hp _ _ Hj) as (ch' & c' & K1 & K2 & K3 & K4 & _).
  rewrite H1, K1. cbn. unfold id. intros <-. assert (c' = c) as -> by congruence.
  rewrite H4 in K4. injection K4 as K4. assert (i = j) as -> by lia. congruence.
Qed.

Lemma sim_poll pe pp ready evs :
  poller_sim pe pp → (∀ fd, 0 ≤ ready fd < 2 ^ 15) → evs ≡ₚ epoll_ready ready (interest pe) →
  zlen evs ≤ ep_nevents pe →
  ∃ pe' pp' ap, EpollPoller_Poll (Some evs) pe = Ret (evs.*1, pe') ∧ PollPoller_Poll (Some ready) pp = Ret (ap, pp')
    ∧ ap ≡ₚ evs.*1 ∧ strip <$> ep_chans pe' = strip <$> pp_chans pp'.
Proof.
  intros (Hep & Hpp & Hst & Hch & Hint) Hr Hevs Hlen.
  set (pp1 := mkPoll (pp_chans pp) (pp_channels_ pp) (poll2 ready (pollfds_ pp))).
  set (pevs := omap (reported_by pp1) (poll2 ready (pollfds_ pp))).
  assert (pevs ≡ₚ evs) as Hperm.
  { unfold pevs. rewrite (reported_entries ready pp) by done. rewrite Hevs. unfold epoll_ready. rewrite Hint.
    rewrite map_to_list_to_map by (rewrite entries_fds; apply Hpp). done. }
  assert (NoDup pevs.*1) as Hnd.
  { unfold pevs. rewrite (reported_entries ready pp) by done. by apply report_NoDup, entries_NoDup. }
  assert (∃ pe', EpollPoller_Poll (Some evs) pe = Ret (evs.*1, pe') ∧ ep_chans pe' = mark evs (ep_chans pe))
    as (pe' & E1 & C1).
  { unfold EpollPoller_Poll. destruct (Z.ltb_spec 0 (zlen evs)) as [Hpos|Hz].
    - unfold assert_. rewrite require_true by (apply Z.leb_le; lia). cbn [mbind outcome_bind].
      rewrite EpollPoller_fill; [|intros ch Hin].
      + cbn. eexists. split; [done|]. by destruct (_ =? _).
      + apply list_elem_of_fmap in Hin as ([ch' ev] & -> & Hin). rewrite Hevs in Hin.
        apply list_elem_of_omap in Hin as ([fd [ev0 ch0]] & Hm%elem_of_map_to_list & Hrep).
        unfold report in Hrep. case_match; [done|]. injection Hrep as <- <-.
        destruct Hep as (_ & Hi & _). destruct (Hi _ _ _ Hm) as (c & ? & _). eauto.
    - assert (evs = []) as -> by (apply zlen_0_nil; pose proof (zlen_nonneg evs); lia). by exists pe. }
  assert (∃ pp', PollPoller_Poll (Some ready) pp = Ret (pevs.*1, pp') ∧ pp_chans pp' = mark pevs (pp_chans pp))
    as (pp' & E2 & C2).
  { assert (PollPoller_FillActiveChannels (poll2 ready (pollfds_ pp)) (poll2_count (poll2 ready (pollfds_ pp))) [] pp1
            = Ret (pevs.*1, mkPoll (mark pevs (pp_chans pp)) (pp_channels_ pp) (poll2 ready (pollfds_ pp)))) as Hf.
    { apply (PollPoller_fill _ [] pp1). intros pf Hin. unfold poll2 in Hin.
      apply list_elem_of_fmap in Hin as (pf0 & -> & [i Hi]%list_elem_of_lookup). cbn. split.
      - by apply poll_mask_u32.
      - destruct (proj2 Hpp _ _ Hi) as (ch & c & ? & ? & _). eauto. }
    unfold PollPoller_Poll. fold pp1. destruct (Z.ltb_spec 0 (poll2_count (poll2 ready (pollfds_ pp)))) as [|Hz].
    - rewrite Hf. by eexists.
    - assert (PollPoller_FillActiveChannels (poll2 ready (pollfds_ pp)) (poll2_count (poll2 ready (pollfds_ pp))) [] pp1 = Ret ([], pp1)) as Hf'.
      { destruct (poll2 ready (pollfds_ pp)); [done|]. cbn. by rewrite (proj2 (Z.ltb_ge _ _)). }
      rewrite Hf' in Hf. exists pp1. split; [congruence|]. 
      assert (Hq : pp1 = mkPoll (mark pevs (pp_chans pp)) (pp_channels_ pp) (poll2 ready (pollfds_ pp))) by congruence.
      by rewrite Hq at 1. }
  exists pe', pp', pevs.*1. split_and!; [done..| |].
  - by rewrite Hperm.
  - rewrite C1, C2, !strip_mark, Hst. symmetry. by apply mark_perm.
Qed.

(** ** Theorem *)

(** C12: the two pollers agree.  Start both with the same channels and run any
    legal program that adds channels and turns events on and off: both return,
    and when the descriptors become ready in any way, and whatever order
    epoll_wait reports them in, both polls hand the loop the same channels and
    store the same events in them; the array PollPoller searches and the
    kernel's interest list give equivalent behaviour. *)
Theorem pollers_equivalent (cs : gmap Z Channel) (os : list poll_op) (ready : Z → Z) (evs : list (Z * Z)) :
  legal_ops os (mkEpoll cs ∅ ∅ kInitEventListSize) → zlen os < 2 ^ 31 → (∀ fd, 0 ≤ ready fd < 2 ^ 15) →
  ∃ pe pp, run_ops os (mkEpoll cs ∅ ∅ kInitEventListSize) = Ret pe ∧ run_ops os (mkPoll cs ∅ []) = Ret pp ∧
    (evs ≡ₚ epoll_ready ready (interest pe) → zlen evs ≤ ep_nevents pe →
     ∃ pe' pp' ap, EpollPoller_Poll (Some evs) pe = Ret (evs.*1, pe') ∧ PollPoller_Poll (Some ready) pp = Ret (ap, pp')
       ∧ ap ≡ₚ evs.*1 ∧ strip <$> ep_chans pe' = strip <$> pp_chans pp').
Proof.
  intros Hleg Hlen Hr.
  destruct (sim_run os (mkEpoll cs ∅ ∅ kInitEventListSize) (mkPoll cs ∅ [])) as (pe & pp & R1 & R2 & Hsim).
  - split_and!; try done; cbn.
    + split_and!; cbn; [|done..]. intros fd ch. rewrite lookup_empty. split; [done|by intros [? ?]].
    + split; [constructor|]. by intros [|i] pf H.
  - done.
  - cbn. unfold zlen at 1. cbn. lia.
  - exists pe, pp. split_and!; [done..|]. intros. by apply sim_poll.
Qed.

Definition demo_chans : gmap Z Channel := {[16 := Channel_new 3 4 1; 32 := Channel_new 4 4 2]}.
Definition demo_ops : list poll_op := [OpAdd 16; OpAdd 32; OpChange ERead 16].

Lemma pollers_equivalent_witness :
  ∃ pe pp pe' pp' ap,
    run_ops demo_ops (mkEpoll demo_chans ∅ ∅ kInitEventListSize) = Ret pe
    ∧ run_ops demo_ops (mkPoll demo_chans ∅ []) = Ret pp
    ∧ EpollPoller_Poll (Some [(16, 1)]) pe = Ret ([16], pe')
    ∧ PollPoller_Poll (Some (λ _, 1)) pp = Ret (ap, pp') ∧ ap ≡ₚ [16].
Proof.
  destruct (pollers_equivalent demo_chans demo_ops (λ _, 1) [(16, 1)]) as (pe & pp & H1 & H2 & H).
  - split; [exists (Channel_new 3 4 1); by vm_compute|]. intros p1 H1. vm_compute in H1. injection H1 as <-.
    split; [exists (Channel_new 4 4 2); by vm_compute|]. intros p2 H2. vm_compute in H2. injection H2 as <-.
    split; [eexists; by vm_compute|]. done.
  - by vm_compute.
  - lia.
  - exists pe, pp. vm_compute in H1. injection H1 as <-. destruct H as (pe' & pp' & ap & E1 & E2 & Hp & _); [by vm_compute..|].
    exists pe', pp', ap. split; [by vm_compute|]. split; [exact H2|]. split; [exact E1|]. split; [exact E2|exact Hp].
Defined.
