(* ===== verification/EventLoop.v ===== *)
(** * net/eventloop.h, net/eventloop.cc: class EventLoop

    The loop thread alternates between the poller, the callbacks of the active
    channels and the functors other code queued; other threads hand it work
    through QueueInLoop and wake it through an eventfd.  The loop thread is a
    deterministic step function ([loop_next], one atomic action at a time) and
    the other threads interleave with it between any two actions ([ev_step]).

    User code (channel callbacks and functors) is a list of calls into the
    loop; a functor is a number that [body] maps to its code.  The timer calls
    RunAt, RunAfter and RunEvery are on the loop's TimerQueue.  The eventfd is
    the 64-bit counter the kernel keeps for it. *)

From S2P Require Import Prelude Time TimerQueue.

(** ** Data *)

(** The calls user code makes on the loop, in the loop thread. *)
Inductive cmd : Type :=
| CRunInLoop (f : nat)
| CQueueInLoop (f : nat)
| CQuit.

#[export] Instance cmd_eq_dec : EqDecision cmd.
Proof. solve_decision. Defined.

(** An active channel: the loop's own wakeup channel, or another one with the
    code its HandleEvent runs. *)
Inductive active : Type :=
| WakeupChannel
| UserChannel (code : list cmd).

(** Where the loop thread is in Loop() and DoPendingFunctors(). *)
Inductive loop_pc : Type :=
| PcTest                            (* while (!quit_) *)
| PcPoll                            (* poller_->Poll *)
| PcEvents (chs : list active)      (* for (auto ch : activeChannels_) *)
| PcSwapped (funcs : list nat)      (* funcs.swap(pendingFunctors_) was done *)
| PcFunctors (funcs : list nat)     (* for (auto& func : funcs) *)
| PcExit.

(** The loop's fields, the kernel's eventfd counter, the rest of the user code
    the loop thread is in, and how many other threads are between their update
    of the loop and their call of WakeUp.  [queued] and [ran] record the
    functors queued and the queued functors started, in order. *)
Record EventLoop : Type := mkLoop {
  quit_ : bool;
  pendingFunctors_ : list nat;
  doingPending_ : bool;
  eventfd : Z;
  pc : loop_pc;
  code : list cmd;
  waking : nat;
  queued : list nat;
  ran : list nat;
}.

Definition eventfd_max : Z := 2 ^ 64 - 2.

(** ** Operations *)

Definition EventLoop_new : EventLoop := mkLoop false [] false 0 PcTest [] 0 [] [].

Definition set_pc (p : loop_pc) (l : EventLoop) : EventLoop :=
  mkLoop (quit_ l) (pendingFunctors_ l) (doingPending_ l) (eventfd l) p (code l)
         (waking l) (queued l) (ran l).
Definition set_code (c : list cmd) (l : EventLoop) : EventLoop :=
  mkLoop (quit_ l) (pendingFunctors_ l) (doingPending_ l) (eventfd l) (pc l) c
         (waking l) (queued l) (ran l).
Definition set_eventfd (n : Z) (l : EventLoop) : EventLoop :=
  mkLoop (quit_ l) (pendingFunctors_ l) (doingPending_ l) n (pc l) (code l)
         (waking l) (queued l) (ran l).
Definition set_quit (l : EventLoop) : EventLoop :=
  mkLoop true (pendingFunctors_ l) (doingPending_ l) (eventfd l) (pc l) (code l)
         (waking l) (queued l) (ran l).
Definition set_doing (d : bool) (l : EventLoop) : EventLoop :=
  mkLoop (quit_ l) (pendingFunctors_ l) d (eventfd l) (pc l) (code l)
         (waking l) (queued l) (ran l).
Definition set_waking (n : nat) (l : EventLoop) : EventLoop :=
  mkLoop (quit_ l) (pendingFunctors_ l) (doingPending_ l) (eventfd l) (pc l) (code l)
         n (queued l) (ran l).
Definition set_pending (fs : list nat) (l : EventLoop) : EventLoop :=
  mkLoop (quit_ l) fs (doingPending_ l) (eventfd l) (pc l) (code l)
         (waking l) (queued l) (ran l).

(** write(wakeupFd_, 1): a full counter makes the write fail, which is logged. *)
Definition WakeUp (l : EventLoop) : EventLoop :=
  if eventfd l <? eventfd_max then set_eventfd (eventfd l + 1) l else l.

(** read(wakeupFd_) resets the counter; a read of 0 fails, which is logged. *)
Definition HandleWakeup (l : EventLoop) : EventLoop := set_eventfd 0 l.

(** pendingFunctors_.push_back(func) under the mutex *)
Definition push_pending (f : nat) (l : EventLoop) : EventLoop :=
  mkLoop (quit_ l) (pendingFunctors_ l ++ [f]) (doingPending_ l) (eventfd l) (pc l) (code l)
         (waking l) (queued l ++ [f]) (ran l).

(** QueueInLoop called in the loop thread *)
Definition QueueInLoop (f : nat) (l : EventLoop) : EventLoop :=
  let l := push_pending f l in
  if doingPending_ l then WakeUp l else l.

(** Quit called in the loop thread *)
Definition Quit (l : EventLoop) : outcome EventLoop :=
  _ ← assert_ (negb (quit_ l));
  Ret (set_quit l).

(** QueueInLoop and Quit called in another thread: the update, after which the
    thread is going to call WakeUp. *)
Definition QueueInLoop_other (f : nat) (l : EventLoop) : EventLoop :=
  set_waking (S (waking l)) (push_pending f l).
Definition Quit_other (l : EventLoop) : outcome EventLoop :=
  _ ← assert_ (negb (quit_ l));
  Ret (set_waking (S (waking l)) (set_quit l)).

Section Loop.
(** The code of a functor. *)
Context (body : nat → list cmd).

(** RunInLoop called in the loop thread: the functor runs at once. *)
Definition RunInLoop (f : nat) (rest : list cmd) (l : EventLoop) : EventLoop :=
  set_code (body f ++ rest) l.

(** One call of user code in the loop thread. *)
Definition do_cmd (c : cmd) (rest : list cmd) (l : EventLoop) : outcome EventLoop :=
  match c with
  | CRunInLoop f => Ret (RunInLoop f rest l)
  | CQueueInLoop f => Ret (QueueInLoop f (set_code rest l))
  | CQuit => Quit (set_code rest l)
  end.

(** The next action of the loop thread; [chs] is what the poller reports if it
    is asked.  Poll clears and fills activeChannels_; DoPendingFunctors starts
    when the active channels are done. *)
Definition loop_next (chs : list active) (l : EventLoop) : outcome EventLoop :=
  match code l with
  | c :: rest => do_cmd c rest l
  | [] =>
      match pc l with
      | PcTest => Ret (set_pc (if quit_ l then PcExit else PcPoll) l)
      | PcPoll => Ret (set_pc (PcEvents chs) l)
      | PcEvents [] => Ret (set_pc (PcSwapped (pendingFunctors_ l)) (set_pending [] l))
      | PcEvents (WakeupChannel :: chs) => Ret (set_pc (PcEvents chs) (HandleWakeup l))
      | PcEvents (UserChannel c :: chs) => Ret (set_pc (PcEvents chs) (set_code c l))
      | PcSwapped funcs => Ret (set_pc (PcFunctors funcs) (set_doing true l))
      | PcFunctors [] => Ret (set_pc PcTest (set_doing false l))
      | PcFunctors (f :: funcs) =>
          Ret (mkLoop (quit_ l) (pendingFunctors_ l) (doingPending_ l) (eventfd l)
                      (PcFunctors funcs) (body f) (waking l) (queued l) (ran l ++ [f]))
      | PcExit => Ret l
      end
  end.

(** The loop thread until it is back at the test of [quit_]: its iteration,
    with [n] actions at most. *)
Fixpoint loop_run (n : nat) (chs : list active) (l : EventLoop) : outcome EventLoop :=
  match n with
  | O => Diverge
  | S n =>
      l' ← loop_next chs l;
      match pc l', code l' with
      | PcTest, [] => Ret l'
      | _, _ => loop_run n chs l'
      end
  end.

(** Interleaving.  The poller reports the wakeup channel only when its counter
    is positive. *)
Inductive ev_step : EventLoop → EventLoop → Prop :=
| step_loop (chs : list active) (l l' : EventLoop) :
    (WakeupChannel ∈ chs → 0 < eventfd l) → loop_next chs l = Ret l' → ev_step l l'
| step_queue (f : nat) (l : EventLoop) : ev_step l (QueueInLoop_other f l)
| step_quit (l l' : EventLoop) : Quit_other l = Ret l' → ev_step l l'
| step_wake (n : nat) (l : EventLoop) :
    waking l = S n → ev_step l (set_waking n (WakeUp l)).

End Loop.

(** ** Timers of the loop *)

Section Timers.
Context (malloc : gmap Z Timer → option Z).

(** RunAt; [now] is the clock AddTimer's ResetTimerfd reads. *)
Definition RunAt (time : Z) (cb : nat) (now : Z) (q : TimerQueue) : outcome (TimerId * TimerQueue) :=
  AddTimer malloc cb time (double_of_Z 0) now q.

(** RunAfter; [now] is the clock it adds the delay to, [now'] the later one. *)
Definition RunAfter (delay : double) (cb : nat) (now now' : Z) (q : TimerQueue)
  : outcome (TimerId * TimerQueue) :=
  time ← AddTime now delay;
  RunAt time cb now' q.

Definition RunEvery (delay interval : double) (cb : nat) (now now' : Z) (q : TimerQueue)
  : outcome (TimerId * TimerQueue) :=
  time ← AddTime now delay;
  AddTimer malloc cb time interval now' q.

End Timers.

(** ** Invariants *)

(** The functors taken from the queue that have not started. *)
Definition taken (p : loop_pc) : list nat :=
  match p with PcSwapped fs | PcFunctors fs => fs | _ => [] end.

(** The loop thread will not block, or a thread is about to wake it. *)
Definition wake_due (l : EventLoop) : Prop := 0 < eventfd l ∨ (0 < waking l)%nat.

Definition wake_inv (l : EventLoop) : Prop :=
  (doingPending_ l = true ↔ ∃ fs, pc l = PcFunctors fs)
  ∧ (code l ≠ [] → (∃ chs, pc l = PcEvents chs) ∨ ∃ fs, pc l = PcFunctors fs)
  ∧ 0 ≤ eventfd l
  ∧ match pc l with
    | PcEvents _ | PcExit => True
    | PcPoll => pendingFunctors_ l ≠ [] ∨ quit_ l = true → wake_due l
    | _ => pendingFunctors_ l ≠ [] → wake_due l
    end.

Definition fifo_inv (l : EventLoop) : Prop :=
  queued l = ran l ++ taken (pc l) ++ pendingFunctors_ l.

(** ** Lemmas *)

Section Lemmas.
Context (body : nat → list cmd).
Implicit Types l : EventLoop.

Lemma WakeUp_due l : 0 ≤ eventfd l → 0 < eventfd (WakeUp l).
Proof. unfold WakeUp. destruct (Z.ltb_spec (eventfd l) eventfd_max); simpl; unfold eventfd_max in *; lia. Qed.

Lemma WakeUp_fields l :
  ∃ n, WakeUp l = set_eventfd n l ∧ eventfd l ≤ n.
Proof.
  unfold WakeUp. destruct (_ <? _).
  - exists (eventfd l + 1). split; [done|lia].
  - exists (eventfd l). split; [by destruct l|lia].
Qed.

Definition is_functors (p : loop_pc) : bool :=
  match p with PcFunctors _ => true | _ => false end.

(** The parts of [wake_inv] one by one, with the fields of a changed state. *)
Ltac wake_split := refine (conj _ (conj _ (conj _ _))); simpl.

Lemma do_cmd_wake c rest l l' :
  code l = c :: rest → wake_inv l → do_cmd body c rest l = Ret l' → wake_inv l'.
Proof.
  intros Hc (Hd & Hcode & He & Hm) H. specialize (Hcode ltac:(by rewrite Hc)).
  destruct c as [f|f|]; simpl in H; inv_ret; subst.
  - by wake_split.
  - unfold QueueInLoop; simpl. destruct (doingPending_ l) eqn:Hdo.
    + set (l0 := push_pending f (set_code rest l)). pose proof (WakeUp_due l0 He) as Hdue.
      destruct (WakeUp_fields l0) as (n & E & _). rewrite E in *. simpl in Hdue.
      wake_split; [by rewrite Hdo|done|lia|]. destruct (pc l); try done; by left.
    + wake_split; [by rewrite Hdo|done|done|].
      destruct Hcode as [[chs ->]|[fs Hpc]]; [done|].
      by pose proof (proj2 Hd (ex_intro _ fs Hpc)).
  - unfold Quit in H. inv_ret. subst. wake_split; [done..|]. destruct Hcode as [[chs Hpc]|[fs Hpc]]; by rewrite Hpc in *.
Qed.

Lemma loop_next_wake chs l l' :
  (WakeupChannel ∈ chs → 0 < eventfd l) → wake_inv l → loop_next body chs l = Ret l' → wake_inv l'.
Proof.
  intros _ Hi H. pose proof Hi as (Hd & Hcode & He & Hm). unfold loop_next in H.
  destruct (code l) as [|c rest] eqn:Hc; [|by eapply do_cmd_wake].
  assert (Hno : ∀ q, is_functors (pc l) = false → is_functors q = false →
            doingPending_ l = true ↔ ∃ fs, q = PcFunctors fs).
  { intros q Hf Hq. rewrite Hd. split; [intros [fs Hp]; by rewrite Hp in Hf|by intros [fs ->]]. }
  destruct (pc l) as [| |[|[|c] chs']|fs|[|f fs]|] eqn:Hpc; inv_ret; subst.
  - destruct (quit_ l) eqn:Hq; wake_split; rewrite ?Hc, ?Hq; try done; try by apply Hno.
    intros [?|?]; [by apply Hm|done].
  - wake_split; rewrite ?Hc; try done; by apply Hno.
  - wake_split; rewrite ?Hc; try done; by apply Hno.
  - wake_split; rewrite ?Hc; try done; by apply Hno.
  - wake_split; try done; [by apply Hno|]. intros _. left. by eexists.
  - wake_split; rewrite ?Hc; try done. split; [by eexists|done].
  - wake_split; rewrite ?Hc; try done. split; [done|by intros [? ?]].
  - wake_split; try done; [|intros _; right; by eexists]. rewrite Hd. split; by eexists.
  - done.
Qed.

Lemma wake_due_mono l l' :
  eventfd l ≤ eventfd l' → (waking l ≤ waking l')%nat → wake_due l → wake_due l'.
Proof. intros ? ? [?|?]; [left|right]; lia. Qed.

Lemma ev_step_wake l l' : wake_inv l → ev_step body l l' → wake_inv l'.
Proof.
  intros Hi Hs. destruct Hs as [chs l l' Hw Hn|f l|l l' Hq|n l Hn].
  - by eapply loop_next_wake.
  - destruct Hi as (Hd & Hcode & He & Hm). wake_split; [done..|].
    destruct (pc l); try done; intros _; right; simpl; lia.
  - unfold Quit_other in Hq. inv_ret. subst. destruct Hi as (Hd & Hcode & He & Hm).
    wake_split; [done..|]. destruct (pc l); try done; intros _; right; simpl; lia.
  - destruct Hi as (Hd & Hcode & He & Hm). pose proof (WakeUp_due l He) as Hdue.
    destruct (WakeUp_fields l) as (m & E & Hle). rewrite E in *. simpl in Hdue.
    wake_split; [done|done|lia|]. destruct (pc l); try done; by left.
Qed.

Lemma wake_inv_new : wake_inv EventLoop_new.
Proof. wake_split; [|done..]. split; [done|by intros [? ?]]. Qed.

(** *** Order of the functors *)

Lemma WakeUp_fifo l : fifo_inv l → fifo_inv (WakeUp l).
Proof. destruct (WakeUp_fields l) as (n & -> & _). done. Qed.

Lemma push_fifo f l : fifo_inv l → fifo_inv (push_pending f l).
Proof. unfold fifo_inv. simpl. intros ->. by rewrite <- !app_assoc. Qed.

Lemma do_cmd_fifo c rest l l' : fifo_inv l → do_cmd body c rest l = Ret l' → fifo_inv l'.
Proof.
  intros Hi H. destruct c as [f|f|]; simpl in H; unfold Quit in H; inv_ret; subst; [done| |done].
  unfold QueueInLoop. simpl. destruct (doingPending_ l); [apply WakeUp_fifo|]; by apply push_fifo.
Qed.

Lemma loop_next_fifo chs l l' : fifo_inv l → loop_next body chs l = Ret l' → fifo_inv l'.
Proof.
  intros Hi H. unfold loop_next in H. destruct (code l) as [|c rest]; [|by eapply do_cmd_fifo].
  unfold fifo_inv in *.
  destruct (pc l) as [| |[|[|c] chs']|fs|[|f fs]|] eqn:Hpc; inv_ret; subst; simpl in *;
    rewrite ?app_nil_r; try done.
  - by destruct (quit_ l).
  - by rewrite Hi, <- app_assoc.
  - by rewrite Hpc.
Qed.

Lemma ev_step_fifo l l' : fifo_inv l → ev_step body l l' → fifo_inv l'.
Proof.
  intros Hi Hs. destruct Hs as [chs l l' Hw Hn|f l|l l' Hq|n l Hn].
  - by eapply loop_next_fifo.
  - by apply push_fifo.
  - unfold Quit_other in Hq. inv_ret. by subst.
  - by apply WakeUp_fifo in Hi.
Qed.

End Lemmas.

(** *** An iteration of the loop ends

    Functors may queue others and run lower-numbered ones at once, so that
    running one terminates; they do not quit the loop. *)

Definition ranked (body : nat → list cmd) : Prop :=
  ∀ f, (CQuit ∉ body f) ∧ (∀ g, CRunInLoop g ∈ body f → (g < f)%nat).

(** The code of an active channel does not quit the loop. *)
Definition no_quit (chs : list active) : Prop :=
  ∀ c, UserChannel c ∈ chs → CQuit ∉ c.

Definition is_test (p : loop_pc) : bool := match p with PcTest => true | _ => false end.

(** User code changes the loop by appending to the queue and waking. *)
Definition grows (l l' : EventLoop) : Prop :=
  pc l' = pc l ∧ quit_ l' = quit_ l ∧ doingPending_ l' = doingPending_ l ∧ ran l' = ran l
  ∧ ∃ k, pendingFunctors_ l' = pendingFunctors_ l ++ k.

Section Iteration.
Context (body : nat → list cmd) (chs : list active).
Implicit Types l : EventLoop.

Definition inner l l' : Prop := loop_next body chs l = Ret l' ∧ is_test (pc l') = false.

Lemma loop_run_inner l l' n r :
  rtc inner l l' → loop_run body n chs l' = Ret r → ∃ n', loop_run body n' chs l = Ret r.
Proof.
  intros Hr. revert n. induction Hr as [|x y z [H Ht] Hr IH]; intros n Hn; [by exists n|].
  destruct (IH n Hn) as [n' Hn']. exists (S n'). cbn. rewrite H. cbn.
  by destruct (pc y).
Qed.

Lemma grows_refl l : grows l l.
Proof. repeat split; try done. exists []. by rewrite app_nil_r. Qed.

Lemma grows_trans l1 l2 l3 : grows l1 l2 → grows l2 l3 → grows l1 l3.
Proof.
  intros (? & ? & ? & ? & k1 & E1) (? & ? & ? & ? & k2 & E2).
  repeat split; try congruence. exists (k1 ++ k2). by rewrite E2, E1, app_assoc.
Qed.

Lemma QueueInLoop_grows f rest l :
  grows l (QueueInLoop f (set_code rest l)) ∧ code (QueueInLoop f (set_code rest l)) = rest.
Proof.
  unfold QueueInLoop. simpl. destruct (doingPending_ l) eqn:Hd.
  - destruct (WakeUp_fields (push_pending f (set_code rest l))) as (n & -> & _).
    split; [|done]. repeat split; try done; eauto.
  - split; [|done]. repeat split; try done; eauto.
Qed.

(** User code whose immediate calls are bounded by [m] runs to its end. *)
Lemma run_code m c rest l :
  ranked body → CQuit ∉ c → (∀ g, CRunInLoop g ∈ c → (g < m)%nat) →
  is_test (pc l) = false → code l = c ++ rest →
  ∃ l', rtc inner l l' ∧ code l' = rest ∧ grows l l'.
Proof.
  intros Hrk. revert c rest l. induction m as [m IHm] using lt_wf_ind.
  induction c as [|x c IHc]; intros rest l Hq Hm Ht Hc.
  - exists l. split; [done|]. split; [done|apply grows_refl].
  - assert (Htail : ∀ l1, code l1 = c ++ rest → grows l l1 → rtc inner l l1 →
              ∃ l', rtc inner l l' ∧ code l' = rest ∧ grows l l').
    { intros l1 Hc1 Hg Hr. destruct (IHc rest l1) as (l' & Hr' & Hc' & Hg'); try done.
      - set_solver. - set_solver. - by rewrite (proj1 Hg).
      - exists l'. split; [by etrans|]. split; [done|by eapply grows_trans]. }
    destruct x as [g|g|]; [| |set_solver].
    + destruct (Hrk g) as [Hqg Hrg].
      destruct (IHm g (Hm g ltac:(set_solver)) (body g) (c ++ rest) (RunInLoop body g (c ++ rest) l))
        as (l1 & Hr1 & Hc1 & Hg1); try done.
      apply (Htail l1); [done|done|]. eapply rtc_l; [|done].
      split; [|done]. unfold loop_next. by rewrite Hc.
    + destruct (QueueInLoop_grows g (c ++ rest) l) as [Hg Hcq].
      apply (Htail (QueueInLoop g (set_code (c ++ rest) l))); [done|done|].
      apply rtc_once. split; [unfold loop_next; by rewrite Hc|]. by rewrite (proj1 Hg).
Qed.

Lemma calls_bounded (c : list cmd) : ∃ m, ∀ g, CRunInLoop g ∈ c → (g < m)%nat.
Proof.
  induction c as [|x c [m IH]]; [exists 0%nat; set_solver|].
  exists (match x with CRunInLoop g => S (g + m) | _ => m end).
  intros g [<-|Hg]%elem_of_cons; [lia|]. apply IH in Hg. destruct x; lia.
Qed.

(** The active channels' code runs; what it queues is behind what was queued. *)
Lemma run_events cs l :
  ranked body → no_quit cs → pc l = PcEvents cs → code l = [] →
  ∃ l', rtc inner l l' ∧ code l' = [] ∧ pc l' = PcEvents [] ∧ quit_ l' = quit_ l ∧ ran l' = ran l
        ∧ ∃ k, pendingFunctors_ l' = pendingFunctors_ l ++ k.
Proof.
  intros Hrk. revert l. induction cs as [|[|c] cs IH]; intros l Hq Hpc Hc.
  - exists l. split_and!; try done. exists []. by rewrite app_nil_r.
  - destruct (IH (set_pc (PcEvents cs) (HandleWakeup l))) as (l' & Hr & Hl'); [|done..|].
    { intros ? ?. apply Hq. set_solver. }
    exists l'. split; [|done]. eapply rtc_l; [|done]. split; [|done].
    unfold loop_next. by rewrite Hc, Hpc.
  - set (l1 := set_pc (PcEvents cs) (set_code c l)).
    destruct (calls_bounded c) as [m Hm].
    destruct (run_code m c [] l1 Hrk) as (l2 & Hr2 & Hc2 & Hg2); try done.
    { apply Hq. set_solver. } { simpl. by rewrite app_nil_r. }
    destruct Hg2 as (Hpc2 & Hq2 & _ & Hran2 & k & Hp2).
    destruct (IH l2) as (l' & Hr & Hc' & Hpc' & Hq' & Hran' & k' & Hp'); [|done..|].
    { intros ? ?. apply Hq. set_solver. }
    exists l'. split.
    { eapply rtc_l; [split; [unfold loop_next; by rewrite Hc, Hpc|done]|]. by etrans. }
    do 2 (split; [done|]). split; [by rewrite Hq', Hq2|]. split; [by rewrite Hran', Hran2|].
    exists (k ++ k'). by rewrite Hp', Hp2, app_assoc.
Qed.

(** DoPendingFunctors starts the functors it took, in order. *)
Lemma run_functors fs l :
  ranked body → pc l = PcFunctors fs → code l = [] →
  ∃ l', rtc inner l l' ∧ code l' = [] ∧ pc l' = PcFunctors [] ∧ ran l' = ran l ++ fs.
Proof.
  intros Hrk. revert l. induction fs as [|f fs IH]; intros l Hpc Hc.
  - exists l. by rewrite app_nil_r.
  - set (l1 := mkLoop (quit_ l) (pendingFunctors_ l) (doingPending_ l) (eventfd l)
                      (PcFunctors fs) (body f) (waking l) (queued l) (ran l ++ [f])).
    destruct (Hrk f) as [Hqf Hrf].
    destruct (run_code f (body f) [] l1 Hrk) as (l2 & Hr2 & Hc2 & Hpc2 & _ & _ & Hran2 & _); try done.
    { simpl. by rewrite app_nil_r. }
    destruct (IH l2) as (l' & Hr & Hc' & Hpc' & Hran'); [done..|].
    exists l'. split_and!; try done.
    + eapply rtc_l; [split; [unfold loop_next; by rewrite Hc, Hpc|done]|]. by etrans.
    + rewrite Hran', Hran2. simpl. by rewrite <- app_assoc.
Qed.

Lemma iteration_ok l :
  ranked body → no_quit chs → pc l = PcPoll → code l = [] →
  ∃ n l' k, loop_run body n chs l = Ret l' ∧ pc l' = PcTest
            ∧ ran l' = ran l ++ pendingFunctors_ l ++ k.
Proof.
  intros Hrk Hq Hpc Hc.
  destruct (run_events chs (set_pc (PcEvents chs) l)) as (l1 & Hr1 & Hc1 & Hpc1 & Hq1 & Hran1 & k & Hp1); try done.
  set (l2 := set_pc (PcSwapped (pendingFunctors_ l1)) (set_pending [] l1)).
  set (l3 := set_pc (PcFunctors (pendingFunctors_ l1)) (set_doing true l2)).
  destruct (run_functors (pendingFunctors_ l1) l3) as (l4 & Hr4 & Hc4 & Hpc4 & Hran4); try done.
  assert (H0 : inner l (set_pc (PcEvents chs) l)).
  { split; [unfold loop_next; by rewrite Hc, Hpc|done]. }
  assert (H1 : inner l1 l2) by (split; [unfold loop_next; by rewrite Hc1, Hpc1|done]).
  assert (H2 : inner l2 l3) by (split; [unfold loop_next; simpl; by rewrite Hc1|done]).
  destruct (loop_run_inner l l4 1 (set_pc PcTest (set_doing false l4))) as [n Hn].
  - eapply rtc_l; [exact H0|]. etrans; [exact Hr1|]. eapply rtc_l; [exact H1|].
    eapply rtc_l; [exact H2|]. exact Hr4.
  - cbn. unfold loop_next. rewrite Hc4, Hpc4. cbn. by rewrite Hc4.
  - exists n, (set_pc PcTest (set_doing false l4)), k. split_and!; [done..|].
    simpl. rewrite Hran4. simpl. by rewrite Hran1, Hp1.
Qed.

End Iteration.

(** ** Properties *)

(** C5: no wakeup is lost.  Whatever the other threads do between any two
    actions of the loop thread, when it is about to block in the poller while
    functors are queued or the loop was told to quit, the eventfd is readable
    or a thread is about to write it. *)
Theorem no_lost_wakeup (body : nat → list cmd) (l : EventLoop) :
  rtc (ev_step body) EventLoop_new l →
  pc l = PcPoll → pendingFunctors_ l ≠ [] ∨ quit_ l = true → wake_due l.
Proof.
  intros Hr Hpc Hp. pose proof (rtc_invariant _ wake_inv _ _ wake_inv_new (ev_step_wake body) Hr)
    as (_ & _ & _ & Hm). rewrite Hpc in Hm. by apply Hm.
Qed.

(** C20: queued functors run once each, in the order they were queued: at any
    time the functors queued so far are those that ran, those the running
    DoPendingFunctors still holds, and those pending, in this order. *)
Theorem functors_fifo (body : nat → list cmd) (l : EventLoop) :
  rtc (ev_step body) EventLoop_new l →
  queued l = ran l ++ taken (pc l) ++ pendingFunctors_ l.
Proof. apply (rtc_invariant _ fifo_inv); [done|apply ev_step_fifo]. Qed.

(** C21: an iteration of the loop ends and starts every functor that was
    queued when it began, followed by those the channel callbacks queued; this
    for functors that call each other without a cycle and do not quit. *)
Theorem iteration_runs_pending (body : nat → list cmd) (chs : list active) (l : EventLoop) :
  ranked body → no_quit chs → pc l = PcPoll → code l = [] →
  ∃ n l' k, loop_run body n chs l = Ret l' ∧ pc l' = PcTest
            ∧ ran l' = ran l ++ pendingFunctors_ l ++ k.
Proof. apply iteration_ok. Qed.

(** A functor 1 that runs functor 0 at once and queues functor 0 again. *)
Definition demo_body (f : nat) : list cmd :=
  match f with 1%nat => [CRunInLoop 0; CQueueInLoop 0] | _ => [] end.

(** Another thread queues functor 1 while the loop enters the poller. *)
Definition demo_loop : EventLoop := mkLoop false [1%nat] false 0 PcPoll [] 1 [1%nat] [].

Lemma demo_reach : rtc (ev_step demo_body) EventLoop_new demo_loop.
Proof.
  eapply rtc_l; [apply (step_loop _ []); [by intros ?%elem_of_nil|reflexivity]|].
  eapply rtc_l; [apply (step_queue _ 1)|]. apply rtc_refl.
Qed.

Lemma no_lost_wakeup_witness : wake_due demo_loop.
Proof. apply (no_lost_wakeup demo_body demo_loop demo_reach eq_refl). by left. Defined.

Lemma functors_fifo_witness : queued demo_loop = ran demo_loop ++ taken (pc demo_loop) ++ [1%nat].
Proof. exact (functors_fifo demo_body demo_loop demo_reach). Defined.

Lemma iteration_runs_pending_witness :
  ∃ n l' k, loop_run demo_body n [WakeupChannel; UserChannel [CQueueInLoop 0]] demo_loop = Ret l'
            ∧ pc l' = PcTest ∧ ran l' = [1%nat] ++ k.
Proof.
  apply (iteration_runs_pending demo_body [WakeupChannel; UserChannel [CQueueInLoop 0]] demo_loop).
  - intros [|[|f]]; simpl; (split; [set_solver|]); intros g; [set_solver| |set_solver].
    rewrite !elem_of_cons, elem_of_nil. intros [[= ->]|[[=]|[]]]. lia.
  - intros c. rewrite !elem_of_cons, elem_of_nil. intros [[=]|[[= ->]|[]]]. by_decide.
  - reflexivity.
  - reflexivity.
Defined.
