(* ===== verification/EventLoopPool.v ===== *)
(** * net/eventloop_pool.*, net/eventloop_thread.*, net/countdownlatch.h

    EventLoopPool hands out its loops round robin.  EventLoopThread starts a
    thread that runs a loop and waits on a CountDownLatch until the loop
    exists; the two threads are a step relation.  A loop is its address; the
    loops of a pool are created on the stacks of its threads, so the addresses
    the threads publish are an argument of Start. *)

From S2P Require Import Prelude.

(** ** EventLoopPool *)

Record EventLoopPool : Type := mkPool {
  baseLoop_ : Z;
  numThreads_ : Z;
  started_ : bool;
  next_ : Z;
  loops_ : list Z;
}.

Definition EventLoopPool_new (baseLoop : Z) : EventLoopPool := mkPool baseLoop 0 false 0 [].

Definition SetThreadNum (num : Z) (p : EventLoopPool) : EventLoopPool :=
  mkPool (baseLoop_ p) num (started_ p) (next_ p) (loops_ p).

(** [loop_of i]: what StartLoop of the i-th new thread returns. *)
Definition Start (loop_of : nat → Z) (in_base : bool) (p : EventLoopPool) : outcome EventLoopPool :=
  _ ← assert_ (negb (started_ p));
  _ ← assert_ in_base;
  Ret (mkPool (baseLoop_ p) (numThreads_ p) true (next_ p)
              (loops_ p ++ (loop_of <$> seq 0 (Z.to_nat (numThreads_ p))))).

(** GetNextLoop.  [next_] is compared as an unsigned number with the size. *)
Definition GetNextLoop (in_base : bool) (p : EventLoopPool) : outcome (Z * EventLoopPool) :=
  _ ← assert_ in_base;
  _ ← assert_ (started_ p);
  if bool_decide (loops_ p = []) then Ret (baseLoop_ p, p)
  else
    loop ← from_option_fault OutOfBounds (znth (next_ p) (loops_ p));
    let next := next_ p + 1 in
    let next := if zlen (loops_ p) <=? u64 next then 0 else next in
    Ret (loop, mkPool (baseLoop_ p) (numThreads_ p) (started_ p) next (loops_ p)).

Definition GetAllLoops (in_base : bool) (p : EventLoopPool) : outcome (list Z) :=
  _ ← assert_ in_base;
  _ ← assert_ (started_ p);
  Ret (if bool_decide (loops_ p = []) then [baseLoop_ p] else loops_ p).

(** [n] connections in a row, as TcpServer::HandleAccept asks for loops. *)
Fixpoint next_loops (n : nat) (p : EventLoopPool) : outcome (list Z * EventLoopPool) :=
  match n with
  | O => Ret ([], p)
  | S n =>
      r ← GetNextLoop true p;
      rs ← next_loops n r.2;
      Ret (r.1 :: rs.1, rs.2)
  end.

(** ** EventLoopThread and its latch *)

(** The starting thread in StartLoop. *)
Inductive start_pc : Type := StSpawn | StWait | StCheck | StReturned (loop : Z).

(** The new thread in RunInThread. *)
Inductive run_pc : Type := RunNotYet | RunPublish | RunCount | RunLoop | RunExit.

Record EventLoopThread : Type := mkThread {
  count_ : Z;           (* CountDownLatch latch_{1} *)
  loop_ : Z;            (* 0 is nullptr *)
  thread_started_ : bool;
  spc : start_pc;
  rpc : run_pc;
}.

Definition EventLoopThread_new : EventLoopThread := mkThread 1 0 false StSpawn RunNotYet.

(** CountDownLatch::Count under the mutex, and the condition Wait leaves on. *)
Definition Count (t : EventLoopThread) : EventLoopThread :=
  mkThread (count_ t - 1) (loop_ t) (thread_started_ t) (spc t) (rpc t).
Definition Wait_over (t : EventLoopThread) : bool := count_ t <=? 0.

Definition set_spc (p : start_pc) (t : EventLoopThread) : EventLoopThread :=
  mkThread (count_ t) (loop_ t) (thread_started_ t) p (rpc t).
Definition set_rpc (p : run_pc) (t : EventLoopThread) : EventLoopThread :=
  mkThread (count_ t) (loop_ t) (thread_started_ t) (spc t) p.
Definition set_loop (a : Z) (t : EventLoopThread) : EventLoopThread :=
  mkThread (count_ t) a (thread_started_ t) (spc t) (rpc t).

(** The next action of StartLoop; [None] while the latch blocks it. *)
Definition start_next (t : EventLoopThread) : option (outcome EventLoopThread) :=
  match spc t with
  | StSpawn =>
      Some (_ ← assert_ (negb (thread_started_ t));
            _ ← assert_ (loop_ t =? 0);
            Ret (mkThread (count_ t) (loop_ t) true StWait RunPublish))
  | StWait => if Wait_over t then Some (Ret (set_spc StCheck t)) else None
  | StCheck => Some (_ ← assert_ (negb (loop_ t =? 0)); Ret (set_spc (StReturned (loop_ t)) t))
  | StReturned _ => None
  end.

(** The next action of RunInThread; [addr] is the address of its local loop,
    [quit] says that someone called Quit on it. *)
Definition run_next (addr : Z) (quit : bool) (t : EventLoopThread) : option EventLoopThread :=
  match rpc t with
  | RunNotYet | RunExit => None
  | RunPublish => Some (set_rpc RunCount (set_loop addr t))
  | RunCount => Some (set_rpc RunLoop (Count t))
  | RunLoop => if quit then Some (set_rpc RunExit (set_loop 0 t)) else None
  end.

(** Only code that got the pointer from StartLoop can call Quit on the loop. *)
Inductive th_step (addr : Z) : outcome EventLoopThread → outcome EventLoopThread → Prop :=
| th_start (t : EventLoopThread) (r : outcome EventLoopThread) :
    start_next t = Some r → th_step addr (Ret t) r
| th_run (quit : bool) (t t' : EventLoopThread) :
    (quit = true → ∃ a, spc t = StReturned a) →
    run_next addr quit t = Some t' → th_step addr (Ret t) (Ret t').

(** ** Lemmas *)

Definition pool_wf (p : EventLoopPool) : Prop :=
  started_ p = true ∧ 0 ≤ next_ p ∧ (loops_ p ≠ [] → next_ p < zlen (loops_ p)) ∧ zlen (loops_ p) < 2 ^ 31.

(** The i-th loop counted from [next_] on, round and round. *)
Definition round_robin (p : EventLoopPool) (i : nat) : Z :=
  default (baseLoop_ p) (znth ((next_ p + Z.of_nat i) mod zlen (loops_ p)) (loops_ p)).

Section PoolLemmas.
Implicit Types p : EventLoopPool.

Lemma Start_ok loop_of p :
  started_ p = false → loops_ p = [] → next_ p = 0 → 0 ≤ numThreads_ p < 2 ^ 31 →
  ∃ p', Start loop_of true p = Ret p' ∧ pool_wf p' ∧ baseLoop_ p' = baseLoop_ p
        ∧ loops_ p' = loop_of <$> seq 0 (Z.to_nat (numThreads_ p)).
Proof.
  intros Hs Hl Hn Hnum. unfold Start. rewrite Hs, Hl, Hn. eexists; split; [done|].
  split; [|done]. unfold pool_wf; simpl. rewrite zlen_fmap.
  assert (zlen (seq 0 (Z.to_nat (numThreads_ p))) = numThreads_ p) as ->.
  { unfold zlen. rewrite length_seq. lia. }
  split_and!; [done|lia| |lia]. intros Hne. destruct (decide (numThreads_ p = 0)) as [E|]; [|lia].
  by rewrite E in Hne.
Qed.

Lemma GetNextLoop_ok p :
  pool_wf p →
  ∃ p', GetNextLoop true p = Ret (round_robin p 0, p') ∧ pool_wf p' ∧ loops_ p' = loops_ p
        ∧ ∀ i, round_robin p' i = round_robin p (S i).
Proof.
  intros (Hs & H0 & Hlt & Hsz). unfold GetNextLoop. rewrite Hs. cbn [assert_ require mbind outcome_bind].
  case_bool_decide as Hl.
  - exists p. assert (∀ i, round_robin p i = baseLoop_ p) as Hb.
    { intros i. unfold round_robin. rewrite Hl. unfold znth. by case_bool_decide. }
    rewrite Hb. split; [done|]. split; [done|]. split; [done|]. intros i. by rewrite !Hb.
  - specialize (Hlt Hl). set (len := zlen (loops_ p)) in *.
    destruct (znth_is_Some (next_ p) (loops_ p)) as [x Hx]; [lia|]. rewrite Hx.
    cbn [from_option_fault mbind outcome_bind]. rewrite wrap_id by lia.
    eexists. split.
    { f_equal. f_equal. unfold round_robin. rewrite Z.add_0_r. fold len.
      rewrite Z.mod_small by lia. by rewrite Hx. }
    split; [|split; [done|]].
    + split_and!; simpl; [done| |intros _|done]; fold len; destruct (Z.leb_spec len (next_ p + 1)); lia.
    + intros i. unfold round_robin; simpl. fold len. do 2 f_equal.
      destruct (Z.leb_spec len (next_ p + 1)).
      * replace (next_ p + Z.of_nat (S i)) with (0 + Z.of_nat i + 1 * len) by lia.
        by rewrite Z.mod_add by lia.
      * f_equal. lia.
Qed.

Lemma next_loops_ok n p :
  pool_wf p →
  ∃ p', next_loops n p = Ret (round_robin p <$> seq 0 n, p') ∧ pool_wf p' ∧ loops_ p' = loops_ p.
Proof.
  revert p. induction n as [|n IH]; intros p Hp; [by exists p|].
  destruct (GetNextLoop_ok p Hp) as (p1 & H1 & Hp1 & Hl1 & Hr).
  destruct (IH p1 Hp1) as (p2 & H2 & Hp2 & Hl2).
  exists p2. split; [|split; [done|congruence]]. cbn [next_loops]. rewrite H1. cbn [mbind outcome_bind fst snd].
  rewrite H2. cbn. do 3 f_equal. rewrite <- seq_shift.
  change (map S (seq 0 n)) with (S <$> seq 0 n). rewrite <- list_fmap_compose.
  apply list_fmap_ext. intros i x _. apply Hr.
Qed.

End PoolLemmas.

(** While StartLoop waits, the other thread has not left its loop. *)
Definition th_inv (addr : Z) (r : outcome EventLoopThread) : Prop :=
  ∃ t, r = Ret t ∧
    match spc t, rpc t with
    | StSpawn, RunNotYet => count_ t = 1 ∧ loop_ t = 0 ∧ thread_started_ t = false
    | StWait, RunPublish => count_ t = 1 ∧ loop_ t = 0
    | StWait, RunCount => count_ t = 1 ∧ loop_ t = addr
    | (StWait | StCheck), RunLoop => count_ t = 0 ∧ loop_ t = addr
    | StReturned a, RunLoop | StReturned a, RunExit => a = addr
    | _, _ => False
    end.

Lemma th_step_inv addr r r' : addr ≠ 0 → th_inv addr r → th_step addr r r' → th_inv addr r'.
Proof.
  intros Ha (t & -> & Hi) Hs. inversion Hs as [t0 r0 H|quit t0 t' Hq H]; subst.
  - unfold start_next, Wait_over in H. destruct t as [cnt lp st sp rp]; simpl in *.
    destruct sp, rp; try done; simpl in H; destruct_and?; subst; simplify_eq/=;
      rewrite ?(proj2 (Z.eqb_neq _ _) Ha); by eexists; split.
  - unfold run_next, Count in H. destruct t as [cnt lp st sp rp]; simpl in *.
    destruct rp; try done; destruct sp; try done; destruct_and?; subst; simplify_eq/=;
      try (by eexists; split); destruct quit; simplify_eq/=;
      try (by eexists; split); by destruct (Hq eq_refl).
Qed.

(** ** Properties *)

(** Round robin.  A pool started with [n] threads gives [k] connections in
    a row the loops 0, 1, ..., n-1, 0, ... in turn, and the base loop when it
    has no threads; the internal index never leaves the array. *)
Theorem pool_round_robin (loop_of : nat → Z) (base num : Z) (k : nat) :
  0 ≤ num < 2 ^ 31 →
  ∃ p p', Start loop_of true (SetThreadNum num (EventLoopPool_new base)) = Ret p
    ∧ next_loops k p
      = Ret ((λ i : nat, if num =? 0 then base else loop_of (Z.to_nat (Z.of_nat i mod num))) <$> seq 0 k, p').
Proof.
  intros Hn. destruct (Start_ok loop_of (SetThreadNum num (EventLoopPool_new base))) as (p & H & Hwf & Hb & Hl); try done.
  destruct (next_loops_ok k p Hwf) as (p' & H' & _). exists p, p'. split; [done|]. rewrite H'.
  do 2 f_equal. apply list_fmap_ext. intros _ i _. unfold round_robin. rewrite Hl, Hb. simpl.
  assert (next_ p = 0) as -> by (unfold Start in H; simpl in H; by injection H as <-).
  rewrite zlen_fmap. unfold zlen at 1. rewrite length_seq, Z2Nat.id by lia.
  destruct (Z.eqb_spec num 0) as [->|Hne].
  - simpl. unfold znth. by case_bool_decide.
  - pose proof (Z.mod_pos_bound (Z.of_nat i) num). unfold znth. rewrite Z.add_0_l. rewrite bool_decide_true by lia.
    rewrite list_lookup_fmap, lookup_seq_lt by lia. done.
Qed.

Lemma pool_round_robin_witness :
  ∃ p p', Start (λ i, 100 + Z.of_nat i) true (SetThreadNum 3 (EventLoopPool_new 7)) = Ret p
    ∧ next_loops 5 p = Ret ([100; 101; 102; 100; 101], p').
Proof. apply (pool_round_robin (λ i, 100 + Z.of_nat i) 7 3 5). lia. Defined.

(** StartLoop never fails its assertions and returns the address of the
    running loop: the latch orders the publication of the loop before the
    return, in every interleaving of the two threads. *)
Theorem start_loop_safe (addr : Z) (r : outcome EventLoopThread) :
  addr ≠ 0 → rtc (th_step addr) (Ret EventLoopThread_new) r →
  ∃ t, r = Ret t ∧ ∀ a, spc t = StReturned a → a = addr.
Proof.
  intros Ha Hr. assert (th_inv addr r) as (t & -> & Ht).
  { eapply rtc_invariant; [|intros x y; by apply th_step_inv|exact Hr]. by eexists. }
  exists t. split; [done|]. intros a Hsp. rewrite Hsp in Ht. by destruct (rpc t).
Qed.

Lemma start_loop_safe_witness :
  ∃ t, Ret (mkThread 0 64 true (StReturned 64) RunLoop) = Ret t ∧ ∀ a, spc t = StReturned a → a = 64.
Proof.
  apply (start_loop_safe 64); [done|].
  eapply rtc_l; [by apply th_start|]. eapply rtc_l; [by apply (th_run _ false)|].
  eapply rtc_l; [by apply (th_run _ false)|]. eapply rtc_l; [by apply th_start|].
  eapply rtc_l; [by apply th_start|]. apply rtc_refl.
Defined.
