(* ===== verification/LoopLife.v ===== *)
(** * The life of an EventLoop: net/eventloop.cc (constructor, destructor and the
      operations on channels), net/timerqueue.cc (constructor and destructor),
      net/channel.cc (destructor), net/eventloop_thread.cc (destructor)

    An EventLoop owns a poller, a timer queue with its channel on the timerfd, and
    a channel on the eventfd.  The channel objects are in the poller's heap, by
    address.  A thread is a number; an operation on channels asserts that the
    calling thread [t] is the loop's.  The loop of an EventLoopThread is a local
    variable of its thread, so the destructor of the thread object waits for the
    destructor of the loop. *)

From S2P Require Import Prelude Channel Poller Time TimerQueue EventLoopPool.

(** ** The loop as the owner of its channels *)

Record LoopParts : Type := mkParts {
  lp_tid_ : Z;
  lp_poller_ : EpollPoller;
  lp_timers : TimerQueue;      (* *timerQueue_ *)
  lp_timerfd_ : Z;
  lp_timer_ch : Z;             (* the address of timerQueue_->channel_ *)
  lp_wakeupFd_ : Z;
  lp_wakeup_ch : Z;            (* wakeupChannel_.get() *)
}.

Definition set_poller (p : EpollPoller) (l : LoopParts) : LoopParts :=
  mkParts (lp_tid_ l) p (lp_timers l) (lp_timerfd_ l) (lp_timer_ch l) (lp_wakeupFd_ l) (lp_wakeup_ch l).
Definition set_tq (q : TimerQueue) (l : LoopParts) : LoopParts :=
  mkParts (lp_tid_ l) (lp_poller_ l) q (lp_timerfd_ l) (lp_timer_ch l) (lp_wakeupFd_ l) (lp_wakeup_ch l).

Definition IsInLoopThread (t : Z) (l : LoopParts) : bool := lp_tid_ l =? t.
Definition AssertInLoopThread (t : Z) (l : LoopParts) : outcome unit := assert_ (IsInLoopThread t l).

(** An operation of the poller behind AssertInLoopThread. *)
Definition in_loop (t : Z) (f : EpollPoller → outcome EpollPoller) (l : LoopParts) : outcome LoopParts :=
  _ ← AssertInLoopThread t l;
  p ← f (lp_poller_ l);
  Ret (set_poller p l).

Definition Loop_UpdateChannel (t ch : Z) : LoopParts → outcome LoopParts := in_loop t (UpdateChannel ch).
Definition Loop_RemoveChannel (t ch : Z) : LoopParts → outcome LoopParts := in_loop t (RemoveChannel ch).
Definition Loop_AddChannel (t ch : Z) : LoopParts → outcome LoopParts := in_loop t (AddChannel ch).
Definition Loop_HasChannel (ch : Z) (l : LoopParts) : outcome bool := HasChannel ch (lp_poller_ l).

(** EventLoop::Cancel *)
Definition Loop_Cancel (id : TimerId) (l : LoopParts) : outcome LoopParts :=
  q ← Cancel id (lp_timers l); Ret (set_tq q l).

(** Channel(loop, fd) at the address [ch] with a read callback, AddToLoop and
    EnableRead, as both constructors do. *)
Definition start_channel (t ch fd id : Z) (l : LoopParts) : outcome LoopParts :=
  let l := set_poller (set_chan ch (SetCallback CbRead (Channel_new fd 0 id)) (lp_poller_ l)) l in
  l ← Loop_AddChannel t ch l;
  c ← chan_at ch (lp_poller_ l);
  Loop_UpdateChannel t ch (set_poller (set_chan ch (EnableRead c) (lp_poller_ l)) l).

(** TimerQueue(loop) *)
Definition TimerQueue_start (t id : Z) (l : LoopParts) : outcome LoopParts :=
  start_channel t (lp_timer_ch l) (lp_timerfd_ l) id (set_tq TimerQueue_new l).

(** EventLoop(): [tfd] and [efd] are what timerfd_create and eventfd return, [tch]
    and [ech] the addresses of the two channels, [id] the next channel id. *)
Definition EventLoop_start (t tfd tch efd ech id : Z) : outcome LoopParts :=
  let l := mkParts t NewDefaultPoller TimerQueue_new tfd tch efd ech in
  l ← TimerQueue_start t id l;
  start_channel t ech efd (id + 1) l.

(** close(fd) *)
Definition close_fd (fd : Z) (l : LoopParts) : LoopParts := set_poller (os_close fd (lp_poller_ l)) l.

(** Channel::Close in the thread [t] *)
Definition close_channel (t ch : Z) (l : LoopParts) : outcome LoopParts :=
  c ← chan_at ch (lp_poller_ l);
  if 0 <=? fd_ c then
    l ← Loop_RemoveChannel t ch (close_fd (fd_ c) l);
    c ← chan_at ch (lp_poller_ l);
    Ret (set_poller (set_chan ch (mkChannel (-1) (events_ c) (revents_ c) (id_ c) (index_ c) (callbacks_ c))
                              (lp_poller_ l)) l)
  else Ret l.

(** The memory of a channel is freed. *)
Definition free_channel (ch : Z) (p : EpollPoller) : EpollPoller :=
  mkEpoll (delete ch (ep_chans p)) (ep_channels_ p) (interest p) (ep_nevents p).

(** ~Channel *)
Definition destroy_channel (t ch : Z) (l : LoopParts) : outcome LoopParts :=
  c ← chan_at ch (lp_poller_ l);
  l ← (if negb (fd_ c =? -1) then close_channel t ch l else Ret l);
  Ret (set_poller (free_channel ch (lp_poller_ l)) l).

(** ~TimerQueue: the descriptor is closed, the timers in the set are deleted, and
    then the member channel_ is destroyed. *)
Definition TimerQueue_destroy (t : Z) (l : LoopParts) : outcome LoopParts :=
  let l := close_fd (lp_timerfd_ l) l in
  let q := lp_timers l in
  let l := set_tq (set_heap (foldl (λ h (e : Z * Z), delete e.2 h) (heap q) (timers_ q)) q) l in
  destroy_channel t (lp_timer_ch l) l.

(** ~EventLoop, and then its members in reverse order. *)
Definition EventLoop_destroy (t : Z) (l : LoopParts) : outcome LoopParts :=
  l ← Loop_RemoveChannel t (lp_wakeup_ch l) l;
  let l := close_fd (lp_wakeupFd_ l) l in
  l ← destroy_channel t (lp_wakeup_ch l) l;
  TimerQueue_destroy t l.

(** ** The thread that runs a loop *)

(** ~EventLoopThread in its thread. *)
Inductive dtor_pc : Type :=
| DtTest                (* if (loop_ != nullptr) *)
| DtQuit                (* loop_->Quit() *)
| DtJoin                (* thread_.join() *)
| DtDone.

(** RunInThread after the latch: in Loop(), before [loop_ = nullptr], before the
    end of the local loop's life, and returned. *)
Inductive worker_at : Type := WkLoop | WkClear | WkDestroy | WkEnd.

Record ThreadLife : Type := mkLife {
  tl_loop_ : bool;             (* loop_ is not null: it points to the local loop *)
  tl_alive : bool;             (* the local loop has not been destroyed *)
  tl_quit_ : bool;             (* quit_ of the loop *)
  tl_parts : LoopParts;
  tl_dpc : dtor_pc;
  tl_wpc : worker_at;
}.

Definition set_dpc (d : dtor_pc) (s : ThreadLife) : ThreadLife :=
  mkLife (tl_loop_ s) (tl_alive s) (tl_quit_ s) (tl_parts s) d (tl_wpc s).
Definition set_wpc (w : worker_at) (s : ThreadLife) : ThreadLife :=
  mkLife (tl_loop_ s) (tl_alive s) (tl_quit_ s) (tl_parts s) (tl_dpc s) w.

(** The next action of the destructor; [None] while join waits and at the end. *)
Definition dtor_next (s : ThreadLife) : option (outcome ThreadLife) :=
  match tl_dpc s with
  | DtTest => Some (Ret (set_dpc (if tl_loop_ s then DtQuit else DtJoin) s))
  | DtQuit =>
      Some (_ ← require NullDeref (tl_loop_ s);
            _ ← require UseAfterFree (tl_alive s);
            _ ← assert_ (negb (tl_quit_ s));
            Ret (mkLife (tl_loop_ s) (tl_alive s) true (tl_parts s) DtJoin (tl_wpc s)))
  | DtJoin => match tl_wpc s with WkEnd => Some (Ret (set_dpc DtDone s)) | _ => None end
  | DtDone => None
  end.

(** The next action of the thread [t] of the loop, which leaves Loop() once
    quit_ is set. *)
Definition worker_next (t : Z) (s : ThreadLife) : option (outcome ThreadLife) :=
  match tl_wpc s with
  | WkLoop => if tl_quit_ s then Some (Ret (set_wpc WkClear s)) else None
  | WkClear => Some (Ret (mkLife false (tl_alive s) (tl_quit_ s) (tl_parts s) (tl_dpc s) WkDestroy))
  | WkDestroy =>
      Some (l ← EventLoop_destroy t (tl_parts s);
            Ret (mkLife (tl_loop_ s) false (tl_quit_ s) l (tl_dpc s) WkEnd))
  | WkEnd => None
  end.

Inductive life_step (t : Z) : outcome ThreadLife → outcome ThreadLife → Prop :=
| life_dtor (s : ThreadLife) (r : outcome ThreadLife) : dtor_next s = Some r → life_step t (Ret s) r
| life_worker (s : ThreadLife) (r : outcome ThreadLife) : worker_next t s = Some r → life_step t (Ret s) r.

(** The state in which the destructor starts: StartLoop returned earlier, and
    [quit] says whether someone has called Quit in between. *)
Definition life_init (quit : bool) (l : LoopParts) : ThreadLife := mkLife true true quit l DtTest WkLoop.

(** ** Lemmas *)

(** The loop's own channel is registered with the descriptor of the loop. *)
Definition wakeup_ok (l : LoopParts) : Prop :=
  ep_inv (lp_poller_ l) ∧ 0 ≤ lp_wakeupFd_ l
  ∧ ∃ c, ep_chans (lp_poller_ l) !! lp_wakeup_ch l = Some c ∧ fd_ c = lp_wakeupFd_ l
         ∧ ep_channels_ (lp_poller_ l) !! fd_ c = Some (lp_wakeup_ch l).

Section Start.
Implicit Types l : LoopParts.

Lemma in_loop_ret t f l p' : lp_tid_ l = t → f (lp_poller_ l) = Ret p' → in_loop t f l = Ret (set_poller p' l).
Proof. intros <- E. unfold in_loop, AssertInLoopThread, IsInLoopThread. by rewrite Z.eqb_refl, E. Qed.

Lemma ep_inv_new_chan ch c p : ep_inv p → ep_chans p !! ch = None → ep_inv (ep_set_chan ch c p).
Proof.
  intros (Hm & Hi & Hn) Hc. split_and!; simpl; [done| |done]. intros fd ev ch' Hint.
  destruct (Hi _ _ _ Hint) as (c' & Hc' & ?). exists c'. rewrite lookup_insert_ne; [done|congruence].
Qed.

(** A started channel is registered and watched for reading. *)
Lemma start_channel_ok t ch fd id l :
  lp_tid_ l = t → ep_inv (lp_poller_ l) → ep_chans (lp_poller_ l) !! ch = None → watched (lp_poller_ l) !! fd = None →
  ∃ p c, start_channel t ch fd id l = Ret (set_poller p l) ∧ ep_inv p
    ∧ watched p = <[fd := kReadEvent]> (watched (lp_poller_ l))
    ∧ ep_chans p !! ch = Some c ∧ fd_ c = fd ∧ ep_channels_ p !! fd = Some ch
    ∧ (∀ ch', ch' ≠ ch → ep_chans p !! ch' = ep_chans (lp_poller_ l) !! ch')
    ∧ (∀ fd', fd' ≠ fd → ep_channels_ p !! fd' = ep_channels_ (lp_poller_ l) !! fd').
Proof.
  intros Ht Hi Hc Hw. unfold start_channel. set (c0 := SetCallback CbRead (Channel_new fd 0 id)).
  set (p0 := set_chan ch c0 (lp_poller_ l)).
  assert (Hc0 : ep_chans p0 !! ch = Some c0) by (cbn; apply lookup_insert_eq).
  destruct (EpollPoller_add ch c0 p0) as (p1 & E1 & Hi1 & Hw1 & Hh1 & c1 & Hc1 & Hf1 & He1);
    [by apply ep_inv_new_chan|done|done|by vm_compute|].
  unfold Loop_AddChannel. rewrite (in_loop_ret _ _ _ p1) by done. cbn [mbind outcome_bind set_poller lp_poller_].
  cbn in Hc1. unfold chan_at. cbn [chans EpollPoller_ops]. rewrite Hc1. cbn [from_option_fault mbind outcome_bind].
  destruct (EpollPoller_update EnableRead ch c1 p1) as (p2 & E2 & Hi2 & Hw2 & Hh2 & Hc2);
    [done|done|done|done|done|apply (swrap_bound 16); lia|].
  assert (E2' : UpdateChannel ch (set_chan ch (EnableRead c1) p1) = Ret p2).
  { unfold change_events, chan_at in E2. cbn [chans EpollPoller_ops] in E2. by rewrite Hc1 in E2. }
  exists p2, (EnableRead c1). unfold Loop_UpdateChannel. rewrite (in_loop_ret _ _ _ p2) by done.
  split; [done|]. split; [done|]. split.
  { rewrite Hw2, Hw1, Hf1. cbn [c0 SetCallback Channel_new fd_]. rewrite insert_insert_eq. f_equal.
    cbn [EnableRead set_events events_]. rewrite He1. by vm_compute. }
  split; [exact Hc2|]. split; [done|]. split.
  { apply (HasChannel_true _ _ _ Hc2) in Hh2. cbn in Hh2. by rewrite Hf1 in Hh2. }
  assert (A1 : ep_chans p1 = <[ch := c0]> (ep_chans (lp_poller_ l)) ∧ ep_channels_ p1 = <[fd := ch]> (ep_channels_ (lp_poller_ l))).
  { rewrite (AddChannel_eq _ _ _ Hc0) in E1. by injection E1 as <-. }
  assert (A2 : ep_chans p2 = <[ch := EnableRead c1]> (ep_chans p1) ∧ ep_channels_ p2 = ep_channels_ p1).
  { rewrite (change_events_eq _ _ _ _ Hc1) in E2. by injection E2 as <-. }
  destruct A1 as [A1 B1], A2 as [A2 B2]. rewrite A2, A1, B2, B1. split.
  - intros ch' Hne. by rewrite !lookup_insert_ne.
  - intros fd' Hne. by rewrite lookup_insert_ne.
Qed.

(** Removing the wakeup channel twice fails the assertion of RemoveChannel. *)
Lemma EventLoop_destroy_aborts t l : wakeup_ok l → EventLoop_destroy t l = Fault AssertFailed.
Proof.
  intros (Hi & Hfd & c & Hc & Hcf & Hreg). unfold EventLoop_destroy, Loop_RemoveChannel, in_loop, AssertInLoopThread.
  destruct (IsInLoopThread t l) eqn:Ht; [|done]. cbn [assert_ require mbind outcome_bind RemoveChannel EpollPoller_ops].
  unfold EpollPoller_RemoveChannel, ep_chan_at. rewrite Hc. cbn [from_option_fault mbind outcome_bind].
  rewrite !bool_decide_true by (rewrite ?Hreg; done). cbn [assert_ require mbind outcome_bind].
  unfold destroy_channel, chan_at, close_fd. cbn. rewrite Hc. cbn.
  rewrite (proj2 (Z.eqb_neq (fd_ c) (-1))) by lia. cbn [negb].
  unfold close_channel, chan_at. cbn. rewrite Hc. cbn. rewrite (proj2 (Z.leb_le 0 (fd_ c))) by lia.
  unfold Loop_RemoveChannel, in_loop, AssertInLoopThread, IsInLoopThread in *. cbn. rewrite Ht. cbn.
  unfold EpollPoller_RemoveChannel, ep_chan_at. cbn. rewrite Hc. cbn. by rewrite lookup_delete_eq.
Qed.

End Start.

(** ** Other channels of the loop *)

(** What code in the loop's thread does with the channels of the loop, apart from
    the wakeup channel: a channel is made, added, changed and closed. *)
Inductive user_step (t : Z) : LoopParts → LoopParts → Prop :=
| us_new ch c l :
    ep_chans (lp_poller_ l) !! ch = None → user_step t l (set_poller (ep_set_chan ch c (lp_poller_ l)) l)
| us_add ch c l l' :
    ep_chans (lp_poller_ l) !! ch = Some c → watched (lp_poller_ l) !! fd_ c = None → is_short (events_ c) →
    Loop_AddChannel t ch l = Ret l' → user_step t l l'
| us_change g ch c l l' :
    ch ≠ lp_wakeup_ch l → ep_chans (lp_poller_ l) !! ch = Some c → HasChannel ch (lp_poller_ l) = Ret true →
    fd_ (g c) = fd_ c → index_ (g c) = index_ c → is_short (events_ (g c)) →
    in_loop t (change_events g ch) l = Ret l' → user_step t l l'
| us_close ch c l l' :
    ch ≠ lp_wakeup_ch l → ep_chans (lp_poller_ l) !! ch = Some c → 0 ≤ fd_ c →
    HasChannel ch (lp_poller_ l) = Ret true →
    in_loop t (Close ch) l = Ret l' → user_step t l l'.

Section Users.
Implicit Types l : LoopParts.

Lemma in_loop_inv t f l l' : in_loop t f l = Ret l' → ∃ p, f (lp_poller_ l) = Ret p ∧ l' = set_poller p l.
Proof. unfold in_loop. intros H. inv_ret. by eauto. Qed.

(** The wakeup channel in a new state of the poller. *)
Lemma wakeup_ok_poller p l :
  wakeup_ok l → ep_inv p → ep_chans p !! lp_wakeup_ch l = ep_chans (lp_poller_ l) !! lp_wakeup_ch l →
  ep_channels_ p !! lp_wakeupFd_ l = ep_channels_ (lp_poller_ l) !! lp_wakeupFd_ l → wakeup_ok (set_poller p l).
Proof.
  intros (Hi & Hfd & c & Hc & Hf & Hr) Hp H1 H2. split; [done|]. split; [done|]. exists c.
  cbn. rewrite H1, Hf, H2. by rewrite Hf in Hr.
Qed.

Lemma watched_registered p fd ch : ep_inv p → ep_channels_ p !! fd = Some ch → watched p !! fd ≠ None.
Proof. intros (Hm & _) [ev Hi]%Hm. cbn. by rewrite lookup_fmap, Hi. Qed.

Lemma user_step_ok t l l' : wakeup_ok l → user_step t l l' → wakeup_ok l'.
Proof.
  intros Hw Hs. pose proof Hw as (Hi & Hfd & w & Hwc & Hwf & Hwr). destruct Hs as
    [ch c l Hc|ch c l l' Hc Hwd Hsh E|g ch c l l' Hne Hc Hh Hg1 Hg2 Hg3 E|ch c l l' Hne Hc Hf Hh E].
  - apply wakeup_ok_poller; [done|by apply ep_inv_new_chan| |done]. cbn. rewrite lookup_insert_ne; [done|congruence].
  - apply in_loop_inv in E as (p & E & ->). destruct (EpollPoller_add ch c _ Hi Hc Hwd Hsh) as (p' & E' & Hi' & _).
    rewrite E in E'. injection E' as <-. rewrite (AddChannel_eq _ _ _ Hc) in E. injection E as <-.
    apply wakeup_ok_poller; [done..|]. cbn. rewrite lookup_insert_ne; [done|]. intros Ef.
    apply (watched_registered _ _ _ Hi Hwr). by rewrite Hwf, <- Ef.
  - apply in_loop_inv in E as (p & E & ->).
    destruct (EpollPoller_update g ch c _ Hi Hc Hh Hg1 Hg2 Hg3) as (p' & E' & Hi' & _).
    rewrite E in E'. injection E' as <-. rewrite (change_events_eq _ _ _ _ Hc) in E. injection E as <-. apply wakeup_ok_poller; [done..| |done]. cbn. by rewrite lookup_insert_ne.
  - apply in_loop_inv in E as (p & E & ->). destruct (EpollPoller_close ch c _ Hi Hc Hf Hh) as (p' & E' & Hi' & _).
    rewrite E in E'. injection E' as <-. apply (HasChannel_true _ _ _ Hc) in Hh.
    rewrite (Close_eq _ _ _ Hc Hf Hh) in E. injection E as <-.
    apply wakeup_ok_poller; [done..| |]; cbn; [by rewrite lookup_insert_ne|].
    rewrite lookup_delete_ne; [done|]. congruence.
Qed.

End Users.

(** ** The end of a thread *)

Section ThreadEnd.
Context (t : Z) (l : LoopParts) (quit : bool).

Definition dtor_rank (d : dtor_pc) : nat := match d with DtTest => 3 | DtQuit => 2 | DtJoin => 1 | DtDone => 0 end.
Definition worker_rank (w : worker_at) : nat := match w with WkLoop => 3 | WkClear => 2 | WkDestroy => 1 | WkEnd => 0 end.

Definition life_inv (r : outcome ThreadLife) : Prop :=
  match r with
  | Ret s =>
      tl_parts s = l ∧ tl_alive s = true ∧ tl_wpc s ≠ WkEnd ∧ tl_dpc s ≠ DtDone
      ∧ (quit = true → tl_quit_ s = true)
      ∧ (quit = false → tl_dpc s ≠ DtJoin → tl_quit_ s = false ∧ tl_wpc s = WkLoop ∧ tl_loop_ s = true)
      ∧ (tl_dpc s = DtJoin → tl_quit_ s = true)
  | Fault f => quit = false → f = AssertFailed
  | Diverge => False
  end.

Lemma life_step_inv r r' :
  wakeup_ok l → life_inv r → life_step t r r' → life_inv r' ∧ match r, r' with
    | Ret s, Ret s' => (dtor_rank (tl_dpc s') + worker_rank (tl_wpc s') < dtor_rank (tl_dpc s) + worker_rank (tl_wpc s))%nat
    | _, _ => True
    end.
Proof.
  intros Hw Hr Hs. destruct Hs as [s r' E|s r' E]; destruct s as [lp al q pa d w]; cbn in Hr;
    destruct Hr as (-> & -> & Hw1 & Hd1 & Hq & Hnq & Hj).
  - unfold dtor_next in E. cbn in E. destruct d; try done; cbn in E.
    + injection E as <-. destruct lp; cbn; split_and!; try done; try lia.
      * intros Hf _. by apply Hnq.
      * intros _. destruct quit; [by apply Hq|]. by destruct (Hnq eq_refl ltac:(done)) as (_ & _ & ?).
    + injection E as <-. destruct lp; cbn; [|split; [|done]; intros Hf; destruct (Hnq Hf) as (_ & _ & ?); done].
      destruct q; cbn; [done|]. by split_and!; try done; try lia.
    + destruct w; done.
  - unfold worker_next in E. cbn in E. destruct w; try done; cbn in E.
    + destruct q; [|done]. injection E as <-. cbn. split_and!; try done; try lia.
      intros Hf Hdj. by destruct (Hnq Hf Hdj) as (? & _).
    + injection E as <-. cbn. split_and!; try done; try lia.
      intros Hf Hdj. by destruct (Hnq Hf Hdj) as (_ & ? & _).
    + rewrite EventLoop_destroy_aborts in E by done. injection E as <-. by cbn.
Qed.

Lemma life_sn r : wakeup_ok l → life_inv r → sn (life_step t) r.
Proof.
  intros Hw. assert (Hend : ∀ r, (∀ s, r ≠ Ret s) → sn (life_step t) r).
  { intros r' Hr'. constructor. intros r'' Hs. destruct Hs as [s ? ?|s ? ?]; by destruct (Hr' s). }
  destruct r as [s| |]; [|intros _; by apply Hend..].
  remember (dtor_rank (tl_dpc s) + worker_rank (tl_wpc s))%nat as n eqn:En. revert s En.
  induction (lt_wf n) as [n _ IH]. intros s En Hi. constructor. intros r' Hs.
  destruct (life_step_inv _ _ Hw Hi Hs) as [Hi' Hlt]. destruct r' as [s'| |]; [|by apply Hend..].
  apply (IH _ (eq_rect_r (λ k, (_ < k)%nat) Hlt En) s' eq_refl Hi').
Qed.

Lemma life_progress s : life_inv (Ret s) → ∃ r', life_step t (Ret s) r'.
Proof.
  destruct s as [lp al q pa d w]. cbn. intros (_ & _ & Hw & Hd & Hq & Hnq & Hj). destruct d; try done.
  - eexists. by apply life_dtor.
  - eexists. by apply life_dtor.
  - destruct w; try done; eexists; apply life_worker; cbn; [|done..]. by rewrite Hj.
Qed.

End ThreadEnd.

(** A new loop. *)
Lemma EventLoop_start_ok t tfd tch efd ech id :
  tfd ≠ efd → tch ≠ ech → 0 ≤ efd →
  ∃ l, EventLoop_start t tfd tch efd ech id = Ret l
    ∧ watched (lp_poller_ l) = {[tfd := kReadEvent; efd := kReadEvent]}
    ∧ Loop_HasChannel tch l = Ret true ∧ Loop_HasChannel ech l = Ret true ∧ wakeup_ok l.
Proof.
  intros Hne Hch Hfd. unfold EventLoop_start, TimerQueue_start. set (l0 := mkParts t NewDefaultPoller TimerQueue_new tfd tch efd ech).
  destruct (start_channel_ok t tch tfd id (set_tq TimerQueue_new l0))
    as (p1 & c1 & E1 & Hi1 & Hw1 & Hc1 & Hf1 & Hr1 & Ho1 & Hp1); [done|apply ep_inv_new|done|done|].
  cbn [lp_timer_ch lp_timerfd_ l0] in E1 |- *. rewrite E1. cbn [mbind outcome_bind].
  destruct (start_channel_ok t ech efd (id + 1) (set_poller p1 (set_tq TimerQueue_new l0)))
    as (p2 & c2 & E2 & Hi2 & Hw2 & Hc2 & Hf2 & Hr2 & Ho2 & Hp2); [done|done| | |].
  { cbn. by rewrite Ho1. }
  { cbn [set_poller lp_poller_]. by rewrite Hw1, lookup_insert_ne. }
  rewrite E2. eexists. split; [done|]. cbn [set_poller lp_poller_] in *. split; [|split; [|split]].
  - rewrite Hw2, Hw1. cbn. rewrite fmap_empty. by rewrite insert_insert_ne.
  - apply (HasChannel_true tch c1); [by rewrite Ho2|]. by rewrite Hf1, Hp2.
  - apply (HasChannel_true ech c2); [done|]. by rewrite Hf2.
  - split; [done|]. split; [done|]. exists c2. cbn. by rewrite Hf2.
Qed.

(** ** Properties *)

(** C25: the life of an EventLoop.  The constructor returns a loop whose poller
    watches exactly the timerfd and the eventfd, both for reading.  Whatever
    channels are then made, added, changed and closed in the loop, its
    destructor aborts: it removes the wakeup channel from the poller and closes
    its descriptor, and the destructor of that channel does both again, which
    fails the assertion that the channel is registered. *)
Theorem loop_life (t tfd tch efd ech id : Z) :
  tfd ≠ efd → tch ≠ ech → 0 ≤ efd →
  ∃ l, EventLoop_start t tfd tch efd ech id = Ret l
    ∧ watched (lp_poller_ l) = {[tfd := kReadEvent; efd := kReadEvent]}
    ∧ Loop_HasChannel tch l = Ret true ∧ Loop_HasChannel ech l = Ret true
    ∧ ∀ l' t', rtc (user_step t) l l' → EventLoop_destroy t' l' = Fault AssertFailed.
Proof.
  intros Hne Hch Hfd. destruct (EventLoop_start_ok t tfd tch efd ech id Hne Hch Hfd) as (l & E & Hw & H1 & H2 & Hok).
  exists l. split_and!; try done. intros l' t' Hs. apply EventLoop_destroy_aborts.
  exact (rtc_invariant _ wakeup_ok _ _ Hok (user_step_ok t) Hs).
Qed.

(** C24: destroying the thread of a loop ends the process.  In every interleaving
    of ~EventLoopThread with the thread of the loop, from any state of a running
    loop: every run is finite, join never returns, and the run ends in a fault;
    when nobody else has called Quit it is the failed assertion of ~EventLoop. *)
Theorem thread_destructor_aborts (t : Z) (l : LoopParts) (quit : bool) :
  wakeup_ok l →
  sn (life_step t) (Ret (life_init quit l))
  ∧ ∀ r, rtc (life_step t) (Ret (life_init quit l)) r →
      (∃ s r', r = Ret s ∧ tl_dpc s ≠ DtDone ∧ life_step t r r')
      ∨ ∃ f, r = Fault f ∧ (quit = false → f = AssertFailed).
Proof.
  intros Hw. assert (Hi : life_inv l quit (Ret (life_init quit l))) by (by destruct quit).
  split; [by apply (life_sn t l quit)|]. intros r Hr.
  assert (life_inv l quit r) as Hir.
  { refine (rtc_invariant _ (life_inv l quit) _ _ Hi _ Hr). intros x y Hx Hs. by destruct (life_step_inv t l quit x y Hw Hx Hs). }
  destruct r as [s|f|]; [left|right|done].
  - destruct (life_progress t l quit s Hir) as [r' Hs]. exists s, r'. by destruct Hir as (_ & _ & _ & ? & _).
  - by exists f.
Qed.

(** ** Witnesses *)

Definition demo_loop : LoopParts :=
  match EventLoop_start 7 3 64 4 80 1 with
  | Ret l => l
  | _ => mkParts 0 NewDefaultPoller TimerQueue_new 0 0 0 0
  end.

Lemma loop_life_witness : ∃ l, EventLoop_start 7 3 64 4 80 1 = Ret l ∧ EventLoop_destroy 7 l = Fault AssertFailed.
Proof.
  destruct (loop_life 7 3 64 4 80 1) as (l & E & _ & _ & _ & H); [done|done|done|].
  exists l. split; [exact E|]. apply (H l 7). apply rtc_refl.
Defined.

Lemma demo_loop_ok : wakeup_ok demo_loop.
Proof. unfold demo_loop. by destruct (EventLoop_start_ok 7 3 64 4 80 1) as (l & -> & _ & _ & _ & H). Qed.

Lemma thread_destructor_aborts_witness : sn (life_step 7) (Ret (life_init false demo_loop)).
Proof. exact (proj1 (thread_destructor_aborts 7 demo_loop false demo_loop_ok)). Defined.
