(* ===== verification/ThreadPool.v ===== *)
(** * net/threadpool.h

    A pool of worker threads over a bounded queue of tasks.  The mutex makes
    the critical sections atomic, so a worker is a program point, a call of
    AddTask is a program point, and one step of the system is one critical
    section, one task, one call, one spurious wakeup, or the destructor setting
    stop_.  Workers and callers of AddTask wait on the one condition variable
    of the pool, so notify_one may wake either: the waiter it wakes is an
    argument of the step. *)

From S2P Require Import Prelude.

(** ** State *)

(** A worker: at the top of its loop (also when it was just woken, for wait
    then tests its condition again), blocked in wait, running a task outside
    the lock, or returned. *)
Inductive worker_pc : Type := WLock | WBlocked | WRun (t : nat) | WExit.

(** A call of AddTask, its packaged_task made: about to lock (or woken),
    blocked in wait, or returned. *)
Inductive add_pc : Type := ALock (t : nat) | ABlocked (t : nat) | ADone.

#[export] Instance worker_pc_eq_dec : EqDecision worker_pc.
Proof. solve_decision. Defined.
#[export] Instance add_pc_eq_dec : EqDecision add_pc.
Proof. solve_decision. Defined.

Record ThreadPool : Type := mkTP {
  workers_ : list worker_pc;
  tasks_ : list nat;
  stop_ : bool;
  calls : list add_pc;      (* the calls of AddTask so far *)
  accepted : list nat;      (* history: tasks put into the queue *)
  begun : list nat;         (* history: tasks a worker took *)
}.

Definition max_queue_size_ : Z := 100000.

Definition set_worker (i : nat) (w : worker_pc) (p : ThreadPool) : ThreadPool :=
  mkTP (<[i := w]> (workers_ p)) (tasks_ p) (stop_ p) (calls p) (accepted p) (begun p).
Definition set_call (j : nat) (a : add_pc) (p : ThreadPool) : ThreadPool :=
  mkTP (workers_ p) (tasks_ p) (stop_ p) (<[j := a]> (calls p)) (accepted p) (begun p).

(** ** Operations *)

Definition ThreadPool_new (threads : nat) : ThreadPool :=
  mkTP (replicate threads WLock) [] false [] [] [].

(** One turn of worker [i]: from the lock to the end of the critical section,
    or the call of its task.  [None]: it is blocked or has returned. *)
Definition worker_next (i : nat) (p : ThreadPool) : option ThreadPool :=
  match workers_ p !! i with
  | Some WLock =>
      Some (if stop_ p || negb (bool_decide (tasks_ p = [])) then
              if stop_ p && bool_decide (tasks_ p = []) then set_worker i WExit p
              else match tasks_ p with
                   | t :: ts => mkTP (<[i := WRun t]> (workers_ p)) ts (stop_ p) (calls p)
                                     (accepted p) (begun p ++ [t])
                   | [] => p
                   end
            else set_worker i WBlocked p)
  | Some (WRun _) => Some (set_worker i WLock p)
  | _ => None
  end.

(** A thread in condition_.wait *)
Inductive waiter : Type := Worker (i : nat) | Caller (j : nat).

(** The waiter [w] leaves wait; [None] when it is not in it. *)
Definition wake (w : waiter) (p : ThreadPool) : option ThreadPool :=
  match w with
  | Worker i => match workers_ p !! i with
                | Some WBlocked => Some (set_worker i WLock p)
                | _ => None
                end
  | Caller j => match calls p !! j with
                | Some (ABlocked t) => Some (set_call j (ALock t) p)
                | _ => None
                end
  end.

Definition is_blocked (a : add_pc) : bool := match a with ABlocked _ => true | _ => false end.

(** No thread is in condition_.wait. *)
Definition nobody_waits (p : ThreadPool) : bool :=
  forallb (λ w, negb (bool_decide (w = WBlocked))) (workers_ p)
  && forallb (λ a, negb (is_blocked a)) (calls p).

(** notify_one wakes the waiter [w] the system chose, or nobody when nobody waits. *)
Definition notify_one (w : waiter) (p : ThreadPool) : option ThreadPool :=
  if nobody_waits p then Some p else wake w p.

Definition emplace (t : nat) (p : ThreadPool) : ThreadPool :=
  mkTP (workers_ p) (tasks_ p ++ [t]) (stop_ p) (calls p) (accepted p ++ [t]) (begun p).

(** The critical section of the call [j] of AddTask. *)
Definition AddTask (j : nat) (w : waiter) (p : ThreadPool) : option ThreadPool :=
  match calls p !! j with
  | Some (ALock t) =>
      if (max_queue_size_ <=? zlen (tasks_ p)) &&
         negb ((zlen (tasks_ p) <? max_queue_size_) || stop_ p)
      then Some (set_call j (ABlocked t) p)
      else notify_one w (set_call j ADone (emplace t p))
  | _ => None
  end.

(** Some thread calls AddTask. *)
Definition call_AddTask (t : nat) (p : ThreadPool) : ThreadPool :=
  mkTP (workers_ p) (tasks_ p) (stop_ p) (calls p ++ [ALock t]) (accepted p) (begun p).

(** ~ThreadPool: the flag is set, then every worker is joined; nobody is notified. *)
Definition ThreadPool_stop (p : ThreadPool) : ThreadPool :=
  mkTP (workers_ p) (tasks_ p) true (calls p) (accepted p) (begun p).
Definition joined (p : ThreadPool) : bool :=
  forallb (λ w, bool_decide (w = WExit)) (workers_ p).

Inductive tp_step : ThreadPool → ThreadPool → Prop :=
| tp_call (t : nat) (p : ThreadPool) : tp_step p (call_AddTask t p)
| tp_add (j : nat) (w : waiter) (p p' : ThreadPool) : AddTask j w p = Some p' → tp_step p p'
| tp_worker (i : nat) (p p' : ThreadPool) : worker_next i p = Some p' → tp_step p p'
| tp_spurious (w : waiter) (p p' : ThreadPool) : wake w p = Some p' → tp_step p p'
| tp_stop (p : ThreadPool) : tp_step p (ThreadPool_stop p).

(** Steps of the workers alone. *)
Definition worker_step (p p' : ThreadPool) : Prop := ∃ i, worker_next i p = Some p'.

(** ** Invariants *)

(** Tasks are taken in the order they were accepted, each once. *)
Definition tp_fifo (p : ThreadPool) : Prop := begun p ++ tasks_ p = accepted p.

Definition tp_bounded (p : ThreadPool) : Prop :=
  stop_ p = false → zlen (tasks_ p) ≤ max_queue_size_.

Definition awake (w : worker_pc) : bool :=
  match w with WLock | WRun _ => true | _ => false end.
Definition in_progress (a : add_pc) : bool := match a with ADone => false | _ => true end.

(** Workers return only after stop_, and a queue with tasks has a worker that is
    awake or a call of AddTask that has not returned. *)
Definition tp_live (p : ThreadPool) : Prop :=
  stop_ p = false →
  workers_ p ≠ [] ∧
  Forall (λ w, w ≠ WExit) (workers_ p) ∧
  (tasks_ p ≠ [] → Exists awake (workers_ p) ∨ Exists in_progress (calls p)).

(** What the workers still have to do: a task is taken, run and followed by
    another look at the queue. *)
Definition work (w : worker_pc) : nat :=
  match w with WLock => 1 | WRun _ => 2 | _ => 0 end.
Definition tp_measure (p : ThreadPool) : nat :=
  (3 * length (tasks_ p) + sum_list_with work (workers_ p))%nat.

(** ** Lemmas *)

(** The four turns of a worker. *)
Lemma worker_next_inv i p p' :
  worker_next i p = Some p' →
  (workers_ p !! i = Some WLock ∧ stop_ p = true ∧ tasks_ p = [] ∧ p' = set_worker i WExit p) ∨
  (∃ t ts, workers_ p !! i = Some WLock ∧ tasks_ p = t :: ts ∧
     p' = mkTP (<[i := WRun t]> (workers_ p)) ts (stop_ p) (calls p) (accepted p) (begun p ++ [t])) ∨
  (workers_ p !! i = Some WLock ∧ stop_ p = false ∧ tasks_ p = [] ∧ p' = set_worker i WBlocked p) ∨
  (∃ t, workers_ p !! i = Some (WRun t) ∧ p' = set_worker i WLock p).
Proof.
  unfold worker_next. destruct (workers_ p !! i) as [[]|] eqn:Hi; intros [= <-].
  - destruct (tasks_ p) as [|t ts] eqn:Ht, (stop_ p) eqn:Hs; simpl.
    + by left.
    + by right; right; left.
    + right; left. by exists t, ts.
    + right; left. by exists t, ts.
  - right; right; right. eauto.
Qed.

(** A wakeup changes program points only, and leaves a thread that goes on. *)
Lemma wake_inv w p p' :
  wake w p = Some p' →
  tasks_ p' = tasks_ p ∧ stop_ p' = stop_ p ∧ accepted p' = accepted p ∧ begun p' = begun p ∧
  (workers_ p ≠ [] → workers_ p' ≠ []) ∧
  (Forall (λ w, w ≠ WExit) (workers_ p) → Forall (λ w, w ≠ WExit) (workers_ p')) ∧
  (Exists awake (workers_ p') ∨ Exists in_progress (calls p')).
Proof.
  destruct w as [i|j]; simpl.
  - destruct (workers_ p !! i) as [[]|] eqn:Hi; intros; simplify_eq/=. split_and!; try done.
    + apply insert_ne_nil.
    + intros H. by apply Forall_insert.
    + left. by eapply Exists_insert_at.
  - destruct (calls p !! j) as [[]|] eqn:Hj; intros; simplify_eq/=. split_and!; try done.
    right. by eapply Exists_insert_at.
Qed.

Lemma notify_one_inv w p p' :
  notify_one w p = Some p' →
  workers_ p ≠ [] → Forall (λ w, w ≠ WExit) (workers_ p) →
  tasks_ p' = tasks_ p ∧ stop_ p' = stop_ p ∧ workers_ p' ≠ [] ∧
  Forall (λ w, w ≠ WExit) (workers_ p') ∧
  (Exists awake (workers_ p') ∨ Exists in_progress (calls p')).
Proof.
  unfold notify_one. destruct (nobody_waits p) eqn:Hn.
  - intros [= <-] Hne Hx. split_and!; try done. left.
    apply andb_prop in Hn as [Hn%Is_true_true_2 _]. apply forallb_True in Hn.
    destruct (workers_ p) as [|x xs]; [done|]. left.
    apply Forall_cons in Hx as [Hx _]. apply Forall_cons in Hn as [Hn _].
    by destruct x.
  - intros (?&?&?&?&?&?&?)%wake_inv ??. by eauto 10.
Qed.

(** The notification of a caller changes neither the queue nor its history. *)
Lemma notify_one_frame w p p' :
  notify_one w p = Some p' →
  tasks_ p' = tasks_ p ∧ stop_ p' = stop_ p ∧ accepted p' = accepted p ∧ begun p' = begun p.
Proof.
  unfold notify_one. case_match; [by intros [= <-]|]. intros (?&?&?&?&_)%wake_inv. done.
Qed.

Lemma tp_step_fifo p p' : tp_fifo p → tp_step p p' → tp_fifo p'.
Proof.
  unfold tp_fifo. intros Hf Hs. destruct Hs as [t p|j w p p' H|i p p' H|w p p' H|p]; simpl; try done.
  - unfold AddTask in H. repeat case_match; simplify_eq/=; [done|].
    apply notify_one_frame in H as (->&_&->&->). simpl. by rewrite app_assoc, Hf.
  - apply worker_next_inv in H as [(?&?&?&->)|[(?&?&?&Ht&->)|[(?&?&?&->)|(?&?&->)]]]; simpl; try done.
    rewrite <- app_assoc. simpl. congruence.
  - apply wake_inv in H as (->&_&->&->&_). done.
Qed.

Lemma tp_step_bounded p p' : tp_bounded p → tp_step p p' → tp_bounded p'.
Proof.
  unfold tp_bounded. intros Hf Hs. destruct Hs as [t p|j w p p' H|i p p' H|w p p' H|p]; simpl; try done.
  - unfold AddTask in H. repeat case_match; simplify_eq/=; [done|].
    apply notify_one_frame in H as (->&->&_). simpl. intros Hst. rewrite Hst in *.
    autorewrite with jnet. specialize (Hf eq_refl).
    destruct (Z.ltb_spec (zlen (tasks_ p)) max_queue_size_); [lia|].
    rewrite (proj2 (Z.leb_le _ _)) in * by lia. done.
  - apply worker_next_inv in H as [(?&?&?&->)|[(?&?&?&Ht&->)|[(?&?&?&->)|(?&?&->)]]]; simpl; try done.
    rewrite Ht in Hf. intros Hst%Hf. autorewrite with jnet in Hst. lia.
  - apply wake_inv in H as (->&->&_). done.
Qed.

Lemma tp_step_live p p' : tp_live p → tp_step p p' → tp_live p'.
Proof.
  unfold tp_live. intros Hf Hs. destruct Hs as [t p|j w p p' H|i p p' H|w p p' H|p]; simpl; try done.
  - intros (?&?&?)%Hf. split_and!; [done..|]. intros _. right. apply Exists_app. right. by left.
  - unfold AddTask in H. destruct (calls p !! j) as [[t| |]|] eqn:Hj; try done.
    case_match; simplify_eq/=.
    + intros (?&?&?)%Hf. split_and!; [done..|]. intros _. right. by eapply Exists_insert_at.
    + pose proof (notify_one_frame _ _ _ H) as (_&->&_). intros (?&?&?)%Hf.
      apply notify_one_inv in H as (_&_&?&?&?); [|done..]. done.
  - apply worker_next_inv in H as [(?&?&?&->)|[(?&?&?&Ht&->)|[(?&?&Ht&->)|(?&?&->)]]]; simpl;
      [congruence|..]; intros (?&?&_)%Hf; split_and!; auto using Forall_insert, insert_ne_nil;
      intros; first [done | left; by eapply Exists_insert_at].
  - apply wake_inv in H as (->&->&_&_&?&?&?). intros (?&?&_)%Hf. auto.
Qed.

(** A pool with a worker that returned has no tasks, or got them afterwards;
    the workers alone do not add any. *)
Definition tp_exited (p : ThreadPool) : Prop := Exists (λ w, w = WExit) (workers_ p) → tasks_ p = [].

(** A turn of a worker: what it keeps, and that it brings the workers closer to
    the end. *)
Lemma worker_step_frame p p' :
  worker_step p p' →
  stop_ p' = stop_ p ∧ calls p' = calls p ∧ accepted p' = accepted p ∧
  (tp_measure p' < tp_measure p)%nat ∧ length (workers_ p') = length (workers_ p) ∧
  (tp_exited p → tp_exited p') ∧
  (stop_ p = true → Forall (λ w, w ≠ WBlocked) (workers_ p) →
     Forall (λ w, w ≠ WBlocked) (workers_ p')).
Proof.
  intros [i H]. unfold tp_measure, tp_exited.
  apply worker_next_inv in H as [(Hi&?&Ht&->)|[(t&ts&Hi&Ht&->)|[(Hi&?&Ht&->)|(t&Hi&->)]]]; simpl;
    rewrite ?Ht, ?length_insert; simpl; split_and!; try done; try congruence;
    try (by intros; apply Forall_insert);
    try (match goal with |- context [sum_list_with work (<[_ := ?y]> _)] =>
           pose proof (sum_insert_at work _ _ _ y Hi) end; simpl in *; lia).
  - intros Hx [?|Hy]%Exists_insert_inv; [done|]. apply Hx in Hy. congruence.
  - by intros Hx [?|?%Hx]%Exists_insert_inv.
Qed.

Lemma worker_steps_frame k p p' :
  nsteps worker_step k p p' →
  stop_ p' = stop_ p ∧ calls p' = calls p ∧ accepted p' = accepted p ∧
  (k + tp_measure p' ≤ tp_measure p)%nat ∧ length (workers_ p') = length (workers_ p) ∧
  (tp_exited p → tp_exited p') ∧
  (stop_ p = true → Forall (λ w, w ≠ WBlocked) (workers_ p) →
     Forall (λ w, w ≠ WBlocked) (workers_ p')).
Proof.
  induction 1 as [p|k p p1 p2 Hs _ IH]; [split_and!; done|].
  apply worker_step_frame in Hs as (Hst&Hc&Ha&?&Hl&He&Hb).
  destruct IH as (->&->&->&?&->&He'&Hb'). rewrite Hst in *. split_and!; auto. lia.
Qed.

Lemma worker_steps_rtc k p p' : nsteps worker_step k p p' → rtc tp_step p p'.
Proof.
  induction 1 as [|k p p1 p2 [i Hs] _ IH]; [done|]. eapply rtc_l; [|exact IH]. by eapply tp_worker.
Qed.

(** Workers do not wake each other. *)
Lemma blocked_stays k p p' i :
  nsteps worker_step k p p' → workers_ p !! i = Some WBlocked → workers_ p' !! i = Some WBlocked.
Proof.
  induction 1 as [|k p p1 p2 [j Hs] _ IH]; [done|]. intros Hi. apply IH.
  assert (i ≠ j → ∀ x, <[j := x]> (workers_ p) !! i = Some WBlocked) as Hne.
  { intros ??. by rewrite list_lookup_insert_ne. }
  apply worker_next_inv in Hs as [(Hj&?&Ht&->)|[(t&ts&Hj&Ht&->)|[(Hj&?&Ht&->)|(t&Hj&->)]]]; simpl;
    apply Hne; congruence.
Qed.

(** When no worker has a turn, all are blocked or returned. *)
Lemma workers_stuck p :
  (∀ p', ¬ worker_step p p') → Forall (λ w, w = WBlocked ∨ w = WExit) (workers_ p).
Proof.
  intros H. apply Forall_lookup. intros i w Hi. destruct w; auto.
  all: exfalso; eapply H; exists i; unfold worker_next; rewrite Hi; done.
Qed.

Lemma tp_reach_inv n p :
  (0 < n)%nat → rtc tp_step (ThreadPool_new n) p → tp_fifo p ∧ tp_bounded p ∧ tp_live p.
Proof.
  intros Hn. apply (rtc_invariant tp_step (λ p, tp_fifo p ∧ tp_bounded p ∧ tp_live p)).
  - split_and!; [done|intros _; unfold zlen, max_queue_size_; simpl; lia|]. intros _. simpl.
    split_and!; [destruct n; [lia|done]| |done]. by apply Forall_replicate.
  - intros x y (?&?&?) ?. split_and!; eauto using tp_step_fifo, tp_step_bounded, tp_step_live.
Qed.

(** ** Theorems *)

(** The queue of tasks.  In every interleaving of workers, callers, spurious
    wakeups and the destructor the tasks taken by workers, followed by the
    queue, are the accepted tasks in the order of acceptance, so no task runs
    twice or overtakes another; and until the pool is destroyed the queue never
    exceeds max_queue_size_. *)
Theorem tasks_fifo_bounded (n : nat) (p : ThreadPool) :
  (0 < n)%nat → rtc tp_step (ThreadPool_new n) p →
  begun p ++ tasks_ p = accepted p ∧ (stop_ p = false → zlen (tasks_ p) ≤ max_queue_size_).
Proof. intros Hn (?&?&_)%tp_reach_inv; auto. Qed.

(** C28: no task is forgotten.  In every state a running pool can reach in which
    no call of AddTask is still in progress, however the workers are scheduled
    from there, they take boundedly many turns, and when none of them can go on
    every accepted task has been taken. *)
Theorem tasks_all_run (n k : nat) (p p' : ThreadPool) :
  (0 < n)%nat → rtc tp_step (ThreadPool_new n) p →
  stop_ p = false → Forall (λ a, a = ADone) (calls p) →
  nsteps worker_step k p p' →
  (k ≤ tp_measure p)%nat ∧
  ((∀ p'', ¬ worker_step p' p'') → tasks_ p' = [] ∧ begun p' = accepted p).
Proof.
  intros Hn Hr Hst Hc Hk. pose proof (worker_steps_frame _ _ _ Hk) as (Hst'&Hc'&Ha&?&_).
  split; [lia|]. intros Hstuck%workers_stuck.
  destruct (tp_reach_inv n p') as (Hf&_&Hl); [done|by etrans; [|by eapply worker_steps_rtc]|].
  destruct (decide (tasks_ p' = [])) as [Ht|Ht].
  { unfold tp_fifo in Hf. rewrite Ht, app_nil_r in Hf. by rewrite <- Ha. }
  exfalso. destruct Hl as (_&_&Hl); [congruence|]. destruct (Hl Ht) as [Hx|Hx].
  - apply Exists_exists in Hx as (w&Hw&Hx). eapply Forall_forall in Hstuck; [|exact Hw].
    by destruct Hstuck as [-> | ->].
  - rewrite Hc' in Hx. apply Exists_exists in Hx as (a&Ha'&Hx).
    eapply Forall_forall in Hc; [|exact Ha']. by subst.
Qed.

(** Shutting down.  The destructor sets stop_ and joins the workers without
    notifying them.  If no worker waits at that moment, every schedule of the
    workers ends, with all tasks taken and all workers returned; but a worker
    that waits, as every worker of an idle pool does, stays blocked in every
    schedule, so the join never ends. *)
Theorem shutdown_outcome (n k : nat) (p p' : ThreadPool) :
  (0 < n)%nat → rtc tp_step (ThreadPool_new n) p → stop_ p = false →
  nsteps worker_step k (ThreadPool_stop p) p' →
  (k ≤ tp_measure p)%nat ∧
  (Forall (λ w, w ≠ WBlocked) (workers_ p) → (∀ p'', ¬ worker_step p' p'') →
     joined p' = true ∧ begun p' = accepted p) ∧
  (∀ i, workers_ p !! i = Some WBlocked → workers_ p' !! i = Some WBlocked ∧ joined p' = false).
Proof.
  intros Hn Hr Hst Hk. destruct (tp_reach_inv n p Hn Hr) as (_&_&Hl).
  destruct (Hl Hst) as (Hne&Hx&_).
  pose proof (worker_steps_frame _ _ _ Hk) as (_&_&Ha&?&Hlen&He&Hb). simpl in *.
  split_and!; [change (tp_measure (ThreadPool_stop p)) with (tp_measure p) in *; lia| |].
  - intros Hnb Hstuck%workers_stuck. specialize (Hb eq_refl Hnb).
    assert (Forall (λ w, w = WExit) (workers_ p')) as Hexit.
    { apply Forall_forall. intros w Hw. rewrite Forall_forall in Hstuck, Hb.
      destruct (Hstuck w Hw); [by destruct (Hb w Hw)|done]. }
    split.
    { apply Is_true_true, forallb_True. eapply Forall_impl; [exact Hexit|]. intros ? ->. done. }
    assert (tasks_ p' = []) as Ht.
    { apply He.
      - intros [w [? ->]]%Exists_exists. rewrite Forall_forall in Hx. by destruct (Hx WExit).
      - destruct (workers_ p') as [|w ws]; [by destruct (workers_ p)|].
        left. by apply Forall_cons in Hexit as [? _]. }
    destruct (tp_reach_inv n p') as (Hf&_); [done| |].
    { etrans; [exact Hr|]. eapply rtc_l; [apply tp_stop|]. by eapply worker_steps_rtc. }
    unfold tp_fifo in Hf. rewrite Ht, app_nil_r in Hf. by rewrite <- Ha.
  - intros i Hi. assert (workers_ p' !! i = Some WBlocked) as Hi' by by eapply blocked_stays.
    split; [done|]. destruct (joined p') eqn:Hj; [|done].
    apply Is_true_true, forallb_True in Hj. eapply Forall_lookup_1 in Hj; [|exact Hi']. done.
Qed.

(** ** Witnesses *)

(** Two workers, one task submitted while they wait. *)
Definition demo_idle : ThreadPool :=
  mkTP [WBlocked; WBlocked] [] false [] [] [].
Definition demo_added : ThreadPool :=
  mkTP [WBlocked; WLock] [7%nat] false [ADone] [7%nat] [].

Lemma demo_idle_reached : rtc tp_step (ThreadPool_new 2) demo_idle.
Proof. eapply rtc_l; [by apply (tp_worker 0)|]. eapply rtc_once. by apply (tp_worker 1). Qed.

Lemma demo_added_reached : rtc tp_step (ThreadPool_new 2) demo_added.
Proof.
  etrans; [apply demo_idle_reached|]. eapply rtc_l; [apply (tp_call 7)|].
  eapply rtc_once. by apply (tp_add 0 (Worker 1)).
Qed.

Lemma tasks_fifo_bounded_witness :
  begun demo_added ++ tasks_ demo_added = accepted demo_added ∧
  zlen (tasks_ demo_added) ≤ max_queue_size_.
Proof.
  destruct (tasks_fifo_bounded 2 demo_added) as [H1 H2]; [lia|apply demo_added_reached|].
  exact (conj H1 (H2 eq_refl)).
Defined.

Lemma tasks_all_run_witness :
  tasks_ (mkTP [WBlocked; WBlocked] [] false [ADone] [7%nat] [7%nat]) = [] ∧
  begun (mkTP [WBlocked; WBlocked] [] false [ADone] [7%nat] [7%nat]) = accepted demo_added.
Proof.
  destruct (tasks_all_run 2 3 demo_added
              (mkTP [WBlocked; WBlocked] [] false [ADone] [7%nat] [7%nat])) as [_ H].
  - lia.
  - apply demo_added_reached.
  - reflexivity.
  - by repeat constructor.
  - eapply nsteps_l; [by exists 1%nat|]. eapply nsteps_l; [by exists 1%nat|].
    eapply nsteps_l; [by exists 1%nat|]. constructor.
  - apply H. by intros p'' [[|[|[]]] Hi].
Defined.

Lemma shutdown_outcome_witness : joined (ThreadPool_stop demo_idle) = false.
Proof.
  destruct (shutdown_outcome 2 0 demo_idle (ThreadPool_stop demo_idle)) as (_&_&H).
  - lia.
  - apply demo_idle_reached.
  - reflexivity.
  - constructor.
  - by apply (H 0%nat).
Defined.
