(* ===== verification/TcpServer.v ===== *)
(** * net/tcpserver.*, and Ip4Addr of net/net.*

    The server accepts connections in its own loop and hands each to a loop of
    its pool.  What it makes other components do is a list of events in the
    order of the calls: HandleAccept runs in the thread of the server's loop, so
    RunInLoop on that loop runs the functor at once and on another loop queues
    it.  Ip4Addr is the address with its port, in network byte order. *)

From S2P Require Import Prelude Text EventLoopPool.

(** ** Ip4Addr *)

Definition INADDR_NONE : Z := 2 ^ 32 - 1.
Definition INADDR_ANY : Z := 0.

(** struct sockaddr_in: the integers a little-endian host loads from it *)
Record Ip4Addr : Type := mkAddr { s_addr : Z; sin_port : Z }.

(** htons and ntohs: the two bytes exchanged *)
Definition htons (x : Z) : Z := le_val (reverse (le_bytes 2 x)).

(** Ip4Addr(host, port); [gethost] is Net::GetHostByName. *)
Definition Ip4Addr_new (gethost : bytes → option Z) (host : bytes) (port : Z) : Ip4Addr :=
  mkAddr (if bool_decide (host = []) then INADDR_ANY else default INADDR_NONE (gethost host))
         (htons port).

Definition ip_byte (a : Ip4Addr) (i : Z) : Z := Z.land (Z.shiftr (s_addr a) (8 * i)) 255.

Definition GetIp (a : Ip4Addr) : outcome bytes :=
  Format true (printf_d 0 (ip_byte a 0) ++ str "." ++ printf_d 0 (ip_byte a 1) ++ str "."
               ++ printf_d 0 (ip_byte a 2) ++ str "." ++ printf_d 0 (ip_byte a 3)).

Definition Ip4Addr_ToString (a : Ip4Addr) : outcome bytes :=
  Format true (printf_d 0 (ip_byte a 0) ++ str "." ++ printf_d 0 (ip_byte a 1) ++ str "."
               ++ printf_d 0 (ip_byte a 2) ++ str "." ++ printf_d 0 (ip_byte a 3)
               ++ str ":" ++ printf_d 0 (htons (sin_port a))).

Definition GetPort (a : Ip4Addr) : Z := i16 (htons (sin_port a)).

(** ntohl *)
Definition GetIpInt (a : Ip4Addr) : Z := be32_val (le_bytes 4 (s_addr a)).

Definition IsIpValid (a : Ip4Addr) : bool := negb (s_addr a =? INADDR_NONE).

(** ** TcpServer *)

(** A connection the server made: its number, descriptor and loop. *)
Record server_conn : Type := mkSConn { c_id : nat; c_fd : Z; c_loop : Z }.

Record TcpServer : Type := mkServer {
  server_loop_ : Z;
  listen_fd_ : option Z;          (* None: listen_channel_ is nullptr *)
  statecb_ : bool;
  readcb_ : bool;
  createcb_ : bool;
  threadPool_ : EventLoopPool;
  conns_ : list server_conn;
  next_conn : nat;
}.

Definition TcpServer_new (loop : Z) : TcpServer :=
  mkServer loop None false false false (EventLoopPool_new loop) [] 0.

Inductive server_ev : Type :=
| EvCreate (id : nat)                       (* createcb_(con) *)
| EvAttach (loop : Z) (id : nat) (fd : Z)   (* con->Attach, run or queued in the loop *)
| EvOnState (id : nat)                      (* con->OnState(statecb_) *)
| EvOnRead (id : nat)                       (* con->OnRead(readcb_) *)
| EvClose (loop : Z) (id : nat)             (* con->Close, run or queued in the loop *)
| EvLost (fd : Z).                          (* a descriptor nobody closes *)

(** SetThreadNum and the pool's start *)
Definition StartThread (loop_of : nat → Z) (threads : Z) (s : TcpServer) : outcome TcpServer :=
  p ← Start loop_of true (SetThreadNum threads (threadPool_ s));
  Ret (mkServer (server_loop_ s) (listen_fd_ s) (statecb_ s) (readcb_ s) (createcb_ s) p
                (conns_ s) (next_conn s)).

(** Bind(reusePort): 0 and the listening channel, or errno. *)
Definition Bind (fd : Z) (bound : bool) (errno : Z) (s : TcpServer) : Z * TcpServer :=
  if negb bound then (errno, s)
  else (0, mkServer (server_loop_ s) (Some fd) (statecb_ s) (readcb_ s) (createcb_ s) (threadPool_ s)
                    (conns_ s) (next_conn s)).

(** Bind(host, port, reusePort): the address is set and the socket bound, but the
    function ends without returning a value. *)
Definition BindHost (gethost : bytes → option Z) (host : bytes) (port fd : Z) (bound : bool) (errno : Z) (s : TcpServer)
  : Ip4Addr * option Z * TcpServer :=
  let '(_, s) := Bind fd bound errno s in (Ip4Addr_new gethost host port, None, s).

(** StartServer: the threads are started, then the missing result is tested. *)
Definition StartServer (gethost : bytes → option Z) (loop_of : nat → Z) (loop : Z) (host : bytes) (port threads fd : Z)
    (bound : bool) (errno : Z) : outcome (option TcpServer) :=
  let '(_, r, s) := BindHost gethost host port fd bound errno (TcpServer_new loop) in
  s ← StartThread loop_of threads s;
  r ← from_option_fault UninitRead r;
  Ret (if r =? 0 then Some s else None).

(** Start(reusePort): the pool starts whatever Bind returned. *)
Definition TcpServer_Start (loop_of : nat → Z) (fd : Z) (bound : bool) (errno : Z) (s : TcpServer) : outcome TcpServer :=
  let '(_, s) := Bind fd bound errno s in
  p ← Start loop_of true (threadPool_ s);
  Ret (mkServer (server_loop_ s) (listen_fd_ s) (statecb_ s) (readcb_ s) (createcb_ s) p (conns_ s) (next_conn s)).

(** OnConnCreate, OnConnState, OnConnRead *)
Definition OnConnCreate (s : TcpServer) : TcpServer :=
  mkServer (server_loop_ s) (listen_fd_ s) (statecb_ s) (readcb_ s) true (threadPool_ s) (conns_ s) (next_conn s).
Definition OnConnState (s : TcpServer) : TcpServer :=
  mkServer (server_loop_ s) (listen_fd_ s) true (readcb_ s) (createcb_ s) (threadPool_ s) (conns_ s) (next_conn s).
Definition OnConnRead (s : TcpServer) : TcpServer :=
  mkServer (server_loop_ s) (listen_fd_ s) (statecb_ s) true (createcb_ s) (threadPool_ s) (conns_ s) (next_conn s).

(** What accept(2) gives in turn: an error, or a descriptor with the success of
    getpeername and getsockname on it.  The list ends with EAGAIN. *)
Inductive accept_res : Type := AFail (errno : Z) | AConn (fd : Z) (peer_ok local_ok : bool).

Definition add_conn (p : EventLoopPool) (c : server_conn) (s : TcpServer) : TcpServer :=
  mkServer (server_loop_ s) (listen_fd_ s) (statecb_ s) (readcb_ s) (createcb_ s) p
           (conns_ s ++ [c]) (S (next_conn s)).

(** The loop of HandleAccept. *)
Fixpoint accept_loop (rs : list accept_res) (s : TcpServer) : outcome (list server_ev * TcpServer) :=
  match rs with
  | [] | AFail _ :: _ => Ret ([], s)
  | AConn cfd peer_ok local_ok :: rs =>
      if negb peer_ok || negb local_ok then
        r ← accept_loop rs s; Ret (EvLost cfd :: r.1, r.2)
      else
        lp ← GetNextLoop true (threadPool_ s);
        let id := next_conn s in
        let evs := (if createcb_ s then [EvCreate id] else [])
                   ++ [EvAttach lp.1 id cfd]
                   ++ (if statecb_ s then [EvOnState id] else [])
                   ++ (if readcb_ s then [EvOnRead id] else []) in
        r ← accept_loop rs (add_conn lp.2 (mkSConn id cfd lp.1) s);
        Ret (evs ++ r.1, r.2)
  end.

Definition HandleAccept (rs : list accept_res) (s : TcpServer) : outcome (list server_ev * TcpServer) :=
  lfd ← from_option_fault NullDeref (listen_fd_ s);
  if 0 <=? lfd then accept_loop rs s else Ret ([], s).

(** RemoveConnInLoop *)
Definition RemoveConnInLoop (c : server_conn) (s : TcpServer) : list server_ev * TcpServer :=
  ([EvClose (c_loop c) (c_id c)],
   mkServer (server_loop_ s) (listen_fd_ s) (statecb_ s) (readcb_ s) (createcb_ s) (threadPool_ s)
            (filter (λ x, c_id x ≠ c_id c) (conns_ s)) (next_conn s)).

(** ~TcpServer: every connection is closed in its loop. *)
Definition TcpServer_destroy (s : TcpServer) : list server_ev :=
  (λ c, EvClose (c_loop c) (c_id c)) <$> conns_ s.

(** ** Specification *)

(** The accepted descriptors up to the first failure of accept: those whose
    names could be read, and the others. *)
Fixpoint served (rs : list accept_res) : list Z :=
  match rs with
  | [] | AFail _ :: _ => []
  | AConn fd p l :: rs => if p && l then fd :: served rs else served rs
  end.
Fixpoint lost (rs : list accept_res) : list Z :=
  match rs with
  | [] | AFail _ :: _ => []
  | AConn fd p l :: rs => if p && l then lost rs else fd :: lost rs
  end.

Definition attached (e : server_ev) : option (Z * nat * Z) :=
  match e with EvAttach l i fd => Some (l, i, fd) | _ => None end.
Definition lost_fd (e : server_ev) : option Z :=
  match e with EvLost fd => Some fd | _ => None end.

(** [n] accepted descriptors and their numbers and loops. *)
Definition assignment (p : EventLoopPool) (id : nat) (fds : list Z) : list (Z * nat * Z) :=
  imap (λ i fd, (round_robin p i, id + i, fd)%nat) fds.

(** ** Lemmas *)

Lemma assignment_cons p p' id fd fds :
  (∀ i, round_robin p' i = round_robin p (S i)) →
  assignment p id (fd :: fds) = (round_robin p 0, id, fd) :: assignment p' (S id) fds.
Proof.
  intros Hr. unfold assignment. rewrite imap_cons. f_equal; [by rewrite Nat.add_0_r|].
  apply imap_ext. intros i x _. simpl. rewrite Hr. do 2 f_equal. lia.
Qed.

Lemma accept_loop_ok rs s :
  pool_wf (threadPool_ s) →
  ∃ evs s', accept_loop rs s = Ret (evs, s')
    ∧ omap attached evs = assignment (threadPool_ s) (next_conn s) (served rs)
    ∧ omap lost_fd evs = lost rs
    ∧ conns_ s' = conns_ s ++ ((λ '(l, i, fd), mkSConn i fd l) <$>
                                 assignment (threadPool_ s) (next_conn s) (served rs))
    ∧ pool_wf (threadPool_ s') ∧ loops_ (threadPool_ s') = loops_ (threadPool_ s).
Proof.
  revert s. induction rs as [|[e|fd po lo] rs IH]; intros s Hw; cbn [accept_loop].
  - exists [], s. by rewrite app_nil_r.
  - exists [], s. by rewrite app_nil_r.
  - destruct (po && lo) eqn:Hok.
    + apply andb_prop in Hok as [-> ->]. cbn [negb orb].
      destruct (GetNextLoop_ok (threadPool_ s) Hw) as (p' & Hp & Hw' & Hl & Hr).
      rewrite Hp. cbn [mbind outcome_bind fst snd].
      destruct (IH (add_conn p' (mkSConn (next_conn s) fd (round_robin (threadPool_ s) 0)) s))
        as (evs & s' & -> & Ha & Hlo & Hc & Hw'' & Hl'); [done|].
      cbn [mbind outcome_bind fst snd]. do 2 eexists. split; [reflexivity|].
      cbn [served lost andb]. rewrite (assignment_cons _ p') by done.
      split_and!; [| | |done|by rewrite Hl', <- Hl].
      * rewrite !omap_app, Ha. by destruct (createcb_ s), (statecb_ s), (readcb_ s).
      * rewrite !omap_app, Hlo. by destruct (createcb_ s), (statecb_ s), (readcb_ s).
      * rewrite Hc. simpl. by rewrite <- app_assoc.
    + destruct (IH s Hw) as (evs & s' & He & Ha & Hlo & Hc & Hw' & Hl).
      assert (negb po || negb lo = true) as -> by by destruct po, lo.
      rewrite He. cbn [mbind outcome_bind fst snd]. do 2 eexists. split; [reflexivity|].
      cbn [served lost]. rewrite Hok.
      change (omap attached (EvLost fd :: evs)) with (omap attached evs).
      change (omap lost_fd (EvLost fd :: evs)) with (fd :: omap lost_fd evs).
      by rewrite Ha, Hlo.
Qed.

Lemma htons_htons x : htons (htons x) = u16 x.
Proof.
  unfold htons. cbn [le_bytes]. unfold reverse. cbn [rev_append le_val]. unfold wrap.
  change (2 ^ 16) with 65536. Z.to_euclidean_division_equations. lia.
Qed.

Lemma le_bytes_val l : Forall is_byte l → le_bytes (length l) (le_val l) = l.
Proof.
  unfold is_byte. induction 1 as [|x l Hx _ IH]; cbn [length le_bytes le_val]; [done|].
  rewrite (Z.mul_comm 256), Z.mod_add, Z.mod_small, Z.div_add, Z.div_small by lia. by rewrite Z.add_0_l, IH.
Qed.

(** The bytes of an address, by their numbers. *)
Lemma ip_byte_le s p a b c d :
  Forall is_byte [a; b; c; d] → s = le_val [a; b; c; d] →
  ip_byte (mkAddr s p) 0 = a ∧ ip_byte (mkAddr s p) 1 = b
  ∧ ip_byte (mkAddr s p) 2 = c ∧ ip_byte (mkAddr s p) 3 = d.
Proof.
  rewrite !Forall_cons. unfold is_byte. intros (Ha & Hb & Hc & Hd & _) ->. unfold ip_byte. cbn [s_addr le_val].
  change 255 with (Z.ones 8). rewrite !Z.land_ones, !Z.shiftr_div_pow2 by lia.
  change (2 ^ (8 * 0)) with 1. change (2 ^ (8 * 1)) with 256. change (2 ^ (8 * 2)) with 65536.
  change (2 ^ (8 * 3)) with 16777216. change (2 ^ 8) with 256.
  Z.to_euclidean_division_equations. lia.
Qed.

(** Short numbers. *)
Lemma dec_ok n x : 0 ≤ x < 10 ^ Z.of_nat (S n) → zlen (dec x) ≤ Z.of_nat (S n) ∧ (0 ∉ dec x).
Proof.
  intros Hx. split.
  - pose proof (dec_digits_length (S (Z.to_nat (Z.log2 x))) n x Hx). unfold dec, zlen. lia.
  - intros H. pose proof (dec_digits_digit (S (Z.to_nat (Z.log2 x))) x) as Hd.
    rewrite Forall_forall in Hd. apply Hd in H; lia.
Qed.

(** ** Theorems *)

(** StartServer never returns a server: its result is undefined. *)
Lemma StartServer_undefined gethost loop_of loop host port threads fd bound errno :
  StartServer gethost loop_of loop host port threads fd bound errno = Fault UninitRead.
Proof. unfold StartServer, BindHost, Bind. by destruct bound. Qed.

(** Accepting.  Whatever accept(2) returns, HandleAccept of a started server
    ends; every connection whose addresses can be read is kept in conns_ and
    attached to exactly one loop, the loops of the pool in turn from where the
    last call stopped, so consecutive calls continue the round; the descriptor
    of every other connection is dropped without being closed. *)
Theorem accept_spec (rs : list accept_res) (s : TcpServer) (lfd : Z) :
  pool_wf (threadPool_ s) → listen_fd_ s = Some lfd → 0 ≤ lfd →
  ∃ evs s', HandleAccept rs s = Ret (evs, s')
    ∧ omap attached evs = assignment (threadPool_ s) (next_conn s) (served rs)
    ∧ omap lost_fd evs = lost rs
    ∧ conns_ s' = conns_ s ++ ((λ '(l, i, fd), mkSConn i fd l) <$>
                                 assignment (threadPool_ s) (next_conn s) (served rs))
    ∧ pool_wf (threadPool_ s') ∧ loops_ (threadPool_ s') = loops_ (threadPool_ s).
Proof.
  intros Hw Hl H0. unfold HandleAccept. rewrite Hl. cbn [from_option_fault mbind outcome_bind].
  rewrite (proj2 (Z.leb_le 0 lfd)) by done. by apply accept_loop_ok.
Qed.

Definition demo_server : TcpServer :=
  mkServer 1 (Some 3) true true false (mkPool 1 2 true 0 [100; 200]) [] 0.

Lemma accept_spec_witness :
  ∃ evs s', HandleAccept [AConn 10 true true; AConn 11 false true; AConn 12 true true; AConn 13 true true] demo_server
            = Ret (evs, s')
    ∧ omap attached evs = [(100, 0%nat, 10); (200, 1%nat, 12); (100, 2%nat, 13)]
    ∧ omap lost_fd evs = [11].
Proof.
  destruct (accept_spec [AConn 10 true true; AConn 11 false true; AConn 12 true true; AConn 13 true true]
              demo_server 3) as (evs & s' & H1 & H2 & H3 & _).
  - by_decide.
  - reflexivity.
  - lia.
  - exists evs, s'. split; [exact H1|]. split; [exact H2|exact H3].
Defined.

(** Addresses.  An Ip4Addr made from a host that resolves to the bytes
    a.b.c.d, in network order, and any port of type short gives the port back,
    prints as a.b.c.d:port with the port as an unsigned number, and GetIpInt is
    the address with [a] as the most significant byte. *)
Theorem addr_text (gethost : bytes → option Z) (host : bytes) (a b c d port : Z) :
  host ≠ [] → gethost host = Some (le_val [a; b; c; d]) →
  is_byte a → is_byte b → is_byte c → is_byte d → - 2 ^ 15 ≤ port < 2 ^ 15 →
  let addr := Ip4Addr_new gethost host port in
  GetPort addr = port
  ∧ Ip4Addr_ToString addr = Ret (dec a ++ str "." ++ dec b ++ str "." ++ dec c ++ str "." ++ dec d
                                 ++ str ":" ++ dec (u16 port))
  ∧ GetIpInt addr = ((a * 256 + b) * 256 + c) * 256 + d.
Proof.
  intros Hh Hg Ha Hb Hc Hd Hp addr.
  assert (addr = mkAddr (le_val [a; b; c; d]) (htons port)) as ->.
  { unfold addr, Ip4Addr_new. rewrite bool_decide_false by done. by rewrite Hg. }
  assert (Forall is_byte [a; b; c; d]) as Hall by (rewrite !Forall_cons, Forall_nil; tauto).
  split_and!.
  - unfold GetPort. cbn [sin_port]. rewrite htons_htons. unfold swrap, wrap.
    change (2 ^ (16 - 1)) with (2 ^ 15). rewrite Zplus_mod_idemp_l, Z.mod_small; lia.
  - assert (∀ x, 0 ≤ x → printf_d 0 x = dec x) as Hpd.
    { intros x Hx. unfold printf_d. by rewrite (proj2 (Z.ltb_ge x 0)) by lia. }
    destruct (ip_byte_le (le_val [a; b; c; d]) (htons port) a b c d) as (E0 & E1 & E2 & E3);
      [done|done|].
    unfold Ip4Addr_ToString. cbn [sin_port]. rewrite htons_htons, E0, E1, E2, E3.
    pose proof (wrap_bound 16 port ltac:(lia)). unfold is_byte in *. rewrite !Hpd by lia.
    destruct (dec_ok 2 a) as [La Na]; [simpl; lia|]. destruct (dec_ok 2 b) as [Lb Nb]; [simpl; lia|].
    destruct (dec_ok 2 c) as [Lc Nc]; [simpl; lia|]. destruct (dec_ok 2 d) as [Ld Nd]; [simpl; lia|].
    destruct (dec_ok 4 (u16 port)) as [Lp Np]; [simpl; lia|].
    unfold Format. rewrite (proj2 (Z.ltb_lt _ 200)); [apply snprintf_fits|].
    + rewrite !zlen_app. change (zlen (str ".")) with 1. change (zlen (str ":")) with 1. lia.
    + rewrite !not_elem_of_app. split_and!; try done; by_decide.
    + rewrite !zlen_app. change (zlen (str ".")) with 1. change (zlen (str ":")) with 1. lia.
  - unfold GetIpInt. cbn [s_addr]. change 4%nat with (length [a; b; c; d]).
    rewrite le_bytes_val by done. unfold be32_val, reverse. cbn [rev_append le_val]. lia.
Qed.

Lemma addr_text_witness :
  GetPort (Ip4Addr_new (λ _, Some (le_val [127; 0; 0; 1])) (str "localhost") 8080) = 8080
  ∧ Ip4Addr_ToString (Ip4Addr_new (λ _, Some (le_val [127; 0; 0; 1])) (str "localhost") 8080)
    = Ret (str "127.0.0.1:8080").
Proof.
  destruct (addr_text (λ _, Some (le_val [127; 0; 0; 1])) (str "localhost") 127 0 0 1 8080) as (H1 & H2 & _).
  - done.
  - reflexivity.
  - by_decide.
  - by_decide.
  - by_decide.
  - by_decide.
  - lia.
  - split; [exact H1|exact H2].
Defined.
