(* ===== verification/Sockets.v ===== *)
(** * net/net.cc, net/socket.*, net/connector.*, and the system calls of
      net/tcpconn.cc, net/tcpserver.cc and net/channel.cc

    The descriptors of the process: a table from numbers to open sockets.  As
    POSIX says, a call that makes a descriptor takes the lowest free number, and
    fails with EMFILE when the table is full.  Whether the network lets bind,
    connect, listen or accept succeed is an argument, an errno.  FATAL and
    FATALIF only write a log line. *)

From S2P Require Import Prelude Text EventLoopPool TcpServer.

(** ** The kernel's table *)

Definition O_NONBLOCK : Z := 2048.
Definition SOL_SOCKET : Z := 1.
Definition IPPROTO_TCP : Z := 6.
Definition SO_DEBUG : Z := 1.
Definition SO_REUSEADDR : Z := 2.
Definition SO_KEEPALIVE : Z := 9.
Definition SO_REUSEPORT : Z := 15.
Definition TCP_NODELAY : Z := 1.
Definition EBADF : Z := 9.
Definition EMFILE : Z := 24.
Definition EINPROGRESS : Z := 115.

Inductive sock_state : Type :=
| SNew
| SBound (a : Ip4Addr)
| SListen (a : option Ip4Addr)
| SConnecting (peer : Ip4Addr)
| SConnected.

(** An open socket: [f_id] tells sockets apart that have the same number one
    after the other. *)
Record sock : Type := mkSock {
  f_id : nat;
  f_flags : Z;
  f_opts : gmap (Z * Z) Z;
  f_state : sock_state;
  f_shut_wr : bool;
}.

Record Kernel : Type := mkKernel {
  k_fds : gmap Z sock;
  k_next : nat;
  k_limit : nat;         (* RLIMIT_NOFILE *)
  k_errno : Z;
}.

Definition set_errno (e : Z) (k : Kernel) : Kernel := mkKernel (k_fds k) (k_next k) (k_limit k) e.
Definition set_sock (fd : Z) (s : sock) (k : Kernel) : Kernel :=
  mkKernel (<[fd := s]> (k_fds k)) (k_next k) (k_limit k) (k_errno k).

Definition with_flags (fl : Z) (s : sock) : sock := mkSock (f_id s) fl (f_opts s) (f_state s) (f_shut_wr s).
Definition with_opt (o : Z * Z) (v : Z) (s : sock) : sock :=
  mkSock (f_id s) (f_flags s) (<[o := v]> (f_opts s)) (f_state s) (f_shut_wr s).
Definition with_state (st : sock_state) (s : sock) : sock := mkSock (f_id s) (f_flags s) (f_opts s) st (f_shut_wr s).
Definition with_shut (s : sock) : sock := mkSock (f_id s) (f_flags s) (f_opts s) (f_state s) true.

(** The lowest free number among the [n] from [i] on. *)
Fixpoint lowest_free (n : nat) (i : Z) (fds : gmap Z sock) : option Z :=
  match n with
  | O => None
  | S n => match fds !! i with None => Some i | Some _ => lowest_free n (i + 1) fds end
  end.

(** A new descriptor for a socket in state [st]. *)
Definition new_fd (st : sock_state) (k : Kernel) : Z * Kernel :=
  match lowest_free (k_limit k) 0 (k_fds k) with
  | None => (-1, set_errno EMFILE k)
  | Some fd => (fd, mkKernel (<[fd := mkSock (k_next k) 2 ∅ st false]> (k_fds k)) (S (k_next k)) (k_limit k) (k_errno k))
  end.

(** A call on descriptor [fd]: [g] changes the socket. *)
Definition on_fd (fd : Z) (g : sock → sock) (k : Kernel) : Z * Kernel :=
  match k_fds k !! fd with
  | None => (-1, set_errno EBADF k)
  | Some s => (0, set_sock fd (g s) k)
  end.

Definition sys_socket : Kernel → Z * Kernel := new_fd SNew.

Definition sys_close (fd : Z) (k : Kernel) : Z * Kernel :=
  match k_fds k !! fd with
  | None => (-1, set_errno EBADF k)
  | Some _ => (0, mkKernel (delete fd (k_fds k)) (k_next k) (k_limit k) (k_errno k))
  end.

Definition sys_getfl (fd : Z) (k : Kernel) : Z * Kernel :=
  match k_fds k !! fd with
  | None => (-1, set_errno EBADF k)
  | Some s => (f_flags s, k)
  end.
Definition sys_setfl (fd flags : Z) : Kernel → Z * Kernel := on_fd fd (with_flags flags).
Definition sys_setsockopt (fd level opt v : Z) : Kernel → Z * Kernel := on_fd fd (with_opt (level, opt) v).
Definition sys_shutdown (fd : Z) : Kernel → Z * Kernel := on_fd fd with_shut.

(** [ans] is [None] when the network lets the call succeed, or its errno. *)
Definition sys_net (fd : Z) (ans : option Z) (st : sock_state) (k : Kernel) : Z * Kernel :=
  match k_fds k !! fd with
  | None => (-1, set_errno EBADF k)
  | Some s => match ans with
              | Some e => (-1, set_errno e k)
              | None => (0, set_sock fd (with_state st s) k)
              end
  end.
Definition sys_bind (fd : Z) (a : Ip4Addr) (ans : option Z) : Kernel → Z * Kernel := sys_net fd ans (SBound a).
Definition sys_connect (fd : Z) (peer : Ip4Addr) (ans : option Z) (k : Kernel) : Z * Kernel :=
  match ans with
  | Some e =>
      if e =? EINPROGRESS
      then let '(r, k) := sys_net fd None (SConnecting peer) k in
           if r =? 0 then (-1, set_errno EINPROGRESS k) else (r, k)
      else sys_net fd ans SNew k
  | None => sys_net fd None SConnected k
  end.
Definition sys_listen (fd : Z) (ans : option Z) (k : Kernel) : Z * Kernel :=
  sys_net fd ans (SListen (match k_fds k !! fd with Some s => match f_state s with SBound a => Some a | _ => None end | None => None end)) k.
Definition sys_accept (fd : Z) (ans : option Z) (k : Kernel) : Z * Kernel :=
  match k_fds k !! fd with
  | None => (-1, set_errno EBADF k)
  | Some _ => match ans with Some e => (-1, set_errno e k) | None => new_fd SConnected k end
  end.

(** ** Net *)

(** The error is returned as a positive errno. *)
Definition SetNonBlock (fd : Z) (value : bool) (k : Kernel) : Z * Kernel :=
  let '(flags, k) := sys_getfl fd k in
  if flags <? 0 then (k_errno k, k)
  else if value then sys_setfl fd (Z.lor flags O_NONBLOCK) k
  else sys_setfl fd (Z.land flags (Z.lnot O_NONBLOCK)) k.

Definition SetReuseAddr (fd : Z) (value : bool) : Kernel → Z * Kernel :=
  sys_setsockopt fd SOL_SOCKET SO_REUSEADDR (Z.b2z value).
Definition SetReusePort (fd : Z) (value : bool) : Kernel → Z * Kernel :=
  sys_setsockopt fd SOL_SOCKET SO_REUSEPORT (Z.b2z value).
(** The level is SOL_SOCKET. *)
Definition SetNoDelay (fd : Z) (value : bool) : Kernel → Z * Kernel :=
  sys_setsockopt fd SOL_SOCKET TCP_NODELAY (Z.b2z value).
Definition SetKeepAlive (fd : Z) (value : bool) : Kernel → Z * Kernel :=
  sys_setsockopt fd SOL_SOCKET SO_KEEPALIVE (Z.b2z value).

(** What gethostbyname_r found: its result, and the record with its address type
    and address. *)
Definition AF_INET : Z := 2.
Definition GetHostByName (r : Z) (he : option (Z * Z)) : Z :=
  match he with
  | Some (addrtype, addr) => if (r =? 0) && (addrtype =? AF_INET) then addr else INADDR_NONE
  | None => INADDR_NONE
  end.

Definition Net_Bind (fd : Z) (a : Ip4Addr) (ans : option Z) (k : Kernel) : Kernel := (sys_bind fd a ans k).2.
Definition Net_Listen (fd : Z) (ans : option Z) (k : Kernel) : Kernel := (sys_listen fd ans k).2.
Definition Net_Accept (fd : Z) (ans : option Z) : Kernel → Z * Kernel := sys_accept fd ans.
Definition Net_Connect (fd : Z) (a : Ip4Addr) (ans : option Z) : Kernel → Z * Kernel := sys_connect fd a ans.
Definition Net_Close (fd : Z) (k : Kernel) : Kernel := (sys_close fd k).2.
Definition Net_ShutdownWrite (fd : Z) (k : Kernel) : Kernel := (sys_shutdown fd k).2.

(** ** Socket *)

Record Socket : Type := mkSocket { sockfd_ : Z }.

Definition Socket_destroy (s : Socket) (k : Kernel) : Kernel := (sys_close (sockfd_ s) k).2.
Definition BindAddress (a : Ip4Addr) (ans : option Z) (s : Socket) : Kernel → Kernel := Net_Bind (sockfd_ s) a ans.
Definition Socket_Listen (ans : option Z) (s : Socket) : Kernel → Kernel := Net_Listen (sockfd_ s) ans.
(** The peer's address is set when there is a connection; [peer] is what accept wrote. *)
Definition Socket_Accept (ans : option Z) (peer old : Ip4Addr) (s : Socket) (k : Kernel) : Z * Ip4Addr * Kernel :=
  let '(connfd, k) := Net_Accept (sockfd_ s) ans k in
  (connfd, if 0 <=? connfd then peer else old, k).
Definition Socket_ShutdownWrite (s : Socket) : Kernel → Kernel := Net_ShutdownWrite (sockfd_ s).
Definition SetTcpNodelay (on : bool) (s : Socket) (k : Kernel) : Kernel := (SetNoDelay (sockfd_ s) on k).2.
Definition Socket_SetReuseAddr (on : bool) (s : Socket) (k : Kernel) : Kernel := (SetReuseAddr (sockfd_ s) on k).2.
(** Net::SetReusePort(on): the flag is the descriptor. *)
Definition Socket_SetReusePort (on : bool) (s : Socket) (k : Kernel) : Kernel := (SetReusePort (Z.b2z on) true k).2.
Definition Socket_SetKeepAlive (on : bool) (s : Socket) (k : Kernel) : Kernel := (SetKeepAlive (sockfd_ s) on k).2.

(** ** Channels and connections as owners of descriptors *)

(** Channel(loop, fd): the descriptor becomes non-blocking. *)
Definition Channel_open (fd : Z) (k : Kernel) : Kernel := (SetNonBlock fd true k).2.
(** Channel::Close() on fd_: the new fd_. *)
Definition Channel_close (fd : Z) (k : Kernel) : Z * Kernel :=
  if 0 <=? fd then (-1, (sys_close fd k).2) else (fd, k).
(** ~Channel *)
Definition Channel_destroy (fd : Z) (k : Kernel) : Kernel :=
  if fd =? -1 then k else (Channel_close fd k).2.

(** channel_ (the fd_ of the channel it points to) and socket_ of a TcpConn. *)
Record ConnFds : Type := mkConnFds { cf_channel : option Z; cf_socket : option Socket }.

(** Attach: a new channel and a new Socket, the old ones destroyed. *)
Definition conn_attach (fd : Z) (c : ConnFds) (k : Kernel) : ConnFds * Kernel :=
  let k := Channel_open fd k in
  let k := match cf_socket c with Some s => Socket_destroy s k | None => k end in
  let k := match cf_channel c with Some f => Channel_destroy f k | None => k end in
  (mkConnFds (Some fd) (Some (mkSocket fd)), k).
(** CleanUp: the channel is deleted, the Socket stays. *)
Definition conn_cleanup (c : ConnFds) (k : Kernel) : ConnFds * Kernel :=
  (mkConnFds None (cf_socket c), match cf_channel c with Some f => Channel_destroy f k | None => k end).
(** ~TcpConn: the members in reverse order. *)
Definition conn_destroy (c : ConnFds) (k : Kernel) : Kernel :=
  let k := match cf_channel c with Some f => Channel_destroy f k | None => k end in
  match cf_socket c with Some s => Socket_destroy s k | None => k end.

(** TcpConn::Connect up to Attach; [bind_ans] and [conn_ans] are the network's answers. *)
Definition conn_connect (local peer : Ip4Addr) (bind_ans conn_ans : option Z) (c : ConnFds) (k : Kernel)
  : Z * ConnFds * Kernel :=
  let '(fd, k) := sys_socket k in
  let '(_, k) := SetNonBlock fd true k in
  let '(_, k) := SetReuseAddr fd true k in
  let '(r, k) := sys_bind fd local bind_ans k in
  let '(r, k) := if r =? 0 then sys_connect fd peer conn_ans k else (r, k) in
  let '(c, k) := conn_attach fd c k in
  (fd, c, k).

(** TcpServer::Bind(reusePort): its result and the listening channel's fd_. *)
Definition server_bind (a : Ip4Addr) (reusePort : bool) (bind_ans listen_ans : option Z) (k : Kernel)
  : Z * option Z * Kernel :=
  let '(fd, k) := sys_socket k in
  let '(_, k) := SetReuseAddr fd true k in
  let '(_, k) := SetReusePort fd reusePort k in
  let '(r, k) := sys_bind fd a bind_ans k in
  if negb (r =? 0) then
    let k := Net_Close fd k in (k_errno k, None, k)
  else
    let '(_, k) := sys_listen fd listen_ans k in
    (0, Some fd, Channel_open fd k).

(** ** Connector *)

Inductive ConnectorState : Type := kDisconnected | kConnecting | kConected.

Record Connector : Type := mkConnector {
  serverAddr_ : Ip4Addr;
  isConnected_ : bool;
  connector_state_ : ConnectorState;
  retryDelayMs_ : Z;
}.

Definition kInitRetryDelayMs : Z := 500.
Definition Connector_new (a : Ip4Addr) : Connector := mkConnector a false kDisconnected kInitRetryDelayMs.

Definition Connector_Connect (ans : option Z) (c : Connector) (k : Kernel) : Kernel :=
  let '(sockfd, k) := sys_socket k in
  let '(_, k) := SetNonBlock sockfd true k in
  (Net_Connect sockfd (serverAddr_ c) ans k).2.

Definition StartInLoop (ans : option Z) (c : Connector) (k : Kernel) : outcome Kernel :=
  _ ← assert_ (match connector_state_ c with kDisconnected => true | _ => false end);
  Ret (if isConnected_ c then Connector_Connect ans c k else k).

(** Start() in the loop thread. *)
Definition Connector_Start (ans : option Z) (c : Connector) (k : Kernel) : outcome (Connector * Kernel) :=
  let c := mkConnector (serverAddr_ c) true (connector_state_ c) (retryDelayMs_ c) in
  k ← StartInLoop ans c k; Ret (c, k).

(** Stop() in the loop thread; StopInLoop has an empty branch. *)
Definition Connector_Stop (c : Connector) : Connector :=
  mkConnector (serverAddr_ c) false (connector_state_ c) (retryDelayMs_ c).

(** Start and Stop [n] times. *)
Fixpoint start_stop (n : nat) (ans : option Z) (c : Connector) (k : Kernel) : outcome (Connector * Kernel) :=
  match n with
  | O => Ret (c, k)
  | S n => '(c, k) ← Connector_Start ans c k; start_stop n ans (Connector_Stop c) k
  end.

(** ** Lemmas *)

Section Lemmas.
Implicit Types (k : Kernel) (fds : gmap Z sock).

Lemma lowest_free_Some n i fds fd :
  lowest_free n i fds = Some fd → fds !! fd = None ∧ i ≤ fd < i + Z.of_nat n ∧ ∀ j, i ≤ j < fd → is_Some (fds !! j).
Proof.
  revert i. induction n as [|n IH]; intros i; cbn; [done|]. destruct (fds !! i) as [s|] eqn:E.
  - intros (Hn & Hr & Hj)%IH. split_and!; [done|lia..|]. intros j Hji.
    destruct (decide (j = i)) as [->|]; [by eexists|]. apply Hj. lia.
  - intros [= <-]. split_and!; [done|lia..|]. lia.
Qed.

Lemma lowest_free_None n i fds : lowest_free n i fds = None → (n ≤ size fds)%nat.
Proof.
  intros H. assert (Hall : ∀ j, i ≤ j < i + Z.of_nat n → is_Some (fds !! j)).
  { revert i H. induction n as [|n IH]; intros i H j Hj; [lia|]. cbn in H. destruct (fds !! i) as [s|] eqn:E; [|done].
    destruct (decide (j = i)) as [->|]; [by eexists|]. apply (IH (i + 1)); [done|lia]. }
  rewrite <- (size_dom fds). transitivity (size (list_to_set (seqZ i (Z.of_nat n)) : gset Z)).
  - rewrite size_list_to_set by apply NoDup_seqZ. rewrite length_seqZ. lia.
  - apply subseteq_size. intros j Hj%elem_of_list_to_set%elem_of_seqZ. by apply elem_of_dom, Hall.
Qed.

(** A process with room gets the lowest free descriptor. *)
Lemma new_fd_room st k :
  (size (k_fds k) < k_limit k)%nat →
  ∃ fd, lowest_free (k_limit k) 0 (k_fds k) = Some fd ∧ 0 ≤ fd ∧ k_fds k !! fd = None
    ∧ new_fd st k = (fd, mkKernel (<[fd := mkSock (k_next k) 2 ∅ st false]> (k_fds k)) (S (k_next k)) (k_limit k) (k_errno k)).
Proof.
  intros Hroom. unfold new_fd. destruct (lowest_free (k_limit k) 0 (k_fds k)) as [fd|] eqn:E.
  - exists fd. apply lowest_free_Some in E as (? & ? & _). split_and!; [done|lia|done|done].
  - apply lowest_free_None in E. lia.
Qed.

Lemma on_fd_open fd g k s : k_fds k !! fd = Some s → on_fd fd g k = (0, set_sock fd (g s) k).
Proof. unfold on_fd. by intros ->. Qed.

Lemma set_sock_twice fd s s' k : set_sock fd s' (set_sock fd s k) = set_sock fd s' k.
Proof. unfold set_sock. cbn. by rewrite insert_insert_eq. Qed.

Lemma set_sock_lookup fd s k : k_fds (set_sock fd s k) !! fd = Some s.
Proof. cbn. apply lookup_insert_eq. Qed.

Definition nonblock_flags (v : bool) (flags : Z) : Z :=
  if v then Z.lor flags O_NONBLOCK else Z.land flags (Z.lnot O_NONBLOCK).

Lemma SetNonBlock_open fd v k s :
  k_fds k !! fd = Some s → 0 ≤ f_flags s →
  SetNonBlock fd v k = (0, set_sock fd (with_flags (nonblock_flags v (f_flags s)) s) k).
Proof.
  intros Hs Hf. unfold SetNonBlock, sys_getfl, sys_setfl. rewrite Hs, (proj2 (Z.ltb_ge _ _)) by done.
  by destruct v; rewrite (on_fd_open _ _ _ _ Hs).
Qed.

Lemma nonblock_bits v flags i :
  0 ≤ i → Z.testbit (nonblock_flags v flags) i = if i =? 11 then v else Z.testbit flags i.
Proof.
  intros Hi. unfold nonblock_flags, O_NONBLOCK. change 2048 with (2 ^ 11). destruct v.
  - rewrite Z.lor_spec, Z.pow2_bits_eqb by lia. rewrite (Z.eqb_sym 11 i). by destruct (i =? 11), (Z.testbit flags i).
  - rewrite Z.land_spec, Z.lnot_spec, Z.pow2_bits_eqb by lia. rewrite (Z.eqb_sym 11 i). by destruct (i =? 11), (Z.testbit flags i).
Qed.

Lemma sys_close_open fd k s :
  k_fds k !! fd = Some s → sys_close fd k = (0, mkKernel (delete fd (k_fds k)) (k_next k) (k_limit k) (k_errno k)).
Proof. unfold sys_close. by intros ->. Qed.

Lemma Channel_destroy_open fd k s :
  0 ≤ fd → k_fds k !! fd = Some s →
  Channel_destroy fd k = mkKernel (delete fd (k_fds k)) (k_next k) (k_limit k) (k_errno k).
Proof.
  intros Hf Hs. unfold Channel_destroy, Channel_close. rewrite (proj2 (Z.eqb_neq _ _)) by lia.
  rewrite (proj2 (Z.leb_le _ _)) by lia. by rewrite (sys_close_open _ _ _ Hs).
Qed.

End Lemmas.

(** ** Properties *)

(** Non-blocking mode.  On an open descriptor SetNonBlock changes exactly
    the bit O_NONBLOCK of the flags; on one that is not open it returns the
    positive errno, so the test for a negative result in the constructors of
    Channel never sees the error. *)
Theorem set_nonblock_spec (fd : Z) (v : bool) (k : Kernel) :
  (∀ s, k_fds k !! fd = Some s → 0 ≤ f_flags s →
     ∃ s', SetNonBlock fd v k = (0, set_sock fd s' k) ∧ f_id s' = f_id s ∧ f_opts s' = f_opts s ∧ f_state s' = f_state s
       ∧ ∀ i, 0 ≤ i → Z.testbit (f_flags s') i = if i =? 11 then v else Z.testbit (f_flags s) i)
  ∧ (k_fds k !! fd = None → SetNonBlock fd v k = (EBADF, set_errno EBADF k) ∧ 0 < EBADF).
Proof.
  split.
  - intros s Hs Hf. eexists. split; [by apply SetNonBlock_open|]. split_and!; [done..|]. intros i Hi. by apply nonblock_bits.
  - intros Hs. unfold SetNonBlock, sys_getfl. by rewrite Hs.
Qed.

(** C35: two owners of one descriptor.  TcpConn gives the descriptor of a
    connection to a Channel and to a Socket, and both close it.  For every table
    with room: accept a connection, clean it up, and destroy it at once, and the
    second close fails without harm; but if another connection is accepted
    before the first object is destroyed, it is given the same descriptor and
    the destructor closes it under its new owner. *)
Theorem descriptor_closed_twice (lfd : Z) (l : sock) (k : Kernel) :
  k_fds k !! lfd = Some l → (size (k_fds k) < k_limit k)%nat →
  ∃ fd k1, sys_accept lfd None k = (fd, k1) ∧ is_Some (k_fds k1 !! fd) ∧
    let '(c, k2) := conn_attach fd (mkConnFds None None) k1 in
    let '(c, k3) := conn_cleanup c k2 in
    k_fds (conn_destroy c k3) = k_fds k
    ∧ (∃ k4, sys_accept lfd None k3 = (fd, k4) ∧
         let '(c', k5) := conn_attach fd (mkConnFds None None) k4 in
         is_Some (k_fds k5 !! fd) ∧ k_fds (conn_destroy c k5) !! fd = None ∧ cf_channel c' = Some fd)
    ∧ c = mkConnFds None (Some (mkSocket fd)).
Proof.
  intros Hl Hroom. destruct (new_fd_room SConnected k Hroom) as (fd & Hlow & Hfd & Hnone & E).
  assert (lfd ≠ fd) as Hne by congruence. unfold sys_accept at 1. rewrite Hl, E.
  eexists fd, _. split; [done|]. split; [cbn; rewrite lookup_insert_eq; by eexists|].
  set (s0 := mkSock (k_next k) 2 ∅ SConnected false).
  unfold conn_attach at 1, Channel_open. cbn [cf_socket cf_channel].
  rewrite (SetNonBlock_open fd true _ s0); [|cbn; apply lookup_insert_eq|cbn; lia].
  cbn [snd]. unfold conn_cleanup. cbn [cf_socket cf_channel].
  erewrite Channel_destroy_open; [|done|apply set_sock_lookup].
  cbn [set_sock k_fds k_next k_limit k_errno]. rewrite insert_insert_eq, delete_insert_id by done.
  split_and!; [| |done].
  - unfold conn_destroy. cbn [cf_channel cf_socket Socket_destroy sockfd_]. unfold Socket_destroy, sys_close. cbn. by rewrite Hnone.
  - unfold sys_accept. cbn [k_fds]. rewrite Hl. unfold new_fd. cbn [k_limit k_fds k_next k_errno]. rewrite Hlow.
    eexists. split; [done|]. unfold conn_attach, Channel_open. cbn [cf_socket cf_channel].
    erewrite (SetNonBlock_open fd true); [|cbn; apply lookup_insert_eq|done]. cbn [snd].
    split_and!; [rewrite set_sock_lookup; by eexists| |done].
    unfold conn_destroy. cbn [cf_channel cf_socket]. unfold Socket_destroy. cbn [sockfd_].
    erewrite sys_close_open by apply set_sock_lookup. cbn. by rewrite lookup_delete_eq.
Qed.

(** Binding a server.  With room in the table, TcpServer::Bind leaves the
    lowest free descriptor as a non-blocking listening socket at the address,
    with SO_REUSEADDR set and SO_REUSEPORT as asked, and every other descriptor
    as it was; when bind(2) fails it returns the errno and the table is as it
    was before, nothing is leaked. *)
Theorem server_bind_spec (a : Ip4Addr) (reusePort : bool) (k : Kernel) :
  (size (k_fds k) < k_limit k)%nat →
  (∃ fd k' s, server_bind a reusePort None None k = (0, Some fd, k') ∧ k_fds k !! fd = None
     ∧ k_fds k' = <[fd := s]> (k_fds k) ∧ f_state s = SListen (Some a) ∧ Z.testbit (f_flags s) 11 = true
     ∧ f_opts s !! (SOL_SOCKET, SO_REUSEADDR) = Some 1
     ∧ f_opts s !! (SOL_SOCKET, SO_REUSEPORT) = Some (Z.b2z reusePort))
  ∧ (∀ e la, e ≠ 0 → ∃ k', server_bind a reusePort (Some e) la k = (e, None, k') ∧ k_fds k' = k_fds k).
Proof.
  intros Hroom. destruct (new_fd_room SNew k Hroom) as (fd & _ & Hfd & Hnone & E).
  unfold server_bind, sys_socket. rewrite E. split.
  - unfold SetReuseAddr, SetReusePort, sys_setsockopt.
    erewrite on_fd_open by (cbn; apply lookup_insert_eq). erewrite on_fd_open by apply set_sock_lookup.
    rewrite set_sock_twice. unfold sys_bind, sys_net. rewrite set_sock_lookup. cbn [Z.eqb negb].
    rewrite set_sock_twice. unfold sys_listen, sys_net. rewrite set_sock_lookup. rewrite set_sock_twice.
    unfold Channel_open. erewrite SetNonBlock_open; [|apply set_sock_lookup|done]. rewrite set_sock_twice.
    eexists fd, _, _. split; [done|]. split; [done|]. cbn. rewrite insert_insert_eq. split; [done|].
    split_and!; done.
  - intros e la He. unfold SetReuseAddr, SetReusePort, sys_setsockopt.
    erewrite on_fd_open by (cbn; apply lookup_insert_eq). erewrite on_fd_open by apply set_sock_lookup.
    rewrite set_sock_twice. unfold sys_bind, sys_net. rewrite set_sock_lookup. cbn [Z.eqb negb].
    unfold Net_Close, sys_close. cbn. rewrite lookup_insert_eq. cbn. eexists. split; [done|].
    cbn. by rewrite insert_insert_eq, delete_insert_id.
Qed.

(** Whatever bind and connect answer, TcpConn::Connect attaches the descriptor:
    a connection whose bind failed is registered like one in progress.  Without
    a descriptor (socket fails) it attaches -1. *)
Theorem connect_attaches (local peer : Ip4Addr) (bind_ans conn_ans : option Z) (k : Kernel) :
  ((size (k_fds k) < k_limit k)%nat →
   ∃ fd k' s, conn_connect local peer bind_ans conn_ans (mkConnFds None None) k = (fd, mkConnFds (Some fd) (Some (mkSocket fd)), k')
     ∧ k_fds k !! fd = None ∧ k_fds k' = <[fd := s]> (k_fds k) ∧ Z.testbit (f_flags s) 11 = true
     ∧ f_state s = match bind_ans, conn_ans with
                   | Some _, _ => SNew
                   | None, None => SConnected
                   | None, Some e => if e =? EINPROGRESS then SConnecting peer else SBound local
                   end)
  ∧ (lowest_free (k_limit k) 0 (k_fds k) = None → k_fds k !! (-1) = None →
     ∃ k', conn_connect local peer bind_ans conn_ans (mkConnFds None None) k = (-1, mkConnFds (Some (-1)) (Some (mkSocket (-1))), k')
     ∧ k_fds k' = k_fds k).
Proof.
  split.
  - intros Hroom. destruct (new_fd_room SNew k Hroom) as (fd & _ & Hfd & Hnone & E).
    unfold conn_connect, sys_socket. rewrite E.
    erewrite SetNonBlock_open; [|cbn; apply lookup_insert_eq|done]. unfold SetReuseAddr, sys_setsockopt.
    erewrite on_fd_open by apply set_sock_lookup. rewrite set_sock_twice. unfold sys_bind, sys_net. rewrite set_sock_lookup.
    destruct bind_ans as [e|]; cbn [Z.eqb].
    { unfold conn_attach, Channel_open. cbn [cf_socket cf_channel]. erewrite SetNonBlock_open; [|cbn; apply lookup_insert_eq|done].
      eexists fd, _, _. split; [done|]. cbn. rewrite !insert_insert_eq. done. }
    rewrite set_sock_twice. unfold sys_connect, sys_net. rewrite set_sock_lookup.
    destruct conn_ans as [e|]; [destruct (e =? EINPROGRESS)|]; cbn [Z.eqb];
      unfold conn_attach, Channel_open; cbn [cf_socket cf_channel];
      (erewrite SetNonBlock_open; [|cbn; apply lookup_insert_eq|done]);
      eexists fd, _, _; (split; [done|]); cbn; rewrite !insert_insert_eq; done.
  - intros Hfull Hneg. unfold conn_connect, sys_socket, new_fd. rewrite Hfull.
    unfold SetNonBlock, sys_getfl. cbn. rewrite Hneg. cbn. unfold SetReuseAddr, sys_setsockopt, on_fd. cbn. rewrite Hneg.
    unfold sys_bind, sys_net. cbn. rewrite Hneg. cbn. unfold conn_attach, Channel_open, SetNonBlock, sys_getfl. cbn. rewrite Hneg.
    cbn. by eexists.
Qed.

(** One Start opens one descriptor and keeps the others. *)
Lemma Connector_Start_opens ans c k :
  connector_state_ c = kDisconnected → (size (k_fds k) < k_limit k)%nat →
  ∃ c' k' fd s, Connector_Start ans c k = Ret (c', k') ∧ connector_state_ c' = kDisconnected
    ∧ k_fds k !! fd = None ∧ k_fds k' = <[fd := s]> (k_fds k) ∧ k_limit k' = k_limit k.
Proof.
  intros Hst Hroom. unfold Connector_Start, StartInLoop. cbn [connector_state_]. rewrite Hst. cbn [isConnected_ mbind outcome_bind assert_ require].
  destruct (new_fd_room SNew k Hroom) as (fd & _ & Hfd & Hnone & E).
  unfold Connector_Connect, sys_socket. rewrite E. erewrite SetNonBlock_open; [|cbn; apply lookup_insert_eq|done].
  unfold Net_Connect, sys_connect, sys_net. rewrite set_sock_lookup.
  destruct ans as [e|]; [destruct (e =? EINPROGRESS)|]; cbn;
    eexists _, _, fd, _; (split; [done|]); cbn; rewrite ?insert_insert_eq; done.
Qed.

(** A Connector leaks.  Its state never changes and nothing keeps the
    descriptor that Connect opens: every Start leaves one more open descriptor,
    whatever the network answers, and Stop closes none.  [n] rounds of Start and
    Stop use up [n] descriptors. *)
Theorem connector_leaks (n : nat) (ans : option Z) (a : Ip4Addr) (k : Kernel) :
  (size (k_fds k) + n ≤ k_limit k)%nat →
  ∃ c' k', start_stop n ans (Connector_new a) k = Ret (c', k')
    ∧ size (k_fds k') = (size (k_fds k) + n)%nat ∧ k_fds k ⊆ k_fds k'.
Proof.
  assert (∀ c, connector_state_ c = kDisconnected → (size (k_fds k) + n ≤ k_limit k)%nat →
    ∃ c' k', start_stop n ans c k = Ret (c', k') ∧ size (k_fds k') = (size (k_fds k) + n)%nat ∧ k_fds k ⊆ k_fds k') as H;
    [|intros Hroom; by apply H].
  induction n as [|n IH] in k |- *; intros c Hst Hroom; cbn [start_stop].
  { exists c, k. split_and!; [done|lia|done]. }
  destruct (Connector_Start_opens ans c k Hst) as (c1 & k1 & fd & s & -> & Hst1 & Hnone & Hk1 & Hlim); [lia|].
  cbn [mbind outcome_bind]. destruct (IH k1 (Connector_Stop c1) Hst1) as (c' & k' & -> & Hsz & Hsub).
  { rewrite Hlim, Hk1, map_size_insert_None by done. lia. }
  exists c', k'. split; [done|]. rewrite Hsz, Hk1, map_size_insert_None by done. split; [lia|].
  etrans; [|exact Hsub]. rewrite Hk1. by apply insert_subseteq.
Qed.

(** TCP_NODELAY is passed with the level of the socket options, where its number
    means SO_DEBUG; the TCP option stays as it was. *)
Lemma SetNoDelay_wrong_level fd v k s :
  k_fds k !! fd = Some s →
  ∃ s', SetNoDelay fd v k = (0, set_sock fd s' k) ∧ f_opts s' !! (IPPROTO_TCP, TCP_NODELAY) = f_opts s !! (IPPROTO_TCP, TCP_NODELAY)
    ∧ f_opts s' !! (SOL_SOCKET, SO_DEBUG) = Some (Z.b2z v).
Proof.
  intros Hs. unfold SetNoDelay, sys_setsockopt. rewrite (on_fd_open _ _ _ _ Hs). eexists. split; [done|]. cbn [with_opt f_opts].
  rewrite lookup_insert_ne by done. split; [done|]. change (SOL_SOCKET, SO_DEBUG) with (SOL_SOCKET, TCP_NODELAY).
  apply lookup_insert_eq.
Qed.

(** ** Witnesses *)

(** Standard input, output and error, and a listening socket. *)
Definition demo_kernel : Kernel :=
  mkKernel (list_to_map [(0, mkSock 0 2 ∅ SNew false); (1, mkSock 1 2 ∅ SNew false);
                         (2, mkSock 2 2 ∅ SNew false); (3, mkSock 3 2 ∅ (SListen None) false)]) 4 1024 0.

Lemma set_nonblock_spec_witness : SetNonBlock 7 true demo_kernel = (EBADF, set_errno EBADF demo_kernel).
Proof. destruct (set_nonblock_spec 7 true demo_kernel) as [_ H]. apply H. by vm_compute. Defined.

Lemma descriptor_closed_twice_witness :
  ∃ fd k1, sys_accept 3 None demo_kernel = (fd, k1) ∧ is_Some (k_fds k1 !! fd).
Proof.
  destruct (descriptor_closed_twice 3 (mkSock 3 2 ∅ (SListen None) false) demo_kernel) as (fd & k1 & H1 & H2 & _).
  - by vm_compute.
  - apply Nat.ltb_lt. by vm_compute.
  - exists fd, k1. split; [exact H1|exact H2].
Defined.

Lemma server_bind_spec_witness :
  ∃ k', server_bind (mkAddr 0 80) true (Some 98) None demo_kernel = (98, None, k') ∧ k_fds k' = k_fds demo_kernel.
Proof.
  destruct (server_bind_spec (mkAddr 0 80) true demo_kernel) as [_ H].
  - apply Nat.ltb_lt. by vm_compute.
  - apply (H 98 None). lia.
Defined.

Lemma connect_attaches_witness :
  ∃ fd k', conn_connect (mkAddr 0 0) (mkAddr 1 80) None (Some EINPROGRESS) (mkConnFds None None) demo_kernel
           = (fd, mkConnFds (Some fd) (Some (mkSocket fd)), k').
Proof.
  destruct (connect_attaches (mkAddr 0 0) (mkAddr 1 80) None (Some EINPROGRESS) demo_kernel) as [H _].
  destruct H as (fd & k' & s & H & _).
  - apply Nat.ltb_lt. by vm_compute.
  - exists fd, k'. exact H.
Defined.

Lemma connector_leaks_witness :
  ∃ c' k', start_stop 3 None (Connector_new (mkAddr 1 80)) demo_kernel = Ret (c', k') ∧ size (k_fds k') = 7%nat.
Proof.
  destruct (connector_leaks 3 None (mkAddr 1 80) demo_kernel) as (c' & k' & H1 & H2 & _).
  - apply Nat.leb_le. by vm_compute.
  - exists c', k'. split; [exact H1|]. rewrite H2. by vm_compute.
Defined.
