(* ===== verification/TcpConn.v ===== *)
(** * net/tcpconn.h, net/tcpconn.cc: class TcpConn

    A connection: its state, its input and output buffers, its channel and the
    callbacks of its user.  The kernel's answers to write(2) and read(2) are
    scripts, consumed one answer per call; a script that has ended answers
    EAGAIN.  [wire] is what the kernel accepted, [delivered] what the read
    callback found in the input buffer each time it was called.  The bodies of
    the user's callbacks are the arguments [on_read] and [on_state].

    A channel that is deleted is [None]; what its destruction does to the
    poller is [Close] of Poller.v. *)

From S2P Require Import Prelude Buffer Channel Time TimerQueue.

(** ** Data *)

Inductive State : Type := kInvalid | kHandShakeing | kConnected | kClosed | kFailed.

#[export] Instance State_eq_dec : EqDecision State.
Proof. solve_decision. Defined.

(** Answers of write(2): up to [n] bytes taken, or -1 with an errno. *)
Inductive wres : Type := Wrote (n : Z) | WEintr | WEagain | WErr.

(** Answers of read(2): the bytes that are there, end of file, or an errno. *)
Inductive rres : Type := RData (d : bytes) | REof | REintr | REagain | RErr.

Record TcpConn : Type := mkConn {
  state_ : State;
  input_ : Buffer;
  output_ : Buffer;
  channel_ : option Channel;
  readcb_ : bool;
  statecb_ : bool;
  timeoutId_ : TimerId;
  conn_fd_ : option Z;          (* the field fd_, None while not initialised *)
  timers : TimerQueue;          (* the timer queue of loop_ *)
  writes : list wres;
  reads : list rres;
  wire : list cell;
  delivered : list (list cell);
}.

Definition set_state (s : State) (c : TcpConn) : TcpConn :=
  mkConn s (input_ c) (output_ c) (channel_ c) (readcb_ c) (statecb_ c) (timeoutId_ c) (conn_fd_ c)
         (timers c) (writes c) (reads c) (wire c) (delivered c).
Definition set_input (b : Buffer) (c : TcpConn) : TcpConn :=
  mkConn (state_ c) b (output_ c) (channel_ c) (readcb_ c) (statecb_ c) (timeoutId_ c) (conn_fd_ c)
         (timers c) (writes c) (reads c) (wire c) (delivered c).
Definition set_output (b : Buffer) (c : TcpConn) : TcpConn :=
  mkConn (state_ c) (input_ c) b (channel_ c) (readcb_ c) (statecb_ c) (timeoutId_ c) (conn_fd_ c)
         (timers c) (writes c) (reads c) (wire c) (delivered c).
Definition set_channel (ch : option Channel) (c : TcpConn) : TcpConn :=
  mkConn (state_ c) (input_ c) (output_ c) ch (readcb_ c) (statecb_ c) (timeoutId_ c) (conn_fd_ c)
         (timers c) (writes c) (reads c) (wire c) (delivered c).
Definition set_callbacks (r s : bool) (c : TcpConn) : TcpConn :=
  mkConn (state_ c) (input_ c) (output_ c) (channel_ c) r s (timeoutId_ c) (conn_fd_ c)
         (timers c) (writes c) (reads c) (wire c) (delivered c).
Definition set_timer (id : TimerId) (q : TimerQueue) (c : TcpConn) : TcpConn :=
  mkConn (state_ c) (input_ c) (output_ c) (channel_ c) (readcb_ c) (statecb_ c) id (conn_fd_ c)
         q (writes c) (reads c) (wire c) (delivered c).
Definition set_fd (fd : option Z) (c : TcpConn) : TcpConn :=
  mkConn (state_ c) (input_ c) (output_ c) (channel_ c) (readcb_ c) (statecb_ c) (timeoutId_ c) fd
         (timers c) (writes c) (reads c) (wire c) (delivered c).
Definition set_writes (ws : list wres) (w : list cell) (c : TcpConn) : TcpConn :=
  mkConn (state_ c) (input_ c) (output_ c) (channel_ c) (readcb_ c) (statecb_ c) (timeoutId_ c) (conn_fd_ c)
         (timers c) ws (reads c) w (delivered c).
Definition set_reads (rs : list rres) (c : TcpConn) : TcpConn :=
  mkConn (state_ c) (input_ c) (output_ c) (channel_ c) (readcb_ c) (statecb_ c) (timeoutId_ c) (conn_fd_ c)
         (timers c) (writes c) rs (wire c) (delivered c).
Definition deliver (c : TcpConn) : TcpConn :=
  mkConn (state_ c) (input_ c) (output_ c) (channel_ c) (readcb_ c) (statecb_ c) (timeoutId_ c) (conn_fd_ c)
         (timers c) (writes c) (reads c) (wire c) (content (input_ c) :: delivered c).

(** channel_->... *)
Definition chan (c : TcpConn) : outcome Channel := from_option_fault NullDeref (channel_ c).

(** ** Writing *)

(** One round of ISend's loop per answer: [data] is the message, [sended] the
    bytes sent so far. *)
Fixpoint ISend_loop (ws : list wres) (data : list cell) (sended : Z) (c : TcpConn)
  : outcome (Z * TcpConn) :=
  if zlen data <=? sended then Ret (sended, set_writes ws (wire c) c)
  else
    ch ← chan c;
    let again ws :=
      Ret (sended, set_writes ws (wire c)
                     (if IsWriting ch then c else set_channel (Some (EnableWrite ch)) c)) in
    match ws with
    | [] => if fd_ ch <? 0 then Ret (sended, set_writes [] (wire c) c) else again []
    | w :: ws =>
        if fd_ ch <? 0 then Ret (sended, set_writes ws (wire c) c)   (* EBADF *)
        else match w with
        | Wrote n =>
            let n := Z.min n (zlen data - sended) in
            if 0 <? n
            then ISend_loop ws data (sended + n) (set_writes ws (wire c ++ zsub sended n data) c)
            else Ret (sended, set_writes ws (wire c) c)
        | WEintr => ISend_loop ws data sended c
        | WEagain => again ws
        | WErr => Ret (sended, set_writes ws (wire c) c)
        end
    end.

Definition ISend (data : list cell) (c : TcpConn) : outcome (Z * TcpConn) :=
  ISend_loop (writes c) data 0 c.

(** SendInLoop(message, len) in the loop thread *)
Definition SendInLoop (message : list cell) (c : TcpConn) : outcome TcpConn :=
  match channel_ c with
  | None => Ret c
  | Some _ =>
      r ← (if IsEmpty (output_ c)
           then r ← ISend message c; Ret (zdrop r.1 message, r.2)
           else Ret (message, c));
      if zlen r.1 =? 0 then Ret r.2
      else out ← Append r.1 (output_ r.2); Ret (set_output out r.2)
  end.

(** Send(const char* message, size_t len) in the loop thread *)
Definition Send (message : list cell) (c : TcpConn) : outcome TcpConn :=
  if bool_decide (state_ c = kConnected) then SendInLoop message c else Ret c.

(** Send(const char* message, size_t len) in another thread: the functor it
    queues copies the C string at [message] and sends [len] bytes from the
    copy.  [mem] is the memory from [message] on when the functor runs. *)
Definition Send_queued (mem : bytes) (len : Z) (c : TcpConn) : outcome TcpConn :=
  if bool_decide (state_ c = kConnected) then
    s ← c_str mem;
    let copy := s ++ [0] in
    _ ← require OutOfBounds (len <=? zlen copy);
    SendInLoop (Some <$> ztake len copy) c
  else Ret c.

(** Send(const std::string&) *)
Definition Send_string (message : bytes) (c : TcpConn) : outcome TcpConn :=
  s ← c_str (message ++ [0]);
  Send (Some <$> s) c.

(** Send(const char* s) *)
Definition Send_cstr (mem : bytes) (c : TcpConn) : outcome TcpConn :=
  s ← c_str mem; Send (Some <$> s) c.

(** IsConnected(), OnRead(cb), OnState(cb) *)
Definition IsConnected (c : TcpConn) : bool := bool_decide (state_ c = kConnected).
Definition OnRead (c : TcpConn) : TcpConn := set_callbacks true (statecb_ c) c.
Definition OnState (c : TcpConn) : TcpConn := set_callbacks (readcb_ c) true c.

(** Send(Buffer& message) for a buffer that is not output_; the result has the
    message's buffer too. *)
Definition Send_buffer (message : Buffer) (c : TcpConn) : outcome (Buffer * TcpConn) :=
  match channel_ c with
  | None => Ret (message, c)
  | Some ch =>
      if IsWriting ch then
        r ← Absorb (output_ c) message;
        Ret (r.2, set_output r.1 c)
      else if negb (GetSize message =? 0) then
        data ← read_cells (buf_ message) (b_ message) (b_ message + GetSize message);
        r ← ISend data c;
        let message := Consume r.1 message in
        let c := r.2 in
        if negb (GetSize message =? 0) then
          a ← Absorb (output_ c) message;
          ch ← chan c;
          let c := set_output a.1 c in
          Ret (a.2, if IsWriting ch then c else set_channel (Some (EnableWrite ch)) c)
        else Ret (message, c)
      else Ret (message, c)
  end.

(** SendOutput(), that is Send(output_): the message is the output buffer. *)
Definition SendOutput (c : TcpConn) : outcome TcpConn :=
  match channel_ c with
  | None => Ret c
  | Some ch =>
      if IsWriting ch then
        out ← Absorb_self (output_ c); Ret (set_output out c)
      else if negb (GetSize (output_ c) =? 0) then
        data ← read_cells (buf_ (output_ c)) (b_ (output_ c)) (b_ (output_ c) + GetSize (output_ c));
        r ← ISend data c;
        let c := set_output (Consume r.1 (output_ r.2)) r.2 in
        if negb (GetSize (output_ c) =? 0) then
          out ← Absorb_self (output_ c);
          ch ← chan c;
          let c := set_output out c in
          Ret (if IsWriting ch then c else set_channel (Some (EnableWrite ch)) c)
        else Ret c
      else Ret c
  end.

(** SendMsg(msg): the message is not used. *)
Definition SendMsg (msg : bytes) (c : TcpConn) : outcome TcpConn := SendOutput c.

(** ** Connecting, reading and closing *)

Section Callbacks.
(** The user's callbacks. *)
Context (on_read on_state : TcpConn → outcome TcpConn).

(** [if (readcb_ && input_.GetSize()) readcb_(con)] *)
Definition call_read (c : TcpConn) : outcome TcpConn :=
  if readcb_ c && negb (GetSize (input_ c) =? 0) then on_read (deliver c) else Ret c.

Definition CleanUp (c : TcpConn) : outcome TcpConn :=
  c ← call_read c;
  let c := set_state (if bool_decide (state_ c = kHandShakeing) then kFailed else kClosed) c in
  q ← Cancel (timeoutId_ c) (timers c);
  let c := set_timer (timeoutId_ c) q c in
  c ← (if statecb_ c then on_state c else Ret c);
  Ret (set_channel None (set_callbacks false false c)).

(** HandleHandShake; poll(2) returns [r] with the events [revents].  The state
    callback is named but not called. *)
Definition HandleHandShake (r revents : Z) (c : TcpConn) : outcome (Z * TcpConn) :=
  ch ← chan c;
  if (r =? 1) && (revents =? POLLOUT) then
    Ret (0, set_state kConnected (set_channel (Some (EnableRead ch)) c))
  else
    c ← CleanUp (set_state kFailed c);
    Ret (-1, c).

(** The most read(2) transfers in one call on Linux. *)
Definition max_rw_count : Z := 2 ^ 31 - 4096.

(** One round of HandleRead's loop per unit of fuel. *)
Fixpoint HandleRead_loop (fuel : nat) (c : TcpConn) : outcome TcpConn :=
  match fuel with
  | O => Diverge
  | S fuel =>
      if bool_decide (state_ c ≠ kConnected) then Ret c
      else
        inp ← MakeRoom0 (input_ c);
        let c := set_input inp c in
        ch ← chan c;
        if fd_ ch <? 0 then CleanUp c                (* rd = 0 *)
        else match reads c with
        | [] | REagain :: _ => call_read (set_reads (tail (reads c)) c)
        | REintr :: rs => HandleRead_loop fuel (set_reads rs c)
        | REof :: rs | RErr :: rs => CleanUp (set_reads rs c)
        | RData d :: rs =>
            let n := Z.min (zlen d) (Z.min (GetSpace inp) max_rw_count) in
            let rest := zdrop n d in
            let c := set_reads (if zlen rest =? 0 then rs else RData rest :: rs) c in
            if n =? 0 then CleanUp c                 (* rd = 0 *)
            else
              m ← write_cells (buf_ inp) (e_ inp) (Some <$> ztake n d);
              HandleRead_loop fuel
                (set_input (AddSize n (mkBuffer m (b_ inp) (e_ inp) (cap_ inp) (exp_ inp) (extra_ inp))) c)
        end
  end.

(** Rounds the script can ask for: one per answer and per byte. *)
Fixpoint reads_size (rs : list rres) : nat :=
  match rs with
  | [] => 1
  | RData d :: rs => S (length d + reads_size rs)
  | _ :: rs => S (reads_size rs)
  end.

(** HandleRead; [r] and [revents] are the answer of poll(2) in the handshake. *)
Definition HandleRead (r revents : Z) (c : TcpConn) : outcome TcpConn :=
  if bool_decide (state_ c = kHandShakeing) then
    h ← HandleHandShake r revents c;
    if negb (h.1 =? 0) then Ret h.2 else HandleRead_loop (reads_size (reads h.2)) h.2
  else HandleRead_loop (reads_size (reads c)) c.

Definition HandleWrite (r revents : Z) (c : TcpConn) : outcome TcpConn :=
  match state_ c with
  | kHandShakeing => h ← HandleHandShake r revents c; Ret h.2
  | kConnected =>
      data ← read_cells (buf_ (output_ c)) (b_ (output_ c)) (b_ (output_ c) + GetSize (output_ c));
      r ← ISend data c;
      let c := set_output (Consume r.1 (output_ r.2)) r.2 in
      if IsEmpty (output_ c) then
        ch ← chan c;
        Ret (if IsWriting ch then set_channel (Some (DisableWrite ch)) c else c)
      else Ret c
  | _ => Ret c
  end.

End Callbacks.

(** TcpConn() followed by Attach(loop, fd, ...): the field fd_ is not set. *)
Definition Attach (fd chan_id : Z) (c : TcpConn) : TcpConn :=
  set_channel
    (Some (SetCallback CbWrite (SetCallback CbRead
       (Channel_new fd (Z.lor kWriteEvent kReadEvent) chan_id))))
    (set_state kHandShakeing c).

(** The end of Connect, once the socket [fd] is there: attach, remember the
    descriptor and start the timeout.  [now], [now'] are the clocks RunAfter
    reads; [cb] is the timer callback. *)
Definition Connect (malloc : gmap Z Timer → option Z) (fd chan_id timeout : Z) (cb : nat) (now now' : Z)
    (c : TcpConn) : outcome TcpConn :=
  let c := set_fd (Some fd) (Attach fd chan_id (set_state kHandShakeing c)) in
  if timeout =? 0 then Ret c
  else
    time ← AddTime now (double_of_Z timeout);
    r ← AddTimer malloc cb time (double_of_Z 0) now' (timers c);
    Ret (set_timer r.1 r.2 c).

(** The functor of Close(): channel_->Close() leaves the descriptor -1. *)
Definition CloseInLoop (c : TcpConn) : TcpConn :=
  match channel_ c with
  | None => c
  | Some ch =>
      set_channel (Some (mkChannel (-1) (events_ ch) (revents_ ch) (id_ ch) (index_ ch) (callbacks_ ch))) c
  end.

(** Shutdown and ShutdownInLoop in the loop thread: the descriptor passed to
    shutdown(2). *)
Definition Shutdown (c : TcpConn) : outcome (option Z * TcpConn) :=
  if bool_decide (state_ c = kConnected) then
    fd ← from_option_fault UninitRead (conn_fd_ c);
    Ret (Some fd, set_state kClosed c)
  else Ret (None, c).

(** ** Lemmas *)

(** What was sent and what waits to be sent, in order. *)
Definition flow (c : TcpConn) : list cell := wire c ++ content (output_ c).

(** The kernel reports no error and takes at least a byte when it takes any. *)
Definition wres_ok (w : wres) : Prop :=
  match w with Wrote n => 0 < n | WErr => False | _ => True end.

(** An open connection: bytes that wait are waited for by the poller. *)
Definition open_inv (c : TcpConn) : Prop :=
  state_ c = kConnected ∧ buf_wf (output_ c) ∧ Forall wres_ok (writes c)
  ∧ ∃ ch, channel_ c = Some ch ∧ 0 ≤ fd_ ch
          ∧ (content (output_ c) ≠ [] → IsWriting ch = true).

Section SendLemmas.
Implicit Types c : TcpConn.

Lemma set_channel_id ch c : channel_ c = Some ch → set_channel (Some ch) c = c.
Proof. destruct c; simpl. by intros ->. Qed.

Lemma open_intro ch c :
  state_ c = kConnected → buf_wf (output_ c) → Forall wres_ok (writes c) → channel_ c = Some ch →
  0 ≤ fd_ ch → (content (output_ c) ≠ [] → IsWriting ch = true) → open_inv c.
Proof. intros. split_and!; try done. by exists ch. Qed.

Lemma zsub_sub {A} (l : list A) i n m :
  0 ≤ i → 0 ≤ n → 0 ≤ m → zsub i n l ++ zsub (i + n) m l = zsub i (n + m) l.
Proof. intros. by rewrite zsub_split by lia. Qed.

(** ISend puts a prefix of the message on the wire, and the poller watches for
    writability when it is not the whole message. *)
Lemma ISend_loop_ok ws data s c ch :
  Forall wres_ok ws → channel_ c = Some ch → 0 ≤ fd_ ch → 0 ≤ s ≤ zlen data →
  ∃ n ws' ch', ISend_loop ws data s c
      = Ret (n, set_writes ws' (wire c ++ zsub s (n - s) data) (set_channel (Some ch') c))
    ∧ s ≤ n ≤ zlen data ∧ Forall wres_ok ws' ∧ fd_ ch' = fd_ ch
    ∧ (n < zlen data → IsWriting ch' = true) ∧ (IsWriting ch = true → ch' = ch).
Proof.
  intros Hws Hch Hfd. revert s c Hch. induction ws as [|w ws IH]; intros s c Hch Hs; cbn [ISend_loop].
  all: destruct (Z.leb_spec (zlen data) s) as [Hle|Hlt];
    [eexists s, _, ch; rewrite Z.sub_diag, app_nil_r, set_channel_id by done; split; [done|];
     split_and!; done || lia|].
  all: unfold chan; rewrite Hch; cbn [from_option_fault mbind outcome_bind];
    rewrite (proj2 (Z.ltb_ge (fd_ ch) 0)) by done.
  all: assert (Hagain : ∀ ws', Forall wres_ok ws' → ∃ n ws'' ch',
      Ret (s, set_writes ws' (wire c) (if IsWriting ch then c else set_channel (Some (EnableWrite ch)) c))
      = Ret (n, set_writes ws'' (wire c ++ zsub s (n - s) data) (set_channel (Some ch') c))
      ∧ s ≤ n ≤ zlen data ∧ Forall wres_ok ws'' ∧ fd_ ch' = fd_ ch
      ∧ (n < zlen data → IsWriting ch' = true) ∧ (IsWriting ch = true → ch' = ch)).
  1,3: intros ws' Hws'; eexists s, ws', (if IsWriting ch then ch else EnableWrite ch);
    rewrite Z.sub_diag, app_nil_r; destruct (IsWriting ch) eqn:Hw;
    [rewrite set_channel_id by done|]; (split; [done|]);
    split_and!; try done; try lia; by rewrite IsWriting_EnableWrite.
  - by apply Hagain.
  - apply Forall_cons in Hws as [Hw Hws]. destruct w as [n| | |]; simpl in Hw; [|by apply IH|by apply Hagain|done].
    set (k := Z.min n (zlen data - s)). rewrite (proj2 (Z.ltb_lt 0 k)) by lia.
    destruct (IH Hws (s + k) (set_writes ws (wire c ++ zsub s k data) c)) as (m & ws' & ch' & -> & Hm & Hr);
      [done|lia|].
    exists m, ws', ch'. split; [|split; [lia|done]]. simpl. rewrite <- app_assoc.
    unfold set_writes; simpl. do 4 f_equal. rewrite zsub_sub by lia. f_equal. lia.
Qed.

Lemma ISend_ok data c ch :
  Forall wres_ok (writes c) → channel_ c = Some ch → 0 ≤ fd_ ch →
  ∃ n ws' ch', ISend data c
      = Ret (n, set_writes ws' (wire c ++ ztake n data) (set_channel (Some ch') c))
    ∧ 0 ≤ n ≤ zlen data ∧ Forall wres_ok ws' ∧ fd_ ch' = fd_ ch
    ∧ (n < zlen data → IsWriting ch' = true) ∧ (IsWriting ch = true → ch' = ch).
Proof.
  intros Hws Hch Hfd. pose proof (zlen_nonneg data).
  destruct (ISend_loop_ok (writes c) data 0 c ch Hws Hch Hfd) as (n & ws' & ch' & E & Hr); [lia|].
  exists n, ws', ch'. split; [|done]. unfold ISend. rewrite E. unfold zsub. by rewrite zdrop_0, Z.sub_0_r.
Qed.

Lemma IsEmpty_content b : buf_wf b → IsEmpty b = bool_decide (content b = []).
Proof.
  intros Hwf. pose proof (zlen_content b Hwf) as Hz. unfold IsEmpty.
  destruct (Z.eqb_spec (e_ b) (b_ b)) as [E|E].
  - rewrite bool_decide_true; [done|]. apply zlen_0_nil. lia.
  - rewrite bool_decide_false; [done|]. intros Hn. rewrite Hn, zlen_nil in Hz. lia.
Qed.

Lemma ztake_zdrop_app {A} n (l k : list A) : (k ++ ztake n l) ++ zdrop n l = k ++ l.
Proof. by rewrite <- app_assoc, ztake_zdrop. Qed.

(** A send that returns has added the message to the flow. *)
Lemma SendInLoop_Ret m c c' :
  open_inv c → zlen m ≤ ptrdiff_max → SendInLoop m c = Ret c' →
  open_inv c' ∧ flow c' = flow c ++ m.
Proof.
  intros (Hst & Hwf & Hws & ch & Hch & Hfd & Hw) Hm H. unfold SendInLoop in H. rewrite Hch in H.
  rewrite IsEmpty_content in H by done. case_bool_decide as He.
  - destruct (ISend_ok m c ch Hws Hch Hfd) as (n & ws' & ch' & E & Hn & Hws' & Hfd' & Hnw & Hkeep).
    rewrite E in H. cbn [mbind outcome_bind fst snd] in H.
    destruct (Z.eqb_spec (zlen (zdrop n m)) 0) as [Hz|Hz].
    + injection H as <-. split.
      * apply (open_intro ch'); simpl; done || lia.
      * unfold flow; simpl. rewrite He, !app_nil_r. apply zlen_0_nil in Hz.
        by rewrite <- (ztake_zdrop n m) at 2; rewrite Hz, app_nil_r.
    + inv_ret. subst. simpl in Hr. apply Append_Ret in Hr as (Hwf' & Hc' & _); [|done|].
      2:{ rewrite zlen_zdrop by lia. lia. }
      assert (IsWriting ch' = true) as Hon.
      { apply Hnw. destruct (decide (n = zlen m)) as [->|]; [|lia].
        by rewrite zdrop_all, zlen_nil in Hz by lia. }
      split.
      * apply (open_intro ch'); simpl; done || lia.
      * unfold flow; simpl. rewrite Hc', He. by rewrite app_nil_l, ztake_zdrop_app, app_nil_r.
  - cbn [mbind outcome_bind fst snd] in H. destruct (Z.eqb_spec (zlen m) 0) as [Hz|Hz].
    + injection H as <-. apply zlen_0_nil in Hz as ->. rewrite app_nil_r. split; [|done].
      by apply (open_intro ch).
    + inv_ret. subst. apply Append_Ret in Hr as (Hwf' & Hc' & _); [|done..]. split.
      * apply (open_intro ch); try done. intros _. by apply Hw.
      * unfold flow; simpl. by rewrite Hc', app_assoc.
Qed.

(** The range [Begin(), End()) of a buffer. *)
Lemma read_all b : buf_wf b → read_cells (buf_ b) (b_ b) (b_ b + GetSize b) = Ret (content b).
Proof.
  intros Hwf. rewrite GetSize_wf by done. replace (b_ b + (e_ b - b_ b)) with (e_ b) by lia.
  by apply read_cells_content.
Qed.

Lemma Send_buffer_Ret m c r :
  open_inv c → buf_wf m → Send_buffer m c = Ret r →
  open_inv r.2 ∧ flow r.2 = flow c ++ content m ∧ content r.1 = [] ∧ buf_wf r.1.
Proof.
  intros (Hst & Hwf & Hws & ch & Hch & Hfd & Hw) Hm H. unfold Send_buffer in H. rewrite Hch in H.
  destruct (IsWriting ch) eqn:Hiw.
  - inv_ret. subst. apply Absorb_Ret in Hr as (? & ? & Hc & ? & _); [|done..]. split_and!; try done.
    + by apply (open_intro ch).
    + unfold flow; simpl. by rewrite Hc, app_assoc.
  - assert (content (output_ c) = []) as He.
    { destruct (content (output_ c)); [done|]. by specialize (Hw ltac:(done)). }
    rewrite GetSize_content in H by done. destruct (Z.eqb_spec (zlen (content m)) 0) as [Hz|Hz]; simpl in H.
    { injection H as <-. simpl. apply zlen_0_nil in Hz. rewrite Hz, app_nil_r. split_and!; try done.
      by apply (open_intro ch). }
    rewrite <- GetSize_content, read_all in H by done. cbn [mbind outcome_bind] in H.
    destruct (ISend_ok (content m) c ch Hws Hch Hfd) as (n & ws' & ch' & E & Hn & Hws' & Hfd' & Hnw & Hkeep).
    rewrite E in H. cbn [mbind outcome_bind fst snd] in H.
    destruct (Consume_ok n m Hm Hn) as (Hmw & Hmc & _). rewrite GetSize_content, Hmc in H by done.
    assert (Hfd1 : 0 ≤ fd_ ch') by lia.
    destruct (Z.eqb_spec (zlen (zdrop n (content m))) 0) as [Hz'|Hz']; simpl in H.
    + injection H as <-. simpl. apply zlen_0_nil in Hz'. split_and!; try done; try congruence.
      * by apply (open_intro ch').
      * unfold flow; simpl. rewrite He, !app_nil_r. rewrite <- (ztake_zdrop n (content m)) at 2.
        by rewrite Hz', app_nil_r.
    + inv_ret. subst. simpl in Hr. apply Absorb_Ret in Hr as (? & ? & Hc & ? & _); [|done..].
      assert (IsWriting ch' = true) as Hon.
      { apply Hnw. destruct (decide (n = zlen (content m))) as [->|]; [|lia].
        by rewrite zdrop_all, zlen_nil in Hz' by lia. }
      rewrite Hon.
      split_and!; simpl; try done.
      * by apply (open_intro ch').
      * unfold flow; simpl. by rewrite Hc, He, Hmc, app_nil_l, app_nil_r, ztake_zdrop_app.
Qed.

(** HandleWrite on an open connection returns and moves output to the wire. *)
Lemma HandleWrite_ok on_read on_state r rev c :
  open_inv c →
  ∃ c', HandleWrite on_read on_state r rev c = Ret c' ∧ open_inv c' ∧ flow c' = flow c
    ∧ (content (output_ c') = [] → ∀ ch, channel_ c' = Some ch → IsWriting ch = false).
Proof.
  intros (Hst & Hwf & Hws & ch & Hch & Hfd & Hw). unfold HandleWrite. rewrite Hst, read_all by done.
  cbn [mbind outcome_bind].
  destruct (ISend_ok (content (output_ c)) c ch Hws Hch Hfd) as (n & ws' & ch' & E & Hn & Hws' & Hfd' & Hnw & _).
  rewrite E. cbn [mbind outcome_bind fst snd].
  destruct (Consume_ok n (output_ c) Hwf Hn) as (Hcw & Hcc & _).
  assert (Hflow : (wire c ++ ztake n (content (output_ c))) ++ content (Consume n (output_ c)) = flow c).
  { by rewrite Hcc, ztake_zdrop_app. }
  rewrite IsEmpty_content by done. simpl. case_bool_decide as He.
  - cbn. eexists; split; [done|]. destruct (IsWriting ch') eqn:Hiw.
    + split_and!; simpl; try done.
      * apply (open_intro (DisableWrite ch')); simpl; done || lia.
      * intros _ ? [= <-]. apply IsWriting_DisableWrite.
    + split_and!; simpl; try done.
      * apply (open_intro ch'); simpl; done || lia.
      * by intros _ ? [= <-].
  - eexists; split; [done|]. split_and!; simpl; try done.
    apply (open_intro ch'); simpl; try done; [lia|]. intros _. apply Hnw.
    destruct (decide (n = zlen (content (output_ c)))) as [->|]; [|lia].
    rewrite Hcc, zdrop_all in He; [done|lia].
Qed.

End SendLemmas.

(** What the kernel has for the reader, and whether the stream then ends. *)
Fixpoint read_plan (rs : list rres) : bytes * bool :=
  match rs with
  | [] | REagain :: _ => ([], false)
  | REof :: _ | RErr :: _ => ([], true)
  | REintr :: rs => read_plan rs
  | RData d :: rs => (d ++ (read_plan rs).1, (read_plan rs).2)
  end.

(** The answers that are left when the reading stops. *)
Fixpoint read_rest (rs : list rres) : list rres :=
  match rs with
  | [] => []
  | REagain :: rs | REof :: rs | RErr :: rs => rs
  | REintr :: rs | RData _ :: rs => read_rest rs
  end.

Definition rres_ok (r : rres) : Prop := match r with RData d => d ≠ [] | _ => True end.

(** [c'] is [c] after reading: only the input and the script changed. *)
Definition same_but_input (c c' : TcpConn) : Prop :=
  ∃ inp rs, c' = set_input inp (set_reads rs c).

Section ReadLemmas.
Context (on_read on_state : TcpConn → outcome TcpConn).
Implicit Types c : TcpConn.

(** MakeRoom() leaves room to read into, so read(2) is never asked for zero
    bytes, whose answer 0 would be taken for the end of the stream. *)
Lemma MakeRoom0_space b :
  buf_wf b → 0 < exp_ b → 2 * (e_ b + exp_ b) ≤ ptrdiff_max →
  ∃ b', MakeRoom0 b = Ret b' ∧ buf_wf b' ∧ content b' = content b ∧ exp_ b' = exp_ b
        ∧ e_ b' ≤ e_ b ∧ 0 < GetSpace b' ∧ is_Some (buf_ b').
Proof.
  intros Hwf Hexp Hsz. unfold MakeRoom0. pose proof (GetSpace_wf b Hwf) as Hs.
  pose proof Hwf as (Hm & Hb & He & Hc & _).
  destruct (Z.ltb_spec (GetSpace b) (exp_ b)) as [Hlt|Hge].
  - destruct (Expand_ok 0 b Hwf) as (b' & -> & Hwf' & Hc' & Hb' & He' & Hcap' & Hexp' & Hsome).
    + unfold ptrdiff_max in *. lia.
    + unfold next_cap, ptrdiff_max in *. lia.
    + exists b'. split_and!; try done; [lia|]. rewrite GetSpace_wf, Hcap', He' by done. unfold next_cap. lia.
  - exists b. split_and!; try done; try lia. destruct (buf_ b); [done|]. exfalso. lia.
Qed.

Lemma zdrop_nonempty {A} n (l : list A) : 0 ≤ n < zlen l → zdrop n l ≠ [].
Proof.
  intros Hn E. apply (f_equal zlen) in E. rewrite zlen_zdrop, zlen_nil in E by lia. lia.
Qed.

Lemma read_plan_rest n d rs :
  0 ≤ n ≤ zlen d →
  read_plan (if zlen (zdrop n d) =? 0 then rs else RData (zdrop n d) :: rs)
  = (zdrop n d ++ (read_plan rs).1, (read_plan rs).2).
Proof.
  intros Hn. destruct (Z.eqb_spec (zlen (zdrop n d)) 0) as [E|E]; [|done].
  apply zlen_0_nil in E. rewrite E. by destruct (read_plan rs).
Qed.

Lemma read_rest_rest n d rs :
  read_rest (if zlen (zdrop n d) =? 0 then rs else RData (zdrop n d) :: rs) = read_rest rs.
Proof. by destruct (_ =? 0). Qed.

Lemma reads_size_rest n d rs :
  0 < n ≤ zlen d →
  (reads_size (if (zlen (zdrop n d) =? 0)%Z then rs else RData (zdrop n d) :: rs)
   < reads_size (RData d :: rs))%nat.
Proof.
  intros Hn. assert (Z.of_nat (length (zdrop n d)) = zlen d - n) as E.
  { rewrite <- zlen_zdrop by lia. done. }
  unfold zlen in *. destruct (_ =? 0); cbn [reads_size]; lia.
Qed.

(** One read of data: at least a byte fits, and it is put behind the input. *)
Lemma read_chunk inp (d : bytes) :
  buf_wf inp → 0 < GetSpace inp → is_Some (buf_ inp) → d ≠ [] →
  let n := Z.min (zlen d) (Z.min (GetSpace inp) max_rw_count) in
  0 < n ≤ zlen d ∧ e_ inp + n < 2 ^ 64 ∧
  ∃ m, write_cells (buf_ inp) (e_ inp) (Some <$> ztake n d) = Ret m
    ∧ let inp' := mkBuffer m (b_ inp) (u64 (e_ inp + n)) (cap_ inp) (exp_ inp) (extra_ inp) in
      buf_wf inp' ∧ content inp' = content inp ++ (Some <$> ztake n d).
Proof.
  intros Hwf Hsp [l Hl] Hd n. pose proof (GetSpace_wf inp Hwf). pose proof Hwf as (Hlen & Hb & He & Hcap & _).
  assert (0 < zlen d) by (destruct d; [done|rewrite zlen_cons; pose proof (zlen_nonneg d); lia]).
  assert (0 < n ≤ zlen d ∧ n ≤ GetSpace inp) as [Hn Hns] by (unfold n, max_rw_count; lia).
  assert (zlen (Some <$> ztake n d) = n) as Hzn by (rewrite zlen_fmap, zlen_ztake; lia).
  split; [done|]. split; [unfold ptrdiff_max in *; lia|]. rewrite Hl in *. eexists. split; [apply write_cells_ok; lia|].
  destruct (write_at_end inp l (Some <$> ztake n d) Hwf Hl) as [Hw Hc]; [lia|]. by rewrite Hzn in Hw, Hc.
Qed.

(** Reading [n] bytes into [b] gave [b']. *)
Definition grown (n : Z) (b b' : Buffer) : Prop := exp_ b' = exp_ b ∧ e_ b' ≤ e_ b + n.

(** The loop of HandleRead collects everything the kernel has in the input
    buffer, then calls the read callback or cleans up. *)
Lemma HandleRead_loop_ok fuel c ch :
  (reads_size (reads c) ≤ fuel)%nat → state_ c = kConnected → channel_ c = Some ch → 0 ≤ fd_ ch →
  Forall rres_ok (reads c) → buf_wf (input_ c) → 0 < exp_ (input_ c) →
  2 * (e_ (input_ c) + zlen (read_plan (reads c)).1 + exp_ (input_ c)) ≤ ptrdiff_max →
  ∃ c', HandleRead_loop on_read on_state fuel c
        = (if (read_plan (reads c)).2 then CleanUp on_read on_state c' else call_read on_read c')
    ∧ same_but_input c c' ∧ buf_wf (input_ c')
    ∧ content (input_ c') = content (input_ c) ++ (Some <$> (read_plan (reads c)).1)
    ∧ grown (zlen (read_plan (reads c)).1) (input_ c) (input_ c')
    ∧ reads c' = read_rest (reads c).
Proof.
  revert c. induction fuel as [|fuel IH]; intros c Hfuel Hst Hch Hfd Hok Hwf Hexp Hsz.
  { destruct (reads c) as [|[]]; simpl in Hfuel; lia. }
  cbn [HandleRead_loop]. rewrite bool_decide_false by (intros E; by apply E).
  destruct (MakeRoom0_space (input_ c) Hwf Hexp) as (inp & -> & Hwf' & Hc' & Hexp' & He' & Hsp & Hsome).
  { pose proof (zlen_nonneg (read_plan (reads c)).1). lia. }
  cbn [mbind outcome_bind]. unfold chan; simpl. rewrite Hch. cbn [from_option_fault mbind outcome_bind].
  rewrite (proj2 (Z.ltb_ge _ _)) by done. simpl.
  assert (Hstop : ∀ rs (d : bytes), d = [] → ∃ c', set_reads rs (set_input inp c) = c' ∧ same_but_input c c'
            ∧ buf_wf (input_ c') ∧ content (input_ c') = content (input_ c) ++ (Some <$> d)
            ∧ grown (zlen d) (input_ c) (input_ c') ∧ reads c' = rs).
  { intros rs d ->. eexists. split; [done|]. split; [by exists inp, rs|]. rewrite app_nil_r. split; [done|].
    split; [done|]. split; [|done]. split; [done|]. change (e_ inp ≤ e_ (input_ c) + 0). lia. }
  assert (Hloop : ∀ rs inp', (reads_size rs ≤ fuel)%nat → Forall rres_ok rs → buf_wf inp' → exp_ inp' = exp_ inp →
     2 * (e_ inp' + zlen (read_plan rs).1 + exp_ inp') ≤ ptrdiff_max →
     ∃ c', HandleRead_loop on_read on_state fuel (set_input inp' (set_reads rs c))
        = (if (read_plan rs).2 then CleanUp on_read on_state c' else call_read on_read c')
       ∧ same_but_input c c' ∧ buf_wf (input_ c')
       ∧ content (input_ c') = content inp' ++ (Some <$> (read_plan rs).1)
       ∧ grown (zlen (read_plan rs).1) inp' (input_ c') ∧ reads c' = read_rest rs).
  { intros rs inp' Hf Hok' Hwf2 Hexp2 Hsz2.
    destruct (IH (set_input inp' (set_reads rs c))) as (c' & E & (inp2 & rs2 & E2) & Hw2 & Hc2);
      try done; [by simpl; rewrite Hexp2, Hexp'|].
    exists c'. split; [done|]. split; [|done]. rewrite E2. by exists inp2, rs2. }
  assert (Hgrow : ∀ n inp' b', grown n inp' b' → exp_ inp' = exp_ inp → ∀ m, e_ inp' + n ≤ e_ inp + m → grown m (input_ c) b').
  { intros n inp' b' [H1 H2] H3 m H4. split; [congruence|]. lia. }
  rewrite <- Hc'. destruct (reads c) as [|r rs] eqn:Hrs.
  - simpl. destruct (Hstop [] []) as (c' & Ec & ? & ? & Hcc); [done|]. exists c'. rewrite Ec, Hc'. done.
  - apply Forall_cons in Hok as [Hr Hok]. destruct r as [d| | | |]; simpl in Hsz, Hfuel |- *.
    2,5: destruct (Hstop rs []) as (c' & Ec & ? & ? & Hcc); [done|]; exists c'; rewrite Ec, Hc'; done.
    + rewrite zlen_app in Hsz. pose proof (zlen_nonneg (read_plan rs).1).
      destruct (read_chunk inp d Hwf' Hsp Hsome Hr) as (Hn & Hen & m & Hm & Hwf2 & Hc2).
      set (n := Z.min (zlen d) (Z.min (GetSpace inp) max_rw_count)) in *.
      rewrite (proj2 (Z.eqb_neq n 0)), Hm by lia. cbn [mbind outcome_bind].
      set (rest := if zlen (zdrop n d) =? 0 then rs else RData (zdrop n d) :: rs).
      destruct (Hloop rest (mkBuffer m (b_ inp) (u64 (e_ inp + n)) (cap_ inp) (exp_ inp) (extra_ inp)))
        as (c' & E & ? & ? & Hcc); try done.
      * pose proof (reads_size_rest n d rs Hn). unfold rest. cbn [reads_size] in *. lia.
      * unfold rest. destruct (Z.eqb_spec (zlen (zdrop n d)) 0) as [|Hz]; [done|].
        constructor; [|done]. simpl. intros E0. by rewrite E0 in Hz.
      * unfold rest. rewrite read_plan_rest by lia. simpl.
        pose proof Hwf' as (_ & Hb & _). rewrite zlen_app, zlen_zdrop, wrap_id by lia. lia.
      * unfold rest in E, Hcc. rewrite read_plan_rest in E, Hcc by lia. simpl in E, Hcc.
        destruct Hcc as (Hcc & Hg & Hrest). exists c'. split; [exact E|]. split; [done|]. split; [done|]. split.
        -- rewrite Hcc, Hc2, <- app_assoc, <- !fmap_app, app_assoc, ztake_zdrop. done.
        -- split; [|unfold rest in Hrest; by rewrite read_rest_rest in Hrest]. apply (Hgrow _ _ _ Hg); [done|]. simpl. pose proof Hwf' as (_ & Hb & _).
           rewrite !zlen_app, zlen_zdrop, wrap_id by lia. lia.
    + destruct (Hloop rs inp) as (c' & E & ? & ? & ? & Hg & ?); try done; [lia|lia|]. exists c'.
      split_and!; try done. by apply (Hgrow _ _ _ Hg).
    + destruct (Hstop rs []) as (c' & Ec & ? & ? & Hcc); [done|]. exists c'. rewrite Ec, Hc'. done.
Qed.

End ReadLemmas.

(** ** Sessions *)

(** The ways bytes enter and leave the output side of an open connection in
    the loop thread, with the bytes sent so far. *)
Inductive out_step (on_read on_state : TcpConn → outcome TcpConn)
  : TcpConn * list cell → TcpConn * list cell → Prop :=
| out_send (m : list cell) c c' s :
    zlen m ≤ ptrdiff_max → Send m c = Ret c' → out_step on_read on_state (c, s) (c', s ++ m)
| out_buffer (m : Buffer) c r s :
    buf_wf m → Send_buffer m c = Ret r → out_step on_read on_state (c, s) (r.2, s ++ content m)
| out_output c c' s : SendOutput c = Ret c' → out_step on_read on_state (c, s) (c', s)
| out_writable r rev c c' s :
    HandleWrite on_read on_state r rev c = Ret c' → out_step on_read on_state (c, s) (c', s).

Section SessionLemmas.
Context (on_read on_state : TcpConn → outcome TcpConn).
Implicit Types c : TcpConn.

Lemma Send_open m c : open_inv c → Send m c = SendInLoop m c.
Proof. intros (Hst & _). unfold Send. by rewrite bool_decide_true. Qed.

Lemma SendOutput_ok c :
  open_inv c → ∃ c', SendOutput c = Ret c' ∧ open_inv c' ∧ flow c' = flow c.
Proof.
  intros Hi. pose proof Hi as (Hst & Hwf & Hws & ch & Hch & Hfd & Hw). unfold SendOutput. rewrite Hch.
  destruct (IsWriting ch) eqn:Hiw; [by eexists; split; [done|destruct c]|].
  assert (content (output_ c) = []) as He.
  { destruct (content (output_ c)); [done|]. by specialize (Hw ltac:(done)). }
  rewrite GetSize_content, He by done. by exists c.
Qed.

Lemma out_step_inv x y :
  open_inv x.1 ∧ flow x.1 = x.2 → out_step on_read on_state x y → open_inv y.1 ∧ flow y.1 = y.2.
Proof.
  intros [Hi Hf] Hs. destruct Hs as [m c c' s Hm H|m c r s Hm H|c c' s H|r rev c c' s H]; simpl in *.
  - rewrite Send_open in H by done. destruct (SendInLoop_Ret m c c' Hi Hm H) as [? ->]. by rewrite Hf.
  - destruct (Send_buffer_Ret m c r Hi Hm H) as (? & -> & _). by rewrite Hf.
  - destruct (SendOutput_ok c Hi) as (c1 & E & ? & ?). rewrite E in H. injection H as <-. by rewrite <- Hf.
  - destruct (HandleWrite_ok on_read on_state r rev c Hi) as (c1 & E & ? & ? & _).
    rewrite E in H. injection H as <-. by rewrite <- Hf.
Qed.

(** With room for what the kernel leaves over, a send returns. *)
Lemma SendInLoop_returns m c :
  open_inv c → zlen m ≤ ptrdiff_max → (∀ n, 0 ≤ n ≤ zlen m → append_room (zdrop n m) (output_ c)) →
  ∃ c', SendInLoop m c = Ret c'.
Proof.
  intros (Hst & Hwf & Hws & ch & Hch & Hfd & Hw) Hm Hroom. unfold SendInLoop. rewrite Hch.
  pose proof (zlen_nonneg m). destruct (IsEmpty (output_ c)).
  - destruct (ISend_ok m c ch Hws Hch Hfd) as (n & ws' & ch' & -> & Hn & _).
    cbn [mbind outcome_bind fst snd]. destruct (_ =? 0); [by eauto|]. simpl.
    destruct (Append_ok (zdrop n m) (output_ c)) as (b & -> & _); [done| |by apply Hroom|by eauto].
    rewrite zlen_zdrop by lia. lia.
  - cbn [mbind outcome_bind fst snd]. destruct (_ =? 0); [by eauto|].
    destruct (Append_ok m (output_ c)) as (b & -> & _); [done|done| |by eauto].
    apply (Hroom 0). lia.
Qed.

End SessionLemmas.

(** ** Properties *)

(** C4: the byte stream.  On an open connection whose socket reports no error,
    whatever sequence of Send, Send(Buffer&), SendOutput and writable events
    happens and however the kernel splits, delays or interrupts the writes:
    the bytes on the wire followed by the bytes in the output buffer are the
    bytes sent, in order, and while bytes wait the channel asks for
    writability. *)
Theorem byte_stream (on_read on_state : TcpConn → outcome TcpConn) (c0 c : TcpConn) (s : list cell) :
  open_inv c0 → rtc (out_step on_read on_state) (c0, flow c0) (c, s) →
  wire c ++ content (output_ c) = s
  ∧ (content (output_ c) ≠ [] → ∃ ch, channel_ c = Some ch ∧ IsWriting ch = true).
Proof.
  intros Hi Hr. destruct (rtc_invariant _ (λ x, open_inv x.1 ∧ flow x.1 = x.2) (c0, flow c0) _ (conj Hi eq_refl)
    (out_step_inv on_read on_state) Hr) as [(_ & _ & _ & ch & Hch & _ & Hw) Hf]; simpl in *.
  split; [done|]. intros Hne. exists ch. auto.
Qed.

(** C23: the output side makes progress.  A send returns when the output buffer
    has room for what the kernel leaves over (append_room excludes the gap of
    Buffer::Append), and a writable event always returns: it moves bytes from
    the buffer to the wire, and stops asking for writability once all are
    sent. *)
Theorem output_progress (on_read on_state : TcpConn → outcome TcpConn) (c : TcpConn) (m : list cell)
    (r rev : Z) :
  open_inv c → zlen m ≤ ptrdiff_max → (∀ n, 0 ≤ n ≤ zlen m → append_room (zdrop n m) (output_ c)) →
  (∃ c', Send m c = Ret c' ∧ open_inv c' ∧ flow c' = flow c ++ m)
  ∧ (∃ c', HandleWrite on_read on_state r rev c = Ret c' ∧ flow c' = flow c
       ∧ (content (output_ c') = [] → ∀ ch, channel_ c' = Some ch → IsWriting ch = false)).
Proof.
  intros Hi Hm Hroom. split.
  - destruct (SendInLoop_returns m c Hi Hm Hroom) as [c' E]. exists c'. rewrite Send_open by done.
    split; [done|]. by apply SendInLoop_Ret.
  - destruct (HandleWrite_ok on_read on_state r rev c Hi) as (c' & ? & _ & ? & ?). eauto.
Qed.

(** C22: reading.  HandleRead on a connected socket ends, puts every byte the
    kernel has behind the input it held, whatever the sizes of the chunks, and
    then makes exactly one call: the read callback when the socket is drained,
    CleanUp when the stream has ended or failed.  In particular read(2) is
    never asked for zero bytes. *)
Theorem handle_read_collects (on_read on_state : TcpConn → outcome TcpConn) (r rev : Z) (c : TcpConn)
    (ch : Channel) :
  state_ c = kConnected → channel_ c = Some ch → 0 ≤ fd_ ch → Forall rres_ok (reads c) →
  buf_wf (input_ c) → 0 < exp_ (input_ c) →
  2 * (e_ (input_ c) + zlen (read_plan (reads c)).1 + exp_ (input_ c)) ≤ ptrdiff_max →
  ∃ c', HandleRead on_read on_state r rev c
        = (if (read_plan (reads c)).2 then CleanUp on_read on_state c' else call_read on_read c')
    ∧ same_but_input c c' ∧ buf_wf (input_ c')
    ∧ content (input_ c') = content (input_ c) ++ (Some <$> (read_plan (reads c)).1).
Proof.
  intros Hst Hch Hfd Hok Hwf Hexp Hsz. unfold HandleRead. rewrite bool_decide_false by (by rewrite Hst).
  destruct (HandleRead_loop_ok on_read on_state (reads_size (reads c)) c ch) as (c' & ? & ? & ? & ? & _); eauto.
Qed.

(** The state machine.  A handshake that poll(2) reports as writable makes
    the connection kConnected.  One that fails sets kFailed, but CleanUp then
    overwrites it with kClosed, so a failed connect is reported like a closed
    connection, and the channel and callbacks are gone.  (The callbacks are
    assumed not to touch the state; the timer id is the null one.) *)
Theorem handshake_outcome (on_read on_state : TcpConn → outcome TcpConn) (r rev : Z) (c : TcpConn)
    (ch : Channel) :
  state_ c = kHandShakeing → channel_ c = Some ch → timer_ (timeoutId_ c) = 0 →
  (∀ x, on_read x = Ret x ∧ on_state x = Ret x) →
  ∃ h c', HandleHandShake on_read on_state r rev c = Ret (h, c')
    ∧ (r = 1 ∧ rev = POLLOUT → h = 0 ∧ state_ c' = kConnected ∧ is_Some (channel_ c'))
    ∧ (¬ (r = 1 ∧ rev = POLLOUT) → h = -1 ∧ state_ c' = kClosed ∧ channel_ c' = None
         ∧ readcb_ c' = false ∧ statecb_ c' = false).
Proof.
  intros Hst Hch Hid Hcb. unfold HandleHandShake, chan. rewrite Hch. cbn [from_option_fault mbind outcome_bind].
  destruct ((r =? 1) && (rev =? POLLOUT)) eqn:E.
  - eexists _, _. split; [done|]. split; [intros _; split_and!; by eauto|].
    intros []. apply andb_prop in E as [?%Z.eqb_eq ?%Z.eqb_eq]. done.
  - assert (¬ (r = 1 ∧ rev = POLLOUT)) as Hno by (intros [-> ->]; done).
    assert (∃ c1, call_read on_read (set_state kFailed c) = Ret c1
              ∧ timeoutId_ c1 = timeoutId_ c ∧ state_ c1 = kFailed) as (c1 & E1 & Ht1 & Hs1).
    { unfold call_read. destruct (readcb_ _ && _).
      - exists (deliver (set_state kFailed c)). by rewrite (proj1 (Hcb _)).
      - by exists (set_state kFailed c). }
    unfold CleanUp. rewrite E1. cbn [mbind outcome_bind]. simpl. rewrite Hs1. unfold Cancel, CancelTimerIdInLoop.
    rewrite Ht1, Hid. cbn [mbind outcome_bind]. simpl.
    destruct (statecb_ c1); [rewrite (proj2 (Hcb _))|];
      (eexists _, _; split; [done|]; split; [done|intros _; done]).
Qed.

(** A connection made with a connect timeout is not safe to close.  When
    the timeout has fired, its timer object is deleted while timeoutId_ still
    points to it; closing the connection later (CleanUp) cancels that id and
    reads the deleted object. *)
Theorem close_after_timeout (on_read on_state : TcpConn → outcome TcpConn)
    (malloc : gmap Z Timer → option Z) (cbs : nat → list action) (now clk t : Z) (tm : Timer)
    (q q' : TimerQueue) (c : TcpConn) :
  malloc_ok malloc → tq_wf q → (t, timer_ (timeoutId_ c)) ∈ timers_ q → t ≤ now →
  heap q !! timer_ (timeoutId_ c) = Some tm → repeat_ tm = false →
  TimerQueue.HandleRead malloc cbs now clk q = Ret q' → timers c = q' → readcb_ c = false →
  CleanUp on_read on_state c = Fault UseAfterFree.
Proof.
  intros Hm Hwf Hin Hle Hl Hrep H Hq Hr. unfold CleanUp, call_read. rewrite Hr.
  cbn [andb mbind outcome_bind]. simpl. rewrite Hq.
  pose proof (fired_id_stale malloc cbs now clk t _ tm q q' Hm Hwf Hin Hle Hl Hrep H) as Hc.
  unfold Cancel, CancelTimerIdInLoop in *. simpl in Hc. by rewrite Hc.
Qed.

(** Sending from another thread.  The queued functor rebuilds the message
    as a C string: a message without a NUL byte, still in memory and followed
    by one, is sent whole; with a NUL byte inside, sending [len] bytes reads
    behind the copy.  Send(std::string) on the loop thread sends only the part
    before the first NUL. *)
Theorem send_nul (m tail : bytes) (c : TcpConn) :
  state_ c = kConnected → 0 ∉ m → tail ≠ [] →
  Send_queued (m ++ 0 :: tail) (zlen m) c = Send (Some <$> m) c
  ∧ Send_queued (m ++ 0 :: tail) (zlen (m ++ 0 :: tail)) c = Fault OutOfBounds
  ∧ Send_string (m ++ 0 :: tail) c = Send (Some <$> m) c.
Proof.
  intros Hst Hm Hk. assert (1 ≤ zlen tail) as Hlen.
  { destruct tail as [|x l]; [done|]. rewrite zlen_cons. pose proof (zlen_nonneg l). lia. }
  unfold Send_queued, Send_string, Send. rewrite bool_decide_true by done.
  rewrite <- app_assoc, <- app_comm_cons, !c_str_app by done. cbn [mbind outcome_bind]. pose proof (zlen_nonneg m).
  autorewrite with jnet. unfold require.
  rewrite (proj2 (Z.leb_le _ _)), (proj2 (Z.leb_gt _ _)) by lia. cbn [mbind outcome_bind].
  by rewrite ztake_app_length.
Qed.

(** ** A connection to try the properties on *)

Definition demo_chan : Channel := Channel_new 5 (Z.lor kWriteEvent kReadEvent) 1.

(** A connected socket that takes three bytes, is interrupted, and is full. *)
Definition demo_conn : TcpConn :=
  mkConn kConnected Buffer_new Buffer_new (Some demo_chan) true true (mkTimerId 0 0) None
         TimerQueue_new [Wrote 3; WEintr; WEagain; Wrote 10] [RData [1; 2]; REintr; RData [3]; REof] [] [].

Definition idle (c : TcpConn) : outcome TcpConn := Ret c.

Lemma demo_open : open_inv demo_conn.
Proof. apply (open_intro demo_chan); [done|apply wf_new|by repeat constructor|done|by vm_compute|done]. Qed.

Definition sent_conn : TcpConn :=
  match Send (Some <$> [1; 2; 3; 4; 5]) demo_conn with Ret c => c | _ => demo_conn end.

Lemma byte_stream_witness : wire sent_conn ++ content (output_ sent_conn) = Some <$> [1; 2; 3; 4; 5].
Proof.
  destruct (byte_stream idle idle demo_conn sent_conn (Some <$> [1; 2; 3; 4; 5]) demo_open) as [H _].
  - apply rtc_once. refine (out_send idle idle (Some <$> [1; 2; 3; 4; 5]) demo_conn sent_conn (flow demo_conn) _ _);
      by vm_compute.
  - exact H.
Defined.

Lemma output_progress_witness :
  ∃ c', Send [Some 1; Some 2] demo_conn = Ret c' ∧ open_inv c' ∧ flow c' = [Some 1; Some 2].
Proof.
  destruct (output_progress idle idle demo_conn [Some 1; Some 2] 1 4 demo_open) as [H _].
  - by vm_compute.
  - intros n Hn. right. assert (zlen (zdrop n [Some 1; Some 2]) = 2 - n) as Hz by (by rewrite zlen_zdrop).
    unfold next_cap, ptrdiff_max. simpl. rewrite Hz. change (zlen [Some 1; Some 2]) with 2 in Hn. lia.
  - exact H.
Defined.

Lemma handle_read_collects_witness :
  ∃ c', HandleRead idle idle 1 4 demo_conn = CleanUp idle idle c'
        ∧ content (input_ c') = [Some 1; Some 2; Some 3].
Proof.
  destruct (handle_read_collects idle idle 1 4 demo_conn demo_chan) as (c' & H & _ & _ & Hc);
    [done|done|by vm_compute|by repeat constructor|apply wf_new|by vm_compute|by vm_compute|].
  exists c'. split; [exact H|exact Hc].
Defined.

Lemma handshake_outcome_witness :
  ∃ h c', HandleHandShake idle idle 1 (Z.lor POLLOUT POLLERR) (set_state kHandShakeing demo_conn) = Ret (h, c')
          ∧ state_ c' = kClosed.
Proof.
  destruct (handshake_outcome idle idle 1 (Z.lor POLLOUT POLLERR) (set_state kHandShakeing demo_conn) demo_chan)
    as (h & c' & H & _ & Hf); [done..|].
  exists h, c'. split; [exact H|]. apply Hf. by intros [_ ?].
Defined.

(** The connection's timeout is the first timer of the timer queue's demo. *)
Definition timeout_conn : TcpConn := set_callbacks false false (set_timer (mkTimerId 16 0) demo_fired demo_conn).

Lemma close_after_timeout_witness : CleanUp idle idle timeout_conn = Fault UseAfterFree.
Proof.
  apply (close_after_timeout idle idle malloc16 demo_cbs 3000 3001 1000 demo_timer demo demo_fired).
  - apply malloc16_ok.
  - apply demo_wf.
  - by_decide.
  - lia.
  - by vm_compute.
  - done.
  - by vm_compute.
  - done.
  - done.
Defined.

Lemma send_nul_witness : Send_queued [65; 0; 66] 3 demo_conn = Fault OutOfBounds.
Proof. apply (send_nul [65] [66] demo_conn); [done|by_decide|done]. Defined.
