(* ===== verification/AcceptRace.v ===== *)
(** * net/tcpserver.cc and net/tcpconn.cc: a connection while it is being accepted

    HandleAccept runs in the thread of the server's loop: it calls createcb_, queues
    Attach in the loop of the connection, and then sets the state and read callbacks
    on the connection.  The loop of the connection runs in another thread: it attaches
    the descriptor and handles its events.  Here the two run interleaved, on the list
    of actions that accept_loop of TcpServer.v gives and on the connection of
    TcpConn.v.  An assignment of a callback is taken as one step. *)

From S2P Require Import Prelude EventLoopPool TcpServer Buffer Channel Time TimerQueue TcpConn.

(** ** The two threads *)

Record Race : Type := mkRace {
  rc_todo : list server_ev;        (* what HandleAccept has left to do *)
  rc_queued : option Z;            (* the functor of Attach in the queue of the loop *)
  rc_conn : TcpConn;
  rc_came : list cell;             (* every byte the peer has sent so far *)
}.

Section Race.
(** What createcb_ does to the connection, the user's callbacks, and the id of the
    channel. *)
Context (create : TcpConn → TcpConn) (on_read on_state : TcpConn → outcome TcpConn) (id : Z).

(** The next action of HandleAccept on the connection. *)
Definition accept_next (s : Race) : option Race :=
  match rc_todo s with
  | [] => None
  | EvCreate _ :: es => Some (mkRace es (rc_queued s) (create (rc_conn s)) (rc_came s))
  | EvAttach _ _ fd :: es => Some (mkRace es (Some fd) (rc_conn s) (rc_came s))
  | EvOnState _ :: es => Some (mkRace es (rc_queued s) (set_callbacks (readcb_ (rc_conn s)) true (rc_conn s)) (rc_came s))
  | EvOnRead _ :: es => Some (mkRace es (rc_queued s) (set_callbacks true (statecb_ (rc_conn s)) (rc_conn s)) (rc_came s))
  | EvClose _ _ :: es | EvLost _ :: es => Some (mkRace es (rc_queued s) (rc_conn s) (rc_came s))
  end.

(** A readable event with [chunk] in the socket; poll(2) finds an accepted socket
    writable. *)
Definition readable (chunk : bytes) (c : TcpConn) : outcome TcpConn :=
  HandleRead on_read on_state 1 POLLOUT (set_reads [RData chunk; REagain] c).

Inductive race_step : Race → Race → Prop :=
| rs_accept s s' : accept_next s = Some s' → race_step s s'
| rs_attach todo fd c came :
    race_step (mkRace todo (Some fd) c came) (mkRace todo None (Attach fd id c) came)
| rs_read todo q c c' came chunk :
    is_Some (channel_ c) → chunk ≠ [] → zlen chunk < 2 ^ 32 → readable chunk c = Ret c' →
    race_step (mkRace todo q c came) (mkRace todo q c' (came ++ (Some <$> chunk)))
| rs_write todo q c c' came :
    is_Some (channel_ c) → HandleWrite on_read on_state 1 POLLOUT c = Ret c' →
    race_step (mkRace todo q c came) (mkRace todo q c' came).

End Race.

(** A new connection, TcpConn(): its state is never read before Attach. *)
Definition accepted : TcpConn :=
  mkConn kInvalid Buffer_new Buffer_new None false false (mkTimerId 0 0) None TimerQueue_new [] [] [] [].

(** HandleAccept with [s] on the descriptor [fd], the connection new. *)
Definition race_init (evs : list server_ev) : Race := mkRace evs None accepted [].

(** A callback that takes the whole input. *)
Definition take_all (c : TcpConn) : outcome TcpConn := Ret (set_input (Clear (input_ c)) c).

(** What the read callback has been handed, in order. *)
Definition handed (c : TcpConn) : list cell := concat (reverse (delivered c)).

(** ** Lemmas *)

(** The connection on its way: nothing to send, the descriptor open once attached. *)
Definition race_conn_ok (c : TcpConn) : Prop :=
  buf_wf (input_ c) ∧ exp_ (input_ c) = 4096 ∧ buf_wf (output_ c) ∧ content (output_ c) = [] ∧ writes c = []
  ∧ ∀ x, channel_ c = Some x → 0 ≤ fd_ x ∧ (state_ c = kHandShakeing ∨ state_ c = kConnected).

Section Lemmas.
Context (on_read on_state : TcpConn → outcome TcpConn).
Implicit Types c : TcpConn.

Lemma handshake_ok c x :
  channel_ c = Some x →
  HandleHandShake on_read on_state 1 POLLOUT c = Ret (0, set_state kConnected (set_channel (Some (EnableRead x)) c)).
Proof. intros Hx. unfold HandleHandShake, chan. by rewrite Hx. Qed.

(** A readable event on an attached connection collects the chunk, then calls the
    callback. *)
Lemma readable_ok c chunk :
  race_conn_ok c → is_Some (channel_ c) → chunk ≠ [] → zlen chunk < 2 ^ 32 → e_ (input_ c) < 2 ^ 32 →
  ∃ c1, readable on_read on_state chunk c = call_read on_read c1 ∧ race_conn_ok c1 ∧ is_Some (channel_ c1)
    ∧ content (input_ c1) = content (input_ c) ++ (Some <$> chunk)
    ∧ readcb_ c1 = readcb_ c ∧ delivered c1 = delivered c.
Proof.
  intros (Hwf & Hexp & Hwo & Hco & Hws & Hch) [x Hx] Hne Hlen He. destruct (Hch x Hx) as [Hfd Hst].
  set (c0 := set_reads [RData chunk; REagain] c).
  assert (∃ c2 y, readable on_read on_state chunk c = HandleRead_loop on_read on_state (reads_size (reads c2)) c2
    ∧ state_ c2 = kConnected ∧ channel_ c2 = Some y ∧ 0 ≤ fd_ y ∧ reads c2 = [RData chunk; REagain] ∧ input_ c2 = input_ c
    ∧ output_ c2 = output_ c ∧ writes c2 = writes c ∧ readcb_ c2 = readcb_ c ∧ delivered c2 = delivered c)
    as (c2 & y & -> & Hs2 & Hy & Hfy & Hr2 & Hi2 & Ho2 & Hw2 & Hcb2 & Hd2).
  { unfold readable, HandleRead. fold c0. destruct Hst as [Hst|Hst].
    - rewrite bool_decide_true by done. rewrite (handshake_ok c0 x Hx). cbn [mbind outcome_bind fst snd Z.eqb negb].
      eexists _, (EnableRead x). split; [done|]. by split_and!.
    - rewrite bool_decide_false by (change (state_ c0) with (state_ c); by rewrite Hst). exists c0, x. by split_and!. }
  destruct (HandleRead_loop_ok on_read on_state (reads_size (reads c2)) c2 y) as (c1 & E & (inp & rs & ->) & Hwf1 & Hc1 & [He1 _] & _);
    try done; rewrite ?Hr2, ?Hi2, ?Hexp; [by repeat constructor|done|done| |].
  { cbn. rewrite app_nil_r. unfold ptrdiff_max. lia. }
  assert ((read_plan (reads c2)).2 = false) as Hend by (by rewrite Hr2). rewrite Hend, Hr2 in E.
  rewrite Hr2, Hi2 in Hc1. cbn in Hc1, Hwf1. rewrite app_nil_r in Hc1. rewrite Hi2 in He1. cbn in He1. exists (set_input inp (set_reads rs c2)). split; [exact E|]. split; [|split_and!; cbn; try done; by rewrite Hy].
  split_and!; cbn; [done|congruence|by rewrite Ho2|by rewrite Ho2|by rewrite Hw2|].
  intros z Hz. assert (z = y) as -> by congruence. split; [done|by right].
Qed.

(** A writable event with nothing to send. *)
Lemma writable_ok c :
  race_conn_ok c → is_Some (channel_ c) →
  ∃ c', HandleWrite on_read on_state 1 POLLOUT c = Ret c' ∧ race_conn_ok c' ∧ is_Some (channel_ c')
    ∧ input_ c' = input_ c ∧ readcb_ c' = readcb_ c ∧ delivered c' = delivered c.
Proof.
  intros (Hwf & Hexp & Hwo & Hco & Hws & Hch) [x Hx]. destruct (Hch x Hx) as [Hfd Hst]. unfold HandleWrite.
  destruct Hst as [Hst|Hst]; rewrite Hst.
  - rewrite (handshake_ok c x Hx). cbn. eexists. split; [done|]. split; [|by split_and!]. split_and!; try done. cbn.
    intros y [= <-]. split; [done|by right].
  - rewrite read_all, Hco by done. cbn [mbind outcome_bind]. unfold ISend. rewrite Hws.
    change (ISend_loop [] [] 0 c) with (Ret (0, set_writes [] (wire c) c)). cbn [mbind outcome_bind fst snd output_ set_writes set_output].
    destruct (Consume_ok 0 (output_ c) Hwo) as (Hcw & Hcc & _); [by rewrite Hco|]. rewrite Hco in Hcc.
    rewrite IsEmpty_content by done. rewrite Hcc, bool_decide_true by done. unfold chan. cbn [channel_ set_output set_writes]. rewrite Hx. cbn [from_option_fault mbind outcome_bind].
    destruct (IsWriting x); (eexists; split; [done|]; split; [|split_and!; try done; by rewrite Hx]).
    + split_and!; try done. cbn. intros y [= <-]. split; [done|by right].
    + by split_and!.
Qed.

End Lemmas.

(** ** Properties *)

(** Every state of a race in which createcb_ sets the read callback. *)
Definition race_inv (s : Race) : Prop :=
  race_conn_ok (rc_conn s) ∧ e_ (input_ (rc_conn s)) = 0 ∧ content (input_ (rc_conn s)) = []
  ∧ handed (rc_conn s) = rc_came s
  ∧ (∀ fd, rc_queued s = Some fd → 0 ≤ fd)
  ∧ Forall (λ e, match e with EvAttach _ _ fd => 0 ≤ fd | _ => True end) (rc_todo s)
  ∧ (readcb_ (rc_conn s) = true
     ∨ (∃ i es, rc_todo s = EvCreate i :: es) ∧ rc_queued s = None ∧ channel_ (rc_conn s) = None).

Lemma take_all_read c :
  race_conn_ok c → is_Some (channel_ c) → readcb_ c = true → content (input_ c) ≠ [] →
  ∃ c', call_read take_all c = Ret c' ∧ race_conn_ok c' ∧ is_Some (channel_ c') ∧ e_ (input_ c') = 0 ∧ content (input_ c') = []
    ∧ readcb_ c' = true ∧ handed c' = handed c ++ content (input_ c).
Proof.
  intros (Hwf & Hexp & Hrest) Hx Hcb Hne. unfold call_read. rewrite Hcb, GetSize_content by done.
  rewrite (proj2 (Z.eqb_neq _ _)) by (by intros ?%zlen_0_nil). cbn. eexists. split; [done|].
  pose proof (wf_Clear (input_ c) Hwf) as Hw. pose proof (content_Clear (input_ c)) as Hc. split_and!; try done. unfold handed.
  cbn [delivered deliver set_input]. by rewrite reverse_cons, concat_app, concat_cons, app_nil_r.
Qed.

Lemma race_step_inv create on_state id s s' :
  (∀ c, create c = set_callbacks true (statecb_ c) c) → race_inv s → race_step create take_all on_state id s s' → race_inv s'.
Proof.
  intros Hcr (Hok & He & Hc & Hh & Hq & Hfd & Hcb) Hs.
  destruct Hs as [s s' H|todo fd c came|todo q c c' came chunk Hx Hne Hlen H|todo q c c' came Hx H];
    cbn [rc_conn rc_todo rc_queued rc_came] in *.
  - unfold accept_next in H. destruct (rc_todo s) as [|e es] eqn:Et; [done|]. apply Forall_cons in Hfd as [Hfde Hfd].
    destruct e; injection H as <-; rewrite ?Hcr; (split_and!; try done);
      try (by left); try (by intros fd' [= <-]); destruct Hcb as [?|[(? & ? & [=]) _]]; try (by left).
  - split_and!; try done.
    + destruct Hok as (? & ? & ? & ? & ? & _). split_and!; try done. cbn. intros x [= <-]. split; [by apply Hq|by left].
    + left. destruct Hcb as [?|(_ & ? & _)]; done.
  - destruct Hcb as [Hcb|(_ & _ & Hn)]; [|by rewrite Hn in Hx; destruct Hx].
    destruct (readable_ok take_all on_state c chunk Hok Hx Hne Hlen) as (c1 & E & Hok1 & Hx1 & Hc1 & Hcb1 & Hd1); [lia|].
    destruct (take_all_read c1) as (c2 & E2 & Hok2 & _ & He2 & Hc2 & Hcb2 & Hh2); [done|done|congruence| |].
    { rewrite Hc1, Hc. cbn. by destruct chunk. }
    rewrite E, E2 in H. injection H as <-. split_and!; try done; [|by left].
    cbn [rc_conn rc_came]. rewrite Hh2, Hc1, Hc. unfold handed in Hh |- *. by rewrite Hd1, Hh.
  - destruct Hcb as [Hcb|(_ & _ & Hn)]; [|by rewrite Hn in Hx; destruct Hx].
    destruct (writable_ok take_all on_state c Hok Hx) as (c1 & E & Hok1 & _ & Hi1 & Hcb1 & Hd1). rewrite E in H. injection H as <-.
    split_and!; cbn [rc_conn rc_came]; try done; rewrite ?Hi1; try done; [|left; congruence]. unfold handed in *. by rewrite Hd1.
Qed.

(** C19: accepting while the connection's loop runs.  On the actions of HandleAccept for
    one connection, in every interleaving with the loop that attaches it and handles
    its events: when createcb_ sets the read callback, as RpcServer does, every byte
    that has come was handed to it in order and none waits, and every further chunk
    can be read.  When the callback is the server's readcb_ instead, which is set after
    Attach was queued, whatever the peer sends first can miss it: there is a run after
    which HandleAccept is done, the bytes lie in the input buffer, and nobody was
    told. *)
Theorem accept_race (on_state : TcpConn → outcome TcpConn) (id fd : Z) (srv srv' : TcpServer) (evs : list server_ev) :
  0 ≤ fd → accept_loop [AConn fd true true] srv = Ret (evs, srv') →
  (createcb_ srv = true →
     ∀ s, rtc (race_step (λ c, set_callbacks true (statecb_ c) c) take_all on_state id) (race_init evs) s →
       handed (rc_conn s) = rc_came s ∧ content (input_ (rc_conn s)) = []
       ∧ (is_Some (channel_ (rc_conn s)) → ∀ chunk, chunk ≠ [] → zlen chunk < 2 ^ 32 →
            ∃ c', readable take_all on_state chunk (rc_conn s) = Ret c' ∧ handed c' = rc_came s ++ (Some <$> chunk)))
  ∧ (createcb_ srv = false → TcpServer.readcb_ srv = true →
     ∀ create chunk, chunk ≠ [] → zlen chunk < 2 ^ 32 →
       ∃ s, rtc (race_step create take_all on_state id) (race_init evs) s ∧ rc_todo s = [] ∧ readcb_ (rc_conn s) = true
         ∧ rc_came s = Some <$> chunk ∧ content (input_ (rc_conn s)) = Some <$> chunk ∧ handed (rc_conn s) = []).
Proof.
  intros Hfd Hacc. cbn [accept_loop negb orb] in Hacc. destruct (GetNextLoop true (threadPool_ srv)) as [[lp p]| |] eqn:El; [|done..]. cbn in Hacc.
  assert (Hnew : race_conn_ok accepted) by (split; [apply wf_new|split; [done|split; [apply wf_new|done]]]).
  split.
  - intros Hcc s Hs. rewrite Hcc in Hacc. cbn [app] in Hacc. injection Hacc as <- _.
    assert (Hi : race_inv s).
    { refine (rtc_invariant _ race_inv _ _ _ _ Hs); [|intros x y; by apply race_step_inv]. split_and!; try done.
      - constructor; [done|]. constructor; [done|]. cbn. destruct (TcpServer.statecb_ srv), (TcpServer.readcb_ srv); by repeat constructor.
      - right. by split_and!; [eexists _, _|..]. }
    destruct Hi as (Hok & He & Hc & Hh & _ & _ & Hcb). split_and!; try done. intros Hx chunk Hne Hlen.
    destruct Hcb as [Hcb|(_ & _ & Hn)]; [|by rewrite Hn in Hx; destruct Hx].
    destruct (readable_ok take_all on_state (rc_conn s) chunk Hok Hx Hne Hlen) as (c1 & E & Hok1 & Hx1 & Hc1 & Hcb1 & Hd1); [lia|].
    destruct (take_all_read c1) as (c2 & E2 & _ & _ & _ & _ & _ & Hh2); [done|done|congruence| |].
    { rewrite Hc1, Hc. cbn. by destruct chunk. }
    exists c2. rewrite E, E2. split; [done|]. rewrite Hh2, Hc1, Hc. unfold handed in *. by rewrite Hd1, Hh.
  - intros Hcc Hrc create chunk Hne Hlen. rewrite Hcc, Hrc in Hacc. cbn [app] in Hacc. injection Hacc as <- _.
    destruct (readable_ok take_all on_state (Attach fd id accepted) chunk) as (c1 & E & Hok1 & _ & Hc1 & Hcb1 & Hd1); try done.
    { split; [apply wf_new|]. split; [done|]. split; [apply wf_new|]. split_and!; try done. intros x [= <-]. split; [done|by left]. }
    assert (call_read take_all c1 = Ret c1) as Ec by (unfold call_read; by rewrite Hcb1). rewrite Ec in E.
    set (rest := (if TcpServer.statecb_ srv then _ else _) ++ _).
    assert (rtc (race_step create take_all on_state id) (race_init (EvAttach lp (next_conn srv) fd :: rest ++ []))
              (mkRace rest None c1 (Some <$> chunk))) as Hrun.
    { rewrite app_nil_r. eapply rtc_l; [by apply rs_accept|]. eapply rtc_l; [apply rs_attach|]. apply rtc_once.
      apply (rs_read _ _ _ _ rest None (Attach fd id accepted) c1 [] chunk); try done. }
    unfold rest in *. clear rest. destruct (TcpServer.statecb_ srv); cbn [app] in *; eexists;
      (split; [etransitivity; [exact Hrun|]; repeat (eapply rtc_l; [by apply rs_accept|]); apply rtc_refl|]);
      (split_and!; try done); unfold handed; cbn; by rewrite Hd1.
Qed.

(** The server of TcpServer.v has loops of its own and a read callback. *)
Definition demo_events : list server_ev := [EvAttach 100 0 9; EvOnState 0; EvOnRead 0].

Lemma accept_race_witness :
  ∃ s, rtc (race_step id take_all idle 1) (race_init demo_events) s ∧ rc_todo s = [] ∧ handed (rc_conn s) = []
    ∧ content (input_ (rc_conn s)) = [Some 71; Some 69; Some 84].
Proof.
  destruct (accept_race idle 1 9 demo_server (add_conn (mkPool 1 2 true 1 [100; 200]) (mkSConn 0 9 100) demo_server) demo_events)
    as [_ H]; [lia|by vm_compute|].
  destruct (H eq_refl eq_refl id [71; 69; 84]) as (s & H1 & H2 & _ & _ & H3 & H4); [done|by vm_compute|].
  exists s. split; [exact H1|]. split; [exact H2|]. split; [exact H4|exact H3].
Defined.
