(* ===== verification/Reactor.v ===== *)
(** * The loop with its connections: net/eventloop.cc, net/epollpoller.cc,
      net/channel.cc and net/tcpconn.cc together

    EventLoop.v treats the callbacks of channels as user code, Channel.v the
    callbacks as names, TcpConn.v a connection on its own.  Here they run
    together: the heap of channels in the poller, the connections of one loop by
    the address of their channel, HandleEvent that calls the real handlers, and
    an iteration of Loop().  A connection works on its channel through the heap:
    a changed event mask is passed to the poller (Channel::Update), a closed or
    deleted channel is closed there.

    The user's callbacks act on their own connection.  Channels that are not a
    connection's (the eventfd, the timerfd) have callbacks that do not touch the
    connections; their effects are in EventLoop.v and TimerQueue.v.

    The specification is a map of independent connections; the theorems relate an
    iteration of the loop to it. *)

From S2P Require Import Prelude Buffer Channel Poller PollerEquiv Time TimerQueue LoopLife TcpConn.

#[export] Instance Channel_eq_dec : EqDecision Channel.
Proof. solve_decision. Defined.

(** ** Data *)

(** A connection's field channel_ is a pointer: the object is in the poller's heap,
    so the connections are kept with [channel_ = None] and looked at with it. *)
Record Reactor : Type := mkReactor {
  rx_poller : EpollPoller;
  rx_conns : gmap Z TcpConn;         (* by the address of the connection's channel *)
}.

Definition view (ch : Z) (r : Reactor) : outcome TcpConn :=
  c ← from_option_fault UseAfterFree (rx_conns r !! ch);
  x ← chan_at ch (rx_poller r);
  Ret (set_channel (Some x) c).

(** ** Operations *)

(** What a connection did to its channel, from [x] to [o], done in the poller: the
    delete of CleanUp, channel_->Close(), or the Update() of a new event mask. *)
Definition put_channel (ch : Z) (x : Channel) (o : option Channel) (p : EpollPoller) : outcome EpollPoller :=
  match o with
  | None =>
      p ← (if negb (fd_ x =? -1) then Close ch p else Ret p);
      Ret (free_channel ch p)
  | Some x' =>
      if bool_decide (x' = x) then Ret p
      else if fd_ x' =? -1 then p ← Close ch p; Ret (set_chan ch x' p)
      else change_events (λ _, x') ch p
  end.

(** [f] on the connection with the channel at [ch]. *)
Definition conn_op (f : TcpConn → outcome TcpConn) (ch : Z) (r : Reactor) : outcome Reactor :=
  c ← view ch r;
  c' ← f c;
  x ← chan_at ch (rx_poller r);
  p ← put_channel ch x (channel_ c') (rx_poller r);
  Ret (mkReactor p (<[ch := set_channel None c']> (rx_conns r))).

(** Attach(loop, fd, ...) of a new connection [c]; [ch] is the address of the new
    channel, [id] its number. *)
Definition rx_Attach (fd id ch : Z) (c : TcpConn) (r : Reactor) : outcome Reactor :=
  let c := Attach fd id c in
  x ← chan c;
  p ← AddChannel ch (set_chan ch x (rx_poller r));
  Ret (mkReactor p (<[ch := set_channel None c]> (rx_conns r))).

(** The bits that make HandleEvent call the read callback. *)
Definition read_bits : Z := Z.lor (Z.lor POLLIN POLLPRI) POLLRDHUP.

Section Loop.
(** The callbacks of the user, and what poll(2) says of the descriptor of a channel
    when HandleHandShake asks. *)
Context (on_read on_state : TcpConn → outcome TcpConn).
Context (polls : Z → Z * Z).

(** The callbacks Attach sets on the channel at [ch]. *)
Definition handler (k : cb_kind) (ch : Z) : TcpConn → outcome TcpConn :=
  match k with
  | CbRead => HandleRead on_read on_state (polls ch).1 (polls ch).2
  | CbWrite => HandleWrite on_read on_state (polls ch).1 (polls ch).2
  | CbClose | CbError => λ c, Ret c
  end.

Definition rx_callback (k : cb_kind) (ch : Z) (r : Reactor) : outcome Reactor :=
  match rx_conns r !! ch with
  | Some _ => conn_op (handler k ch) ch r
  | None => Ret r
  end.

(** [if (revents_ & ...) { if (callback_) callback_(); }] *)
Definition rx_dispatch (cond : Z → bool) (k : cb_kind) (ch : Z) (r : Reactor) : outcome Reactor :=
  x ← chan_at ch (rx_poller r);
  if cond (revents_ x) && bool_decide (k ∈ callbacks_ x) then rx_callback k ch r else Ret r.

(** Channel::HandleEvent *)
Definition rx_HandleEvent (r : Reactor) (ch : Z) : outcome Reactor :=
  r ← rx_dispatch (λ rev, has_bits rev POLLHUP && negb (has_bits rev POLLIN)) CbClose ch r;
  _ ← chan_at ch (rx_poller r);          (* revents_ & POLLNVAL is logged *)
  r ← rx_dispatch (λ rev, has_bits rev (Z.lor POLLERR POLLNVAL)) CbError ch r;
  r ← rx_dispatch (λ rev, has_bits rev read_bits) CbRead ch r;
  rx_dispatch (λ rev, has_bits rev POLLOUT) CbWrite ch r.

Definition fold_ret {A S} (f : S → A → outcome S) : list A → S → outcome S :=
  fix go l s := match l with [] => Ret s | x :: l => s ← f s x; go l s end.

(** A functor that was queued: an operation on the connection at an address. *)
Abbreviation functor := (Z * (TcpConn → outcome TcpConn))%type.

Definition rx_functor (r : Reactor) (f : functor) : outcome Reactor := conn_op f.2 f.1 r.

(** An iteration of Loop(): Poll, HandleEvent of the active channels, and
    DoPendingFunctors. *)
Definition rx_iteration (evs : list (Z * Z)) (funcs : list functor) (r : Reactor) : outcome Reactor :=
  a ← EpollPoller_Poll (Some evs) (rx_poller r);
  r ← fold_ret rx_HandleEvent a.1 (mkReactor a.2 (rx_conns r));
  fold_ret rx_functor funcs r.

(** ** Specification: independent connections *)

Abbreviation conns := (gmap Z TcpConn).

(** The operation kept the channel and changed at most its event mask. *)
Definition kept (c c' : TcpConn) : bool :=
  match channel_ c, channel_ c' with
  | Some x, Some x' => bool_decide (x' = set_events (events_ x') x) && bool_decide (is_short (events_ x'))
  | _, _ => false
  end.

(** [f] on one of the connections; the others stay as they are. *)
Definition spec_op (f : TcpConn → outcome TcpConn) (ch : Z) (m : conns) : option conns :=
  match m !! ch with
  | None => Some m
  | Some c =>
      match f c with
      | Ret c' => if kept c c' then Some (<[ch := c']> m) else None
      | _ => None
      end
  end.

Definition spec_when (b : bool) (f : TcpConn → outcome TcpConn) (ch : Z) (m : conns) : option conns :=
  if b then spec_op f ch m else Some m.

(** The read and the write handler of the connection at [ch], as its reported
    events ask. *)
Definition spec_event (m : conns) (ch : Z) : option conns :=
  match m !! ch ≫= channel_ with
  | None => Some m
  | Some x =>
      m ← spec_when (has_bits (revents_ x) read_bits) (handler CbRead ch) ch m;
      spec_when (has_bits (revents_ x) POLLOUT) (handler CbWrite ch) ch m
  end.

Definition fold_some {A S} (f : S → A → option S) : list A → S → option S :=
  fix go l s := match l with [] => Some s | x :: l => s ← f s x; go l s end.

(** The events that were reported for a connection. *)
Definition see (rev : Z) (c : TcpConn) : TcpConn := set_channel (SetREvents rev <$> channel_ c) c.
Definition spec_poll (evs : list (Z * Z)) (m : conns) : conns := foldl (λ m e, alter (see e.2) e.1 m) m evs.

Definition spec_functor (m : conns) (f : functor) : option conns :=
  if bool_decide (is_Some (m !! f.1)) then spec_op f.2 f.1 m else None.

Definition spec_iteration (evs : list (Z * Z)) (funcs : list functor) (m : conns) : option conns :=
  m ← fold_some spec_event evs.*1 (spec_poll evs m);
  fold_some spec_functor funcs m.

End Loop.

(** The connections of a loop with their channels. *)
Definition views (r : Reactor) : gmap Z TcpConn :=
  map_zip_with (λ c x, set_channel (Some x) c) (rx_conns r) (ep_chans (rx_poller r)).

(** Every connection's channel is registered and has the callbacks of Attach. *)
Definition rx_inv (r : Reactor) : Prop :=
  ep_inv (rx_poller r)
  ∧ ∀ ch c, rx_conns r !! ch = Some c → ∃ x, ep_chans (rx_poller r) !! ch = Some x
      ∧ 0 ≤ fd_ x ∧ ep_channels_ (rx_poller r) !! fd_ x = Some ch ∧ callbacks_ x = [CbWrite; CbRead].

(** [r'] is a good state with the connections [m], in which the channels of [r] live. *)
Definition becomes (r r' : Reactor) (m : gmap Z TcpConn) : Prop :=
  rx_inv r' ∧ views r' = m
  ∧ ∀ ch, is_Some (ep_chans (rx_poller r) !! ch) → is_Some (ep_chans (rx_poller r') !! ch).

(** ** Lemmas *)

Lemma fold_some_cons {A S} (g : S → A → option S) x l s : fold_some g (x :: l) s = (s ← g s x; fold_some g l s).
Proof. done. Qed.

Section Lemmas.
Implicit Types r : Reactor.

Lemma becomes_refl r : rx_inv r → becomes r r (views r).
Proof. done. Qed.

Lemma becomes_trans r r1 r2 m1 m2 : becomes r r1 m1 → becomes r1 r2 m2 → becomes r r2 m2.
Proof. intros (_ & _ & H1) (? & ? & H2). split; [done|]. split; [done|]. intros ch Hc. by apply H2, H1. Qed.

Lemma views_lookup r ch :
  views r !! ch = (c ← rx_conns r !! ch; x ← ep_chans (rx_poller r) !! ch; Some (set_channel (Some x) c)).
Proof. apply map_lookup_zip_with. Qed.

(** A connection, its channel and their registration, from the view of it. *)
Lemma views_Some r ch c :
  rx_inv r → views r !! ch = Some c →
  ∃ c0 x, rx_conns r !! ch = Some c0 ∧ ep_chans (rx_poller r) !! ch = Some x ∧ c = set_channel (Some x) c0
    ∧ 0 ≤ fd_ x ∧ ep_channels_ (rx_poller r) !! fd_ x = Some ch ∧ callbacks_ x = [CbWrite; CbRead] ∧ view ch r = Ret c.
Proof.
  intros (_ & Hc) H. rewrite views_lookup in H. destruct (rx_conns r !! ch) as [c0|] eqn:E; [|done]. simpl in H.
  destruct (Hc _ _ E) as (x & Hx & Hfd & Hr & Hcb). rewrite Hx in H. simpl in H. injection H as <-.
  exists c0, x. split_and!; try done. unfold view, chan_at. rewrite E. cbn. by rewrite Hx.
Qed.

Lemma views_None r ch : rx_inv r → views r !! ch = None → rx_conns r !! ch = None.
Proof.
  intros (_ & Hc) H. rewrite views_lookup in H. destruct (rx_conns r !! ch) as [c0|] eqn:E; [|done]. simpl in H.
  destruct (Hc _ _ E) as (x & Hx & _). by rewrite Hx in H.
Qed.

(** Writing back a connection whose channel changed at most its events. *)
Lemma views_put r ch x x' c' p :
  ep_chans p = <[ch := x']> (ep_chans (rx_poller r)) → channel_ c' = Some x' → ep_chans (rx_poller r) !! ch = Some x →
  views (mkReactor p (<[ch := set_channel None c']> (rx_conns r))) = <[ch := c']> (views r).
Proof.
  intros Hp Hc Hx. unfold views. cbn. rewrite Hp.
  rewrite <- (map_insert_zip_with (λ c x, set_channel (Some x) c)). f_equal. destruct c'; cbn in *. by subst.
Qed.

Lemma kept_inv c c' x :
  kept c c' = true → channel_ c = Some x → ∃ x', channel_ c' = Some x' ∧ x' = set_events (events_ x') x ∧ is_short (events_ x').
Proof.
  unfold kept. intros H Hx. rewrite Hx in H. destruct (channel_ c') as [x'|]; [|done].
  apply andb_prop in H as [H1%bool_decide_eq_true H2%bool_decide_eq_true]. by exists x'.
Qed.

(** Putting back a channel of which at most the events changed. *)
Lemma put_channel_kept ch x x' p :
  ep_inv p → ep_chans p !! ch = Some x → 0 ≤ fd_ x → ep_channels_ p !! fd_ x = Some ch →
  x' = set_events (events_ x') x → is_short (events_ x') →
  ∃ p', put_channel ch x (Some x') p = Ret p' ∧ ep_inv p'
    ∧ ep_chans p' = <[ch := x']> (ep_chans p) ∧ ep_channels_ p' = ep_channels_ p.
Proof.
  intros Hi Hx Hfd Hr Hse Hsh. unfold put_channel. case_bool_decide as He.
  - exists p. split_and!; try done. rewrite He. by rewrite insert_id.
  - assert (fd_ x' = fd_ x ∧ index_ x' = index_ x) as [Hf Hix] by (by rewrite Hse).
    rewrite (proj2 (Z.eqb_neq _ _)) by lia.
    destruct (EpollPoller_update (λ _, x') ch x p) as (p' & E & Hi' & _); try done.
    { by apply (HasChannel_true _ _ _ Hx). }
    exists p'. rewrite E. rewrite (change_events_eq _ _ _ _ Hx) in E. injection E as <-. by split_and!.
Qed.

(** An operation that keeps the channel acts on the view of its connection. *)
Lemma conn_op_ok f ch c c' r :
  rx_inv r → views r !! ch = Some c → f c = Ret c' → kept c c' = true →
  ∃ r', conn_op f ch r = Ret r' ∧ becomes r r' (<[ch := c']> (views r)).
Proof.
  intros Hi Hv Hf Hk. destruct (views_Some _ _ _ Hi Hv) as (c0 & x & Hc0 & Hx & -> & Hfd & Hr & Hcb & Hvw).
  destruct (kept_inv _ _ x Hk eq_refl) as (x' & Hx' & Hse & Hsh). pose proof Hi as [Hep Hall].
  destruct (put_channel_kept ch x x' (rx_poller r)) as (p & Hp & Hi' & Hch & Hreg); [done..|].
  unfold conn_op. rewrite Hvw. cbn [mbind outcome_bind]. rewrite Hf. cbn [mbind outcome_bind].
  unfold chan_at. cbn [chans EpollPoller_ops]. rewrite Hx. cbn [from_option_fault mbind outcome_bind]. rewrite Hx', Hp.
  cbn [mbind outcome_bind]. eexists. split; [done|]. split; [|split; [by eapply views_put|]].
  2:{ cbn. rewrite Hch. intros ch1 H1. rewrite lookup_insert. by case_decide. }
  split; [done|]. cbn. rewrite Hch, Hreg. intros ch1 c1. rewrite !lookup_insert. case_decide.
  - intros _. exists x'. subst ch1. by rewrite Hse.
  - apply Hall.
Qed.

(** Operations of the poller that only store reported events. *)
Lemma views_mark evs p (cs : gmap Z TcpConn) :
  views (mkReactor (mkEpoll (mark evs (ep_chans p)) (ep_channels_ p) (interest p) (ep_nevents p)) cs)
  = spec_poll evs (views (mkReactor p cs)).
Proof.
  unfold views. cbn [rx_conns rx_poller ep_chans]. generalize (ep_chans p). clear p.
  induction evs as [|[ch rev] evs IH]; intros m; [done|].
  rewrite mark_cons, IH. change (spec_poll ((ch, rev) :: evs) ?v) with (spec_poll evs (alter (see rev) ch v)).
  f_equal. apply map_eq. intros ch'. rewrite map_lookup_zip_with. destruct (decide (ch' = ch)) as [->|Hne].
  - rewrite !lookup_alter_eq, map_lookup_zip_with. destruct (cs !! ch) as [c|]; [|done]. cbn.
    by destruct (m !! ch).
  - by rewrite !lookup_alter_ne, map_lookup_zip_with by done.
Qed.

Lemma mark_lookup evs m ch x :
  m !! ch = Some x → ∃ x', mark evs m !! ch = Some x' ∧ fd_ x' = fd_ x ∧ callbacks_ x' = callbacks_ x.
Proof.
  revert m x. induction evs as [|[ch' rev] evs IH]; intros m x Hx; [by exists x|]. rewrite mark_cons.
  destruct (IH (alter (SetREvents rev) ch' m) (if decide (ch' = ch) then SetREvents rev x else x)) as (x' & ? & E1 & E2).
  - destruct (decide (ch' = ch)) as [->|]; [by rewrite lookup_alter_eq, Hx|by rewrite lookup_alter_ne].
  - exists x'. by destruct (decide (ch' = ch)).
Qed.

(** Poll stores what was reported and keeps everything else. *)
Lemma rx_poll_ok evs r :
  rx_inv r → reported evs (rx_poller r) → zlen evs ≤ ep_nevents (rx_poller r) < 2 ^ 63 →
  ∃ p, EpollPoller_Poll (Some evs) (rx_poller r) = Ret (evs.*1, p) ∧ rx_inv (mkReactor p (rx_conns r))
    ∧ views (mkReactor p (rx_conns r)) = spec_poll evs (views r)
    ∧ ∀ ch, ch ∈ evs.*1 → is_Some (ep_chans p !! ch).
Proof.
  intros [Hi Hall] Hrep Hlen. pose proof Hi as (_ & Hl & _).
  assert (Hlive : ∀ ch, ch ∈ evs.*1 → is_Some (ep_chans (rx_poller r) !! ch)).
  { intros ch ([ch' rev] & -> & Hin)%list_elem_of_fmap. destruct (Hrep _ _ Hin) as (fd & ev & Hint).
    destruct (Hl _ _ _ Hint) as (x & ? & _). by exists x. }
  destruct (FillActiveChannels_ok evs [] (rx_poller r) Hi Hrep) as (p & E & Hi' & _ & _ & Hn & _).
  pose proof (EpollPoller_fill evs [] (rx_poller r) Hlive) as E'. rewrite E in E'. injection E' as Ep.
  assert (Hgood : ∀ n, 0 < n → let p' := mkEpoll (ep_chans p) (ep_channels_ p) (interest p) n in
     rx_inv (mkReactor p' (rx_conns r)) ∧ views (mkReactor p' (rx_conns r)) = spec_poll evs (views r)
     ∧ ∀ ch, ch ∈ evs.*1 → is_Some (ep_chans p' !! ch)).
  { intros n Hn0. split; [|split].
    - split; [by destruct Hi' as (? & ? & _)|]. cbn. intros ch c Hc. destruct (Hall _ _ Hc) as (x & Hx & Hfd & Hr & Hcb).
      rewrite Ep. cbn. destruct (mark_lookup evs _ _ _ Hx) as (x' & Hx' & Ef & Ec). exists x'. by rewrite Ef, Ec.
    - rewrite Ep. exact (views_mark evs (mkEpoll (ep_chans (rx_poller r)) (ep_channels_ (rx_poller r)) (interest (rx_poller r)) n) (rx_conns r)).
    - intros ch [x Hx]%Hlive. cbn. rewrite Ep. cbn. destruct (mark_lookup evs _ _ _ Hx) as (x' & Hx' & _). by exists x'. }
  unfold EpollPoller_Poll. destruct (Z.ltb_spec 0 (zlen evs)) as [Hpos|Hz].
  - unfold assert_. rewrite require_true by (apply Z.leb_le; lia). cbn [mbind outcome_bind].
    rewrite E. cbn [mbind outcome_bind fst snd app]. rewrite Hn. case_match eqn:Ez.
    + eexists. split; [done|]. apply Hgood. rewrite wrap_id; lia.
    + eexists. split; [done|]. destruct p; cbn in *. apply Hgood. lia.
  - assert (evs = []) as -> by (apply zlen_0_nil; pose proof (zlen_nonneg evs); lia).
    exists (rx_poller r). split; [done|]. split; [by split|]. split; [by destruct r|].
    intros ch []%elem_of_nil.
Qed.

End Lemmas.

Section Iteration.
Context (on_read on_state : TcpConn → outcome TcpConn) (polls : Z → Z * Z).
Implicit Types r : Reactor.

Lemma rx_callback_ok k ch c c' r :
  rx_inv r → views r !! ch = Some c → handler on_read on_state polls k ch c = Ret c' → kept c c' = true →
  ∃ r', rx_callback on_read on_state polls k ch r = Ret r' ∧ becomes r r' (<[ch := c']> (views r)).
Proof.
  intros Hi Hv Hf Hk. unfold rx_callback. destruct (views_Some _ _ _ Hi Hv) as (c0 & x & -> & _). by eapply conn_op_ok.
Qed.

(** One of the two callbacks a connection's channel has. *)
Lemma rx_dispatch_ok cond k ch c x m r :
  rx_inv r → views r !! ch = Some c → channel_ c = Some x → k = CbRead ∨ k = CbWrite →
  spec_when (cond (revents_ x)) (handler on_read on_state polls k ch) ch (views r) = Some m →
  ∃ r', rx_dispatch on_read on_state polls cond k ch r = Ret r' ∧ becomes r r' m
    ∧ ∃ c' x', m !! ch = Some c' ∧ channel_ c' = Some x' ∧ revents_ x' = revents_ x.
Proof.
  intros Hi Hv Hx Hk Hs. destruct (views_Some _ _ _ Hi Hv) as (c0 & x0 & Hc0 & Hx0 & Ec & Hfd & Hr & Hcb & Hvw).
  assert (x0 = x) as -> by (by subst c; injection Hx as ->).
  unfold rx_dispatch, chan_at. cbn [chans EpollPoller_ops]. rewrite Hx0. cbn [from_option_fault mbind outcome_bind].
  rewrite (bool_decide_true (k ∈ _)), andb_true_r by (rewrite Hcb; set_solver).
  unfold spec_when in Hs. destruct (cond (revents_ x)); [|injection Hs as <-; exists r; split; [done|]; split; [by apply becomes_refl|eauto]].
  unfold spec_op in Hs. rewrite Hv in Hs. destruct (handler _ _ _ k ch c) as [c'| |] eqn:Ef; [|done..].
  destruct (kept c c') eqn:Ek; [|done]. injection Hs as <-.
  destruct (rx_callback_ok k ch c c' r Hi Hv Ef Ek) as (r' & -> & ?). exists r'. split; [done|]. split; [done|].
  destruct (kept_inv _ _ x Ek Hx) as (x' & Hx' & E & _). exists c', x'. rewrite lookup_insert_eq.
  split_and!; try done. by rewrite E.
Qed.

(** The callbacks a connection's channel does not have. *)
Lemma rx_dispatch_skip cond k ch c r :
  rx_inv r → views r !! ch = Some c → k = CbClose ∨ k = CbError →
  rx_dispatch on_read on_state polls cond k ch r = Ret r ∧ is_Some (ep_chans (rx_poller r) !! ch).
Proof.
  intros Hi Hv Hk. destruct (views_Some _ _ _ Hi Hv) as (c0 & x0 & Hc0 & Hx0 & Ec & Hfd & Hr & Hcb & Hvw).
  unfold rx_dispatch, chan_at. cbn [chans EpollPoller_ops]. rewrite Hx0. cbn [from_option_fault mbind outcome_bind].
  rewrite (bool_decide_false (k ∈ _)), andb_false_r; [done|]. rewrite Hcb.
  intros [->|[->|[]%elem_of_nil]%elem_of_cons]%elem_of_cons; by destruct Hk.
Qed.

(** The channels that are no connection's. *)
Lemma rx_dispatch_other cond k ch r :
  rx_conns r !! ch = None → is_Some (ep_chans (rx_poller r) !! ch) →
  rx_dispatch on_read on_state polls cond k ch r = Ret r.
Proof.
  intros Hc [x Hx]. unfold rx_dispatch, chan_at. cbn [chans EpollPoller_ops]. rewrite Hx. cbn.
  unfold rx_callback. rewrite Hc. by destruct (_ && _).
Qed.

Lemma rx_HandleEvent_ok ch m r :
  rx_inv r → is_Some (ep_chans (rx_poller r) !! ch) → spec_event on_read on_state polls (views r) ch = Some m →
  ∃ r', rx_HandleEvent on_read on_state polls r ch = Ret r' ∧ becomes r r' m.
Proof.
  intros Hi Hlive Hs. unfold rx_HandleEvent. destruct (views r !! ch) as [c|] eqn:Hv.
  - destruct (rx_dispatch_skip (λ rev, has_bits rev POLLHUP && negb (has_bits rev POLLIN)) CbClose ch c r) as [-> [x Hx]];
      [done|done|by left|].
    cbn [mbind outcome_bind]. unfold chan_at at 1. cbn [chans EpollPoller_ops]. rewrite Hx. cbn [from_option_fault mbind outcome_bind].
    destruct (rx_dispatch_skip (λ rev, has_bits rev (Z.lor POLLERR POLLNVAL)) CbError ch c r) as [-> _]; [done|done|by right|].
    cbn [mbind outcome_bind]. unfold spec_event in Hs. rewrite Hv in Hs. cbn in Hs.
    destruct (views_Some _ _ _ Hi Hv) as (c0 & x0 & Hc0 & Hx0 & Ec & _). assert (channel_ c = Some x0) as Hch by (by subst c).
    rewrite Hch in Hs. destruct (spec_when _ _ _ _) as [m1|] eqn:E1; [|done]. cbn in Hs.
    destruct (rx_dispatch_ok (λ rev, has_bits rev read_bits) CbRead ch c x0 m1 r) as (r1 & -> & Hb1 & c1 & x1 & Hc1 & Hx1 & Hrev);
      [done|done|done|by left|done|].
    cbn [mbind outcome_bind]. pose proof Hb1 as (Hi1 & Hv1 & _).
    destruct (rx_dispatch_ok (λ rev, has_bits rev POLLOUT) CbWrite ch c1 x1 m r1) as (r2 & -> & Hb2 & _);
      [done|by rewrite Hv1|done|by right|by rewrite Hrev, Hv1|].
    exists r2. split; [done|]. by eapply becomes_trans.
  - unfold spec_event in Hs. rewrite Hv in Hs. injection Hs as <-. pose proof (views_None _ _ Hi Hv) as Hn.
    assert (∀ cond k, rx_dispatch on_read on_state polls cond k ch r = Ret r) as Hd by (intros; by apply rx_dispatch_other).
    rewrite !Hd. destruct Hlive as [x Hx]. cbn [mbind outcome_bind]. unfold chan_at. cbn [chans EpollPoller_ops]. rewrite Hx.
    cbn [from_option_fault mbind outcome_bind]. rewrite !Hd. cbn [mbind outcome_bind]. rewrite Hd. cbn [mbind outcome_bind]. rewrite Hd. exists r. split; [done|]. by apply becomes_refl.
Qed.

Lemma rx_events_ok chs m r :
  rx_inv r → (∀ ch, ch ∈ chs → is_Some (ep_chans (rx_poller r) !! ch)) →
  fold_some (spec_event on_read on_state polls) chs (views r) = Some m →
  ∃ r', fold_ret (rx_HandleEvent on_read on_state polls) chs r = Ret r' ∧ becomes r r' m.
Proof.
  revert r. induction chs as [|ch chs IH]; intros r Hi Hlive Hs; cbn in Hs |- *.
  { injection Hs as <-. exists r. split; [done|]. by apply becomes_refl. }
  destruct (spec_event _ _ _ (views r) ch) as [m1|] eqn:E1; [|done]. cbn in Hs.
  destruct (rx_HandleEvent_ok ch m1 r) as (r1 & -> & Hb1); [done|apply Hlive; by left|done|].
  cbn [mbind outcome_bind]. pose proof Hb1 as (Hi1 & Hv1 & Hl1).
  destruct (IH r1) as (r2 & -> & Hb2); [done| |by rewrite Hv1|].
  { intros ch' Hin. apply Hl1, Hlive. by right. }
  exists r2. split; [done|]. by eapply becomes_trans.
Qed.

Lemma rx_functors_ok funcs m r :
  rx_inv r → fold_some spec_functor funcs (views r) = Some m →
  ∃ r', fold_ret rx_functor funcs r = Ret r' ∧ becomes r r' m.
Proof.
  revert r. induction funcs as [|[ch f] funcs IH]; intros r Hi Hs; [|rewrite fold_some_cons in Hs]; cbn [fold_ret].
  { injection Hs as <-. exists r. split; [done|]. by apply becomes_refl. }
  assert (∃ c c', views r !! ch = Some c ∧ f c = Ret c' ∧ kept c c' = true
            ∧ fold_some spec_functor funcs (<[ch := c']> (views r)) = Some m) as (c & c' & Hc & Ef & Ek & Hs').
  { destruct (spec_functor (views r) (ch, f)) as [m1|] eqn:E1; [|done]. cbn in Hs.
    unfold spec_functor, spec_op in E1. cbn [fst snd] in E1. destruct (views r !! ch) as [c|] eqn:Hc; [|done].
    rewrite bool_decide_true in E1 by done. destruct (f c) as [c'| |] eqn:Ef; [|done..].
    destruct (kept c c') eqn:Ek; [|done]. injection E1 as <-. by exists c, c'. }
  destruct (conn_op_ok f ch c c' r Hi Hc Ef Ek) as (r1 & E & Hb1). change (rx_functor r (ch, f)) with (conn_op f ch r). rewrite E.
  cbn [mbind outcome_bind]. pose proof Hb1 as (Hi1 & Hv1 & _).
  destruct (IH r1) as (r2 & -> & Hb2); [done|by rewrite Hv1|]. exists r2. split; [done|]. by eapply becomes_trans.
Qed.

(** What the kernel watches for a connection. *)
Lemma rx_watched r ch c x :
  rx_inv r → views r !! ch = Some c → channel_ c = Some x →
  interest (rx_poller r) !! fd_ x = Some (u32 (events_ x), ch) ∧ is_short (events_ x).
Proof.
  intros Hi Hv Hx. destruct (views_Some _ _ _ Hi Hv) as (c0 & x0 & _ & Hx0 & -> & _ & Hr & _).
  injection Hx as ->. destruct Hi as [(Hm & Hl & _) _]. apply Hm in Hr as [ev Hint].
  destruct (Hl _ _ _ Hint) as (x' & Hx' & _ & -> & ?). rewrite Hx0 in Hx'. by injection Hx' as <-.
Qed.

(** Attach of a new descriptor adds the connection and watches it for both events. *)
Lemma rx_Attach_ok fd id ch c r :
  rx_inv r → rx_conns r !! ch = None → ep_chans (rx_poller r) !! ch = None → 0 ≤ fd →
  ep_channels_ (rx_poller r) !! fd = None →
  ∃ r', rx_Attach fd id ch c r = Ret r' ∧ becomes r r' (<[ch := Attach fd id c]> (views r)).
Proof.
  intros [Hi Hall] Hc Hch Hfd Hreg. set (x := SetCallback CbWrite (SetCallback CbRead (Channel_new fd (Z.lor kWriteEvent kReadEvent) id))).
  unfold rx_Attach. unfold chan. cbn [channel_ Attach set_channel from_option_fault mbind outcome_bind]. fold x.
  set (p := set_chan ch x (rx_poller r)).
  assert (Hp : ep_inv p).
  { destruct Hi as (Hm & Hl & Hn). split_and!; [done| |done]. intros fd' ev ch' Hint.
    destruct (Hl _ _ _ Hint) as (x' & Hx' & ?). exists x'. cbn. rewrite lookup_insert_ne; [done|]. by intros <-; rewrite Hch in Hx'. }
  assert (Hpx : ep_chans p !! ch = Some x) by (cbn; apply lookup_insert_eq).
  destruct (EpollPoller_add ch x p) as (p' & E & Hi' & _).
  { done. } { done. }
  { cbn. rewrite lookup_fmap. destruct (interest (rx_poller r) !! fd) as [[ev ch']|] eqn:Ei; [|done].
    assert (ep_channels_ (rx_poller r) !! fd = Some ch') as E by (apply Hi; eauto). by rewrite E in Hreg. }
  { by vm_compute. }
  rewrite E. cbn [mbind outcome_bind]. rewrite (AddChannel_eq ch x) in E by done. injection E as <-.
  eexists. split; [done|]. split; [|split].
  - split; [done|]. intros ch1 c1. cbn. rewrite !lookup_insert. case_decide as E1.
    + intros _. subst ch1. exists x. split_and!; try done. cbn. by rewrite lookup_insert_eq.
    + intros H1. destruct (Hall _ _ H1) as (x1 & Hx1 & H2 & H3 & H4). exists x1. split_and!; try done.
      rewrite lookup_insert_ne; [done|]. intros E2. rewrite <- E2 in H3. congruence.
  - unfold views. cbn. by rewrite <- (map_insert_zip_with (λ c x, set_channel (Some x) c)).
  - cbn. intros ch1 H1. rewrite lookup_insert. by case_decide.
Qed.

Lemma rx_inv_empty : rx_inv (mkReactor EpollPoller_new ∅).
Proof. split; [apply ep_inv_new|]. intros ch c. cbn. by rewrite lookup_empty. Qed.

End Iteration.

(** ** Properties *)

(** C6: the loop refines the map of independent connections.  In a good state, when
    epoll reports descriptors it watches, an iteration whose handlers and queued
    operations are fine for every connection on its own does the same through the
    poller: Poll, HandleEvent and the functors return, each connection ends as its
    own handlers leave it, no other connection changes, and the kernel watches
    every connection for exactly the events its channel asks for. *)
Theorem reactor_refines (on_read on_state : TcpConn → outcome TcpConn) (polls : Z → Z * Z)
    (evs : list (Z * Z)) (funcs : list (Z * (TcpConn → outcome TcpConn))) (r : Reactor) (m : gmap Z TcpConn) :
  rx_inv r → reported evs (rx_poller r) → zlen evs ≤ ep_nevents (rx_poller r) < 2 ^ 63 →
  spec_iteration on_read on_state polls evs funcs (views r) = Some m →
  ∃ r', rx_iteration on_read on_state polls evs funcs r = Ret r' ∧ rx_inv r' ∧ views r' = m
    ∧ ∀ ch c x, m !! ch = Some c → channel_ c = Some x → interest (rx_poller r') !! fd_ x = Some (u32 (events_ x), ch).
Proof.
  intros Hi Hrep Hlen Hs. unfold spec_iteration in Hs. destruct (fold_some _ evs.*1 _) as [m1|] eqn:E1; [|done].
  cbn in Hs. destruct (rx_poll_ok evs r Hi Hrep Hlen) as (p & E & Hi0 & Hv0 & Hlive). unfold rx_iteration. rewrite E.
  cbn [mbind outcome_bind fst snd]. rewrite <- Hv0 in E1.
  destruct (rx_events_ok on_read on_state polls _ _ _ Hi0 Hlive E1) as (r1 & -> & Hi1 & Hv1 & _).
  cbn [mbind outcome_bind]. rewrite <- Hv1 in Hs.
  destruct (rx_functors_ok funcs m r1 Hi1 Hs) as (r2 & -> & Hi2 & Hv2 & _).
  exists r2. split_and!; try done. intros ch c x Hc Hx. rewrite <- Hv2 in Hc. by eapply rx_watched.
Qed.

Section Deleted.
Context (on_read on_state : TcpConn → outcome TcpConn) (polls : Z → Z * Z).
Implicit Types r : Reactor.

Lemma fold_ret_app {A S} (f : S → A → outcome S) l k s :
  fold_ret f (l ++ k) s = (s ← fold_ret f l s; fold_ret f k s).
Proof. revert s. induction l as [|y l IH]; intros s; [done|]. cbn. destruct (f s y); cbn; [apply IH|done..]. Qed.

(** A read callback that deletes its channel: HandleEvent goes on to read revents_. *)
Lemma rx_HandleEvent_deleted r ch c c' x :
  rx_inv r → views r !! ch = Some c → channel_ c = Some x → has_bits (revents_ x) read_bits = true →
  handler on_read on_state polls CbRead ch c = Ret c' → channel_ c' = None →
  rx_HandleEvent on_read on_state polls r ch = Fault UseAfterFree.
Proof.
  intros Hi Hv Hx Hrev Hf Hnone. unfold rx_HandleEvent.
  destruct (rx_dispatch_skip on_read on_state polls (λ rev, has_bits rev POLLHUP && negb (has_bits rev POLLIN)) CbClose ch c r)
    as [-> [x0 Hx0]]; [done|done|by left|].
  destruct (rx_dispatch_skip on_read on_state polls (λ rev, has_bits rev (Z.lor POLLERR POLLNVAL)) CbError ch c r)
    as [E _]; [done|done|by right|].
  cbn [mbind outcome_bind]. unfold chan_at at 1. cbn [chans EpollPoller_ops]. rewrite Hx0. cbn [from_option_fault mbind outcome_bind].
  rewrite E. cbn [mbind outcome_bind].
  destruct (views_Some _ _ _ Hi Hv) as (c0 & x1 & Hc0 & Hx1 & Ec & Hfd & Hr & Hcb & Hvw).
  assert (x1 = x0) as -> by congruence. assert (x0 = x) as -> by (rewrite Ec in Hx; by injection Hx).
  assert (∃ r', rx_dispatch on_read on_state polls (λ rev, has_bits rev read_bits) CbRead ch r = Ret r'
            ∧ ep_chans (rx_poller r') !! ch = None) as (r' & -> & Hdel).
  { unfold rx_dispatch, chan_at. cbn [chans EpollPoller_ops]. rewrite Hx0. cbn [from_option_fault mbind outcome_bind].
    rewrite Hrev, bool_decide_true by (rewrite Hcb; set_solver). cbn [andb]. unfold rx_callback. rewrite Hc0.
    unfold conn_op. rewrite Hvw. cbn [mbind outcome_bind]. rewrite Hf. unfold chan_at. cbn [chans EpollPoller_ops mbind outcome_bind].
    rewrite Hx0. cbn [from_option_fault mbind outcome_bind]. rewrite Hnone. cbn [put_channel].
    rewrite (proj2 (Z.eqb_neq (fd_ x) (-1))), (Close_eq _ _ _ Hx0 Hfd Hr) by lia. cbn [negb mbind outcome_bind].
    eexists. split; [done|]. cbn. apply lookup_delete_eq. }
  cbn [mbind outcome_bind]. unfold rx_dispatch, chan_at. cbn [chans EpollPoller_ops]. by rewrite Hdel.
Qed.

(** A read callback that fails ends the event. *)
Lemma rx_HandleEvent_fault r ch c x e :
  rx_inv r → views r !! ch = Some c → channel_ c = Some x → has_bits (revents_ x) read_bits = true →
  handler on_read on_state polls CbRead ch c = Fault e → rx_HandleEvent on_read on_state polls r ch = Fault e.
Proof.
  intros Hi Hv Hx Hrev Hf. unfold rx_HandleEvent.
  destruct (rx_dispatch_skip on_read on_state polls (λ rev, has_bits rev POLLHUP && negb (has_bits rev POLLIN)) CbClose ch c r)
    as [-> [x0 Hx0]]; [done|done|by left|].
  destruct (rx_dispatch_skip on_read on_state polls (λ rev, has_bits rev (Z.lor POLLERR POLLNVAL)) CbError ch c r)
    as [E _]; [done|done|by right|].
  cbn [mbind outcome_bind]. unfold chan_at at 1. cbn [chans EpollPoller_ops]. rewrite Hx0. cbn [from_option_fault mbind outcome_bind].
  rewrite E. cbn [mbind outcome_bind].
  destruct (views_Some _ _ _ Hi Hv) as (c0 & x1 & Hc0 & Hx1 & Ec & _ & _ & Hcb & Hvw).
  assert (x1 = x0) as -> by congruence. assert (x0 = x) as -> by (rewrite Ec in Hx; by injection Hx).
  unfold rx_dispatch, chan_at. cbn [chans EpollPoller_ops]. rewrite Hx0. cbn [from_option_fault mbind outcome_bind].
  rewrite Hrev, bool_decide_true by (rewrite Hcb; set_solver). cbn [andb]. unfold rx_callback. rewrite Hc0.
  unfold conn_op. rewrite Hvw. cbn [mbind outcome_bind]. by rewrite Hf.
Qed.

(** CleanUp without a timer, with callbacks that return. *)
Lemma CleanUp_deletes c :
  timer_ (timeoutId_ c) = 0 → (∀ y, ∃ y', on_read y = Ret y' ∧ timeoutId_ y' = timeoutId_ y) →
  (∀ y, ∃ y', on_state y = Ret y') → ∃ c', CleanUp on_read on_state c = Ret c' ∧ channel_ c' = None.
Proof.
  intros Hid Hr Hs. unfold CleanUp.
  assert (∃ c1, call_read on_read c = Ret c1 ∧ timeoutId_ c1 = timeoutId_ c) as (c1 & -> & Ht).
  { unfold call_read. destruct (readcb_ c && _); [|by eauto]. apply (Hr (deliver c)). }
  cbn [mbind outcome_bind]. unfold Cancel, CancelTimerIdInLoop. cbn [timeoutId_ set_state]. rewrite Ht, Hid.
  cbn [Z.eqb mbind outcome_bind timers set_state set_timer]. destruct (statecb_ _); [|by eauto].
  match goal with |- context [on_state ?y] => destruct (Hs y) as [y' ->] end. by eauto.
Qed.

End Deleted.

(** C8: a peer that disconnects crashes the loop.  The stream of a connected socket
    has ended (end of file or an error, whatever data comes before it), epoll reports
    it readable, and the events before it in the same round are harmless.  HandleRead
    then deletes the channel in CleanUp, and HandleEvent, which called it, goes on to
    read revents_ of the deleted channel.  The user's callbacks only have to
    return. *)
Theorem reactor_peer_close (on_read on_state : TcpConn → outcome TcpConn) (polls : Z → Z * Z)
    (pre post : list (Z * Z)) (ch rev : Z) (funcs : list (Z * (TcpConn → outcome TcpConn))) (r : Reactor)
    (m : gmap Z TcpConn) (c : TcpConn) (x : Channel) :
  let evs := pre ++ (ch, rev) :: post in
  rx_inv r → reported evs (rx_poller r) → zlen evs ≤ ep_nevents (rx_poller r) < 2 ^ 63 →
  fold_some (spec_event on_read on_state polls) pre.*1 (spec_poll evs (views r)) = Some m →
  m !! ch = Some c → channel_ c = Some x → 0 ≤ fd_ x → has_bits (revents_ x) read_bits = true →
  state_ c = kConnected → (read_plan (reads c)).2 = true → Forall rres_ok (reads c) → buf_wf (input_ c) →
  0 < exp_ (input_ c) → 2 * (e_ (input_ c) + zlen (read_plan (reads c)).1 + exp_ (input_ c)) ≤ ptrdiff_max →
  timer_ (timeoutId_ c) = 0 → (∀ y, ∃ y', on_read y = Ret y' ∧ timeoutId_ y' = timeoutId_ y) →
  (∀ y, ∃ y', on_state y = Ret y') →
  rx_iteration on_read on_state polls evs funcs r = Fault UseAfterFree.
Proof.
  intros evs Hi Hrep Hlen Hpre Hc Hx Hfd Hrev Hst Hend Hok Hwf Hexp Hsz Hid Hr Hs.
  destruct (rx_poll_ok evs r Hi Hrep Hlen) as (p & E & Hi0 & Hv0 & Hlive). unfold rx_iteration. rewrite E.
  cbn [mbind outcome_bind fst snd]. unfold evs at 1. rewrite fmap_app, fold_ret_app. rewrite <- Hv0 in Hpre.
  destruct (rx_events_ok on_read on_state polls pre.*1 m _ Hi0) as (r1 & -> & Hi1 & Hv1 & _); [|done|].
  { intros ch' Hin. apply Hlive. unfold evs. rewrite fmap_app. set_solver. }
  cbn [mbind outcome_bind fmap list_fmap fold_ret fst].
  destruct (HandleRead_loop_ok on_read on_state (reads_size (reads c)) c x) as (c1 & E1 & (inp & rs & Ec1) & _); try done.
  rewrite Hend in E1. destruct (CleanUp_deletes on_read on_state c1) as (c' & E2 & Hnone); [by rewrite Ec1|done..|].
  rewrite (rx_HandleEvent_deleted on_read on_state polls r1 ch c c' x); try done; [by rewrite Hv1|].
  unfold handler, HandleRead. rewrite bool_decide_false by (by rewrite Hst). by rewrite E1.
Qed.

(** ** A loop to try them on *)

(** Two connections on descriptors 5 and 6 with their channels at 16 and 32. *)
Definition rx_demo_conn (ws : list wres) (rs : list rres) : TcpConn :=
  set_state kInvalid (set_channel None (set_writes ws [] (set_reads rs demo_conn))).

Definition rx_demo_made : outcome Reactor :=
  r ← rx_Attach 5 1 16 (rx_demo_conn [Wrote 2; WEagain; Wrote 9] [RData [7; 8; 9]; REagain; RData [4]])
        (mkReactor EpollPoller_new ∅);
  rx_Attach 6 2 32 (rx_demo_conn [Wrote 9] [RData [1]; REof]) r.

Definition ret_or {A} (d : A) (o : outcome A) : A := match o with Ret a => a | _ => d end.
Definition rx_demo : Reactor := ret_or (mkReactor EpollPoller_new ∅) rx_demo_made.

(** After the handshake of both. *)
Definition rx_polls (ch : Z) : Z * Z := (1, POLLOUT).
Definition rx_up : Reactor :=
  ret_or rx_demo (rx_iteration idle idle rx_polls [(16, POLLOUT); (32, POLLOUT)] [] rx_demo).

(** The invariant, checked on a given state. *)
Definition rx_check (r : Reactor) : bool :=
  let p := rx_poller r in
  bool_decide (ep_channels_ p = snd <$> interest p)
  && bool_decide (map_Forall (λ fd (e : Z * Z), from_option (λ x,
       bool_decide (fd_ x = fd ∧ fst e = u32 (events_ x) ∧ - 2 ^ 15 ≤ events_ x < 2 ^ 15)) false (ep_chans p !! snd e))
       (interest p))
  && bool_decide (0 < ep_nevents p)
  && bool_decide (map_Forall (λ ch _, from_option (λ x,
       bool_decide (0 ≤ fd_ x ∧ ep_channels_ p !! fd_ x = Some ch ∧ callbacks_ x = [CbWrite; CbRead])) false (ep_chans p !! ch))
       (rx_conns r)).

Lemma rx_check_ok r : rx_check r = true → rx_inv r.
Proof.
  unfold rx_check. rewrite !andb_true_iff, !bool_decide_eq_true. intros (((H1 & H2) & H3) & H4). split; [split_and!|].
  - intros fd ch. rewrite H1, lookup_fmap, fmap_Some. split; [|naive_solver].
    intros ([ev ch'] & ? & ->). by exists ev.
  - intros fd ev ch Hint. specialize (H2 _ _ Hint). cbn in H2. destruct (ep_chans _ !! ch) as [x|]; [|done].
    cbn in H2. apply bool_decide_unpack in H2 as (? & ? & ?). by exists x.
  - done.
  - intros ch c Hc. specialize (H4 _ _ Hc). cbn in H4. destruct (ep_chans _ !! ch) as [x|]; [|done].
    cbn in H4. apply bool_decide_unpack in H4 as (? & ? & ?). by exists x.
Qed.

Lemma rx_demo_reported p evs :
  forallb (λ e, existsb (λ i : Z * (Z * Z), (i.2).2 =? e.1) (map_to_list (interest p))) evs = true → reported evs p.
Proof.
  intros H ch rev Hin. rewrite List.forallb_forall in H. specialize (H _ (proj1 (list_elem_of_In _ _) Hin)).
  apply List.existsb_exists in H as ([fd [ev ch']] & Hi & He%Z.eqb_eq). cbn in He. subst ch'.
  exists fd, ev. by apply elem_of_map_to_list, list_elem_of_In.
Qed.

(** A readable and writable event for the first connection, and a queued Send on the
    second one. *)
Definition rx_evs : list (Z * Z) := [(16, Z.lor POLLIN POLLOUT)].
Definition rx_funcs : list (Z * (TcpConn → outcome TcpConn)) := [(32, Send [Some 65; Some 66])].
Definition rx_next : gmap Z TcpConn := default ∅ (spec_iteration idle idle rx_polls rx_evs rx_funcs (views rx_up)).

Lemma reactor_refines_witness :
  ∃ r', rx_iteration idle idle rx_polls rx_evs rx_funcs rx_up = Ret r' ∧ views r' = rx_next
    ∧ wire <$> rx_next !! 32 = Some [Some 65; Some 66] ∧ (λ c, content (input_ c)) <$> rx_next !! 16 = Some [Some 7; Some 8; Some 9].
Proof.
  destruct (reactor_refines idle idle rx_polls rx_evs rx_funcs rx_up rx_next) as (r' & E & _ & Hv & _).
  - by apply rx_check_ok; vm_compute.
  - by apply rx_demo_reported; vm_compute.
  - by vm_compute.
  - by vm_compute.
  - exists r'. split; [exact E|]. split; [exact Hv|]. clear. split; vm_compute; reflexivity.
Defined.

Lemma reactor_peer_close_witness :
  rx_iteration idle idle rx_polls [(16, POLLIN); (32, POLLIN)] [] rx_up = Fault UseAfterFree.
Proof.
  pose (evs := [(16, POLLIN); (32, POLLIN)]).
  pose (m := default ∅ (fold_some (spec_event idle idle rx_polls) [16] (spec_poll evs (views rx_up)))).
  pose (c := default demo_conn (m !! 32)). pose (x := default demo_chan (channel_ c)).
  apply (reactor_peer_close idle idle rx_polls [(16, POLLIN)] [] 32 POLLIN [] rx_up m c x).
  - by apply rx_check_ok; vm_compute.
  - by apply rx_demo_reported; vm_compute.
  - by vm_compute.
  - by vm_compute.
  - by vm_compute.
  - by vm_compute.
  - by vm_compute.
  - by vm_compute.
  - by vm_compute.
  - by vm_compute.
  - assert (reads c = [RData [1]; REof]) as -> by (by vm_compute). by repeat constructor.
  - assert (input_ c = Buffer_new) as -> by (by vm_compute). apply wf_new.
  - by vm_compute.
  - by vm_compute.
  - by vm_compute.
  - intros y. by exists y.
  - intros y. by exists y.
Defined.
