(* ===== verification/Streams.v ===== *)
(** * Byte streams through the loop: net/tcpconn.cc on net/eventloop.cc

    The theorem about an iteration of Reactor.v in which every connection that epoll
    reports is open: what each peer has sent reaches its read callback, the answer
    goes out behind what was sent before, connections do not disturb each other, and
    bytes that wait are waited for in the kernel.  No definition here models code. *)

From S2P Require Import Prelude Buffer Channel Poller PollerEquiv Time TimerQueue LoopLife TcpConn Reactor.

(** ** What is asked of a connection and of the user *)

(** Everything the read callback is handed: the unread input and what the kernel
    has. *)
Definition received (c : TcpConn) : list cell := content (input_ c) ++ (Some <$> (read_plan (reads c)).1).

(** An open connection whose peer has not closed. *)
Definition serviceable (c : TcpConn) : Prop :=
  open_inv c ∧ Forall rres_ok (reads c) ∧ (read_plan (reads c)).2 = false ∧ buf_wf (input_ c)
  ∧ 0 < exp_ (input_ c) ∧ 2 * (e_ (input_ c) + zlen (read_plan (reads c)).1 + exp_ (input_ c)) ≤ ptrdiff_max.

(** The read callback answers what it is handed with [reply]. *)
Definition answers (on_read : TcpConn → outcome TcpConn) (reply : list cell → list cell) (c : TcpConn) : Prop :=
  ∀ c1, same_but_input c c1 → buf_wf (input_ c1) → content (input_ c1) = received c →
    ∃ c', on_read (deliver c1) = Ret c' ∧ kept c1 c' = true ∧ open_inv c' ∧ flow c' = flow c ++ reply (received c).

(** The bytes that the events [rev] make a connection send. *)
Definition due (reply : list cell → list cell) (rev : Z) (c : TcpConn) : list cell :=
  if has_bits rev read_bits && readcb_ c && bool_decide (received c ≠ []) then reply (received c) else [].

(** What becomes of a connection for which [rev] was reported. *)
Definition served (reply : list cell → list cell) (rev : Z) (c c' : TcpConn) : Prop :=
  open_inv c' ∧ flow c' = flow c ++ due reply rev c
  ∧ (has_bits rev POLLOUT = true → content (output_ c') = [] → ∀ x, channel_ c' = Some x → IsWriting x = false).

(** ** Operations keep their channel *)

Section Kept.
Implicit Types c : TcpConn.

Lemma kept_same c x : channel_ c = Some x → is_short (events_ x) → kept c c = true.
Proof. intros Hx Hs. unfold kept. rewrite Hx, !bool_decide_true; [done|done|by destruct x]. Qed.

(** The same channel or the same with other events. *)
Definition retuned (x x' : Channel) : Prop := x' = x ∨ ∃ e, x' = set_events (i16 e) x.

Lemma retuned_trans x y z : retuned x y → retuned y z → retuned x z.
Proof. intros [->|[e ->]] [->|[e' ->]]; [by left|by right; eexists|by right; eexists|right; by exists e']. Qed.

Lemma i16_is_short e : is_short (i16 e).
Proof. exact (swrap_bound 16 e ltac:(lia)). Qed.

Lemma kept_retuned c c' x x' :
  channel_ c = Some x → is_short (events_ x) → channel_ c' = Some x' → retuned x x' → kept c c' = true.
Proof.
  intros Hx Hs Hx' Hr. unfold kept. rewrite Hx, Hx'. destruct Hr as [->|[e ->]].
  - rewrite !bool_decide_true; [done|done|by destruct x].
  - rewrite !bool_decide_true; [done|apply i16_is_short|done].
Qed.

(** ISend leaves the channel or turns writing on. *)
Lemma ISend_loop_channel ws data s c n c' x :
  channel_ c = Some x → ISend_loop ws data s c = Ret (n, c') → ∃ x', channel_ c' = Some x' ∧ retuned x x'.
Proof.
  revert s c. induction ws as [|w ws IH]; intros s c Hx H; cbn [ISend_loop] in H.
  all: unfold chan in H; rewrite Hx in H; cbn [from_option_fault mbind outcome_bind] in H.
  all: assert (∃ x', channel_ (if IsWriting x then c else set_channel (Some (EnableWrite x)) c) = Some x' ∧ retuned x x') as (xa & Ha & Hra)
    by (destruct (IsWriting x); eexists; (split; [done|]); [by left|right; by eexists]).
  - repeat case_match; injection H as <- <-; try (exists x; by split; [|left]). by exists xa.
  - destruct (_ <=? s); [injection H as <- <-; exists x; by split; [|left]|].
    destruct (_ <? 0); [injection H as <- <-; exists x; by split; [|left]|].
    destruct w as [k| | |].
    + destruct (0 <? _); [by eapply IH in H|injection H as <- <-; exists x; by split; [|left]].
    + by eapply IH.
    + injection H as <- <-. by exists xa.
    + injection H as <- <-. exists x. by split; [|left].
Qed.

Lemma HandleWrite_kept on_read on_state p rev c c' x :
  state_ c = kConnected → channel_ c = Some x → is_short (events_ x) → HandleWrite on_read on_state p rev c = Ret c' →
  kept c c' = true.
Proof.
  intros Hst Hx Hs H. unfold HandleWrite in H. rewrite Hst in H.
  destruct (read_cells _ _ _) as [data| |]; [|done..]. cbn [mbind outcome_bind] in H.
  destruct (ISend data c) as [[n c1]| |] eqn:E; [|done..]. cbn [mbind outcome_bind fst snd] in H.
  apply (ISend_loop_channel _ _ _ _ _ _ x) in E as (x1 & Hx1 & Hr1); [|done].
  destruct (IsEmpty _); [|injection H as <-; by eapply kept_retuned].
  unfold chan in H. cbn [channel_ set_output] in H. rewrite Hx1 in H. cbn [from_option_fault mbind outcome_bind] in H.
  destruct (IsWriting x1); injection H as <-; [|by eapply kept_retuned].
  eapply (kept_retuned _ _ x (DisableWrite x1)); [done..|]. eapply retuned_trans; [done|]. right. by eexists.
Qed.

Lemma SendInLoop_kept msg c c' x :
  channel_ c = Some x → is_short (events_ x) → SendInLoop msg c = Ret c' → kept c c' = true.
Proof.
  intros Hx Hs H. unfold SendInLoop in H. rewrite Hx in H. destruct (IsEmpty _).
  - destruct (ISend msg c) as [[n c1]| |] eqn:E; [|done..]. cbn [mbind outcome_bind fst snd] in H.
    apply (ISend_loop_channel _ _ _ _ _ _ x) in E as (x1 & Hx1 & Hr1); [|done].
    destruct (_ =? 0); [injection H as <-; by eapply kept_retuned|].
    destruct (Append _ _); [|done..]. injection H as <-. by eapply kept_retuned.
  - cbn [mbind outcome_bind fst snd] in H. destruct (_ =? 0); [injection H as <-; by eapply kept_same|].
    destruct (Append _ _); [|done..]. injection H as <-. eapply kept_retuned; [done..|by left].
Qed.

End Kept.

(** ** What Poll stores *)

Lemma spec_poll_lookup evs m ch :
  NoDup evs.*1 →
  (ch ∉ evs.*1 → spec_poll evs m !! ch = m !! ch)
  ∧ ∀ rev, (ch, rev) ∈ evs → spec_poll evs m !! ch = see rev <$> m !! ch.
Proof.
  revert m. induction evs as [|[ch' rev'] evs IH]; intros m Hnd; [split; [done|by intros rev []%elem_of_nil]|].
  cbn in Hnd. apply NoDup_cons in Hnd as [Hni Hnd]. change (spec_poll ((ch', rev') :: evs) m) with (spec_poll evs (alter (see rev') ch' m)).
  destruct (IH (alter (see rev') ch' m) Hnd) as [Hout Hin]. split.
  - cbn. intros Hn. rewrite Hout by set_solver. rewrite lookup_alter_ne; [done|]. set_solver.
  - intros rev [[= <- <-]|Hi]%elem_of_cons; [by rewrite Hout, lookup_alter_eq|].
    rewrite (Hin rev Hi), lookup_alter_ne; [done|]. intros <-. apply Hni. by apply (list_elem_of_fmap_2 fst) in Hi.
Qed.

Lemma NoDup_fst_unique {A} (l : list (Z * A)) k x y : NoDup l.*1 → (k, x) ∈ l → (k, y) ∈ l → x = y.
Proof.
  intros Hnd Hx%(elem_of_list_to_map (M:=gmap Z)) Hy%(elem_of_list_to_map (M:=gmap Z)); [|done..]. congruence.
Qed.

(** ** One connection *)

Section Serve.
Context (on_read on_state : TcpConn → outcome TcpConn) (polls : Z → Z * Z) (reply : list cell → list cell).
Implicit Types c : TcpConn.

Lemma open_inv_reread c inp rs : open_inv c → open_inv (set_input inp (set_reads rs c)).
Proof. done. Qed.

(** HandleRead on a serviceable connection. *)
Lemma HandleRead_served r rev c x :
  serviceable c → channel_ c = Some x → is_short (events_ x) →
  (readcb_ c = true → received c ≠ [] → answers on_read reply c) →
  ∃ c', HandleRead on_read on_state r rev c = Ret c' ∧ kept c c' = true ∧ open_inv c'
    ∧ flow c' = flow c ++ (if readcb_ c && bool_decide (received c ≠ []) then reply (received c) else []).
Proof.
  intros (Ho & Hok & Hend & Hwf & Hexp & Hsz) Hx Hsh Hans. pose proof Ho as (Hst & _ & _ & y & Hy & Hfd & _).
  assert (y = x) as -> by congruence. unfold HandleRead. rewrite bool_decide_false by (by rewrite Hst).
  destruct (HandleRead_loop_ok on_read on_state (reads_size (reads c)) c x) as (c1 & -> & Hsame & Hwf1 & Hc1 & _); try done.
  rewrite Hend. pose proof Hsame as (inp & rs & Ec1). fold (received c) in Hc1. unfold call_read.
  rewrite GetSize_content, Hc1 by done. assert (readcb_ c1 = readcb_ c) as -> by (by rewrite Ec1).
  assert (kept c c1 = true ∧ open_inv c1 ∧ flow c1 = flow c) as (Hk1 & Ho1 & Hf1).
  { rewrite Ec1. split_and!; [by eapply (kept_retuned _ _ x x); [..|left]|done|done]. }
  destruct (readcb_ c) eqn:Hcb; cbn [andb]; [|exists c1; by rewrite app_nil_r].
  destruct (decide (received c = [])) as [He|Hne].
  { rewrite He. cbn. exists c1. rewrite app_nil_r. split_and!; done. }
  rewrite (proj2 (Z.eqb_neq _ _)), bool_decide_true by (try done; intros ?%zlen_0_nil; done). cbn [negb].
  destruct (Hans eq_refl Hne c1 Hsame Hwf1 Hc1) as (c' & -> & Hk & Hoc & Hf). exists c'. split_and!; try done.
  unfold kept in Hk |- *. assert (channel_ c1 = channel_ c) as Ech by (by rewrite Ec1). by rewrite Ech in Hk.
Qed.

(** The event of one connection. *)
Lemma spec_event_served m ch rev c x :
  m !! ch = Some c → channel_ c = Some x → is_short (events_ x) → revents_ x = i16 rev → serviceable c →
  (has_bits rev read_bits = true → readcb_ c = true → received c ≠ [] → answers on_read reply c) →
  ∃ c', spec_event on_read on_state polls m ch = Some (<[ch := c']> m) ∧ served reply rev c c'.
Proof.
  intros Hc Hx Hsh Hrev Hs Hans. unfold spec_event. rewrite Hc. cbn. rewrite Hx. unfold has_bits. rewrite Hrev, !land_i16 by done.
  fold (has_bits rev read_bits). fold (has_bits rev POLLOUT).
  assert (∃ c1, spec_when (has_bits rev read_bits) (HandleRead on_read on_state (polls ch).1 (polls ch).2) ch m = Some (<[ch := c1]> m)
    ∧ kept c c1 = true ∧ open_inv c1 ∧ flow c1 = flow c ++ due reply rev c) as (c1 & -> & Hk1 & Ho1 & Hf1).
  { unfold due, spec_when. destruct (has_bits rev read_bits).
    - destruct (HandleRead_served (polls ch).1 (polls ch).2 c x Hs Hx Hsh) as (c1 & E & Hk & Ho & Hf).
      { intros Hcb Hne. by apply Hans. }
      exists c1. unfold spec_op. rewrite Hc. by rewrite E, Hk.
    - exists c. rewrite insert_id, app_nil_r by done. split_and!; try done; [by eapply kept_same|apply Hs]. }
  cbn [mbind option_bind]. unfold spec_when. destruct (has_bits rev POLLOUT) eqn:Hw.
  2:{ exists c1. split; [done|]. split; [done|]. split; [done|]. by rewrite Hw. }
  destruct (HandleWrite_ok on_read on_state (polls ch).1 (polls ch).2 c1 Ho1) as (c' & E & Ho & Hf & Hidle).
  destruct (kept_inv _ _ _ Hk1 Hx) as (x1 & Hx1 & _ & Hsh1).
  exists c'. unfold spec_op. rewrite lookup_insert_eq. rewrite E.
  rewrite (HandleWrite_kept on_read on_state (polls ch).1 (polls ch).2 c1 c' x1); [|apply Ho1|done..].
  rewrite insert_insert_eq. split; [done|]. split; [done|]. split; [congruence|]. intros _. apply Hidle.
Qed.

(** ** All of them *)

(** Events of different connections do not interfere. *)
Lemma spec_events_pointwise (P : Z → TcpConn → TcpConn → Prop) chs m :
  NoDup chs →
  (∀ ch c m', ch ∈ chs → m !! ch = Some c → m' !! ch = Some c →
     ∃ c', spec_event on_read on_state polls m' ch = Some (<[ch := c']> m') ∧ P ch c c') →
  ∃ m', fold_some (spec_event on_read on_state polls) chs m = Some m'
    ∧ (∀ ch, ch ∉ chs ∨ m !! ch = None → m' !! ch = m !! ch)
    ∧ ∀ ch c, ch ∈ chs → m !! ch = Some c → ∃ c', m' !! ch = Some c' ∧ P ch c c'.
Proof.
  revert m. induction chs as [|ch chs IH]; intros m Hnd H.
  { exists m. split_and!; [done|done|]. by intros ch c []%elem_of_nil. }
  apply NoDup_cons in Hnd as [Hni Hnd]. rewrite fold_some_cons. destruct (m !! ch) as [c|] eqn:Hc.
  - destruct (H ch c m) as (c1 & -> & HP); [by left|done..|]. cbn [mbind option_bind].
    destruct (IH (<[ch := c1]> m)) as (m' & E & Hout & Hin); [done| |].
    { intros ch' c' m' Hi Hm. rewrite lookup_insert_ne in Hm by (by intros <-). apply H; [by right|done]. }
    exists m'. split; [done|]. split.
    + intros ch' [Hn|Hn]; rewrite Hout.
      * rewrite lookup_insert_ne; [done|]. set_solver.
      * left. set_solver.
      * rewrite lookup_insert_ne; [done|]. intros <-. congruence.
      * right. rewrite lookup_insert_ne; [done|]. intros <-. congruence.
    + intros ch' c' [->|Hi]%elem_of_cons Hm.
      * exists c1. rewrite Hout, lookup_insert_eq by (by left). split; [done|]. by assert (c' = c) as -> by congruence.
      * apply Hin; [done|]. rewrite lookup_insert_ne; [done|]. by intros <-.
  - assert (spec_event on_read on_state polls m ch = Some m) as -> by (unfold spec_event; by rewrite Hc).
    cbn [mbind option_bind]. destruct (IH m) as (m' & E & Hout & Hin); [done| |].
    { intros ch' c' m' Hi. apply H. by right. }
    exists m'. split; [done|]. split.
    + intros ch' [Hn|Hn]; apply Hout; [left; set_solver|by right].
    + intros ch' c' [->|Hi]%elem_of_cons Hm; [congruence|by apply Hin].
Qed.

End Serve.

Lemma land_u32 x m : 0 ≤ m < 2 ^ 32 → Z.land (u32 x) m = Z.land x m.
Proof.
  intros Hm. unfold wrap. rewrite <- Z.land_ones, <- Z.land_assoc, (Z.land_comm (Z.ones 32)), Z.land_ones by lia.
  by rewrite Z.mod_small.
Qed.

(** ** Properties *)

(** C3: byte streams through the loop.  In a good state, let epoll report some
    connections, each once and all open, whose callback answers what it is handed.
    The iteration returns into a good state.  A connection that was not reported is as
    before.  One that was is still open; what is on its wire and in its output
    buffer is what was there followed by the answer to everything its peer has sent,
    when it was readable; and the kernel watches it for writability as long as bytes
    wait, and no longer once a writable event has drained them. *)
Theorem reactor_streams (on_read on_state : TcpConn → outcome TcpConn) (polls : Z → Z * Z)
    (reply : list cell → list cell) (evs : list (Z * Z)) (r : Reactor) :
  rx_inv r → reported evs (rx_poller r) → zlen evs ≤ ep_nevents (rx_poller r) < 2 ^ 63 → NoDup evs.*1 →
  (∀ ch rev c, (ch, rev) ∈ evs → views r !! ch = Some c → serviceable c
     ∧ (has_bits rev read_bits = true → readcb_ c = true → received c ≠ [] → answers on_read reply (see rev c))) →
  ∃ r', rx_iteration on_read on_state polls evs [] r = Ret r' ∧ rx_inv r'
    ∧ (∀ ch, ch ∉ evs.*1 → views r' !! ch = views r !! ch)
    ∧ ∀ ch rev c, (ch, rev) ∈ evs → views r !! ch = Some c →
        ∃ c' x ev, views r' !! ch = Some c' ∧ channel_ c' = Some x ∧ open_inv c'
          ∧ wire c' ++ content (output_ c') = (wire c ++ content (output_ c)) ++ due reply rev c
          ∧ interest (rx_poller r') !! fd_ x = Some (ev, ch)
          ∧ (content (output_ c') ≠ [] → has_bits ev POLLOUT = true)
          ∧ (has_bits rev POLLOUT = true → content (output_ c') = [] → has_bits ev POLLOUT = false).
Proof.
  intros Hi Hrep Hlen Hnd Hser. destruct (rx_poll_ok evs r Hi Hrep Hlen) as (p & E & Hi0 & Hv0 & Hlive).
  destruct (spec_events_pointwise on_read on_state polls
    (λ ch cs c', ∀ rev c, (ch, rev) ∈ evs → views r !! ch = Some c → served reply rev c c') evs.*1 (spec_poll evs (views r)))
    as (m & Em & Hout & Hin); [done| |].
  { intros ch cs m' ([ch' rev] & -> & Hev)%list_elem_of_fmap Hcs Hm'. cbn [fst] in *.
    rewrite (proj2 (spec_poll_lookup evs (views r) ch' Hnd) rev Hev) in Hcs.
    destruct (views r !! ch') as [c|] eqn:Hc; [|done]. injection Hcs as <-. destruct (Hser ch' rev c Hev Hc) as [Hs Ha].
    destruct (views_Some _ _ _ Hi Hc) as (c0 & x & _ & _ & Ec & _). assert (channel_ c = Some x) as Hx by (by rewrite Ec).
    destruct (rx_watched r ch' c x Hi Hc Hx) as [_ Hsh].
    destruct (spec_event_served on_read on_state polls reply m' ch' rev (see rev c) (SetREvents rev x)) as (c' & E' & Hs');
      [done|by cbn; rewrite Hx|done|done| |exact Ha|].
    { destruct Hs as ((? & ? & ? & y & Hy & ?) & ?). split; [|done]. split_and!; try done. exists (SetREvents rev x).
      assert (y = x) as -> by congruence. cbn. by rewrite Hx. }
    exists c'. split; [done|]. intros rev1 c1 Hev1 [= <-]. assert (rev1 = rev) as -> by (by eapply NoDup_fst_unique).
    done. }
  rewrite <- Hv0 in Em. destruct (rx_events_ok on_read on_state polls _ _ _ Hi0 Hlive Em) as (r1 & E1 & Hi1 & Hv1 & _).
  exists r1. split_and!.
  - unfold rx_iteration. rewrite E. cbn [mbind outcome_bind fst snd]. by rewrite E1.
  - done.
  - intros ch Hn. rewrite Hv1, Hout by (by left). by apply spec_poll_lookup.
  - intros ch rev c Hev Hc. pose proof (list_elem_of_fmap_2 fst _ _ Hev) as Hin1. cbn in Hin1.
    destruct (Hin ch (see rev c) Hin1) as (c' & Hc' & HP).
    { by rewrite (proj2 (spec_poll_lookup evs (views r) ch Hnd) rev Hev), Hc. }
    destruct (HP rev c Hev Hc) as (Ho & Hf & Hidle). pose proof Ho as (_ & _ & _ & x & Hx & _ & Hw).
    rewrite <- Hv1 in Hc'. destruct (rx_watched r1 ch c' x Hi1 Hc' Hx) as [Hint _].
    assert (has_bits (u32 (events_ x)) POLLOUT = IsWriting x) as Hb by (unfold has_bits, IsWriting; by rewrite land_u32).
    exists c', x, (u32 (events_ x)). rewrite Hb. split_and!; try done. intros H1 H2. by apply Hidle.
Qed.

(** An echo server: send the input back and drop it. *)
Definition echo (c : TcpConn) : outcome TcpConn :=
  c' ← Send (content (input_ c)) c; Ret (set_input Buffer_new c').

Lemma echo_answers c x :
  open_inv c → channel_ c = Some x → is_short (events_ x) → zlen (received c) ≤ ptrdiff_max →
  (∀ n, 0 ≤ n ≤ zlen (received c) → append_room (zdrop n (received c)) (output_ c)) →
  answers echo id c.
Proof.
  intros Ho Hx Hs Hlen Hroom c1 (inp & rs & E) _ Hc. unfold echo. cbn [deliver input_]. rewrite Hc.
  assert (open_inv (deliver c1) ∧ flow (deliver c1) = flow c ∧ output_ (deliver c1) = output_ c ∧ channel_ (deliver c1) = Some x
    ∧ channel_ c1 = Some x) as (Ho1 & Hf1 & Hout & Hx1 & Hx2) by (by rewrite E).
  rewrite Send_open by done. destruct (SendInLoop_returns (received c) (deliver c1)) as [c' E']; [done|done|by rewrite Hout|].
  rewrite E'. cbn [mbind outcome_bind]. destruct (SendInLoop_Ret _ _ _ Ho1 Hlen E') as [Ho' Hf'].
  eexists. split; [done|]. apply (SendInLoop_kept _ _ _ x) in E' as Hk; [|done..].
  split_and!; [|done|by rewrite <- Hf1; exact Hf']. unfold kept in *. by rewrite Hx1 in Hk; rewrite Hx2.
Qed.

Lemma reactor_streams_witness :
  ∃ r' c', rx_iteration echo idle rx_polls [(16, POLLIN)] [] rx_up = Ret r' ∧ views r' !! 16 = Some c'
    ∧ wire c' ++ content (output_ c') = [Some 7; Some 8; Some 9] ∧ views r' !! 32 = views rx_up !! 32.
Proof.
  pose (c := default demo_conn (views rx_up !! 16)). pose (x := default demo_chan (channel_ c)).
  assert (views rx_up !! 16 = Some c) as Hc by (by vm_compute).
  assert (input_ c = Buffer_new ∧ output_ c = Buffer_new) as [Hin Hout] by (by split; vm_compute).
  destruct (reactor_streams echo idle rx_polls id [(16, POLLIN)] rx_up) as (r' & E & _ & Hno & Hyes).
  - by apply rx_check_ok; vm_compute.
  - by apply rx_demo_reported; vm_compute.
  - by vm_compute.
  - apply NoDup_singleton.
  - intros ch rev c1 [[= -> ->]|[]%elem_of_nil]%elem_of_cons Hc1. assert (c1 = c) as -> by congruence.
    assert (open_inv c) as Ho.
    { apply (open_intro x); [by vm_compute|by rewrite Hout; apply wf_new| |by vm_compute|by vm_compute|by rewrite Hout].
      assert (writes c = [Wrote 2; WEagain; Wrote 9]) as -> by (by vm_compute). by repeat constructor. }
    split.
    + split; [done|]. split; [|split; [by vm_compute|rewrite Hin; split; [apply wf_new|by vm_compute]]].
      assert (reads c = [RData [7; 8; 9]; REagain; RData [4]]) as -> by (by vm_compute). by repeat constructor.
    + intros _ _ _. apply (echo_answers _ (SetREvents POLLIN x)).
      * destruct Ho as (? & ? & ? & y & Hy & ?). split_and!; try done. exists (SetREvents POLLIN y). split; [by cbn; rewrite Hy|done].
      * by vm_compute.
      * by vm_compute.
      * by vm_compute.
      * assert (received (see POLLIN c) = [Some 7; Some 8; Some 9]) as -> by (by vm_compute).
        change (output_ (see POLLIN c)) with (output_ c). rewrite Hout. intros n Hn. right.
        rewrite zlen_zdrop by done. unfold next_cap, ptrdiff_max. change (zlen [Some 7; Some 8; Some 9]) with 3 in *. simpl. lia.
  - destruct (Hyes 16 POLLIN c) as (c' & _ & _ & Hc' & _ & _ & Hf & _); [by left|done|].
    exists r', c'. split; [exact E|]. split; [exact Hc'|]. split; [|apply Hno; by_decide].
    assert (wire c = [] ∧ due id POLLIN c = [Some 7; Some 8; Some 9]) as [Hw Hd] by (by split; vm_compute).
    rewrite Hd, Hw, Hout in Hf. exact Hf.
Defined.
