(* ===== verification/Closing.v ===== *)
(** * Closing a connection: TcpConn::Close and the connect timeout in the loop

    Close() and the timer of Connect call channel_->Close(): the channel leaves the
    poller and its descriptor is closed, but CleanUp is not called.  Here the two run
    as operations of the loop of Reactor.v, and it is shown what is left of the
    connection: no event can ever be reported for it, its state does not change, its
    callbacks are not called, and what is sent on it is lost. *)

From S2P Require Import Prelude Buffer Channel Poller PollerEquiv Time TimerQueue LoopLife TcpConn Reactor.

(** ** Operations *)

(** The callback of the timer that Connect starts. *)
Definition OnConnectTimeout (c : TcpConn) : outcome TcpConn :=
  if bool_decide (state_ c = kHandShakeing) then _ ← chan c; Ret (CloseInLoop c) else Ret c.

(** The functor of Close(). *)
Definition close_op (c : TcpConn) : outcome TcpConn := Ret (CloseInLoop c).

Section Later.
Context (on_read on_state : TcpConn → outcome TcpConn) (polls : Z → Z * Z).

(** Iterations of the loop, in which epoll reports what it watches, and nobody asks
    for an operation on the connection at [ch]. *)
Fixpoint iterations (ch : Z) (its : list (list (Z * Z) * list (Z * (TcpConn → outcome TcpConn)))) (r r' : Reactor) : Prop :=
  match its with
  | [] => r' = r
  | it :: its =>
      reported it.1 (rx_poller r) ∧ (ch ∉ it.2.*1)
      ∧ ∃ r1, rx_iteration on_read on_state polls it.1 it.2 r = Ret r1 ∧ iterations ch its r1 r'
  end.

End Later.

(** ** Lemmas *)

(** The connection at [ch] is [c], and no entry of epoll points to its channel. *)
Definition quiet (ch : Z) (c : TcpConn) (r : Reactor) : Prop :=
  rx_conns r !! ch = Some (set_channel None c) ∧ ep_chans (rx_poller r) !! ch = channel_ c
  ∧ ∀ fd ev, interest (rx_poller r) !! fd ≠ Some (ev, ch).

(** What quiet depends on is the same in [p']. *)
Definition apart (ch : Z) (p p' : EpollPoller) : Prop :=
  ep_chans p' !! ch = ep_chans p !! ch
  ∧ ((∀ fd ev, interest p !! fd ≠ Some (ev, ch)) → ∀ fd ev, interest p' !! fd ≠ Some (ev, ch)).

#[export] Instance apart_preorder ch : PreOrder (apart ch).
Proof. split; [done|]. intros p q s [H1 H2] [H3 H4]. split; [congruence|auto]. Qed.

Section Apart.
Implicit Types p : EpollPoller.

Lemma apart_set_chan ch ch' x p : ch' ≠ ch → apart ch p (ep_set_chan ch' x p).
Proof. intros Hne. split; [by apply lookup_insert_ne|done]. Qed.

Lemma apart_Update op ch ch' p p' : ch' ≠ ch → EpollPoller_Update op ch' p = Ret p' → apart ch p p'.
Proof.
  unfold EpollPoller_Update. intros Hne H. destruct (ep_chan_at ch' p) as [x| |]; [|done..]. injection H as <-.
  split; [done|]. cbn. intros Hno fd ev. unfold epoll_ctl.
  destruct op, (interest p !! fd_ x); try (by apply Hno); rewrite ?lookup_insert, ?lookup_delete; case_decide; naive_solver.
Qed.

Lemma apart_Close ch ch' p p' : ch' ≠ ch → Close ch' p = Ret p' → apart ch p p'.
Proof.
  unfold Close, chan_at. cbn. intros Hne H. destruct (ep_chans p !! ch') as [x|] eqn:Hx; [|done]. cbn in H.
  destruct (0 <=? fd_ x); [|by injection H as <-]. apply bind_Ret_inv in H as (p1 & Hrm & H).
  unfold EpollPoller_RemoveChannel, ep_chan_at in Hrm. cbn in Hrm. rewrite Hx in Hrm. cbn [from_option_fault mbind outcome_bind] in Hrm.
  inv_ret. subst. cbn in Hr. rewrite Hx in Hr. injection Hr as <-.
  split; cbn; [by apply lookup_insert_ne|]. intros Hno fd ev. destruct (decide (fd = fd_ x)) as [->|Hd]; [by rewrite lookup_delete_eq|].
  rewrite lookup_delete_ne by done. apply Hno.
Qed.

Lemma apart_change_events g ch ch' p p' : ch' ≠ ch → change_events g ch' p = Ret p' → apart ch p p'.
Proof.
  unfold change_events, chan_at. cbn. intros Hne H. destruct (ep_chans p !! ch') as [x|]; [|done]. cbn in H.
  etrans; [by apply (apart_set_chan ch ch' (g x))|by eapply apart_Update].
Qed.

Lemma apart_put_channel ch ch' x o p p' : ch' ≠ ch → put_channel ch' x o p = Ret p' → apart ch p p'.
Proof.
  unfold put_channel. intros Hne H. destruct o as [x'|].
  - case_bool_decide; [by injection H as <-|]. destruct (fd_ x' =? -1); [|by eapply apart_change_events].
    apply bind_Ret_inv in H as (q & Hq & H). injection H as <-. etrans; [by eapply apart_Close|by apply apart_set_chan].
  - apply bind_Ret_inv in H as (q & Hq & H). injection H as <-. trans q.
    + destruct (negb _); [by eapply apart_Close|by injection Hq as <-].
    + split; [by apply lookup_delete_ne|done].
Qed.

Lemma apart_fill ch evs active p a p' :
  ch ∉ evs.*1 → EpollPoller_FillActiveChannels evs active p = Ret (a, p') → apart ch p p' ∧ a = active ++ evs.*1.
Proof.
  revert active p. induction evs as [|[ch' rev] evs IH]; intros active p Hni H; cbn in H.
  { injection H as <- <-. by rewrite app_nil_r. }
  destruct (ep_chan_at ch' p) as [x| |]; [|done..]. cbn in H. cbn in Hni. apply IH in H as [Ha ->]; [|set_solver].
  split; [|by rewrite <- app_assoc]. etrans; [|exact Ha]. apply apart_set_chan. set_solver.
Qed.

Lemma apart_Poll ch evs p a p' :
  ch ∉ evs.*1 → EpollPoller_Poll (Some evs) p = Ret (a, p') → apart ch p p' ∧ ch ∉ a.
Proof.
  unfold EpollPoller_Poll. intros Hni H. destruct (0 <? zlen evs); [|injection H as <- <-; split; [done|by intros ?%elem_of_nil]].
  apply bind_Ret_inv in H as (? & _ & H). apply bind_Ret_inv in H as ([a1 p1] & Hf & H). injection H as <- <-. cbn.
  apply (apart_fill ch) in Hf as [Ha ->]; [|done]. split; [|done]. by case_match.
Qed.

End Apart.

Section Quiet.
Context (on_read on_state : TcpConn → outcome TcpConn) (polls : Z → Z * Z).
Implicit Types r : Reactor.

Lemma quiet_conn_op f ch ch' c r r' : ch' ≠ ch → conn_op f ch' r = Ret r' → quiet ch c r → quiet ch c r'.
Proof.
  unfold conn_op. intros Hne H (Hc & Hx & Hno). apply bind_Ret_inv in H as (c0 & _ & H). apply bind_Ret_inv in H as (c1 & _ & H).
  apply bind_Ret_inv in H as (x & _ & H). apply bind_Ret_inv in H as (p & Hp & H). injection H as <-.
  apply (apart_put_channel ch) in Hp as [H1 H2]; [|done]. split; [cbn; by rewrite lookup_insert_ne|]. split; [cbn; congruence|by apply H2].
Qed.

Lemma quiet_dispatch cond k ch ch' c r r' :
  ch' ≠ ch → rx_dispatch on_read on_state polls cond k ch' r = Ret r' → quiet ch c r → quiet ch c r'.
Proof.
  unfold rx_dispatch, rx_callback. intros Hne H Hq. apply bind_Ret_inv in H as (x & _ & H). destruct (_ && _); [|by injection H as <-].
  destruct (rx_conns r !! ch'); [by eapply quiet_conn_op|by injection H as <-].
Qed.

Lemma quiet_HandleEvent ch ch' c r r' :
  ch' ≠ ch → rx_HandleEvent on_read on_state polls r ch' = Ret r' → quiet ch c r → quiet ch c r'.
Proof.
  unfold rx_HandleEvent. intros Hne H Hq. apply bind_Ret_inv in H as (r1 & H1 & H). apply bind_Ret_inv in H as (? & _ & H).
  apply bind_Ret_inv in H as (r2 & H2 & H). apply bind_Ret_inv in H as (r3 & H3 & H).
  repeat (eapply quiet_dispatch; [done|eassumption|]). done.
Qed.

(** A loop over steps that each keep [P]. *)
Lemma fold_ret_keeps {A S} (g : S → A → outcome S) (P : S → Prop) l s s' :
  (∀ x t t', x ∈ l → g t x = Ret t' → P t → P t') → fold_ret g l s = Ret s' → P s → P s'.
Proof.
  revert s. induction l as [|x l IH]; intros s Hg H Hs; cbn in H; [by injection H as <-|].
  apply bind_Ret_inv in H as (s1 & H1 & H). apply (IH s1); [|done|].
  - intros y t t' Hy. apply Hg. by right.
  - eapply Hg; [by left|done..].
Qed.

Lemma quiet_iteration evs funcs ch c r r' :
  reported evs (rx_poller r) → ch ∉ funcs.*1 → rx_iteration on_read on_state polls evs funcs r = Ret r' →
  quiet ch c r → quiet ch c r'.
Proof.
  intros Hrep Hf H Hq. pose proof Hq as (Hc & Hx & Hno).
  assert (ch ∉ evs.*1) as Hev.
  { intros ([ch' rev] & -> & Hin)%list_elem_of_fmap. destruct (Hrep _ _ Hin) as (fd & ev & Hi). by apply (Hno fd ev). }
  unfold rx_iteration in H. apply bind_Ret_inv in H as ([a p] & Hp & H). cbn [fst snd] in H.
  apply (apart_Poll ch) in Hp as [[H1 H2] Hna]; [|done]. apply bind_Ret_inv in H as (r1 & H3 & H).
  eapply (fold_ret_keeps _ (quiet ch c)) in H; [done| |].
  - intros [ch' f] t t' Hin Ht. eapply quiet_conn_op; [|exact Ht]. intros <-. apply Hf. apply list_elem_of_fmap. by exists (ch', f).
  - eapply (fold_ret_keeps _ (quiet ch c)) in H3; [done| |].
    + intros ch' t t' Hin Ht. eapply quiet_HandleEvent; [|exact Ht]. by intros ->.
    + split; [done|]. cbn. split; [congruence|by apply H2].
Qed.

Lemma quiet_iterations its ch c r r' : iterations on_read on_state polls ch its r r' → quiet ch c r → quiet ch c r'.
Proof.
  revert r. induction its as [|[evs funcs] its IH]; intros r H Hq; cbn in H; [by subst|].
  destruct H as (Hrep & Hf & r1 & H1 & H). eapply IH; [exact H|]. by eapply quiet_iteration.
Qed.

End Quiet.

(** The operation closes the descriptor and makes the connection quiet. *)
Lemma close_op_quiet ch c x r :
  rx_inv r → views r !! ch = Some c → channel_ c = Some x →
  ∃ r', conn_op close_op ch r = Ret r' ∧ quiet ch (CloseInLoop c) r'
    ∧ interest (rx_poller r') = delete (fd_ x) (interest (rx_poller r)).
Proof.
  intros Hi Hv Hx. destruct (views_Some _ _ _ Hi Hv) as (c0 & x0 & Hc0 & Hx0 & Ec & Hfd & Hr & Hcb & Hvw).
  assert (x0 = x) as -> by (rewrite Ec in Hx; by injection Hx). pose proof Hi as [Hep _].
  unfold conn_op. rewrite Hvw. cbn [mbind outcome_bind close_op]. unfold chan_at. cbn [chans EpollPoller_ops]. rewrite Hx0.
  cbn [from_option_fault mbind outcome_bind]. unfold CloseInLoop. rewrite Hx. cbn [channel_ set_channel put_channel].
  rewrite bool_decide_false by (intros E; apply (f_equal fd_) in E; cbn in E; lia). cbn [fd_ Z.eqb Pos.eqb].
  rewrite (Close_eq _ _ _ Hx0 Hfd Hr). cbn [mbind outcome_bind]. eexists. split; [done|]. split; [|done].
  split; [cbn; by rewrite lookup_insert_eq|]. split; [cbn; by rewrite lookup_insert_eq|]. cbn. intros fd ev.
  rewrite lookup_delete. case_decide as Hne; [done|]. intros Hint. apply Hne. by eapply ep_inv_fd.
Qed.

(** ** Properties *)

(** C10: a closed connection falls silent.  Close(), or the timeout of a handshake,
    runs in a good loop.  The operation returns and takes the descriptor out of epoll.
    In every later iteration, whatever happens to other connections, the connection
    stays as it was: connected, or in its handshake for ever, with its state callback
    not called and its channel not deleted.  IsConnected still says what it said, and
    a Send on the connected one returns, sends nothing and puts the bytes into the
    output buffer, from which nothing takes them. *)
Theorem close_is_silent (on_read on_state : TcpConn → outcome TcpConn) (polls : Z → Z * Z) (ch : Z) (c : TcpConn)
    (x : Channel) (r : Reactor) :
  rx_inv r → views r !! ch = Some c → channel_ c = Some x →
  (state_ c = kHandShakeing → OnConnectTimeout c = Ret (CloseInLoop c))
  ∧ (∃ r1, conn_op (λ c, Ret (CloseInLoop c)) ch r = Ret r1
      ∧ interest (rx_poller r1) = delete (fd_ x) (interest (rx_poller r))
      ∧ ∀ its r2, iterations on_read on_state polls ch its r1 r2 → view ch r2 = Ret (CloseInLoop c))
  ∧ state_ (CloseInLoop c) = state_ c ∧ IsConnected (CloseInLoop c) = IsConnected c
  ∧ ∀ m, state_ c = kConnected → buf_wf (output_ c) → zlen m ≤ ptrdiff_max → append_room m (output_ c) →
      ∃ c', Send m (CloseInLoop c) = Ret c' ∧ wire c' = wire c ∧ content (output_ c') = content (output_ c) ++ m
        ∧ channel_ c' = channel_ (CloseInLoop c).
Proof.
  intros Hi Hv Hx. split; [|split; [|split; [|split]]].
  - intros Hst. unfold OnConnectTimeout, chan. by rewrite bool_decide_true, Hx.
  - destruct (close_op_quiet ch c x r Hi Hv Hx) as (r1 & E & Hq & Hint). exists r1. split; [exact E|]. split; [done|].
    intros its r2 Hits. apply (quiet_iterations _ _ _ _ _ _ _ _ Hits) in Hq as (Hc & Hxc & _).
    unfold view, chan_at. rewrite Hc. cbn. rewrite Hxc. unfold CloseInLoop. by rewrite Hx.
  - unfold CloseInLoop. by rewrite Hx.
  - unfold CloseInLoop. by rewrite Hx.
  - intros m Hst Hwf Hm Hroom. unfold CloseInLoop. rewrite Hx. unfold Send. cbn [state_ set_channel].
    rewrite bool_decide_true by done. set (x' := mkChannel _ _ _ _ _ _). unfold SendInLoop. cbn [channel_ set_channel].
    set (c0 := set_channel (Some x') c).
    assert (∃ ws, (if IsEmpty (output_ c0) then r ← ISend m c0; Ret (zdrop r.1 m, r.2) else Ret (m, c0))
              = Ret (m, set_writes ws (wire c0) c0)) as [ws ->].
    { destruct (IsEmpty _); [|exists (writes c); by destruct c]. unfold ISend.
      assert (∃ ws, ISend_loop (writes c0) m 0 c0 = Ret (0, set_writes ws (wire c0) c0)) as [ws ->].
      { destruct (writes c0) as [|w ws]; cbn [ISend_loop]; (destruct (zlen m <=? 0); [by eexists|]); by eexists. }
      exists ws. cbn. by rewrite zdrop_0. }
    cbn [mbind outcome_bind fst snd]. destruct (Z.eqb_spec (zlen m) 0) as [->%zlen_0_nil|Hz].
    { eexists. split; [done|]. by rewrite app_nil_r. }
    destruct (Append_ok m (output_ c) Hwf Hm Hroom) as (b & Eb & _ & Hcb & _). cbn [output_ set_writes]. change (output_ c0) with (output_ c).
    rewrite Eb. cbn. eexists. by split.
Qed.

(** The first connection of the demo is closed; then the loop handles the second. *)
Definition closing_conn : TcpConn := default demo_conn (views rx_up !! 16).
Definition rx_closed : Reactor := ret_or rx_up (conn_op (λ c, Ret (CloseInLoop c)) 16 rx_up).
Definition rx_later : Reactor := ret_or rx_closed (rx_iteration idle idle rx_polls [(32, POLLOUT)] [] rx_closed).

Lemma closing_conn_state : state_ closing_conn = kConnected.
Proof. by vm_compute. Qed.

Lemma closing_conn_output : output_ closing_conn = Buffer_new.
Proof. by vm_compute. Qed.

Lemma close_is_silent_witness :
  view 16 rx_later = Ret (CloseInLoop closing_conn) ∧ IsConnected (CloseInLoop closing_conn) = true
  ∧ ∃ c', Send [Some 65] (CloseInLoop closing_conn) = Ret c' ∧ wire c' = wire closing_conn.
Proof.
  pose (x := default demo_chan (channel_ closing_conn)).
  destruct (close_is_silent idle idle rx_polls 16 closing_conn x rx_up) as (_ & (r1 & E & _ & Hits) & _ & Hcon & Hsend).
  - by apply rx_check_ok; vm_compute.
  - by vm_compute.
  - by vm_compute.
  - assert (r1 = rx_closed) as -> by (unfold rx_closed; by rewrite E). split; [|split].
    + apply (Hits [([(32, POLLOUT)], [])]). split; [by apply rx_demo_reported; vm_compute|]. split; [by intros ?%elem_of_nil|].
      exists rx_later. split; [by vm_compute|done].
    + rewrite Hcon. by vm_compute.
    + destruct (Hsend [Some 65]) as (c' & H1 & H2 & _); [exact closing_conn_state|rewrite closing_conn_output; apply wf_new|by vm_compute| |].
      * rewrite closing_conn_output. right. unfold next_cap, ptrdiff_max. change (zlen [Some 65]) with 1. cbn. lia.
      * exists c'. split; [exact H1|exact H2].
Defined.
