(* ===== verification/Session.v ===== *)
(** * A connection in an iteration of its loop: net/tcpconn.cc

    What one event and what one queued Send do to an established connection whose
    read callback answers its input and clears it: which bytes it reads, which it
    says, and that it stays established.  Network.v puts such connections into loops
    and the loops on a network.  No definition here models code but [respond], which
    is a read callback in the manner of the program's own. *)

From S2P Require Import Prelude Buffer Channel Poller PollerEquiv Time TimerQueue LoopLife TcpConn Reactor Streams.

(** ** The user's callback *)

(** [con->Send(f(con->GetInput())); con->GetInput().Clear();] *)
Definition respond (f : list cell → list cell) (c : TcpConn) : outcome TcpConn :=
  c' ← Send (f (content (input_ c))) c;
  Ret (set_input (Clear (input_ c')) c').

(** ** What is observed of a connection *)

(** The data in the kernel's answers to read(2). *)
Fixpoint rdata (rs : list rres) : bytes :=
  match rs with
  | [] => []
  | RData d :: rs => d ++ rdata rs
  | _ :: rs => rdata rs
  end.

(** Everything the read callback was handed. *)
Definition got (c : TcpConn) : list cell := concat (reverse (delivered c)).

(** ** An established connection *)

(** It is connected, watched for input, and for writability while bytes wait; its
    output buffer has seen no more bytes than it has sent. *)
Definition up (c : TcpConn) : Prop :=
  state_ c = kConnected ∧ readcb_ c = true ∧ Forall wres_ok (writes c)
  ∧ small (zlen (flow c)) (output_ c)
  ∧ ∃ x, channel_ c = Some x ∧ 0 ≤ fd_ x ∧ is_short (events_ x) ∧ has_bits (events_ x) POLLIN = true
         ∧ (content (output_ c) ≠ [] → IsWriting x = true).

(** Moreover its input is empty. *)
Definition est (c : TcpConn) : Prop :=
  up c ∧ buf_wf (input_ c) ∧ exp_ (input_ c) = 4096 ∧ e_ (input_ c) ≤ 0.

(** [c'] is [c] after reading [x] and sending [y]. *)
Definition adv (x : bytes) (y : list cell) (c c' : TcpConn) : Prop :=
  est c' ∧ rdata (reads c) = x ++ rdata (reads c') ∧ got c' = got c ++ (Some <$> x)
  ∧ flow c' = flow c ++ y ∧ wire c `prefix_of` wire c'.

(** What the events [evs] make the connection at [ch] read. *)
Definition heard (evs : list (Z * Z)) (ch : Z) (c : TcpConn) : bytes :=
  match (list_to_map evs : gmap Z Z) !! ch with
  | Some rev => if has_bits rev read_bits then (read_plan (reads c)).1 else []
  | None => []
  end.

(** The messages queued for the connection at [ch], in order. *)
Definition sends_to (ch : Z) (sends : list (Z * list cell)) : list cell :=
  concat (snd <$> filter (λ s, s.1 = ch) sends).

(** ** Lemmas *)

Lemma rdata_split rs : rdata rs = (read_plan rs).1 ++ rdata (read_rest rs).
Proof. induction rs as [|[d| | | |] rs IH]; cbn; [done| |done..]. by rewrite IH, app_assoc. Qed.

Section Adv.
Implicit Types c : TcpConn.

Lemma up_open c : up c → open_inv c.
Proof.
  intros (Hst & _ & Hws & Hs & x & Hx & Hfd & _ & _ & Hw). split_and!; [done|by eapply small_wf|done|]. by exists x.
Qed.

(** An established connection hands out its input at once. *)
Lemma est_input c : est c → content (input_ c) = [].
Proof.
  intros (_ & Hwf & _ & He). apply zlen_0_nil. rewrite zlen_content by done.
  pose proof Hwf as (_ & ? & _). pose proof (zlen_nonneg (content (input_ c))) as Hz. rewrite zlen_content in Hz by done. lia.
Qed.

Lemma adv_refl c : est c → adv [] [] c c.
Proof. intros Hc. unfold adv. by rewrite !app_nil_r. Qed.

Lemma adv_trans x1 y1 x2 y2 c c1 c2 : adv x1 y1 c c1 → adv x2 y2 c1 c2 → adv (x1 ++ x2) (y1 ++ y2) c c2.
Proof.
  intros (He1 & Hr1 & Hg1 & Hf1 & Hw1) (He2 & Hr2 & Hg2 & Hf2 & Hw2). split; [done|]. split_and!.
  - by rewrite Hr1, Hr2, app_assoc.
  - by rewrite Hg2, Hg1, fmap_app, app_assoc.
  - by rewrite Hf2, Hf1, app_assoc.
  - by etrans.
Qed.

(** The same channel, still watched for input. *)
Definition tuned (x ch : Channel) : Prop :=
  (is_short (events_ x) → is_short (events_ ch)) ∧ has_bits (events_ ch) POLLIN = has_bits (events_ x) POLLIN.

Lemma tuned_refl x : tuned x x.
Proof. done. Qed.

Lemma tuned_trans x y z : tuned x y → tuned y z → tuned x z.
Proof. unfold tuned. intros [? H1] [? H2]. split; [auto|congruence]. Qed.

Lemma tuned_write x : tuned x (EnableWrite x) ∧ tuned x (DisableWrite x).
Proof.
  unfold tuned, EnableWrite, DisableWrite, has_bits. cbn. rewrite !land_i16, lor_land_disjoint, land_lnot_disjoint by done.
  split_and!; try done; intros _; apply i16_is_short.
Qed.

(** The output side changed and nothing else. *)
Definition out_only (c c' : TcpConn) : Prop :=
  ∃ x ws w ch out, channel_ c = Some x ∧ tuned x ch
    ∧ c' = set_output out (set_writes ws (wire c ++ w) (set_channel (Some ch) c)).

Lemma out_only_output c c' out : out_only c c' → out_only c (set_output out c').
Proof. intros (x & ws & w & ch & o & Hx & Ht & ->). by exists x, ws, w, ch, out. Qed.

Lemma out_only_channel c c' y ch : out_only c c' → channel_ c' = Some y → tuned y ch → out_only c (set_channel (Some ch) c').
Proof.
  intros (x & ws & w & z & o & Hx & Ht & ->) [= <-] Hy. exists x, ws, w, ch, o. split_and!; [done| |done].
  by eapply tuned_trans.
Qed.

(** Only the script of the kernel was used up. *)
Lemma out_only_writes x c : channel_ c = Some x → out_only c c ∧ ∀ ws, out_only c (set_writes ws (wire c) c).
Proof.
  intros Hx. split; [exists x, (writes c)|intros ws; exists x, ws]; exists [], x, (output_ c); rewrite app_nil_r;
    (split; [done|split; [apply tuned_refl|destruct c; cbn in *; by subst]]).
Qed.

Lemma ISend_loop_out ws data s c n c' x :
  channel_ c = Some x → ISend_loop ws data s c = Ret (n, c') → out_only c c' ∧ output_ c' = output_ c.
Proof.
  revert s c. induction ws as [|w ws IH]; intros s c Hx H; cbn [ISend_loop] in H.
  all: unfold chan in H; rewrite Hx in H; cbn [from_option_fault mbind outcome_bind] in H.
  all: assert (Hstop : ∀ ws', out_only c (set_writes ws' (wire c) c))
    by (intros ws'; by apply (out_only_writes x)).
  all: assert (Hagain : ∀ ws', let c1 := if IsWriting x then c else set_channel (Some (EnableWrite x)) c in
      out_only c (set_writes ws' (wire c) c1) ∧ output_ (set_writes ws' (wire c) c1) = output_ c)
    by (intros ws'; cbn zeta; destruct (IsWriting x); [by split|split; [|done]]; exists x, ws', [], (EnableWrite x), (output_ c);
        rewrite app_nil_r; split_and!; [done|apply tuned_write|done]).
  - repeat case_match; injection H as <- <-; try (by split). apply Hagain.
  - destruct (_ <=? s); [injection H as <- <-; by split|]. destruct (_ <? 0); [injection H as <- <-; by split|].
    destruct w as [k| | |].
    + destruct (0 <? _); [|injection H as <- <-; by split].
      apply IH in H as [(x' & ws' & w & ch & out & Hx' & Ht & ->) Ho]; [|done]. split; [|done].
      exists x', ws', (zsub s (Z.min k (zlen data - s)) data ++ w), ch, out. by rewrite app_assoc.
    + by apply IH in H.
    + injection H as <- <-. apply Hagain.
    + injection H as <- <-. by split.
Qed.

(** An output operation that kept the connection open left it up when the output
    buffer is still small, and did nothing to the reading side. *)
Lemma out_up c c' :
  up c → out_only c c' → open_inv c' → small (zlen (flow c')) (output_ c') → up c'.
Proof.
  intros (_ & Hcb & _ & _ & x & Hx & _ & Hsh & Hrd & _) (x0 & ws & w & ch & out & Hx0 & [Ht1 Ht2] & Ec)
    (Hst & _ & Hws & z & Hz & Hfd & Hw) Hsm.
  assert (x0 = x) as -> by congruence. assert (z = ch) as -> by (rewrite Ec in Hz; by injection Hz).
  split; [done|]. split; [by rewrite Ec|]. split; [done|]. split; [done|].
  exists ch. split_and!; try done; [by apply Ht1|by rewrite Ht2].
Qed.

Lemma out_adv y c c' : est c → out_only c c' → up c' → flow c' = flow c ++ y → adv [] y c c'.
Proof.
  intros [_ Hin] (x & ws & w & ch & out & _ & _ & Ec) Hup Hf. split; [split; [done|by rewrite Ec]|].
  split; [by rewrite Ec|]. split; [rewrite Ec; symmetry; apply app_nil_r|]. split; [done|]. rewrite Ec. by eexists.
Qed.

(** ** Operations on an established connection *)

(** Send with room for the message. *)
Lemma Send_up m c :
  up c → zlen (flow c ++ m) ≤ 4096 →
  ∃ c', Send m c = Ret c' ∧ kept c c' = true ∧ up c' ∧ flow c' = flow c ++ m ∧ out_only c c'.
Proof.
  intros He Hm. pose proof (up_open c He) as Ho. rewrite Send_open by done. rewrite zlen_app in Hm.
  pose proof (zlen_nonneg (flow c)). pose proof (zlen_nonneg m).
  pose proof He as (_ & _ & Hws & Hs & x & Hx & Hfd & Hsh & _).
  assert (zlen m ≤ ptrdiff_max) as Hmax by (unfold ptrdiff_max; lia).
  destruct (SendInLoop_returns m c Ho Hmax) as [c' E].
  { intros n Hn. eapply small_room; [done|]. rewrite zlen_zdrop by lia. lia. }
  destruct (SendInLoop_Ret m c c' Ho Hmax E) as [Ho' Hf]. pose proof (SendInLoop_kept m c c' x Hx Hsh E) as Hk.
  assert (out_only c c' ∧ small (zlen (flow c')) (output_ c')) as [Hout Hs'].
  { rewrite Hf, zlen_app. clear Ho' Hf Hk. unfold SendInLoop in E. rewrite Hx in E.
    assert (Hmono : small (zlen (flow c) + zlen m) (output_ c)) by (eapply small_mono; [done|lia]).
    assert (∃ n c1, out_only c c1 ∧ output_ c1 = output_ c ∧ 0 ≤ n ≤ zlen m
      ∧ (if zlen (zdrop n m) =? 0 then Ret c1 else out ← Append (zdrop n m) (output_ c1); Ret (set_output out c1)) = Ret c')
      as (n & c1 & Hout & Eo & Hn & E').
    { destruct (IsEmpty (output_ c)).
      - destruct (ISend_ok m c x Hws Hx Hfd) as (n & ws' & ch' & Ei & Hn & _). rewrite Ei in E. unfold ISend in Ei.
        apply (ISend_loop_out _ _ _ _ _ _ x) in Ei as [Hout Eo]; [|done]. eexists n, _. split; [exact Hout|]. split; [exact Eo|].
        split; [lia|]. exact E.
      - exists 0, c. rewrite zdrop_0. split; [by apply (out_only_writes x)|]. split; [done|]. split; [lia|]. exact E. }
    destruct (_ =? 0); [injection E' as <-; by rewrite Eo|].
    destruct (small_Append (zlen (flow c)) (zdrop n m) (output_ c1)) as (b & Eb & Hb & _); [by rewrite Eo|rewrite zlen_zdrop; lia|].
    rewrite Eb in E'. injection E' as <-. split; [by apply out_only_output|]. eapply small_mono; [done|]. rewrite zlen_zdrop; lia. }
  exists c'. split_and!; try done. by apply (out_up c).
Qed.

Lemma Send_adv m c :
  est c → zlen (flow c ++ m) ≤ 4096 → ∃ c', Send m c = Ret c' ∧ kept c c' = true ∧ adv [] m c c'.
Proof.
  intros He Hm. destruct (Send_up m c) as (c' & E & Hk & Hup & Hf & Hout); [apply He|done|].
  exists c'. split_and!; try done. by apply out_adv.
Qed.

(** A writable event. *)
Lemma HandleWrite_adv on_read on_state r rev c :
  est c → ∃ c', HandleWrite on_read on_state r rev c = Ret c' ∧ kept c c' = true ∧ adv [] [] c c'.
Proof.
  intros He. pose proof (proj1 He) as Hup. pose proof (up_open c Hup) as Ho.
  destruct (HandleWrite_ok on_read on_state r rev c Ho) as (c' & E & Ho' & Hf & _).
  pose proof Hup as (Hst & _ & Hws & Hs & x & Hx & Hfd & Hsh & _).
  pose proof (HandleWrite_kept on_read on_state r rev c c' x Hst Hx Hsh E) as Hk. exists c'. split; [done|]. split; [done|].
  assert (out_only c c' ∧ small (zlen (flow c')) (output_ c')) as [Hout Hs'].
  { rewrite Hf. unfold HandleWrite in E. rewrite Hst, read_all in E by (by eapply small_wf). cbn [mbind outcome_bind] in E.
    destruct (ISend_ok (content (output_ c)) c x Hws Hx Hfd) as (n & ws' & ch' & Ei & Hn & _). rewrite Ei in E.
    unfold ISend in Ei. apply (ISend_loop_out _ _ _ _ _ _ x) in Ei as [Hout Eo]; [|done].
    destruct (small_Consume (zlen (flow c)) n (output_ c)) as [Hsc _]; [done..|].
    cbn [mbind outcome_bind fst snd] in E. rewrite Eo in E. apply (out_only_output _ _ (Consume n (output_ c))) in Hout.
    destruct (IsEmpty _); [|by injection E as <-]. cbn in E. destruct (IsWriting ch'); injection E as <-; [|by split].
    split; [|done]. eapply out_only_channel; [exact Hout|done|apply tuned_write]. }
  apply out_adv; [done..|by apply (out_up c)|by rewrite app_nil_r].
Qed.

(** A writable event moves bytes when the kernel takes some. *)
Definition takes (ws : list wres) : Prop := ∃ k ws', ws = Wrote k :: ws' ∧ 0 < k.

Lemma HandleWrite_pushes on_read on_state r rev c c' :
  est c → content (output_ c) ≠ [] → takes (writes c) → HandleWrite on_read on_state r rev c = Ret c' →
  zlen (wire c) < zlen (wire c').
Proof.
  intros [(Hst & _ & _ & Hs & x & Hx & Hfd & _) _] Hne (k & ws & Hws & Hk) E. unfold HandleWrite in E.
  rewrite Hst, read_all in E by (by eapply small_wf). cbn [mbind outcome_bind] in E.
  set (data := content (output_ c)) in *. assert (0 < zlen data) as Hd.
  { pose proof (zlen_nonneg data). destruct (Z.eq_dec (zlen data) 0) as [Hz%zlen_0_nil|]; [done|lia]. }
  unfold ISend in E. rewrite Hws in E. cbn [ISend_loop] in E. rewrite (proj2 (Z.leb_gt _ _)) in E by lia.
  unfold chan in E. rewrite Hx in E. cbn [from_option_fault mbind outcome_bind] in E.
  rewrite (proj2 (Z.ltb_ge _ _)) in E by done. set (j := Z.min k (zlen data - 0)) in *.
  rewrite (proj2 (Z.ltb_lt 0 j)) in E by lia. set (c0 := set_writes ws (wire c ++ zsub 0 j data) c) in *.
  destruct (ISend_loop ws data (0 + j) c0) as [[n c1]| |] eqn:Ei; [|done..].
  apply (ISend_loop_out _ _ _ _ _ _ x) in Ei as [(x0 & ws1 & w & ch & out & _ & _ & ->) _]; [|done].
  assert (wire c' = (wire c ++ zsub 0 j data) ++ w) as ->.
  { cbn in E. destruct (IsEmpty _); [|by injection E as <-]. cbn in E. destruct (IsWriting ch); by injection E as <-. }
  rewrite !zlen_app, zlen_zsub by lia. pose proof (zlen_nonneg w). lia.
Qed.

(** A readable event: what the kernel has is read and answered. *)
Lemma HandleRead_adv f on_state r rev c :
  est c → f [] = [] → Forall rres_ok (reads c) → (read_plan (reads c)).2 = false →
  let x := (read_plan (reads c)).1 in
  zlen x ≤ 4096 → zlen (flow c ++ f (Some <$> x)) ≤ 4096 →
  ∃ c', HandleRead (respond f) on_state r rev c = Ret c' ∧ kept c c' = true ∧ adv x (f (Some <$> x)) c c'.
Proof.
  intros He Hf0 Hok Hend x Hlen Hm. pose proof He as (Hup & Hwf & Hexp & Hee).
  pose proof Hup as (Hst & Hcb & _ & _ & y & Hy & Hfd & Hsh & _).
  unfold HandleRead. rewrite bool_decide_false by (by rewrite Hst).
  destruct (HandleRead_loop_ok (respond f) on_state (reads_size (reads c)) c y)
    as (c1 & E & (inp & rs & Ec1) & Hwf1 & Hc1 & [Hx1 He1] & Hr1); try done; [lia|unfold ptrdiff_max; rewrite Hexp; fold x; lia|].
  rewrite E, Hend. fold x in Hc1, He1. rewrite (est_input c He) in Hc1. cbn [app] in Hc1.
  assert (rdata (reads c) = x ++ rdata (reads c1)) as Hrd by (rewrite Hr1; apply rdata_split).
  assert (up (deliver c1)) as Hup1 by (by rewrite Ec1).
  unfold call_read. rewrite GetSize_content, Hc1, zlen_fmap by done.
  replace (readcb_ c1) with true by (by rewrite Ec1). destruct (Z.eqb_spec (zlen x) 0) as [Hz|Hz]; cbn [negb andb].
  - apply zlen_0_nil in Hz. assert (f (Some <$> x) = []) as -> by (by rewrite Hz). rewrite Hz in Hrd, He1. rewrite Hz.
    exists c1. split; [done|].
    split; [rewrite Ec1; by apply (kept_retuned _ _ y y); [..|left]|]. split; [split; [by rewrite Ec1|]|].
    + split; [done|]. split; [congruence|]. unfold zlen in He1. cbn in He1. lia.
    + split; [done|]. rewrite Ec1. unfold got, flow. cbn. by rewrite !app_nil_r.
  - destruct (Send_up (f (Some <$> x)) (deliver c1) Hup1) as (c2 & E2 & Hk & Hup2 & Hf2 & Hout); [by rewrite Ec1|].
    unfold respond. change (input_ (deliver c1)) with (input_ c1). rewrite Hc1, E2. cbn [mbind outcome_bind].
    eexists. split; [done|].
    assert (channel_ (deliver c1) = channel_ c) as Ech by (by rewrite Ec1). split; [unfold kept in *; by rewrite Ech in Hk|].
    destruct Hout as (y1 & ws & w & ch & out & _ & _ & E3).
    split; [split; [done|]|].
    + rewrite E3. cbn. split; [by apply wf_Clear|]. split; [cbn; congruence|]. cbn. lia.
    + split; [by rewrite E3|]. split; [|split; [etrans; [exact Hf2|by rewrite Ec1]|]].
      * unfold got. change (delivered (set_input _ c2)) with (delivered c2). replace (delivered c2) with ((Some <$> x) :: delivered c).
        -- rewrite reverse_cons, concat_app. cbn. by rewrite app_nil_r.
        -- rewrite E3. cbn. by rewrite Hc1, Ec1.
      * rewrite E3, Ec1. by eexists.
Qed.

(** What the callback is called for when a read event finds the bytes [x]. *)
Lemma HandleRead_respond f on_state r rev c x :
  est c → reads c = [RData x] → x ≠ [] → zlen x ≤ 4096 →
  ∃ c1, same_but_input c c1
    ∧ HandleRead (respond f) on_state r rev c
      = (c2 ← Send (f (Some <$> x)) (deliver c1); Ret (set_input (Clear (input_ c2)) c2)).
Proof.
  intros He Hr Hx Hlen. pose proof He as (Hup & Hwf & Hexp & Hee).
  pose proof Hup as (Hst & Hcb & _ & _ & y & Hy & Hfd & _). assert ((read_plan (reads c)).1 = x) as Hplan by (rewrite Hr; apply app_nil_r).
  unfold HandleRead. rewrite bool_decide_false by (by rewrite Hst).
  destruct (HandleRead_loop_ok (respond f) on_state (reads_size (reads c)) c y)
    as (c1 & -> & Hsame & Hwf1 & Hc1 & _); try done; [by rewrite Hr; repeat constructor|lia|unfold ptrdiff_max; rewrite Hexp, Hplan; lia|].
  exists c1. split; [done|]. pose proof Hsame as (inp & rs & Ec1). rewrite Hplan, (est_input c He) in Hc1. rewrite Hr. cbn [read_plan snd].
  unfold call_read. rewrite GetSize_content, Hc1 by done. replace (readcb_ c1) with true by (by rewrite Ec1).
  cbn [app]. rewrite zlen_fmap, (proj2 (Z.eqb_neq _ _)) by (intros ?%zlen_0_nil; done).
  unfold respond. change (input_ (deliver c1)) with (input_ c1). by rewrite Hc1.
Qed.

(** The first answer of an idle connection, when the socket takes nothing. *)
Lemma HandleRead_blocked f on_state r rev c c' x :
  est c → cap_ (output_ c) = 0 → writes c = [WEagain] → reads c = [RData x] → x ≠ [] → zlen x ≤ 4096 →
  0 < zlen (f (Some <$> x)) ≤ 4096 → HandleRead (respond f) on_state r rev c = Ret c' →
  e_ (output_ c') = zlen (f (Some <$> x)) ∧ cap_ (output_ c') = 4096 ∧ content (output_ c') = f (Some <$> x).
Proof.
  intros He Hcap Hws Hr Hx Hlen Hy E. destruct (HandleRead_respond f on_state r rev c x He Hr Hx Hlen) as (c1 & (inp & rs & ->) & E1).
  rewrite E1 in E. set (y := f (Some <$> x)) in *. pose proof He as ((Hst & _ & _ & (Hwf & Hexp & _) & z & Hz & Hfd & _) & _).
  assert (b_ (output_ c) = 0 ∧ e_ (output_ c) = 0) as [Hb He0] by (unfold buf_wf in Hwf; lia).
  destruct (Append_ok y (output_ c)) as (out & Ea & Hw & Hc & Hx' & Hle & Hcp); [done|unfold ptrdiff_max; lia| |].
  { right. unfold next_cap, ptrdiff_max. rewrite Hb, He0, Hcap, Hexp. lia. }
  assert (content (output_ c) = []) as Hnil by (apply zlen_0_nil; rewrite zlen_content by done; lia).
  rewrite Hnil in Hc. cbn [app] in Hc. assert (b_ out = 0) as Hb' by (by eapply Append_front).
  assert (output_ c' = out) as ->; [|].
  - unfold Send, SendInLoop in E. cbn -[Append] in E. rewrite bool_decide_true, Hz in E by done.
    unfold IsEmpty in E. rewrite He0, Hb in E. cbn -[Append] in E. unfold ISend in E. cbn [writes set_input set_reads deliver] in E. rewrite Hws in E.
    cbn [ISend_loop] in E. rewrite (proj2 (Z.leb_gt _ _)) in E by lia. unfold chan in E. cbn [channel_ set_input set_reads deliver] in E.
    rewrite Hz in E. cbn -[Append] in E. rewrite (proj2 (Z.ltb_ge _ _)) in E by lia. cbn -[Append] in E.
    rewrite zdrop_0, (proj2 (Z.eqb_neq (zlen y) 0)) in E by lia.
    destruct (IsWriting z); cbn -[Append] in E; rewrite Ea in E; by injection E as <-.
  - split_and!; [|rewrite Hcp, He0, Hcap; unfold next_cap; rewrite (proj2 (Z.leb_gt _ _)) by lia; rewrite Hexp; lia|done].
    pose proof (zlen_content out Hw) as Hz'. rewrite Hc in Hz'. lia.
Qed.

(** A writable event of which the socket takes [k] bytes. *)
Lemma HandleWrite_part on_read on_state r rev c c' k :
  est c → writes c = [Wrote k; WEagain] → 0 < k < zlen (content (output_ c)) →
  HandleWrite on_read on_state r rev c = Ret c' →
  e_ (output_ c') = e_ (output_ c) ∧ cap_ (output_ c') = cap_ (output_ c) ∧ zlen (content (output_ c')) = zlen (content (output_ c)) - k.
Proof.
  intros [(Hst & _ & _ & Hs & x & Hx & Hfd & _) _] Hws Hk E. pose proof (small_wf _ _ Hs) as Hwf.
  unfold HandleWrite in E. rewrite Hst, read_all in E by done. cbn [mbind outcome_bind] in E.
  set (data := content (output_ c)) in *. unfold ISend in E. rewrite Hws in E. cbn [ISend_loop] in E.
  rewrite (proj2 (Z.leb_gt _ _)) in E by lia. unfold chan in E. rewrite Hx in E. cbn [from_option_fault mbind outcome_bind] in E.
  rewrite (proj2 (Z.ltb_ge _ _)) in E by done. rewrite Z.min_l, (proj2 (Z.ltb_lt 0 k)), (proj2 (Z.leb_gt _ _)) in E by lia.
  cbn [channel_ set_writes] in E. rewrite Hx in E. cbn [from_option_fault mbind outcome_bind] in E. rewrite (proj2 (Z.ltb_ge _ _)) in E by done.
  destruct (Consume_ok k (output_ c)) as (Hw & Hc & _); [done|fold data; lia|]. fold data in Hc.
  assert (zlen (content (Consume k (output_ c))) = zlen data - k) as Hz by (rewrite Hc, zlen_zdrop; lia).
  assert (output_ c' = Consume k (output_ c)) as ->.
  { cbn -[Consume] in E. assert (IsEmpty (Consume k (output_ c)) = false) as Hne.
    { rewrite IsEmpty_content by done. apply bool_decide_false. intros E0. rewrite E0, zlen_nil in Hz. lia. }
    replace (output_ (if IsWriting x then _ else _)) with (output_ c) in E by (by destruct (IsWriting x)).
    rewrite Z.add_0_l in E. destruct (IsWriting x); cbn -[Consume] in E; rewrite Hne in E; by injection E as <-. }
  split_and!; [..|done].
  all: unfold Consume in *; destruct (_ =? 0); [|done]; cbn in Hz; change (content (Clear _)) with (@nil cell) in Hz; rewrite zlen_nil in Hz; lia.
Qed.

(** An answer that does not fit behind the waiting bytes but would fit if they were
    moved to the front: MoveHead does not move them. *)
Lemma HandleRead_overrun f on_state r rev c x :
  est c → reads c = [RData x] → x ≠ [] → zlen x ≤ 4096 → zlen (f (Some <$> x)) ≤ 4096 → content (output_ c) ≠ [] →
  append_gap (f (Some <$> x)) (output_ c) → HandleRead (respond f) on_state r rev c = Fault OutOfBounds.
Proof.
  intros He Hr Hx Hlen Hy Hne Hgap. destruct (HandleRead_respond f on_state r rev c x He Hr Hx Hlen) as (c1 & (inp & rs & ->) & ->).
  pose proof He as ((Hst & _ & _ & Hs & z & Hz & _) & _). pose proof (small_wf _ _ Hs) as Hwf.
  unfold Send, SendInLoop. cbn -[Append]. rewrite bool_decide_true, Hz by done.
  rewrite IsEmpty_content, bool_decide_false by done. cbn -[Append]. destruct Hgap as [Hg1 Hg2].
  rewrite (proj2 (Z.eqb_neq (zlen (f (Some <$> x))) 0)) by (unfold buf_wf in Hwf; lia).
  by rewrite Append_gap by (done || (unfold ptrdiff_max; lia)).
Qed.

End Adv.

(** ** All connections of a loop *)

Section Round.
Context (f : list cell → list cell) (on_state : TcpConn → outcome TcpConn) (polls : Z → Z * Z).
Context (f_nil : f [] = []).
Implicit Types c : TcpConn.

(** The kernel's answers to a connection: no error, no end of the stream. *)
Definition answers_ok (c : TcpConn) : Prop :=
  Forall rres_ok (reads c) ∧ (read_plan (reads c)).2 = false ∧ zlen (rdata (reads c)) ≤ 4096.

Lemma plan_short c : answers_ok c → zlen (read_plan (reads c)).1 ≤ 4096.
Proof. intros (_ & _ & Hlen). rewrite rdata_split, zlen_app in Hlen. pose proof (zlen_nonneg (rdata (read_rest (reads c)))). lia. Qed.

Lemma est_see rev c : est c → est (see rev c).
Proof.
  intros [(Hst & Hcb & Hws & Hs & y & Hy & Hfd & Hsh & Hin & Hw) Hi]. split; [|done]. split_and!; try done.
  exists (SetREvents rev y). cbn. rewrite Hy. split_and!; done.
Qed.

(** What a writable event alone does to the wire. *)
Definition pushed (rev : Z) (c c' : TcpConn) : Prop :=
  has_bits rev read_bits = false → has_bits rev POLLOUT = true → content (output_ c) ≠ [] → takes (writes c) →
  zlen (wire c) < zlen (wire c').

(** The event of one connection. *)
Lemma spec_event_adv m ch rev c y :
  m !! ch = Some c → channel_ c = Some y → revents_ y = i16 rev → est c → answers_ok c →
  let x := if has_bits rev read_bits then (read_plan (reads c)).1 else [] in
  zlen (flow c ++ f (Some <$> x)) ≤ 4096 →
  ∃ c', spec_event (respond f) on_state polls m ch = Some (<[ch := c']> m) ∧ adv x (f (Some <$> x)) c c' ∧ pushed rev c c'.
Proof.
  intros Hc Hy Hrev He Ha x Hm. pose proof Ha as (Hok & Hend & Hlen).
  unfold spec_event. rewrite Hc. cbn. rewrite Hy. unfold has_bits. rewrite Hrev, !land_i16 by done.
  fold (has_bits rev read_bits). fold (has_bits rev POLLOUT).
  assert (∃ c1, spec_when (has_bits rev read_bits) (HandleRead (respond f) on_state (polls ch).1 (polls ch).2) ch m = Some (<[ch := c1]> m)
    ∧ kept c c1 = true ∧ adv x (f (Some <$> x)) c c1 ∧ (has_bits rev read_bits = false → c1 = c)) as (c1 & -> & Hk1 & Ha1 & Hsame).
  { unfold spec_when, x in *. destruct (has_bits rev read_bits).
    - destruct (HandleRead_adv f on_state (polls ch).1 (polls ch).2 c) as (c1 & E & Hk & Hadv); try done; [by apply plan_short|].
      exists c1. unfold spec_op. rewrite Hc. by rewrite E, Hk.
    - exists c. cbn. rewrite f_nil, insert_id by done. split; [done|]. split; [|by split; [apply adv_refl|]].
      pose proof He as [(_ & _ & _ & _ & z & Hz & _ & Hsh & _) _]. by apply (kept_same _ z). }
  cbn [mbind option_bind]. unfold spec_when. destruct (has_bits rev POLLOUT) eqn:Hw;
    [|exists c1; split; [done|]; split; [done|]; unfold pushed; by rewrite Hw].
  destruct (HandleWrite_adv (respond f) on_state (polls ch).1 (polls ch).2 c1 (proj1 Ha1)) as (c' & E & Hk & Ha').
  exists c'. unfold spec_op. rewrite lookup_insert_eq. rewrite E, Hk, insert_insert_eq. split; [done|]. split.
  - pose proof (adv_trans _ _ _ _ _ _ _ Ha1 Ha') as H. by rewrite !app_nil_r in H.
  - intros Hr _ Hne Ht. rewrite (Hsame Hr) in E. by eapply HandleWrite_pushes.
Qed.

(** Queued Sends. *)
Lemma spec_sends_adv sends m :
  (∀ ch c, m !! ch = Some c → est c ∧ zlen (flow c ++ sends_to ch sends) ≤ 4096) →
  (∀ s, s ∈ sends → is_Some (m !! s.1)) →
  ∃ m', fold_some spec_functor ((λ s, (s.1, Send s.2)) <$> sends) m = Some m'
    ∧ (∀ ch, m !! ch = None → m' !! ch = None)
    ∧ ∀ ch c, m !! ch = Some c → ∃ c', m' !! ch = Some c' ∧ adv [] (sends_to ch sends) c c'.
Proof.
  revert m. induction sends as [|[ch msg] sends IH]; intros m Hm Hin.
  { exists m. split; [done|]. split; [done|]. intros ch c Hc. exists c. split; [done|]. by apply adv_refl, (Hm ch). }
  destruct (Hin (ch, msg)) as [c Hc]; [by left|]. cbn in Hc. destruct (Hm ch c Hc) as [He Hlen].
  assert (sends_to ch ((ch, msg) :: sends) = msg ++ sends_to ch sends) as Hcons
    by (unfold sends_to; by rewrite filter_cons_True).
  assert (∀ ch', ch' ≠ ch → sends_to ch' ((ch, msg) :: sends) = sends_to ch' sends) as Hother
    by (intros ch' Hne; unfold sends_to; by rewrite filter_cons_False by (intros E; by apply Hne)).
  rewrite Hcons, app_assoc in Hlen.
  destruct (Send_adv msg c He) as (c1 & E & Hk & Ha1).
  { rewrite zlen_app in Hlen. pose proof (zlen_nonneg (sends_to ch sends)). lia. }
  pose proof Ha1 as (He1 & _ & _ & Hf1 & _).
  destruct (IH (<[ch := c1]> m)) as (m' & E' & Hno & Hyes).
  - intros ch' c'. rewrite lookup_insert. case_decide as Hd; [intros [= <-]; subst ch'; by rewrite Hf1|].
    intros Hc'. rewrite <- Hother by done. by apply Hm.
  - intros s Hs. rewrite lookup_insert_is_Some'. right. apply Hin. by right.
  - exists m'. split; [|split].
    + assert (spec_functor m (ch, Send msg) = Some (<[ch := c1]> m)) as Ef.
      { unfold spec_functor, spec_op. cbn [fst snd]. rewrite bool_decide_true, Hc by (by rewrite Hc). by rewrite E, Hk. }
      rewrite fmap_cons, fold_some_cons. cbn [fst snd]. by rewrite Ef.
    + intros ch' Hn. apply Hno. rewrite lookup_insert_ne; [done|]. intros <-. congruence.
    + intros ch' c' Hc'. destruct (decide (ch' = ch)) as [->|Hne].
      * assert (c' = c) as -> by congruence. destruct (Hyes ch c1) as (c2 & Hc2 & Ha2); [by rewrite lookup_insert_eq|].
        exists c2. split; [done|]. rewrite Hcons. exact (adv_trans _ _ _ _ _ _ _ Ha1 Ha2).
      * rewrite Hother by done. apply Hyes. by rewrite lookup_insert_ne.
Qed.

(** The events of an iteration of a loop whose connections are all established. *)
Lemma events_adv evs r :
  rx_inv r → reported evs (rx_poller r) → zlen evs ≤ ep_nevents (rx_poller r) < 2 ^ 63 → NoDup evs.*1 →
  (∀ ch c, views r !! ch = Some c → est c ∧ answers_ok c ∧ zlen (flow c ++ f (Some <$> heard evs ch c)) ≤ 4096) →
  ∃ p r1, EpollPoller_Poll (Some evs) (rx_poller r) = Ret (evs.*1, p)
    ∧ fold_ret (rx_HandleEvent (respond f) on_state polls) evs.*1 (mkReactor p (rx_conns r)) = Ret r1 ∧ rx_inv r1
    ∧ (∀ ch, views r !! ch = None → views r1 !! ch = None)
    ∧ ∀ ch c, views r !! ch = Some c →
        ∃ c1, views r1 !! ch = Some c1 ∧ adv (heard evs ch c) (f (Some <$> heard evs ch c)) c c1
          ∧ ∀ rev, (ch, rev) ∈ evs → pushed rev c c1.
Proof.
  intros Hi Hrep Hlen Hnd Hshort. destruct (rx_poll_ok evs r Hi Hrep Hlen) as (p & E & Hi0 & Hv0 & Hlive).
  assert (Hheard : ∀ ch rev c, (ch, rev) ∈ evs → heard evs ch c = if has_bits rev read_bits then (read_plan (reads c)).1 else []).
  { intros ch rev c Hev. unfold heard. by rewrite (elem_of_list_to_map_1 (M:=gmap Z) evs ch rev Hnd Hev). }
  destruct (spec_events_pointwise (respond f) on_state polls
    (λ ch cs c', ∀ rev c, (ch, rev) ∈ evs → views r !! ch = Some c →
       adv (heard evs ch c) (f (Some <$> heard evs ch c)) c c' ∧ pushed rev c c') evs.*1 (spec_poll evs (views r))) as (m & Em & Hout & Hin); [done| |].
  { intros ch cs m' ([ch' rev] & -> & Hev)%list_elem_of_fmap Hcs Hm'. cbn [fst] in *.
    rewrite (proj2 (spec_poll_lookup evs (views r) ch' Hnd) rev Hev) in Hcs.
    destruct (views r !! ch') as [c|] eqn:Hc; [|done]. injection Hcs as <-. destruct (Hshort ch' c Hc) as (He & Ha & Hz).
    pose proof He as [(_ & _ & _ & _ & y & Hy & _) _]. rewrite (Hheard ch' rev c Hev) in Hz.
    destruct (spec_event_adv m' ch' rev (see rev c) (SetREvents rev y)) as (c' & E' & Ha'); try done; [by cbn; rewrite Hy|by apply est_see|].
    exists c'. split; [done|]. intros rev1 c1 Hev1 [= <-]. rewrite (Hheard ch' rev c Hev).
    by assert (rev1 = rev) as -> by (by eapply NoDup_fst_unique). }
  rewrite <- Hv0 in Em. destruct (rx_events_ok (respond f) on_state polls _ _ _ Hi0 Hlive Em) as (r1 & E1 & Hi1 & Hv1 & _).
  assert (Hmid : ∀ ch c, views r !! ch = Some c →
    ∃ c1, views r1 !! ch = Some c1 ∧ adv (heard evs ch c) (f (Some <$> heard evs ch c)) c c1
      ∧ ∀ rev, (ch, rev) ∈ evs → pushed rev c c1).
  { intros ch c Hc. rewrite Hv1. destruct (decide (ch ∈ evs.*1)) as [Hin1|Hni].
    - pose proof Hin1 as ([ch' rev] & -> & Hev)%list_elem_of_fmap. cbn [fst] in *.
      destruct (Hin ch' (see rev c) Hin1) as (c' & Hc' & HP).
      { by rewrite (proj2 (spec_poll_lookup evs (views r) ch' Hnd) rev Hev), Hc. }
      exists c'. split; [done|]. split; [by apply (HP rev)|]. intros rev1 Hev1. by apply (HP rev1).
    - exists c. rewrite Hout by (by left). rewrite (proj1 (spec_poll_lookup evs (views r) ch Hnd) Hni). split; [done|].
      unfold heard. rewrite not_elem_of_list_to_map_1 by done. cbn. rewrite f_nil.
      split; [by apply adv_refl, (Hshort ch)|]. by intros rev Hev%(list_elem_of_fmap_2 fst). }
  assert (Hnone : ∀ ch, views r !! ch = None → views r1 !! ch = None).
  { intros ch Hn. assert (spec_poll evs (views r) !! ch = None) as Hp; [|rewrite Hv1, Hout; [done|by right]].
    destruct (decide (ch ∈ evs.*1)) as [([ch' rev] & -> & Hev)%list_elem_of_fmap|Hni].
    - cbn [fst] in *. by rewrite (proj2 (spec_poll_lookup evs (views r) ch' Hnd) rev Hev), Hn.
    - by rewrite (proj1 (spec_poll_lookup evs (views r) ch Hnd) Hni). }
  by exists p, r1.
Qed.

(** An iteration of a loop whose connections are all established. *)
Lemma iteration_adv evs sends r :
  rx_inv r → reported evs (rx_poller r) → zlen evs ≤ ep_nevents (rx_poller r) < 2 ^ 63 → NoDup evs.*1 →
  (∀ ch c, views r !! ch = Some c → est c ∧ answers_ok c
     ∧ zlen (flow c ++ f (Some <$> heard evs ch c) ++ sends_to ch sends) ≤ 4096) →
  (∀ s, s ∈ sends → is_Some (views r !! s.1)) →
  ∃ r', rx_iteration (respond f) on_state polls evs ((λ s, (s.1, Send s.2)) <$> sends) r = Ret r' ∧ rx_inv r'
    ∧ (∀ ch, views r !! ch = None → views r' !! ch = None)
    ∧ ∀ ch c, views r !! ch = Some c → ∃ c', views r' !! ch = Some c'
        ∧ adv (heard evs ch c) (f (Some <$> heard evs ch c) ++ sends_to ch sends) c c'
        ∧ ∀ rev, (ch, rev) ∈ evs → pushed rev c c'.
Proof.
  intros Hi Hrep Hlen Hnd Hall Hsends.
  destruct (events_adv evs r Hi Hrep Hlen Hnd) as (p & r1 & E & E1 & Hi1 & Hnone & Hmid).
  { intros ch c Hc. destruct (Hall ch c Hc) as (? & ? & Hz). split_and!; try done. rewrite app_assoc, zlen_app in Hz.
    pose proof (zlen_nonneg (sends_to ch sends)). lia. }
  destruct (spec_sends_adv sends (views r1)) as (m2 & Em2 & Hno2 & Hyes2).
  { intros ch c1 Hc1. destruct (views r !! ch) as [c|] eqn:Hc; [|by rewrite Hnone in Hc1].
    destruct (Hmid ch c Hc) as (c2 & Hc2 & Ha & _). assert (c2 = c1) as -> by congruence. pose proof Ha as (He1 & _ & _ & Hf1 & _).
    split; [done|]. rewrite Hf1, <- app_assoc. by apply Hall. }
  { intros s Hs. destruct (Hsends s Hs) as [c Hc]. destruct (Hmid _ c Hc) as (c1 & Hc1 & _). by exists c1. }
  destruct (rx_functors_ok _ _ _ Hi1 Em2) as (r2 & E2 & Hi2 & Hv2 & _). exists r2. split_and!; [|done| |].
  - unfold rx_iteration. rewrite E. cbn [mbind outcome_bind fst snd]. rewrite E1. exact E2.
  - intros ch Hn. rewrite Hv2. by apply Hno2, Hnone.
  - intros ch c Hc. rewrite Hv2. destruct (Hmid ch c Hc) as (c1 & Hc1 & Ha1 & Hpush). destruct (Hyes2 ch c1 Hc1) as (c2 & Hc2 & Ha2).
    exists c2. split; [done|]. split; [pose proof (adv_trans _ _ _ _ _ _ _ Ha1 Ha2) as H; by rewrite app_nil_r in H|].
    intros rev Hev H1 H2 H3 H4. pose proof (Hpush rev Hev H1 H2 H3 H4). destruct Ha2 as (_ & _ & _ & _ & [w ->]).
    rewrite zlen_app. pose proof (zlen_nonneg w). lia.
Qed.

End Round.
