(* ===== verification/Network.v ===== *)
(** * Loops on a network: many iterations of many event loops

    Event loops with established connections, joined by TCP: what a connection writes
    waits in the kernel for its peer to read.  A round is an iteration of one of the
    loops (Reactor.v) with the kernel's answers in it.  Some loops serve: their read
    callback answers its input; the others only ask, by queued Sends.

    The kernel is described by [legal]: it reports what it was asked to watch, a read
    returns the next bytes the peer has written, in pieces of any size and with any
    interruptions, a write takes some bytes or none for now.  Connections are not
    closed and sockets do not fail.  No definition here models code. *)

From S2P Require Import Prelude Buffer Channel Poller PollerEquiv Time TimerQueue LoopLife TcpConn Reactor Streams Session.

(** ** The network *)

(** A connection: its loop and the address of its channel. *)
Abbreviation addr := (nat * Z)%type.

Record Net : Type := mkNet {
  loops : gmap nat Reactor;
  pipes : addr → list cell;    (* written by the peer, not yet read *)
}.

Definition conn_at (n : Net) (a : addr) : option TcpConn := r ← loops n !! a.1; views r !! a.2.

(** What happens in an iteration of a loop: the kernel's answers to write and read on
    every connection, the events it reports, and the Sends that are queued. *)
Record round : Type := mkRound {
  rd_loop : nat;
  rd_ans : Z → list wres * list rres;
  rd_evs : list (Z * Z);
  rd_sends : list (Z * list cell);
}.

Definition fresh (ans : list wres * list rres) (c : TcpConn) : TcpConn :=
  set_writes ans.1 (wire c) (set_reads ans.2 c).

Definition answer (ans : Z → list wres * list rres) (r : Reactor) : Reactor :=
  mkReactor (rx_poller r) (map_imap (λ ch c, Some (fresh (ans ch) c)) (rx_conns r)).

(** The bytes a connection took from the kernel and gave to it in a round. *)
Definition taken (o o' : option TcpConn) : Z :=
  match o, o' with Some c, Some c' => zlen (rdata (reads c)) - zlen (rdata (reads c')) | _, _ => 0 end.
Definition written (o o' : option TcpConn) : list cell :=
  match o, o' with Some c, Some c' => zdrop (zlen (wire c)) (wire c') | _, _ => [] end.

(** POLLERR and POLLHUP are reported whether they were asked for or not. *)
Definition polled (evs : list (Z * Z)) (p : EpollPoller) : Prop :=
  ∀ ch rev, (ch, rev) ∈ evs → ∃ fd ev, interest p !! fd = Some (ev, ch)
    ∧ Z.land rev (Z.lnot (Z.lor ev (Z.lor POLLERR POLLHUP))) = 0.

Section Network.
(** The other end of a connection; the answers of the loops that serve; the rest of
    the program. *)
Context (peer : addr → addr) (serve : nat → option (list cell → list cell)).
Context (on_state : TcpConn → outcome TcpConn) (polls : Z → Z * Z).

Definition reply (i : nat) : list cell → list cell := default (λ _, []) (serve i).

Definition net_round (rd : round) (n : Net) : outcome Net :=
  let i := rd_loop rd in
  match loops n !! i with
  | None => Ret n
  | Some r0 =>
      let r := answer (rd_ans rd) r0 in
      r' ← rx_iteration (respond (reply i)) on_state polls (rd_evs rd) ((λ s, (s.1, Send s.2)) <$> rd_sends rd) r;
      let in_loop {A} (g : option TcpConn → option TcpConn → A) (d : A) (a : addr) :=
        if (a.1 =? i)%nat then g (views r !! a.2) (views r' !! a.2) else d in
      Ret (mkNet (<[i := r']> (loops n))
             (λ a, zdrop (in_loop taken 0 a) (pipes n a) ++ in_loop written [] (peer a)))
  end.

Fixpoint net_run (rds : list round) (n : Net) : outcome Net :=
  match rds with [] => Ret n | rd :: rds => n ← net_round rd n; net_run rds n end.

(** Answers that a kernel may give to a connection with the bytes [p] to read. *)
Definition kernel_ok (p : list cell) (ans : list wres * list rres) : Prop :=
  Forall wres_ok ans.1 ∧ Forall rres_ok ans.2 ∧ (read_plan ans.2).2 = false ∧ (Some <$> rdata ans.2) `prefix_of` p.

Definition legal (rd : round) (n : Net) : Prop :=
  let i := rd_loop rd in
  ∃ r, loops n !! i = Some r ∧ polled (rd_evs rd) (rx_poller r)
    ∧ zlen (rd_evs rd) ≤ ep_nevents (rx_poller r) < 2 ^ 63 ∧ NoDup (rd_evs rd).*1
    ∧ (∀ ch, is_Some (views r !! ch) → kernel_ok (pipes n (i, ch)) (rd_ans rd ch))
    ∧ (∀ s, s ∈ rd_sends rd → is_Some (views r !! s.1) ∧ Forall is_Some s.2) ∧ (serve i ≠ None → rd_sends rd = []).

Fixpoint legal_run (rds : list round) (n : Net) : Prop :=
  match rds with
  | [] => True
  | rd :: rds => legal rd n ∧ ∀ n', net_round rd n = Ret n' → legal_run rds n'
  end.

(** The bytes that were queued for sending at a connection. *)
Definition round_asks (rd : round) (a : addr) : list cell :=
  if (a.1 =? rd_loop rd)%nat then sends_to a.2 (rd_sends rd) else [].
Definition asked (rds : list round) (a : addr) : list cell := concat ((λ rd, round_asks rd a) <$> rds).

(** What the connection [c] at [a] has been told to send when [q] was queued for it. *)
Definition said (q : list cell) (a : addr) (c : TcpConn) : list cell :=
  match serve a.1 with None => q | Some f => f (got c) end.

(** Established connections of which nothing was sent yet. *)
Definition net_new (n : Net) : Prop :=
  (∀ i r, loops n !! i = Some r → rx_inv r)
  ∧ ∀ a c, conn_at n a = Some c → est c ∧ flow c = [] ∧ delivered c = [] ∧ pipes n a = [] ∧ is_Some (conn_at n (peer a)).

(** The bytes that went through the connections in [L], counted where they were
    written and where they were read, and the rounds of a run that moved some. *)
Definition size_at (n : Net) (a : addr) : Z :=
  match conn_at n a with Some c => zlen (wire c) + zlen (got c) | None => 0 end.
Definition total (L : list addr) (n : Net) : Z := foldr (λ a s, size_at n a + s) 0 L.

Fixpoint count_moves (L : list addr) (rds : list round) (n : Net) : Z :=
  match rds with
  | [] => 0
  | rd :: rds =>
      match net_round rd n with
      | Ret n' => (if total L n' =? total L n then 0 else 1) + count_moves L rds n'
      | _ => 0
      end
  end.

(** Bytes wait, in the kernel or in the output buffer, at [a]. *)
Definition waiting (n : Net) (a : addr) : Prop :=
  match conn_at n a with Some c => ¬ (pipes n a = [] ∧ content (output_ c) = []) | None => False end.

#[export] Instance waiting_dec n a : Decision (waiting n a).
Proof. unfold waiting. destruct (conn_at n a); apply _. Defined.

(** The network after a run in which [q] was queued. *)
Definition net_inv (q : addr → list cell) (n : Net) : Prop :=
  (∀ i r, loops n !! i = Some r → rx_inv r)
  ∧ ∀ a c, conn_at n a = Some c → est c ∧ flow c = said (q a) a c
      ∧ ∃ d, conn_at n (peer a) = Some d ∧ wire c = got d ++ pipes n (peer a).

End Network.

(** ** Lemmas *)

Lemma views_answer ans r ch : views (answer ans r) !! ch = fresh (ans ch) <$> views r !! ch.
Proof.
  rewrite !views_lookup. cbn [answer rx_conns rx_poller]. rewrite map_lookup_imap.
  destruct (rx_conns r !! ch) as [c|]; [|done]. cbn. by destruct (ep_chans (rx_poller r) !! ch).
Qed.

Lemma answer_inv ans r : rx_inv r → rx_inv (answer ans r).
Proof.
  intros [Hi Hall]. split; [done|]. intros ch c. cbn. rewrite map_lookup_imap.
  destruct (rx_conns r !! ch) as [c0|] eqn:E; [|done]. intros _. by apply (Hall ch c0).
Qed.

Lemma polled_reported evs p : polled evs p → reported evs p.
Proof. intros H ch rev Hin. destruct (H ch rev Hin) as (fd & ev & ? & _). by exists fd, ev. Qed.

(** New answers of the kernel change nothing else. *)
Lemma est_fresh ans c : Forall wres_ok ans.1 → est c → est (fresh ans c).
Proof. intros Hw [(Hst & Hcb & _ & Hup) Hi]. done. Qed.

Lemma taken_adv x y c c' : adv x y c c' → taken (Some c) (Some c') = zlen x.
Proof. intros (_ & Hr & _). unfold taken. rewrite Hr, zlen_app. lia. Qed.

Lemma written_adv x y c c' : adv x y c c' → wire c' = wire c ++ written (Some c) (Some c').
Proof. intros (_ & _ & _ & _ & [w Hw]). unfold written. by rewrite Hw, zdrop_app_length. Qed.

(** [n'] is [n] after connections took [x] from the kernel and gave [z] to it. *)
Record exchanged (peer : addr → addr) (x z : addr → list cell) (n n' : Net) : Prop := {
  ex_conn a c : conn_at n a = Some c →
    ∃ c', conn_at n' a = Some c' ∧ got c' = got c ++ x a ∧ wire c' = wire c ++ z a;
  ex_pipe a : is_Some (conn_at n a) → pipes n a = x a ++ zdrop (zlen (x a)) (pipes n a);
  ex_pipes a : is_Some (conn_at n a) → pipes n' a = zdrop (zlen (x a)) (pipes n a) ++ z (peer a);
}.

Section NetLemmas.
Context (peer : addr → addr) (serve : nat → option (list cell → list cell)).
Context (on_state : TcpConn → outcome TcpConn) (polls : Z → Z * Z).
(** Connections have two ends; a loop that serves answers a stream piece by piece, with
    no more bytes than it got, and its connections lead to loops that ask. *)
Context (peer_peer : ∀ a, peer (peer a) = a).
Context (serve_hom : ∀ i f, serve i = Some f → f [] = [] ∧ (∀ x y, f (x ++ y) = f x ++ f y) ∧ ∀ x, zlen (f x) ≤ zlen x).
Context (serve_asked : ∀ a, serve a.1 ≠ None → serve (peer a).1 = None).
Implicit Types n : Net.

Lemma reply_nil i : reply serve i [] = [].
Proof. unfold reply. destruct (serve i) as [f|] eqn:E; [|done]. by apply (serve_hom i f). Qed.

(** The bytes that follow the wires of a good network. *)
Lemma exchanged_wire x z n n' a c d :
  exchanged peer x z n n' → conn_at n a = Some c → conn_at n (peer a) = Some d → wire c = got d ++ pipes n (peer a) →
  ∃ c' d', conn_at n' a = Some c' ∧ conn_at n' (peer a) = Some d' ∧ wire c' = got d' ++ pipes n' (peer a).
Proof.
  intros Hx Hc Hd Hw. destruct (ex_conn _ _ _ _ _ Hx a c Hc) as (c' & Hc' & _ & Hwc).
  destruct (ex_conn _ _ _ _ _ Hx (peer a) d Hd) as (d' & Hd' & Hgd & _). exists c', d'. split; [done|]. split; [done|].
  rewrite Hwc, Hw, Hgd, (ex_pipes _ _ _ _ _ Hx), peer_peer by done.
  rewrite (ex_pipe _ _ _ _ _ Hx (peer a)) at 1 by done. by rewrite <- !app_assoc.
Qed.

(** What is on its way to a connection, and what it has got, was asked for. *)
Lemma net_inv_bound q n a c :
  net_inv peer serve q n → conn_at n a = Some c → serve a.1 ≠ None → zlen (got c ++ pipes n a) ≤ zlen (q (peer a)).
Proof.
  intros [_ Hall] Hc Hs. destruct (Hall a c Hc) as (_ & _ & d & Hd & _). destruct (Hall _ d Hd) as (_ & Hf & c' & Hc' & Hw).
  rewrite peer_peer in Hc', Hw. assert (c' = c) as -> by congruence. rewrite <- Hw.
  unfold said in Hf. rewrite (serve_asked a Hs) in Hf. rewrite <- Hf. unfold flow. rewrite zlen_app.
  pose proof (zlen_nonneg (content (output_ d))). lia.
Qed.

(** No connection says, and none is owed, more than 4096 bytes when no more are queued. *)
Lemma net_inv_flow q n a c :
  net_inv peer serve q n → (∀ b, zlen (q b) ≤ 4096) → conn_at n a = Some c → zlen (flow c) ≤ 4096.
Proof.
  intros Hn Hq Hc. pose proof Hn as [_ Hall]. destruct (Hall a c Hc) as (_ & -> & _). unfold said.
  destruct (serve a.1) as [f|] eqn:E; [|done]. destruct (serve_hom a.1 f E) as (_ & _ & Hf). specialize (Hf (got c)).
  pose proof (net_inv_bound q n a c Hn Hc ltac:(by rewrite E)) as Hb. rewrite zlen_app in Hb.
  pose proof (zlen_nonneg (pipes n a)). specialize (Hq (peer a)). lia.
Qed.

Lemma net_inv_pipe q n a :
  net_inv peer serve q n → (∀ b, zlen (q b) ≤ 4096) → is_Some (conn_at n a) → zlen (pipes n a) ≤ 4096.
Proof.
  intros Hn Hq [c Hc]. pose proof Hn as [_ Hall]. destruct (Hall a c Hc) as (_ & _ & d & Hd & _).
  pose proof (net_inv_flow q n (peer a) d Hn Hq Hd) as Hf. destruct (Hall _ d Hd) as (_ & _ & c' & _ & Hw).
  rewrite peer_peer in Hw. unfold flow in Hf. rewrite Hw, !zlen_app in Hf.
  pose proof (zlen_nonneg (got c')). pose proof (zlen_nonneg (content (output_ d))). lia.
Qed.

(** What a connection hears is the next thing its peer has written. *)
Lemma heard_prefix evs ch c p : (Some <$> rdata (reads c)) `prefix_of` p → (Some <$> heard evs ch c) `prefix_of` p.
Proof.
  intros Hp. unfold heard. destruct (_ !! ch) as [rev|]; [|apply prefix_nil]. destruct (has_bits rev read_bits); [|apply prefix_nil].
  etrans; [|exact Hp]. rewrite (rdata_split (reads c)), fmap_app. by eexists.
Qed.

Lemma prefix_zdrop {A} (x p : list A) : x `prefix_of` p → p = x ++ zdrop (zlen x) p.
Proof. intros [k ->]. by rewrite zdrop_app_length. Qed.

(** The part of a legal round that concerns one connection of the loop. *)
Lemma legal_conn q n rd r ch c :
  net_inv peer serve q n → (∀ a, zlen (q a ++ round_asks rd a) ≤ 4096) → loops n !! rd_loop rd = Some r →
  views r !! ch = Some c → kernel_ok (pipes n (rd_loop rd, ch)) (rd_ans rd ch) →
  (serve (rd_loop rd) ≠ None → rd_sends rd = []) →
  let c1 := fresh (rd_ans rd ch) c in
  est c1 ∧ answers_ok c1
  ∧ zlen (flow c1 ++ reply serve (rd_loop rd) (Some <$> heard (rd_evs rd) ch c1) ++ sends_to ch (rd_sends rd)) ≤ 4096.
Proof.
  intros Hn Hq Hr Hc (Hw & Hok & Hend & Hpre) Hser c1. set (a := (rd_loop rd, ch)) in *.
  assert (conn_at n a = Some c) as Ha by (unfold conn_at; cbn; by rewrite Hr).
  assert (∀ b, zlen (q b) ≤ 4096) as Hq0.
  { intros b. specialize (Hq b). rewrite zlen_app in Hq. pose proof (zlen_nonneg (round_asks rd b)). lia. }
  pose proof Hn as [_ Hall]. destruct (Hall a c Ha) as (He & Hf & _). split; [by apply est_fresh|].
  pose proof (net_inv_pipe q n a Hn Hq0 ltac:(by eexists)) as Hp.
  pose proof (heard_prefix (rd_evs rd) ch c1 _ Hpre) as [k Hk]. set (x := heard (rd_evs rd) ch c1) in *. split.
  - split; [done|]. split; [done|]. destruct Hpre as [k' Hk']. rewrite Hk', zlen_app, zlen_fmap in Hp.
    pose proof (zlen_nonneg k'). cbn. lia.
  - change (flow c1) with (flow c). rewrite Hf. specialize (Hq a). unfold said, reply, round_asks in *. cbn [fst snd a] in *.
    destruct (serve (rd_loop rd)) as [f|] eqn:E; cbn [default from_option].
    + rewrite (Hser ltac:(done)). cbn. rewrite app_nil_r. destruct (serve_hom _ f E) as (_ & Hhom & Hle). rewrite <- Hhom.
      etrans; [apply Hle|]. pose proof (net_inv_bound q n a c Hn Ha ltac:(cbn; by rewrite E)) as Hb.
      rewrite Hk, app_assoc, zlen_app in Hb. pose proof (zlen_nonneg k). specialize (Hq0 (peer a)).
      rewrite zlen_app in Hb |- *. change (got c1) with (got c) in *. rewrite !zlen_app in *. lia.
    + by rewrite Nat.eqb_refl in Hq.
Qed.

(** What a round does to one connection of which [x] was read and [z] written. *)
Definition advanced (rd : round) (x z : addr → list cell) (n n' : Net) : Prop :=
  (∀ a c, conn_at n a = Some c → ∃ c', conn_at n' a = Some c' ∧ est c' ∧ got c' = got c ++ x a
     ∧ wire c' = wire c ++ z a ∧ flow c' = flow c ++ reply serve a.1 (x a) ++ round_asks rd a)
  ∧ ∀ a, conn_at n a = None → conn_at n' a = None.

(** When bytes are read and when they are written. *)
Definition moves (rd : round) (x z : addr → list cell) (n : Net) : Prop :=
  ∀ a c, conn_at n a = Some c → a.1 = rd_loop rd →
    x a = Some <$> heard (rd_evs rd) a.2 (fresh (rd_ans rd a.2) c)
    ∧ ∀ rev, (a.2, rev) ∈ rd_evs rd → has_bits rev read_bits = false → has_bits rev POLLOUT = true →
        content (output_ c) ≠ [] → takes (rd_ans rd a.2).1 → z a ≠ [].

(** A legal round returns. *)
Lemma round_runs q n rd :
  net_inv peer serve q n → legal serve rd n → (∀ a, zlen (q a ++ round_asks rd a) ≤ 4096) →
  ∃ n' x z, net_round peer serve on_state polls rd n = Ret n' ∧ (∀ j r, loops n' !! j = Some r → rx_inv r)
    ∧ advanced rd x z n n' ∧ moves rd x z n
    ∧ ∀ a, is_Some (conn_at n a) → x a `prefix_of` pipes n a
        ∧ pipes n' a = zdrop (zlen (x a)) (pipes n a) ++ z (peer a).
Proof.
  intros Hn (r0 & Hr0 & Hpol & Hlen & Hnd & Hker & Hsends & Hser) Hq. set (i := rd_loop rd) in *.
  pose proof Hn as [Hrx Hall]. set (r := answer (rd_ans rd) r0). set (f := reply serve i).
  assert (Hin : ∀ ch c, conn_at n (i, ch) = Some c → views r !! ch = Some (fresh (rd_ans rd ch) c)).
  { intros ch c. unfold conn_at, r. cbn [fst snd]. rewrite Hr0, views_answer. cbn [mbind option_bind]. by intros ->. }
  destruct (iteration_adv f on_state polls (reply_nil i) (rd_evs rd) (rd_sends rd) r) as (r' & E & Hi' & Hnone & Hyes); try done.
  { by apply answer_inv, (Hrx i). } { by apply polled_reported. }
  { intros ch c1. unfold r. rewrite views_answer. destruct (views r0 !! ch) as [c|] eqn:Hc; [|done]. intros [= <-].
    by apply (legal_conn q n rd r0 ch c); try done; apply Hker. }
  { intros s Hs. unfold r. rewrite views_answer. apply fmap_is_Some. by destruct (Hsends s Hs). }
  set (x := λ a : addr, if (a.1 =? i)%nat then default [] ((λ c, Some <$> heard (rd_evs rd) a.2 c) <$> views r !! a.2) else []).
  set (z := λ a : addr, if (a.1 =? i)%nat then written (views r !! a.2) (views r' !! a.2) else []).
  eexists _, x, z. split; [unfold net_round; fold i; rewrite Hr0; fold r f; by rewrite E|].
  match goal with |- context [mkNet ?l ?p] => set (n' := mkNet l p) end.
  assert (Hat : ∀ a, conn_at n' a = if (a.1 =? i)%nat then views r' !! a.2 else conn_at n a).
  { intros a. unfold conn_at, n'. cbn. destruct (Nat.eqb_spec a.1 i) as [->|Hne]; [by rewrite lookup_insert_eq|by rewrite lookup_insert_ne]. }
  split; [intros j rj; unfold n'; cbn; rewrite lookup_insert; case_decide; [by intros [= <-]|apply Hrx]|].
  split; [split|split].
  - intros a c Hc. rewrite Hat. unfold x, z, round_asks. fold i. destruct (Nat.eqb_spec a.1 i) as [Ei|Hne].
    + destruct a as [? ch]; cbn [fst snd] in Ei |- *; subst. rewrite (Hin ch c Hc). destruct (Hyes ch _ (Hin ch c Hc)) as (c' & Hc' & Ha & _).
      exists c'. rewrite Hc'. pose proof (written_adv _ _ _ _ Ha) as Hw. destruct Ha as (He & _ & Hg & Hf & _). by split_and!.
    + exists c. rewrite reply_nil, !app_nil_r. split; [done|]. split; [by apply (Hall a c)|done].
  - intros [j ch] Hc. rewrite Hat. cbn [fst snd]. destruct (Nat.eqb_spec j i) as [->|]; [|done]. apply Hnone. unfold r. rewrite views_answer.
    unfold conn_at in Hc. cbn [fst snd] in Hc. rewrite Hr0 in Hc. cbn [mbind option_bind] in Hc. by rewrite Hc.
  - intros [j ch] c Hc Ej. cbn in Ej. subst j. unfold x, z. cbn [fst snd]. fold i. rewrite Nat.eqb_refl, (Hin ch c Hc). split; [done|].
    intros rev Hev H1 H2 H3 H4. destruct (Hyes ch _ (Hin ch c Hc)) as (c' & Hc' & Ha & Hpush). rewrite Hc'.
    specialize (Hpush rev Hev H1 H2 H3 H4). pose proof (written_adv _ _ _ _ Ha) as Hw. intros Hz. rewrite Hz, app_nil_r in Hw.
    rewrite Hw in Hpush. lia.
  - intros [j ch] [c Hc]. unfold n', x. cbn [fst snd pipes]. destruct (Nat.eqb_spec j i) as [->|]; [|by split; [apply prefix_nil|]].
    rewrite (Hin ch c Hc). destruct (Hyes ch _ (Hin ch c Hc)) as (c' & -> & Ha & _). rewrite (taken_adv _ _ _ _ Ha).
    change (default [] _) with (Some <$> heard (rd_evs rd) ch (fresh (rd_ans rd ch) c)). rewrite zlen_fmap. split; [|done]. apply heard_prefix, Hker. unfold conn_at in Hc. cbn [fst snd] in Hc. rewrite Hr0 in Hc. by eexists.
Qed.

(** A legal round keeps the network good. *)
Lemma round_ok q n rd :
  net_inv peer serve q n → legal serve rd n → (∀ a, zlen (q a ++ round_asks rd a) ≤ 4096) →
  ∃ n' x z, net_round peer serve on_state polls rd n = Ret n' ∧ net_inv peer serve (λ a, q a ++ round_asks rd a) n'
    ∧ exchanged peer x z n n' ∧ (∀ a, conn_at n a = None → conn_at n' a = None) ∧ moves rd x z n.
Proof.
  intros Hn Hl Hq. destruct (round_runs q n rd Hn Hl Hq) as (n' & x & z & E & Hrx & [Hdelta Hnew] & Hmv & Hp).
  pose proof Hn as [_ Hall]. destruct Hl as (r0 & _ & _ & _ & _ & _ & _ & Hser). exists n', x, z.
  assert (Hex : exchanged peer x z n n').
  { split.
    - intros a c Hc. destruct (Hdelta a c Hc) as (c' & ? & _ & ? & ? & _). by exists c'.
    - intros a Ha. by apply prefix_zdrop, Hp.
    - intros a Ha. by apply Hp. }
  split; [done|]. split; [|done]. split; [done|]. intros a c' Hc'. destruct (conn_at n a) as [c|] eqn:Hc; [|by rewrite Hnew in Hc'].
  destruct (Hdelta a c Hc) as (c1 & Hc1 & He & Hg & Hw & Hf). assert (c1 = c') as -> by congruence.
  destruct (Hall a c Hc) as (_ & Hf0 & d & Hd & Hwd). split; [done|]. split.
  - rewrite Hf, Hf0. unfold said, reply, round_asks. destruct (serve a.1) as [g|] eqn:Eg; cbn; [|done].
    destruct (serve_hom _ g Eg) as (_ & Hhom & _). rewrite Hg, Hhom.
    destruct (Nat.eqb_spec a.1 (rd_loop rd)) as [Ei|]; [|by rewrite app_nil_r].
    rewrite Hser by (by rewrite <- Ei, Eg). cbn. by rewrite app_nil_r.
  - destruct (exchanged_wire x z n n' a c d Hex Hc Hd Hwd) as (c2 & d' & Hc2 & Hd' & Hw'). exists d'. split; [done|].
    by assert (c2 = c') as -> by congruence.
Qed.

(** ** Runs *)

Lemma net_inv_ext q q' n : (∀ a, q a = q' a) → net_inv peer serve q n → net_inv peer serve q' n.
Proof. intros Hq [Hrx Hall]. split; [done|]. intros a c Hc. rewrite <- Hq. by apply Hall. Qed.

Lemma net_new_inv n : net_new peer n → net_inv peer serve (λ _, []) n.
Proof.
  intros [Hrx Hall]. split; [done|]. intros a c Hc. destruct (Hall a c Hc) as (He & Hf & Hd & _ & [d Hp]).
  destruct (Hall _ d Hp) as (_ & _ & Hd' & Hpi & _). split; [done|]. split.
  - rewrite Hf. unfold said. destruct (serve a.1) as [f|] eqn:E; [|done]. destruct (serve_hom _ f E) as [Hf0 _].
    assert (got c = []) as -> by (unfold got; by rewrite Hd). done.
  - exists d. split; [done|]. rewrite Hpi.
    assert (got d = []) as -> by (unfold got; by rewrite Hd'). unfold flow in Hf. by apply app_nil in Hf as [-> _].
Qed.

(** Rounds move bytes forward only. *)
Lemma size_at_mono x z n n' a :
  exchanged peer x z n n' → (∀ b, conn_at n b = None → conn_at n' b = None) →
  size_at n' a = size_at n a + match conn_at n a with Some _ => zlen (z a) + zlen (x a) | None => 0 end.
Proof.
  intros Hex Hno. unfold size_at. destruct (conn_at n a) as [c|] eqn:Hc; [|by rewrite Hno].
  destruct (ex_conn _ _ _ _ _ Hex a c Hc) as (c' & -> & -> & ->). rewrite !zlen_app. lia.
Qed.

Lemma total_mono x z n n' L :
  exchanged peer x z n n' → (∀ b, conn_at n b = None → conn_at n' b = None) →
  total L n ≤ total L n' ∧ ∀ a, a ∈ L → is_Some (conn_at n a) → x a ≠ [] ∨ z a ≠ [] → total L n < total L n'.
Proof.
  intros Hex Hno. induction L as [|b L [IH1 IH2]]; cbn; [split; [done|by intros a ?%elem_of_nil]|].
  rewrite (size_at_mono x z n n' b Hex Hno). pose proof (zlen_nonneg (z b)). pose proof (zlen_nonneg (x b)).
  unfold total in *. split; [destruct (conn_at n b); lia|]. intros a [->|Hin]%elem_of_cons [c Hc] Hm.
  - rewrite Hc. assert (zlen (x b) ≠ 0 ∨ zlen (z b) ≠ 0); [|lia].
    destruct Hm as [Hm|Hm]; [left|right]; by intros ?%zlen_0_nil.
  - specialize (IH2 a Hin ltac:(by eexists) Hm). destruct (conn_at n b); lia.
Qed.

Lemma run_ok rds q n L :
  net_inv peer serve q n → legal_run peer serve on_state polls rds n → (∀ a, zlen (q a ++ asked rds a) ≤ 4096) →
  ∃ n', net_run peer serve on_state polls rds n = Ret n' ∧ net_inv peer serve (λ a, q a ++ asked rds a) n'
    ∧ (∀ a, is_Some (conn_at n a) ↔ is_Some (conn_at n' a))
    ∧ count_moves peer serve on_state polls L rds n ≤ total L n' - total L n.
Proof.
  revert q n. induction rds as [|rd rds IH]; intros q n Hn Hl Hq.
  { exists n. split; [done|]. split; [|split; [done|cbn; lia]]. eapply net_inv_ext; [|exact Hn]. intros a. by rewrite app_nil_r. }
  destruct Hl as [Hl Hls]. assert (Hcons : ∀ a, q a ++ asked (rd :: rds) a = (q a ++ round_asks rd a) ++ asked rds a)
    by (intros a; unfold asked; cbn; by rewrite app_assoc).
  destruct (round_ok q n rd Hn Hl) as (n1 & x & z & E & Hn1 & Hex & Hno & _).
  { intros a. specialize (Hq a). rewrite Hcons, zlen_app in Hq. pose proof (zlen_nonneg (asked rds a)). lia. }
  destruct (IH _ n1 Hn1) as (n' & E' & Hn' & Hdom & Hcnt); [by apply Hls|intros a; by rewrite <- Hcons|].
  exists n'. cbn. rewrite E. split; [done|]. split; [by eapply net_inv_ext; [|exact Hn']|]. split.
  - intros a. rewrite <- Hdom. split.
    + intros [c Hc]. destruct (ex_conn _ _ _ _ _ Hex a c Hc) as (c' & ? & _). by exists c'.
    + intros [c' Hc']. destruct (conn_at n a) eqn:Hc; [by eexists|]. by rewrite Hno in Hc'.
  - destruct (total_mono x z n n1 L Hex Hno) as [Hm _]. destruct (Z.eqb_spec (total L n1) (total L n)); lia.
Qed.

Lemma asked_init rds n a :
  legal_run peer serve on_state polls rds n → (∃ n', net_run peer serve on_state polls rds n = Ret n') → Forall is_Some (asked rds a).
Proof.
  revert n. induction rds as [|rd rds IH]; intros n Hl [n' E]; [constructor|]. destruct Hl as [(r & _ & _ & _ & _ & _ & Hs & _) Hls].
  cbn in E. apply bind_Ret_inv in E as (n1 & E1 & E2). unfold asked. cbn. apply Forall_app_2; [|by apply (IH n1); [apply Hls|exists n']].
  unfold round_asks. destruct (_ =? _)%nat; [|constructor]. unfold sends_to. apply Forall_concat, Forall_fmap, Forall_forall.
  intros s [_ Hin]%list_elem_of_filter. by apply Hs.
Qed.

Lemma total_nonneg L n : 0 ≤ total L n.
Proof.
  induction L as [|a L IH]; [done|]. cbn. fold (total L n). unfold size_at. destruct (conn_at n a) as [c|]; [|done].
  pose proof (zlen_nonneg (wire c)). pose proof (zlen_nonneg (got c)). lia.
Qed.

(** How much can have gone through. *)
Lemma total_bound q n L : net_inv peer serve q n → (∀ b, zlen (q b) ≤ 4096) → total L n ≤ 8192 * zlen L.
Proof.
  intros Hn Hq. induction L as [|a L IH]; [done|]. rewrite zlen_cons. cbn. fold (total L n).
  assert (size_at n a ≤ 8192); [|lia]. unfold size_at. destruct (conn_at n a) as [c|] eqn:Hc; [|done].
  pose proof (net_inv_flow q n a c Hn Hq Hc) as Hf. pose proof Hn as [_ Hall]. destruct (Hall a c Hc) as (_ & _ & d & Hd & _).
  pose proof (net_inv_flow q n _ d Hn Hq Hd) as Hfd. destruct (Hall _ d Hd) as (_ & _ & c' & Hc' & Hw).
  rewrite peer_peer in Hc', Hw. assert (c' = c) as -> by congruence. unfold flow in *. rewrite Hw, !zlen_app in Hfd.
  rewrite zlen_app in Hf. pose proof (zlen_nonneg (content (output_ c))). pose proof (zlen_nonneg (content (output_ d))).
  pose proof (zlen_nonneg (pipes n a)). lia.
Qed.

(** ** A step that can be taken *)

Context (serve_init : ∀ i f l, serve i = Some f → Forall is_Some l → Forall is_Some (f l)).

(** No indeterminate bytes are on their way. *)
Lemma net_inv_init q n a c :
  net_inv peer serve q n → (∀ b, Forall is_Some (q b)) → conn_at n a = Some c →
  Forall is_Some (flow c) ∧ Forall is_Some (pipes n a).
Proof.
  intros Hn Hq Hc. pose proof Hn as [_ Hall].
  assert (Hasks : ∀ b e, conn_at n b = Some e → serve b.1 = None → Forall is_Some (flow e)).
  { intros b e He E. destruct (Hall b e He) as (_ & -> & _). unfold said. by rewrite E. }
  assert (Hfed : ∀ b e, conn_at n b = Some e → (∀ d, conn_at n (peer b) = Some d → Forall is_Some (flow d)) →
     Forall is_Some (got e ++ pipes n b)).
  { intros b e He Hd. destruct (Hall b e He) as (_ & _ & d & Ed & _). specialize (Hd d Ed).
    destruct (Hall _ d Ed) as (_ & _ & e' & He' & Hw). rewrite peer_peer in He', Hw. assert (e' = e) as -> by congruence.
    rewrite <- Hw. unfold flow in Hd. by apply Forall_app in Hd as [? _]. }
  assert (Hflow : ∀ b e, conn_at n b = Some e → Forall is_Some (flow e)).
  { intros b e He. destruct (serve b.1) as [f|] eqn:E; [|by eapply Hasks]. destruct (Hall b e He) as (_ & -> & _). unfold said.
    rewrite E. eapply serve_init; [done|]. assert (Forall is_Some (got e ++ pipes n b)) as Hg; [|by apply Forall_app in Hg as [? _]].
    apply Hfed; [done|]. intros d Hd. eapply Hasks; [done|]. apply serve_asked. by rewrite E. }
  split; [by eapply Hflow|]. assert (Forall is_Some (got c ++ pipes n a)) as Hg; [|by apply Forall_app in Hg as [_ ?]].
  apply Hfed; [done|]. intros d. apply Hflow.
Qed.

(** The kernel reports [rev] for one connection and answers it with [ws] and [rs]. *)
Definition one_round (a : addr) (rev : Z) (ws : list wres) (rs : list rres) : round :=
  mkRound a.1 (λ ch, if ch =? a.2 then (ws, rs) else ([], [])) [(a.2, rev)] [].

Lemma watched_bit ev k y : 0 ≤ k → has_bits ev (2 ^ k) = true → Z.land (2 ^ k) (Z.lnot (Z.lor ev y)) = 0.
Proof.
  intros Hk H. apply Z.bits_inj'. intros j Hj. rewrite Z.land_spec, Z.lnot_spec, Z.lor_spec, Z.bits_0 by done.
  rewrite Z.pow2_bits_eqb by done. destruct (Z.eqb_spec k j) as [<-|]; [|done]. cbn.
  destruct (Z.testbit ev k) eqn:E; [done|]. unfold has_bits in H. assert (Z.land ev (2 ^ k) = 0) as H0; [|by rewrite H0 in H].
  apply Z.bits_inj'. intros i Hi. rewrite Z.land_spec, Z.pow2_bits_eqb, Z.bits_0 by done.
  destruct (Z.eqb_spec k i) as [<-|]; [by rewrite E|by rewrite andb_false_r].
Qed.

Lemma one_round_legal q n a c r k ws rs :
  net_inv peer serve q n → loops n !! a.1 = Some r → conn_at n a = Some c → ep_nevents (rx_poller r) < 2 ^ 63 →
  0 ≤ k < 16 → (∀ x, channel_ c = Some x → has_bits (events_ x) (2 ^ k) = true) → kernel_ok (pipes n a) (ws, rs) →
  legal serve (one_round a (2 ^ k) ws rs) n.
Proof.
  intros [Hrx Hall] Hr Hc Hnev Hk Hbit Hker. exists r. destruct a as [i ch]. cbn [fst snd] in *.
  assert (views r !! ch = Some c) as Hv by (unfold conn_at in Hc; cbn [fst snd] in Hc; by rewrite Hr in Hc).
  destruct (Hall _ c Hc) as (((_ & _ & _ & _ & x & Hx & _) & _) & _). pose proof (Hrx i r Hr) as Hi.
  destruct (rx_watched r ch c x Hi Hv Hx) as [Hint _]. pose proof Hi as [(_ & _ & Hn0) _].
  split; [done|]. split.
  { intros ch' rev [[= -> ->]|?%elem_of_nil]%elem_of_cons; [|done]. eexists _, _. split; [exact Hint|]. apply watched_bit; [lia|].
    unfold has_bits. rewrite land_u32; [by apply (Hbit x Hx)|]. split; [lia|]. apply Z.pow_lt_mono_r; lia. }
  split; [cbn; change (zlen [(ch, 2 ^ k)]) with 1; lia|]. split; [apply NoDup_singleton|]. split; [|split; [by intros s ?%elem_of_nil|done]].
  intros ch' _. cbn. destruct (Z.eqb_spec ch' ch) as [->|]; [done|]. split_and!; try constructor. apply prefix_nil.
Qed.

(** Bytes that wait, in the kernel or in an output buffer, can move. *)
Lemma can_move q n a c r :
  net_inv peer serve q n → (∀ b, zlen (q b) ≤ 4096) → (∀ b, Forall is_Some (q b)) →
  loops n !! a.1 = Some r → conn_at n a = Some c → ep_nevents (rx_poller r) < 2 ^ 63 →
  ¬ (pipes n a = [] ∧ content (output_ c) = []) →
  ∃ rd n', rd_sends rd = [] ∧ legal serve rd n ∧ net_round peer serve on_state polls rd n = Ret n'
    ∧ ∀ L, a ∈ L → total L n < total L n'.
Proof.
  intros Hn Hq Hinit Hr Hc Hnev Hmove. pose proof Hn as [_ Hall].
  destruct (Hall a c Hc) as (((_ & _ & _ & _ & x & Hx & _ & _ & Hrd & Hwr) & _) & _).
  assert (Hgo : ∀ rd, rd_sends rd = [] → rd_loop rd = a.1 → legal serve rd n →
     (∀ d z : list cell, d = Some <$> heard (rd_evs rd) a.2 (fresh (rd_ans rd a.2) c) →
        (∀ rev, (a.2, rev) ∈ rd_evs rd → has_bits rev read_bits = false → has_bits rev POLLOUT = true →
            content (output_ c) ≠ [] → takes (rd_ans rd a.2).1 → z ≠ []) → d ≠ [] ∨ z ≠ []) →
     ∃ rd n', rd_sends rd = [] ∧ legal serve rd n ∧ net_round peer serve on_state polls rd n = Ret n' ∧ ∀ L, a ∈ L → total L n < total L n').
  { intros rd Hs Hl Hlegal Hxz. destruct (round_ok q n rd Hn Hlegal) as (n' & xs & zs & E & _ & Hex & Hno & Hinfo).
    { intros b. unfold round_asks. rewrite Hs. destruct (_ =? _)%nat; by rewrite app_nil_r. }
    exists rd, n'. split_and!; try done. intros L HL. destruct (total_mono xs zs n n' L Hex Hno) as [_ Hm].
    apply (Hm a); [done|by eexists|]. destruct (Hinfo a c Hc (eq_sym Hl)) as [H1 H2]. by apply Hxz. }
  apply not_and_l in Hmove as [Hp|Ho].
  - destruct (net_inv_init q n a c Hn Hinit Hc) as [_ Hpi]. destruct (pipes n a) as [|[b|] rest] eqn:Ep; [done| |].
    2:{ apply Forall_cons in Hpi as [[? ?] _]. done. }
    apply (Hgo (one_round a (2 ^ 0) [] [RData [b]])); try done.
    + eapply one_round_legal; try done; [by intros y Hy; assert (y = x) as -> by congruence|].
      rewrite Ep. split_and!; try done; [by repeat constructor|by exists rest].
    + intros y z -> _. left. destruct a as [i ch]. unfold heard, one_round. cbn. by rewrite lookup_insert_eq, Z.eqb_refl.
  - apply (Hgo (one_round a (2 ^ 2) [Wrote 1] [])); try done.
    + eapply one_round_legal; try done; [intros y Hy; assert (y = x) as -> by congruence; by apply Hwr|].
      split_and!; try done; [by repeat constructor|apply prefix_nil].
    + intros y z _ Hz. right. apply (Hz (2 ^ 2)); try done; [by left|]. destruct a as [i ch]. cbn. rewrite Z.eqb_refl. by eexists 1, [].
Qed.

(** ** One event of one connection *)

(** The event that asks for a callback. *)
Definition asks_for (rev : Z) (k : cb_kind) : Prop := rev = POLLIN ∧ k = CbRead ∨ rev = POLLOUT ∧ k = CbWrite.

(** The loop of [a] in a round in which the kernel reports [rev] there: the connection
    and its channel before the event is handled. *)
Lemma one_round_start n a c rev ws rs :
  (∀ i r, loops n !! i = Some r → rx_inv r) → conn_at n a = Some c → legal serve (one_round a rev ws rs) n →
  ∃ r0 r p, loops n !! a.1 = Some r0 ∧ r = answer (rd_ans (one_round a rev ws rs)) r0
    ∧ EpollPoller_Poll (Some [(a.2, rev)]) (rx_poller r) = Ret ([a.2], p)
    ∧ rx_inv (mkReactor p (rx_conns r)) ∧ is_Some (ep_chans p !! a.2)
    ∧ views (mkReactor p (rx_conns r)) !! a.2 = Some (see rev (fresh (ws, rs) c)).
Proof.
  intros Hrx Hc (r0 & Hr0 & Hpol & Hlen & _). set (r := answer (rd_ans (one_round a rev ws rs)) r0).
  cbn [rd_loop rd_evs one_round] in *. destruct (rx_poll_ok [(a.2, rev)] r) as (p & E & Hi & Hv & Hlive); try done.
  { by apply answer_inv, (Hrx a.1). } { by apply polled_reported. }
  exists r0, r, p. split_and!; try done; [apply Hlive; by left|].
  rewrite Hv. cbn [spec_poll foldl fst snd]. rewrite lookup_alter_eq. unfold r. rewrite views_answer. cbn [rd_ans one_round].
  rewrite Z.eqb_refl. unfold conn_at in Hc. rewrite Hr0 in Hc. cbn [mbind option_bind] in Hc. by rewrite Hc.
Qed.

Lemma one_round_runs n a c c' rev k ws rs :
  let c1 := see rev (fresh (ws, rs) c) in
  (∀ i r, loops n !! i = Some r → rx_inv r) → conn_at n a = Some c → is_Some (channel_ c) →
  legal serve (one_round a rev ws rs) n → asks_for rev k →
  handler (respond (reply serve a.1)) on_state polls k a.2 c1 = Ret c' → kept c1 c' = true →
  ∃ n', net_round peer serve on_state polls (one_round a rev ws rs) n = Ret n'
    ∧ (∀ i r, loops n' !! i = Some r → rx_inv r) ∧ conn_at n' a = Some c'.
Proof.
  intros c1 Hrx Hc [x Hx] Hl Hk Hh Hkept. destruct (one_round_start n a c rev ws rs Hrx Hc Hl) as (r0 & r & p & Hr0 & Er & E & Hi & Hlive & Hv).
  fold c1 in Hv. assert (channel_ c1 = Some (SetREvents rev x)) as Hx1 by (unfold c1; cbn; by rewrite Hx).
  destruct (rx_HandleEvent_ok (respond (reply serve a.1)) on_state polls a.2 (<[a.2 := c']> (views (mkReactor p (rx_conns r)))) _ Hi Hlive)
    as (r' & E' & Hi' & Hv' & _).
  { unfold spec_event. rewrite Hv. cbn [mbind option_bind]. rewrite Hx1. unfold spec_when, spec_op.
    assert (has_bits (revents_ (SetREvents rev x)) read_bits = bool_decide (k = CbRead)
      ∧ has_bits (revents_ (SetREvents rev x)) POLLOUT = bool_decide (k = CbWrite)) as [-> ->] by (by destruct Hk as [[-> ->]|[-> ->]]).
    destruct Hk as [[_ ->]|[_ ->]]; repeat case_bool_decide; try done; cbn [mbind option_bind]; rewrite Hv;
      cbn [handler] in Hh |- *; by rewrite Hh, Hkept. }
  unfold net_round. cbn [rd_loop one_round]. rewrite Hr0, <- Er. unfold rx_iteration. cbn [rd_evs one_round rd_sends].
  rewrite E. cbn [mbind outcome_bind fst snd fold_ret]. rewrite E'. cbn [mbind outcome_bind fold_ret fmap list_fmap]. eexists. split; [done|].
  split; [intros j rj; cbn; rewrite lookup_insert; case_decide; [by intros [= <-]|apply Hrx]|].
  unfold conn_at. cbn [loops]. rewrite lookup_insert_eq. cbn [mbind option_bind]. by rewrite Hv', lookup_insert_eq.
Qed.

Lemma one_round_faults n a c e ws rs :
  (∀ i r, loops n !! i = Some r → rx_inv r) → conn_at n a = Some c → is_Some (channel_ c) →
  legal serve (one_round a POLLIN ws rs) n →
  handler (respond (reply serve a.1)) on_state polls CbRead a.2 (see POLLIN (fresh (ws, rs) c)) = Fault e →
  net_round peer serve on_state polls (one_round a POLLIN ws rs) n = Fault e.
Proof.
  intros Hrx Hc [x Hx] Hl Hh. destruct (one_round_start n a c POLLIN ws rs Hrx Hc Hl) as (r0 & r & p & Hr0 & Er & E & Hi & Hlive & Hv).
  unfold net_round. cbn [rd_loop one_round]. rewrite Hr0, <- Er. unfold rx_iteration. cbn [rd_evs one_round rd_sends].
  rewrite E. cbn [mbind outcome_bind fst snd fold_ret].
  by rewrite (rx_HandleEvent_fault _ _ _ _ a.2 _ (SetREvents POLLIN x) e Hi Hv) by (done || by cbn; rewrite Hx).
Qed.

End NetLemmas.

(** What is asked of the loops that serve: see [NetLemmas]; they make up no
    indeterminate bytes. *)
Definition services (peer : addr → addr) (serve : nat → option (list cell → list cell)) : Prop :=
  (∀ a, peer (peer a) = a)
  ∧ (∀ i f, serve i = Some f → f [] = [] ∧ (∀ x y, f (x ++ y) = f x ++ f y) ∧ ∀ x, zlen (f x) ≤ zlen x)
  ∧ (∀ a, serve a.1 ≠ None → serve (peer a).1 = None)
  ∧ ∀ i f l, serve i = Some f → Forall is_Some l → Forall is_Some (f l).

(** ** Properties *)

(** C1: byte streams from end to end.  Any number of loops with any number of
    established connections between them, of which at most 4096 bytes are asked for
    on each, run any legal rounds: any order of the loops, any events, any
    fragmentation, delay and interruption of reads and writes, any queued Sends.
    Every iteration returns, and on every connection what its side has said is, byte
    for byte and in order, what the other side got, what is in the kernel and what
    waits in the output buffer.  A loop that asks has said what was queued; one that
    serves has said the answer to what it got. *)
Theorem network_streams (peer : addr → addr) (serve : nat → option (list cell → list cell))
    (on_state : TcpConn → outcome TcpConn) (polls : Z → Z * Z) (rds : list round) (n0 : Net) :
  services peer serve → net_new peer n0 → legal_run peer serve on_state polls rds n0 →
  (∀ a, zlen (asked rds a) ≤ 4096) →
  ∃ n, net_run peer serve on_state polls rds n0 = Ret n ∧ (∀ i r, loops n !! i = Some r → rx_inv r)
    ∧ ∀ a, is_Some (conn_at n0 a) → ∃ c d, conn_at n a = Some c ∧ conn_at n (peer a) = Some d
        ∧ said serve (asked rds a) a c = got d ++ pipes n (peer a) ++ content (output_ c)
        ∧ said serve (asked rds (peer a)) (peer a) d = got c ++ pipes n a ++ content (output_ d).
Proof.
  intros (Hpp & Hhom & Hsa & _) Hnew Hl Hq. pose proof (net_new_inv peer serve Hhom n0 Hnew) as Hn0.
  destruct (run_ok peer serve on_state polls Hpp Hhom Hsa rds _ n0 [] Hn0 Hl Hq) as (n & E & [Hrx Hall] & Hdom & _).
  exists n. split; [done|]. split; [done|]. intros a Ha. apply Hdom in Ha as [c Hc].
  destruct (Hall a c Hc) as (_ & Hf & d & Hd & Hw). destruct (Hall _ d Hd) as (_ & Hf' & c' & Hc' & Hw').
  rewrite Hpp in Hc', Hw'. assert (c' = c) as -> by congruence. exists c, d. split; [done|]. split; [done|].
  cbn [app] in Hf, Hf'. rewrite <- Hf, <- Hf'. unfold flow. by rewrite Hw, Hw', <- !app_assoc.
Qed.

(** C2: delivery.  In such a run at most 8192 rounds for each connection in the list
    [L] of all connections move a byte of it; and at its end either all that was asked on
    connections to serving loops has been received and all answers have come back, or
    there is a legal round without new Sends, in which the kernel reports an event it
    was asked to watch, that moves a byte.  So no byte is stuck, and rounds that keep
    moving bytes end with everything delivered. *)
Theorem network_delivers (peer : addr → addr) (serve : nat → option (list cell → list cell))
    (on_state : TcpConn → outcome TcpConn) (polls : Z → Z * Z) (L : list addr) (rds : list round) (n0 : Net) :
  services peer serve → net_new peer n0 → (∀ a, is_Some (conn_at n0 a) → a ∈ L) →
  legal_run peer serve on_state polls rds n0 → (∀ a, zlen (asked rds a) ≤ 4096) →
  ∃ n, net_run peer serve on_state polls rds n0 = Ret n
    ∧ count_moves peer serve on_state polls L rds n0 ≤ 8192 * zlen L
    ∧ ((∀ i r, loops n !! i = Some r → ep_nevents (rx_poller r) < 2 ^ 63) →
       (∀ a c d f, conn_at n a = Some c → serve a.1 = None → conn_at n (peer a) = Some d → serve (peer a).1 = Some f →
          got d = asked rds a ∧ got c = f (asked rds a))
       ∨ ∃ rd n', rd_sends rd = [] ∧ legal serve rd n ∧ net_round peer serve on_state polls rd n = Ret n'
           ∧ total L n < total L n').
Proof.
  intros (Hpp & Hhom & Hsa & Hini) Hnew HL Hl Hq. pose proof (net_new_inv peer serve Hhom n0 Hnew) as Hn0.
  destruct (run_ok peer serve on_state polls Hpp Hhom Hsa rds _ n0 L Hn0 Hl Hq) as (n & E & Hn & Hdom & Hcnt).
  cbn [app] in Hn. exists n. split; [done|]. split.
  { pose proof (total_bound peer serve Hpp Hhom Hsa _ n L Hn Hq). pose proof (total_nonneg L n0). lia. }
  intros Hnev. destruct (decide (Exists (waiting n) L)) as [(a & Ha & Hwait)%Exists_exists|Hnone].
  - right. unfold waiting in Hwait. destruct (conn_at n a) as [c|] eqn:Hc; [|done]. pose proof Hc as Hc'.
    apply bind_Some in Hc' as (r & Hr & _).
    destruct (can_move peer serve on_state polls Hpp Hhom Hsa Hini _ n a c r Hn Hq) as (rd & n' & H1 & H2 & H3 & H4); try done.
    + intros b. eapply asked_init; [done|by exists n].
    + by eapply Hnev.
    + exists rd, n'. split_and!; try done. by apply H4.
  - left. apply not_Exists_Forall in Hnone; [|apply _]. rewrite Forall_forall in Hnone.
    assert (Hidle : ∀ a c, conn_at n a = Some c → pipes n a = [] ∧ content (output_ c) = []).
    { intros a c Hc. assert (¬ waiting n a) as Hw by (apply Hnone, HL, Hdom; by eexists). unfold waiting in Hw. rewrite Hc in Hw.
      by apply dec_stable in Hw. }
    intros a c d f Hc Hs Hd Hsf. pose proof Hn as [_ Hall]. destruct (Hall a c Hc) as (_ & Hf & d' & Hd' & Hw).
    assert (d' = d) as -> by congruence. destruct (Hall _ d Hd) as (_ & Hf' & c' & Hc' & Hw').
    rewrite Hpp in Hc', Hw'. assert (c' = c) as -> by congruence. destruct (Hidle a c Hc) as [Hp1 Ho1]. destruct (Hidle _ d Hd) as [Hp2 Ho2].
    unfold flow, said in *. rewrite Hs, Ho1, Hw, Hp2, !app_nil_r in Hf. rewrite Hsf, Ho2, Hw', Hp1, !app_nil_r in Hf'. by rewrite <- Hf.
Qed.

(** ** A network to try them on *)

#[export] Instance wres_ok_dec w : Decision (wres_ok w).
Proof. destruct w; apply _. Defined.

#[export] Instance rres_ok_dec r : Decision (rres_ok r).
Proof. destruct r; apply _. Defined.

#[export] Instance kernel_ok_dec p ans : Decision (kernel_ok p ans).
Proof. apply _. Defined.

(** Legality, checked on a given state. *)
Definition polled_check (evs : list (Z * Z)) (p : EpollPoller) : bool :=
  forallb (λ e, existsb (λ i : Z * (Z * Z), ((i.2).2 =? e.1)
    && (Z.land e.2 (Z.lnot (Z.lor (i.2).1 (Z.lor POLLERR POLLHUP))) =? 0)) (map_to_list (interest p))) evs.

Definition legal_check (serve : nat → option (list cell → list cell)) (rd : round) (n : Net) : bool :=
  match loops n !! rd_loop rd with
  | None => false
  | Some r =>
      polled_check (rd_evs rd) (rx_poller r) && bool_decide (zlen (rd_evs rd) ≤ ep_nevents (rx_poller r) < 2 ^ 63)
      && bool_decide (NoDup (rd_evs rd).*1)
      && bool_decide (map_Forall (λ ch _, kernel_ok (pipes n (rd_loop rd, ch)) (rd_ans rd ch)) (views r))
      && forallb (λ s, bool_decide (is_Some (views r !! s.1) ∧ Forall is_Some s.2)) (rd_sends rd)
      && match serve (rd_loop rd), rd_sends rd with Some _, _ :: _ => false | _, _ => true end
  end.

Fixpoint run_check (peer : addr → addr) (serve : nat → option (list cell → list cell))
    (on_state : TcpConn → outcome TcpConn) (polls : Z → Z * Z) (rds : list round) (n : Net) : bool :=
  match rds with
  | [] => true
  | rd :: rds =>
      legal_check serve rd n
      && match net_round peer serve on_state polls rd n with
         | Ret n' => run_check peer serve on_state polls rds n'
         | _ => true
         end
  end.

Lemma legal_check_ok serve rd n : legal_check serve rd n = true → legal serve rd n.
Proof.
  unfold legal_check. destruct (loops n !! rd_loop rd) as [r|] eqn:Hr; [|done]. intros H.
  repeat (apply andb_prop in H as [H ?]). exists r. split; [done|]. split.
  { intros ch rev Hin. unfold polled_check in H. rewrite List.forallb_forall in H.
    specialize (H _ (proj1 (list_elem_of_In _ _) Hin)). apply List.existsb_exists in H as ([fd [ev ch']] & Hi & [He%Z.eqb_eq Hb%Z.eqb_eq]%andb_prop).
    cbn in He, Hb. subst ch'. exists fd, ev. split; [|done]. by apply elem_of_map_to_list, list_elem_of_In. }
  split; [by eapply bool_decide_eq_true_1|]. split; [by eapply bool_decide_eq_true_1|]. split.
  { intros ch [c Hc]. assert (map_Forall (λ ch (_ : TcpConn), kernel_ok (pipes n (rd_loop rd, ch)) (rd_ans rd ch)) (views r)) as Hk
      by (by eapply bool_decide_eq_true_1). by apply (Hk ch c). }
  split.
  { intros s Hs. match goal with Hf : forallb _ (rd_sends rd) = true |- _ => rewrite List.forallb_forall in Hf;
      specialize (Hf _ (proj1 (list_elem_of_In _ _) Hs)); by apply bool_decide_eq_true_1 in Hf end. }
  intros Hs. destruct (serve (rd_loop rd)); [|done]. by destruct (rd_sends rd).
Qed.

Lemma run_check_ok peer serve on_state polls rds n :
  run_check peer serve on_state polls rds n = true → legal_run peer serve on_state polls rds n.
Proof.
  revert n. induction rds as [|rd rds IH]; intros n; cbn; [done|]. intros [Hl Hr]%andb_prop. split; [by apply legal_check_ok|].
  intros n' E. rewrite E in Hr. by apply IH.
Qed.

(** A client, loop 0, and an echo server, loop 1, with a connection whose ends are
    both at channel 16. *)
Definition demo_peer (a : addr) : addr := match a.1 with 0%nat => (1%nat, a.2) | 1%nat => (0%nat, a.2) | _ => a end.
Definition demo_serve (i : nat) : option (list cell → list cell) := if (i =? 1)%nat then Some id else None.

Definition net_loop (fd : Z) : Reactor :=
  ret_or (mkReactor EpollPoller_new ∅)
    (r ← rx_Attach fd 1 16 (rx_demo_conn [] []) (mkReactor EpollPoller_new ∅);
     rx_iteration idle idle rx_polls [(16, POLLOUT)] [] r).

Definition net_demo : Net := mkNet {[0%nat := net_loop 5; 1%nat := net_loop 6]} (λ _, []).

Lemma demo_services : services demo_peer demo_serve.
Proof.
  split_and!.
  - by intros [[|[|i]] ch].
  - intros [|[|i]] f; [done| |done]. intros [= <-]. by split_and!.
  - by intros [[|[|i]] ch].
  - intros [|[|i]] f l; [done| |done]. by intros [= <-].
Qed.

Definition net_conn (fd : Z) : TcpConn := default demo_conn (views (net_loop fd) !! 16).

Lemma net_conn_ok fd : fd = 5 ∨ fd = 6 →
  rx_inv (net_loop fd) ∧ views (net_loop fd) = {[16 := net_conn fd]} ∧ est (net_conn fd) ∧ flow (net_conn fd) = [] ∧ delivered (net_conn fd) = [].
Proof.
  intros Hfd. assert (rx_check (net_loop fd) = true ∧ views (net_loop fd) = {[16 := net_conn fd]}
    ∧ input_ (net_conn fd) = Buffer_new ∧ output_ (net_conn fd) = Buffer_new ∧ state_ (net_conn fd) = kConnected
    ∧ readcb_ (net_conn fd) = true ∧ writes (net_conn fd) = [] ∧ wire (net_conn fd) = [] ∧ delivered (net_conn fd) = []
    ∧ ∃ x, channel_ (net_conn fd) = Some x ∧ 0 ≤ fd_ x ∧ is_short (events_ x) ∧ has_bits (events_ x) POLLIN = true)
    as (H1 & H2 & Hin & Hout & Hst & Hcb & Hws & Hw & Hd & x & Hx & H3 & H4 & H5).
  { destruct Hfd as [-> | ->]; split_and!; try (by vm_compute); eexists; split_and!; by vm_compute. }
  split; [by apply rx_check_ok|]. split; [exact H2|].
  assert (flow (net_conn fd) = []) as Hf by (unfold flow; by rewrite Hw, Hout). split; [|split; [exact Hf|exact Hd]]. split.
  - split; [exact Hst|]. split; [exact Hcb|]. split; [rewrite Hws; constructor|]. split; [rewrite Hf, Hout; apply small_new|].
    exists x. split; [exact Hx|]. split; [exact H3|]. split; [exact H4|]. split; [exact H5|]. by rewrite Hout.
  - rewrite Hin. split; [apply wf_new|done].
Qed.

Lemma net_demo_at a c : conn_at net_demo a = Some c → a.2 = 16 ∧ ((a.1 = 0%nat ∧ c = net_conn 5) ∨ (a.1 = 1%nat ∧ c = net_conn 6)).
Proof.
  destruct a as [i ch]. unfold conn_at, net_demo. cbn [fst snd loops]. intros (r & Hr & Hv)%bind_Some.
  apply lookup_insert_Some in Hr as [[<- <-]|[Hne [<- <-]%lookup_singleton_Some]];
    destruct (net_conn_ok 5) as (_ & E5 & _); auto; destruct (net_conn_ok 6) as (_ & E6 & _); auto;
    rewrite ?E5, ?E6 in Hv; apply lookup_singleton_Some in Hv as [<- <-]; auto.
Qed.

Lemma net_demo_conns : conn_at net_demo (0%nat, 16) = Some (net_conn 5) ∧ conn_at net_demo (1%nat, 16) = Some (net_conn 6).
Proof.
  destruct (net_conn_ok 5) as (_ & Hv5 & _); [by left|]. destruct (net_conn_ok 6) as (_ & Hv6 & _); [by right|].
  split; unfold conn_at, net_demo; cbn [fst snd loops];
    [rewrite lookup_insert_eq|rewrite lookup_insert_ne, lookup_singleton_eq by done]; cbn [mbind option_bind];
    rewrite ?Hv5, ?Hv6; by rewrite lookup_singleton_eq.
Qed.

Lemma net_demo_new : net_new demo_peer net_demo.
Proof.
  destruct (net_conn_ok 5) as (Hi5 & Hv5 & Hc5); [by left|]. destruct (net_conn_ok 6) as (Hi6 & Hv6 & Hc6); [by right|]. split.
  - intros i r Hr. unfold net_demo in Hr. cbn [loops] in Hr. apply lookup_insert_Some in Hr as [[_ <-]|[_ [_ <-]%lookup_singleton_Some]]; done.
  - intros [i ch] c Hc. apply net_demo_at in Hc as [Ech Hc]. cbn in Ech. subst ch. cbn in Hc.
    destruct net_demo_conns as [H0 H1].
    destruct Hc as [[-> ->]|[-> ->]]; (split; [exact (proj1 Hc5) || exact (proj1 Hc6)|]).
    + destruct Hc5 as (_ & Hf & Hd). split; [exact Hf|]. split; [exact Hd|]. split; [done|]. eexists. exact H1.
    + destruct Hc6 as (_ & Hf & Hd). split; [exact Hf|]. split; [exact Hd|]. split; [done|]. eexists. exact H0.
Qed.

(** The kernel's answers for the connection. *)
Definition only (ws : list wres) (rs : list rres) : Z → list wres * list rres :=
  λ ch, if ch =? 16 then (ws, rs) else ([], []).

(** The client sends three bytes, of which the kernel takes two at first; the server
    answers what it has got; the client reads. *)
Definition demo_rounds : list round :=
  [mkRound 0 (only [Wrote 2; WEagain] []) [] [(16, Some <$> [1; 2; 3])];
   mkRound 1 (only [Wrote 1; WEintr; WEagain] [RData [1]; REintr; RData [2]]) [(16, POLLIN)] [];
   mkRound 0 (only [Wrote 9] [RData [1]]) [(16, Z.lor POLLIN POLLOUT)] [];
   mkRound 1 (only [] [RData [3]]) [(16, POLLIN)] []].

Definition demo_end : Net := ret_or net_demo (net_run demo_peer demo_serve idle rx_polls demo_rounds net_demo).

Lemma network_streams_witness :
  ∃ n c d, net_run demo_peer demo_serve idle rx_polls demo_rounds net_demo = Ret n
    ∧ conn_at n (0%nat, 16) = Some c ∧ conn_at n (1%nat, 16) = Some d
    ∧ Some <$> [1; 2; 3] = got d ++ pipes n (1%nat, 16) ++ content (output_ c)
    ∧ got d = got c ++ pipes n (0%nat, 16) ++ content (output_ d).
Proof.
  destruct (network_streams demo_peer demo_serve idle rx_polls demo_rounds net_demo) as (n & E & _ & Hall).
  - apply demo_services.
  - apply net_demo_new.
  - apply run_check_ok. by vm_compute.
  - intros [[|[|i]] ch]; unfold asked, demo_rounds, round_asks, sends_to; cbn -[zlen]; try done. by destruct (decide (16 = ch)).
  - destruct (Hall (0%nat, 16)) as (c & d & Hc & Hd & H1 & H2); [eexists; apply net_demo_conns|].
    exists n, c, d. split; [exact E|]. split; [exact Hc|]. split; [exact Hd|]. split; [exact H1|exact H2].
Defined.

Definition demo_client : TcpConn := default demo_conn (conn_at demo_end (0%nat, 16)).
Definition demo_server : TcpConn := default demo_conn (conn_at demo_end (1%nat, 16)).

Lemma Some_default {A} (d : A) o : (if o is Some _ then true else false) = true → o = Some (default d o).
Proof. by destruct o. Qed.

Lemma demo_client_at : conn_at demo_end (0%nat, 16) = Some demo_client.
Proof. apply Some_default. by vm_compute. Qed.

Lemma demo_server_at : conn_at demo_end (1%nat, 16) = Some demo_server.
Proof. apply Some_default. by vm_compute. Qed.

Lemma demo_client_got : got demo_client = [Some 1].
Proof. by vm_compute. Qed.

Lemma network_delivers_witness :
  count_moves demo_peer demo_serve idle rx_polls [(0%nat, 16); (1%nat, 16)] demo_rounds net_demo ≤ 16384
  ∧ ∃ rd n', legal demo_serve rd demo_end ∧ net_round demo_peer demo_serve idle rx_polls rd demo_end = Ret n'.
Proof.
  destruct (network_delivers demo_peer demo_serve idle rx_polls [(0%nat, 16); (1%nat, 16)] demo_rounds net_demo) as (n & E & Hcnt & Hend).
  - apply demo_services.
  - apply net_demo_new.
  - intros [i ch] [c Hc]. apply net_demo_at in Hc as [Ech Hc]. cbn in Ech, Hc. subst ch.
    destruct Hc as [[-> _]|[-> _]]; [by left|right; by left].
  - apply run_check_ok. by vm_compute.
  - intros [[|[|i]] ch]; unfold asked, demo_rounds, round_asks, sends_to; cbn -[zlen]; try done. by destruct (decide (16 = ch)).
  - split; [exact Hcnt|]. assert (n = demo_end) as -> by (unfold demo_end; by rewrite E). destruct Hend as [H|(rd & n' & _ & Hl & Hr & _)].
    + assert (map_Forall (λ _ r, ep_nevents (rx_poller r) < 2 ^ 63) (loops demo_end)) as Hf by (apply (bool_decide_eq_true_1 _); by vm_compute).
      exact Hf.
    + exfalso. destruct (H (0%nat, 16) demo_client demo_server id demo_client_at eq_refl demo_server_at eq_refl) as [_ H2].
      by rewrite demo_client_got in H2.
    + exists rd, n'. split; [exact Hl|exact Hr].
Defined.

(** C9: a peer can make a server write outside an array.  On any network, let [a] be
    an established connection of a loop that serves, on which nothing waits and
    which, with its next answer, has said at most 4096 bytes.  The
    server reads [x1] and the socket takes nothing of the answer; then the socket
    takes [k] bytes of it; then the server reads [x2].  When the two answers together
    are longer than 4096 bytes but what still waits and the second answer are
    shorter, these rounds end in a write behind the end of the output buffer's
    array: the free space in front of the waiting bytes is counted as room, and
    MoveHead does not move them. *)
Theorem network_overrun (peer : addr → addr) (serve : nat → option (list cell → list cell))
    (on_state : TcpConn → outcome TcpConn) (polls : Z → Z * Z) (n : Net) (a : addr) (c : TcpConn)
    (f : list cell → list cell) (x1 x2 : bytes) (k : Z) :
  let y1 := zlen (f (Some <$> x1)) in
  let y2 := zlen (f (Some <$> x2)) in
  let rounds := [one_round a POLLIN [WEagain] [RData x1]; one_round a POLLOUT [Wrote k; WEagain] [];
                 one_round a POLLIN [] [RData x2]] in
  services peer serve → serve a.1 = Some f → (∀ i r, loops n !! i = Some r → rx_inv r) →
  conn_at n a = Some c → est c → cap_ (output_ c) = 0 → zlen (flow c) + y1 ≤ 4096 →
  zlen x1 ≤ 4096 → zlen x2 ≤ 4096 → 0 < k < y1 → y1 - k + y2 < 4096 < y1 + y2 →
  legal_run peer serve on_state polls rounds n →
  net_run peer serve on_state polls rounds n = Fault OutOfBounds.
Proof.
  intros y1 y2 rounds (_ & Hserve & _) Hf Hrx Hc He Hcap Hflow Hx1 Hx2 Hk [Hgap1 Hgap2] (Hl1 & Hrest).
  destruct (Hserve _ _ Hf) as (Hf0 & _ & Hle). assert (reply serve a.1 = f) as Hrep by (unfold reply; by rewrite Hf).
  assert (Hne : ∀ x : bytes, 0 < zlen (f (Some <$> x)) → x ≠ []).
  { intros x Hx ->. cbn in Hx. rewrite Hf0 in Hx. unfold zlen in Hx. cbn in Hx. lia. }
  assert (Hy2 : y2 ≤ 4096) by (pose proof (Hle (Some <$> x2)) as H; rewrite zlen_fmap in H; fold y2 in H; lia).
  assert (Hchan : ∀ d, est d → is_Some (channel_ d)) by (intros d ((_ & _ & _ & _ & x & -> & _) & _); done).
  assert (Hfr : ∀ rev ws rs d, est d → Forall wres_ok ws → est (see rev (fresh (ws, rs) d)))
    by (intros; by apply est_see, est_fresh).
  pose proof (zlen_nonneg (flow c)) as Hz. set (c1 := see POLLIN (fresh ([WEagain], [RData x1]) c)).
  assert (He1 : est c1) by (apply Hfr; [done|by repeat constructor]).
  destruct (HandleRead_adv f on_state (polls a.2).1 (polls a.2).2 c1 He1 Hf0) as (d1 & E1 & Hk1 & Hd1 & _); cbn [c1 see fresh reads set_channel set_writes set_reads read_plan fst snd].
  { constructor; [by apply Hne; fold y1; lia|constructor]. } { done. } { by rewrite app_nil_r. }
  { rewrite app_nil_r, zlen_app. fold y1. exact Hflow. }
  destruct (HandleRead_blocked f on_state (polls a.2).1 (polls a.2).2 c1 d1 x1 He1) as (Ha1 & Hb1 & Hc1);
    [exact Hcap|done|done|apply Hne; fold y1; lia|done|fold y1; lia|exact E1|].
  destruct (one_round_runs peer serve on_state polls n a c d1 POLLIN CbRead [WEagain] [RData x1] Hrx Hc (Hchan _ He) Hl1) as (n1 & R1 & Hrx1 & Hat1);
    [by left|rewrite Hrep; exact E1|exact Hk1|].
  destruct (Hrest n1 R1) as [Hl2 Hrest2]. set (c2 := see POLLOUT (fresh ([Wrote k; WEagain], []) d1)).
  assert (He2 : est c2) by (apply Hfr; [done|repeat constructor; cbn; lia]).
  destruct (HandleWrite_adv (respond f) on_state (polls a.2).1 (polls a.2).2 c2 He2) as (d2 & E2 & Hk2 & Hd2 & _).
  destruct (HandleWrite_part (respond f) on_state (polls a.2).1 (polls a.2).2 c2 d2 k He2) as (Ha2 & Hb2 & Hc2);
    [done|change (output_ c2) with (output_ d1); rewrite Hc1; exact Hk|exact E2|].
  change (output_ c2) with (output_ d1) in *. rewrite Ha1 in Ha2. rewrite Hb1 in Hb2. rewrite Hc1 in Hc2. fold y1 in Ha2, Hc2.
  destruct (one_round_runs peer serve on_state polls n1 a d1 d2 POLLOUT CbWrite [Wrote k; WEagain] [] Hrx1 Hat1 (Hchan _ Hd1) Hl2) as (n2 & R2 & Hrx2 & Hat2);
    [by right|rewrite Hrep; exact E2|exact Hk2|].
  destruct (Hrest2 n2 R2) as [Hl3 _]. cbn [net_run rounds]. rewrite R1. cbn [mbind outcome_bind]. rewrite R2. cbn [mbind outcome_bind].
  rewrite (one_round_faults peer serve on_state polls n2 a d2 OutOfBounds [] [RData x2] Hrx2 Hat2 (Hchan _ Hd2) Hl3); [done|]. rewrite Hrep.
  apply (HandleRead_overrun f on_state _ _ _ x2); [by apply Hfr|done|apply Hne; fold y2; lia|done|exact Hy2| |].
  - change (content (output_ (see _ _))) with (content (output_ d2)). intros E0. rewrite E0, zlen_nil in Hc2. lia.
  - change (output_ (see _ _)) with (output_ d2). unfold append_gap. fold y2. rewrite Ha2, Hb2.
    pose proof Hd2 as ((_ & _ & _ & Hs & _) & _). rewrite (zlen_content _ (small_wf _ _ Hs)) in Hc2. lia.
Qed.

(** The witness: a client of the echo server sends 4097 bytes, one more than
    network_streams allows; the server reads 4096 of them while its socket is full,
    sends two bytes of the echo, and reads the last byte. *)
Definition overrun_send : round := mkRound 0 (only [Wrote 4097] []) [] [(16, replicate 4097 (Some 7))].
Definition overrun_rounds : list round :=
  [one_round (1%nat, 16) POLLIN [WEagain] [RData (replicate 4096 7)];
   one_round (1%nat, 16) POLLOUT [Wrote 2; WEagain] []; one_round (1%nat, 16) POLLIN [] [RData [7]]].

Definition overrun_start : Net := ret_or net_demo (net_round demo_peer demo_serve idle rx_polls overrun_send net_demo).

Lemma overrun_start_round : net_round demo_peer demo_serve idle rx_polls overrun_send net_demo = Ret overrun_start.
Proof.
  unfold overrun_start. assert ((if net_round demo_peer demo_serve idle rx_polls overrun_send net_demo is Ret _ then true else false) = true) as H
    by (by vm_compute). destruct (net_round _ _ _ _ _ _); done.
Qed.

Lemma overrun_start_rx i r : loops overrun_start !! i = Some r → rx_inv r.
Proof.
  assert (map_Forall (λ _ r, rx_check r = true) (loops overrun_start)) as H by (apply (bool_decide_eq_true_1 _); by vm_compute).
  intros Hr. by apply rx_check_ok, (H i).
Qed.

Lemma overrun_start_conn : conn_at overrun_start (1%nat, 16) = Some (net_conn 6).
Proof. by vm_compute. Qed.

Lemma network_overrun_witness :
  legal_run demo_peer demo_serve idle rx_polls (overrun_send :: overrun_rounds) net_demo
  ∧ zlen (asked (overrun_send :: overrun_rounds) (0%nat, 16)) = 4097
  ∧ net_run demo_peer demo_serve idle rx_polls (overrun_send :: overrun_rounds) net_demo = Fault OutOfBounds.
Proof.
  destruct (net_conn_ok 6) as (_ & _ & He & _); [by right|].
  assert (legal_run demo_peer demo_serve idle rx_polls overrun_rounds overrun_start) as Hl by (apply run_check_ok; by vm_compute).
  split; [apply run_check_ok; by vm_compute|]. split; [by vm_compute|].
  cbn [net_run]. rewrite overrun_start_round. cbn [mbind outcome_bind].
  apply (network_overrun demo_peer demo_serve idle rx_polls overrun_start (1%nat, 16) (net_conn 6) id (replicate 4096 7) [7] 2);
    [exact demo_services|done|exact overrun_start_rx|exact overrun_start_conn|exact He|by vm_compute|by vm_compute..|exact Hl].
Defined.
