(* ===== verification/RaftLog.v ===== *)
(** * raft/storage.*, raft/raft_log.*: classes Storage and RaftLog

    A log file holds the index of its first entry (8 bytes) and then one
    record per entry: a LogHeader (term, length, 4 bytes of padding) and the
    serialised entry.  RaftLog keeps the offset and the term of every record
    in memory.

    The file is its bytes; a write or read that fails is a flag of the call.
    The padding the compiler leaves in a LogHeader is not initialised, so its
    bytes are an argument.  Serialisation of LogEntry is generated code: a
    record's payload is a byte string, and [parse] is an argument of Get. *)

From S2P Require Import Prelude.

(** ** Storage *)

(** pwrite(fd_, buf, len, off): a gap behind the end of the file reads as zeros. *)
Definition Storage_Write (buf : bytes) (off : Z) (file : bytes) : bytes :=
  let file := file ++ replicate (Z.to_nat (off - zlen file)) 0 in
  zsplice off buf file.

(** pread(fd_, buf, len, off) into a buffer that holds [buf]: at the end of the
    file the rest of the buffer stays as it is. *)
Definition Storage_Read (buf : bytes) (off : Z) (file : bytes) : bytes :=
  let got := zsub off (zlen buf) file in
  got ++ zdrop (zlen got) buf.

Definition Storage_Truncate (off : Z) (file : bytes) : bytes :=
  ztake off (file ++ replicate (Z.to_nat (off - zlen file)) 0).

Definition FileSize (file : bytes) : Z := zlen file.

(** ** RaftLog *)

Record LogHeader : Type := mkHeader { term_ : Z; len_ : Z }.

Definition sizeof_LogHeader : Z := 16.

(** The header in memory: int64_t, int, padding. *)
Definition header_bytes (h : LogHeader) (pad : bytes) : bytes :=
  le_bytes 8 (term_ h) ++ le_bytes 4 (len_ h) ++ pad.

Definition header_of (l : bytes) : LogHeader :=
  mkHeader (i64 (le_val (ztake 8 l))) (i32 (le_val (zsub 8 4 l))).

Record RaftLog : Type := mkLog {
  firstIndex_ : Z;
  bytes_ : Z;
  offset_term_ : list (Z * Z);
  storage_ : bytes;
}.

Definition RaftLog_new (file : bytes) : RaftLog := mkLog (-1) 0 [] file.

(** Append(log) for an entry of term [term] serialised as [str]; [ok1] and
    [ok2] say that the writes of header and content succeed. *)
Definition Append (ok1 ok2 : bool) (pad : bytes) (term : Z) (str : bytes) (l : RaftLog) : RaftLog :=
  let len := i32 (zlen str) in
  if negb ok1 then l
  else
    let file := Storage_Write (header_bytes (mkHeader term len) pad) (bytes_ l) (storage_ l) in
    if negb ok2 then mkLog (firstIndex_ l) (bytes_ l) (offset_term_ l) file
    else
      let file := Storage_Write (ztake len str) (bytes_ l + sizeof_LogHeader) file in
      mkLog (firstIndex_ l) (bytes_ l + (len + sizeof_LogHeader))
            (offset_term_ l ++ [(bytes_ l, term)]) file.

(** The loop of Load, one round per unit of fuel.  The content of an entry is
    read into a local array and dropped. *)
Fixpoint Load_loop (fuel : nat) (file_size : Z) (l : RaftLog) : outcome RaftLog :=
  match fuel with
  | O => Diverge
  | S fuel =>
      if bytes_ l <? file_size then
        let header := header_of (Storage_Read (header_bytes (mkHeader 0 0) [0; 0; 0; 0]) (bytes_ l) (storage_ l)) in
        let l := mkLog (firstIndex_ l) (bytes_ l) (offset_term_ l ++ [(bytes_ l, term_ header)]) (storage_ l) in
        _ ← require BadRange (0 <=? len_ header);   (* char buf[header.len_] *)
        Load_loop fuel file_size
          (mkLog (firstIndex_ l) (bytes_ l + (sizeof_LogHeader + len_ header)) (offset_term_ l) (storage_ l))
      else Ret l
  end.

Definition Load (l : RaftLog) : outcome RaftLog :=
  let first := i64 (le_val (Storage_Read (le_bytes 8 (firstIndex_ l)) (bytes_ l) (storage_ l))) in
  Load_loop (S (length (storage_ l))) (FileSize (storage_ l))
    (mkLog first (bytes_ l + 8) (offset_term_ l) (storage_ l)).

(** [(index - firstIndex_) < offset_term_.size()] compares unsigned numbers. *)
Definition ValidIndex (index : Z) (l : RaftLog) : outcome bool :=
  if bool_decide (offset_term_ l = []) then Ret false
  else d ← chk64 (index - firstIndex_ l); Ret (u64 d <? zlen (offset_term_ l)).

(** offset_term_[index-firstIndex_] *)
Definition entry_at (index : Z) (l : RaftLog) : outcome (Z * Z) :=
  d ← chk64 (index - firstIndex_ l);
  from_option_fault OutOfBounds (znth d (offset_term_ l)).

(** Get(index): the string handed to ParseFromString is the C string at [buf]. *)
Definition Get {E : Type} (parse : bytes → E) (index : Z) (l : RaftLog) : outcome (option E) :=
  v ← ValidIndex index l;
  if negb v then Ret None
  else
    e ← entry_at index l;
    let header := header_of (Storage_Read (header_bytes (mkHeader 0 0) [0; 0; 0; 0]) e.1 (storage_ l)) in
    _ ← require BadRange (0 <=? len_ header);
    let buf := zsub (e.1 + sizeof_LogHeader) (len_ header) (storage_ l) in
    s ← c_str buf;
    Ret (Some (parse s)).

Definition Term (index : Z) (l : RaftLog) : outcome Z :=
  v ← ValidIndex index l;
  if (v : bool) then Ret 0 else e ← entry_at index l; Ret e.2.

Definition FirstIndex (l : RaftLog) : Z := firstIndex_ l.

(** size_t arithmetic, converted back to int64_t *)
Definition LastIndex (l : RaftLog) : Z := i64 (u64 (zlen (offset_term_ l) + firstIndex_ l - 1)).

(** SetFirstIndex when the write succeeds *)
Definition SetFirstIndex (index : Z) (l : RaftLog) : RaftLog :=
  mkLog index (bytes_ l + 8) (offset_term_ l) (Storage_Write (le_bytes 8 index) (bytes_ l) (storage_ l)).

(** Truncate when ftruncate succeeds *)
Definition Truncate (index : Z) (l : RaftLog) : outcome RaftLog :=
  v ← ValidIndex index l;
  if negb v then Ret l
  else
    let l :=
      if index <=? firstIndex_ l
      then SetFirstIndex index (mkLog (firstIndex_ l) 0 (offset_term_ l) (Storage_Truncate 0 (storage_ l)))
      else l in
    e ← entry_at index l;
    Ret (mkLog (firstIndex_ l) e.1 (delete (Z.to_nat (index - firstIndex_ l)) (offset_term_ l))
               (Storage_Truncate e.1 (storage_ l))).

Definition ContainLog (index term : Z) (l : RaftLog) : outcome bool :=
  v ← ValidIndex index l;
  if negb v then Ret false
  else e ← entry_at index l; Ret (e.2 =? term).

(** ** The log as a list of records *)

(** A record: its term, its payload, and the padding that was written. *)
Record rec : Type := mkRec { r_term : Z; r_data : bytes; r_pad : bytes }.

Definition rec_ok (r : rec) : Prop :=
  - 2 ^ 63 ≤ r_term r < 2 ^ 63 ∧ zlen (r_data r) < 2 ^ 31 ∧ length (r_pad r) = 4%nat.

Definition rec_bytes (r : rec) : bytes :=
  header_bytes (mkHeader (r_term r) (zlen (r_data r))) (r_pad r) ++ r_data r.

Definition image (rs : list rec) : bytes := concat (rec_bytes <$> rs).

(** The offsets and terms of the records of a log that starts at [off]. *)
Fixpoint index_of (off : Z) (rs : list rec) : list (Z * Z) :=
  match rs with
  | [] => []
  | r :: rs => (off, r_term r) :: index_of (off + zlen (rec_bytes r)) rs
  end.

(** [l] stands for the first index [first] and the records [rs], behind the
    8 bytes of the first index in the file. *)
Definition log_rep (first : Z) (rs : list rec) (l : RaftLog) : Prop :=
  l = mkLog first (8 + zlen (image rs)) (index_of 8 rs) (le_bytes 8 first ++ image rs)
  ∧ Forall rec_ok rs ∧ - 2 ^ 62 ≤ first < 2 ^ 62 ∧ zlen rs < 2 ^ 62.

(** ** Lemmas *)

Section Lemmas.
Implicit Types r : rec.

Lemma le_val_i64 x : - 2 ^ 63 ≤ x < 2 ^ 63 → i64 (le_val (le_bytes 8 x)) = x.
Proof.
  intros Hx. rewrite le_val_bytes. change (8 * Z.of_nat 8) with 64.
  unfold swrap. rewrite Zplus_mod_idemp_l. by apply (swrap_id 64).
Qed.

Lemma le_val_i32 x : - 2 ^ 31 ≤ x < 2 ^ 31 → i32 (le_val (le_bytes 4 x)) = x.
Proof.
  intros Hx. rewrite le_val_bytes. change (8 * Z.of_nat 4) with 32.
  unfold swrap. rewrite Zplus_mod_idemp_l. by apply (swrap_id 32).
Qed.

Lemma zlen_header h pad : length pad = 4%nat → zlen (header_bytes h pad) = 16.
Proof. intros Hp. unfold header_bytes. rewrite !zlen_app, !zlen_le_bytes. unfold zlen. lia. Qed.

Lemma header_roundtrip h pad rest :
  - 2 ^ 63 ≤ term_ h < 2 ^ 63 → - 2 ^ 31 ≤ len_ h < 2 ^ 31 → header_of (header_bytes h pad ++ rest) = h.
Proof.
  intros Ht Hl. unfold header_of, header_bytes.
  assert (ztake 8 ((le_bytes 8 (term_ h) ++ le_bytes 4 (len_ h) ++ pad) ++ rest) = le_bytes 8 (term_ h)) as ->.
  { rewrite <- app_assoc. apply (ztake_app_length (le_bytes 8 (term_ h))). }
  assert (zsub 8 4 ((le_bytes 8 (term_ h) ++ le_bytes 4 (len_ h) ++ pad) ++ rest) = le_bytes 4 (len_ h)) as ->.
  { rewrite <- !app_assoc. unfold zsub. rewrite (zdrop_app_length (le_bytes 8 (term_ h))).
    apply (ztake_app_length (le_bytes 4 (len_ h))). }
  rewrite le_val_i64, le_val_i32 by done. by destruct h.
Qed.

Lemma zlen_rec r : rec_ok r → zlen (rec_bytes r) = 16 + zlen (r_data r).
Proof. intros (_ & _ & Hp). unfold rec_bytes. by rewrite zlen_app, zlen_header. Qed.

Lemma image_app rs rs' : image (rs ++ rs') = image rs ++ image rs'.
Proof. unfold image. by rewrite fmap_app, concat_app. Qed.

Lemma image_one r : image [r] = rec_bytes r.
Proof. unfold image. simpl. by rewrite app_nil_r. Qed.

Lemma index_of_app off rs rs' :
  index_of off (rs ++ rs') = index_of off rs ++ index_of (off + zlen (image rs)) rs'.
Proof.
  revert off. induction rs as [|r rs IH]; intros off; simpl.
  - f_equal. change (image []) with (@nil Z). rewrite zlen_nil. lia.
  - rewrite IH. do 2 f_equal. change (image (r :: rs)) with (rec_bytes r ++ image rs).
    rewrite zlen_app. f_equal. lia.
Qed.

Lemma zlen_index_of off rs : zlen (index_of off rs) = zlen rs.
Proof. revert off. induction rs; intros off; simpl; [done|]. by rewrite !zlen_cons, IHrs. Qed.

Lemma index_of_lookup off rs i r :
  znth i rs = Some r → ∃ o, znth i (index_of off rs) = Some (o, r_term r)
    ∧ o = off + zlen (image (ztake i rs)).
Proof.
  intros H. pose proof (znth_Some_inv _ _ _ H) as Hi. unfold znth in *. rewrite bool_decide_true in * by lia.
  assert (rs = take (Z.to_nat i) rs ++ r :: drop (S (Z.to_nat i)) rs) as E by (by rewrite take_drop_middle).
  exists (off + zlen (image (ztake i rs))). split; [|done]. rewrite E at 1. rewrite index_of_app. simpl.
  apply list_lookup_middle. pose proof (zlen_index_of off (take (Z.to_nat i) rs)) as Hz. unfold zlen in *.
  rewrite length_take in Hz. lia.
Qed.

(** Writing at the end of the file extends it. *)
Lemma Write_end buf file : Storage_Write buf (zlen file) file = file ++ buf.
Proof.
  unfold Storage_Write. rewrite Z.sub_diag. simpl. rewrite app_nil_r. unfold zsplice.
  pose proof (zlen_nonneg buf). rewrite ztake_all, zdrop_all by lia. by rewrite app_nil_r.
Qed.

Lemma Read_at pre data post buf :
  zlen buf = zlen data → Storage_Read buf (zlen pre) (pre ++ data ++ post) = data.
Proof.
  intros Hl. unfold Storage_Read, zsub. rewrite zdrop_app_length, Hl, ztake_app_length.
  rewrite zdrop_all by lia. apply app_nil_r.
Qed.

Lemma Append_rep first rs l r :
  log_rep first rs l → rec_ok r → zlen rs + 1 < 2 ^ 62 →
  log_rep first (rs ++ [r]) (Append true true (r_pad r) (r_term r) (r_data r) l).
Proof.
  intros (-> & Hrs & Hf & Hn) Hr Hn'. pose proof Hr as (Ht & Hd & Hp). pose proof (zlen_nonneg (r_data r)).
  unfold Append. cbn [negb firstIndex_ bytes_ offset_term_ storage_]. rewrite (swrap_id 32) by lia. rewrite ztake_all by lia.
  split; [|split; [by apply Forall_app; split; [|constructor]|rewrite zlen_app; split; [done|]]].
  2:{ change (zlen [r]) with 1. lia. }
  assert (8 + zlen (image rs) = zlen (le_bytes 8 first ++ image rs)) as Hb.
  { rewrite zlen_app, zlen_le_bytes. lia. }
  rewrite Hb, Write_end.
  assert (zlen (le_bytes 8 first ++ image rs) + sizeof_LogHeader
          = zlen ((le_bytes 8 first ++ image rs) ++ header_bytes (mkHeader (r_term r) (zlen (r_data r))) (r_pad r))) as ->.
  { rewrite (zlen_app (_ ++ _)), zlen_header by done. done. }
  rewrite Write_end, index_of_app, image_app, image_one. cbn [index_of].
  f_equal.
  - rewrite !zlen_app, zlen_rec by done. rewrite ?zlen_le_bytes. unfold sizeof_LogHeader. lia.
  - by rewrite Hb.
  - unfold rec_bytes. by rewrite <- !app_assoc.
Qed.

Lemma zlen_image_cons r rs : zlen (image (r :: rs)) = zlen (rec_bytes r) + zlen (image rs).
Proof. change (image (r :: rs)) with (rec_bytes r ++ image rs). apply zlen_app. Qed.

(** Load rebuilds the index, record by record. *)
Lemma Load_loop_ok rs fuel first pre idx :
  Forall rec_ok rs → (length rs < fuel)%nat →
  Load_loop fuel (zlen (pre ++ image rs)) (mkLog first (zlen pre) idx (pre ++ image rs))
  = Ret (mkLog first (zlen (pre ++ image rs)) (idx ++ index_of (zlen pre) rs) (pre ++ image rs)).
Proof.
  revert fuel pre idx. induction rs as [|r rs IH]; intros fuel pre idx Hrs Hf.
  - destruct fuel as [|fuel]; [simpl in Hf; lia|]. cbn [Load_loop bytes_].
    change (image []) with (@nil Z). rewrite !app_nil_r, (proj2 (Z.ltb_ge _ _)) by lia. done.
  - destruct fuel as [|fuel]; [simpl in Hf; lia|]. apply Forall_cons in Hrs as [Hr Hrs].
    pose proof Hr as (Ht & Hd & Hp). pose proof (zlen_nonneg (r_data r)). pose proof (zlen_nonneg (image rs)).
    pose proof (zlen_rec r Hr) as Hzr. cbn [Load_loop bytes_].
    rewrite (proj2 (Z.ltb_lt _ _)) by (rewrite zlen_app, zlen_image_cons; lia).
    cbn [firstIndex_ offset_term_ storage_ bytes_].
    assert (Storage_Read (header_bytes (mkHeader 0 0) [0; 0; 0; 0]) (zlen pre) (pre ++ image (r :: rs))
            = header_bytes (mkHeader (r_term r) (zlen (r_data r))) (r_pad r)) as ->.
    { change (image (r :: rs)) with (rec_bytes r ++ image rs). unfold rec_bytes. rewrite <- app_assoc.
      apply Read_at. by rewrite !zlen_header. }
    rewrite <- (app_nil_r (header_bytes _ (r_pad r))), header_roundtrip by (simpl; lia).
    cbn [term_ len_]. rewrite require_true by (apply Z.leb_le; lia). cbn [mbind outcome_bind].
    assert (zlen pre + (sizeof_LogHeader + zlen (r_data r)) = zlen (pre ++ rec_bytes r)) as ->.
    { rewrite zlen_app, Hzr. done. }
    assert (pre ++ image (r :: rs) = (pre ++ rec_bytes r) ++ image rs) as -> by (by rewrite <- app_assoc).
    rewrite IH by (done || simpl in Hf; lia). f_equal. f_equal. rewrite <- app_assoc. simpl.
    by rewrite zlen_app.
Qed.

Lemma length_image rs : Forall rec_ok rs → (length rs ≤ length (image rs))%nat.
Proof.
  induction 1 as [|r rs Hr Hrs IH]; [simpl; lia|].
  change (image (r :: rs)) with (rec_bytes r ++ image rs). rewrite length_app.
  pose proof (zlen_rec r Hr). pose proof (zlen_nonneg (r_data r)). unfold zlen in *. simpl. lia.
Qed.

(** *** Lookups *)

Lemma ValidIndex_rep first rs l i :
  log_rep first rs l → - 2 ^ 62 ≤ i < 2 ^ 62 →
  ValidIndex i l = Ret (bool_decide (0 ≤ i - first < zlen rs)).
Proof.
  intros (-> & _ & Hf & Hn) Hi. unfold ValidIndex; simpl. case_bool_decide as E.
  - rewrite bool_decide_false; [done|]. destruct rs; [|done]. unfold zlen; simpl. lia.
  - unfold chk64. rewrite bool_decide_true by lia. cbn [mbind outcome_bind]. rewrite zlen_index_of.
    f_equal. pose proof (zlen_nonneg rs). destruct (decide (0 ≤ i - first)).
    + rewrite wrap_id by lia. destruct (Z.ltb_spec (i - first) (zlen rs)); symmetry;
        [apply bool_decide_true|apply bool_decide_false]; lia.
    + rewrite bool_decide_false by lia. apply Z.ltb_ge. unfold wrap.
      rewrite <- (Z.mod_add _ 1) by lia. rewrite Z.mod_small; lia.
Qed.

Lemma entry_at_rep first rs l i r :
  log_rep first rs l → - 2 ^ 62 ≤ i < 2 ^ 62 → znth (i - first) rs = Some r →
  entry_at i l = Ret (8 + zlen (image (ztake (i - first) rs)), r_term r).
Proof.
  intros (-> & _ & Hf & Hn) Hi Hr. unfold entry_at, chk64; simpl. rewrite bool_decide_true by lia.
  destruct (index_of_lookup 8 rs _ _ Hr) as (o & Ho & ->). cbn [mbind outcome_bind]. by rewrite Ho.
Qed.

Lemma entry_at_bad first rs l i :
  log_rep first rs l → - 2 ^ 62 ≤ i < 2 ^ 62 → ¬ (0 ≤ i - first < zlen rs) → entry_at i l = Fault OutOfBounds.
Proof.
  intros (-> & _ & Hf & Hn) Hi Hr. unfold entry_at, chk64; simpl. rewrite bool_decide_true by lia.
  cbn [mbind outcome_bind]. destruct (znth _ _) as [x|] eqn:E; [|done].
  apply znth_Some_inv in E. rewrite zlen_index_of in E. lia.
Qed.

End Lemmas.

(** The abstract log of several appends. *)
Fixpoint append_all (rs : list rec) (l : RaftLog) : RaftLog :=
  match rs with
  | [] => l
  | r :: rs => append_all rs (Append true true (r_pad r) (r_term r) (r_data r) l)
  end.

Lemma append_all_rep first rs0 rs l :
  log_rep first rs0 l → Forall rec_ok rs → zlen rs0 + zlen rs < 2 ^ 62 →
  log_rep first (rs0 ++ rs) (append_all rs l).
Proof.
  revert rs0 l. induction rs as [|r rs IH]; intros rs0 l Hl Hrs Hn; simpl; [by rewrite app_nil_r|].
  apply Forall_cons in Hrs as [Hr Hrs]. rewrite zlen_cons in Hn. pose proof (zlen_nonneg rs).
  change (r :: rs) with ([r] ++ rs). rewrite app_assoc. apply IH; [|done|].
  - apply Append_rep; [done|done|lia].
  - rewrite zlen_app. change (zlen [r]) with 1. lia.
Qed.

Lemma SetFirstIndex_rep first : - 2 ^ 62 ≤ first < 2 ^ 62 → log_rep first [] (SetFirstIndex first (RaftLog_new [])).
Proof.
  intros Hf. split; [|by split; [constructor|]]. unfold SetFirstIndex, RaftLog_new.
  cbn [bytes_ offset_term_ storage_]. change 0 with (zlen (@nil Z)) at 2. rewrite Write_end.
  change (image []) with (@nil Z). by rewrite app_nil_r.
Qed.

Lemma Load_rep first rs l :
  log_rep first rs l → Load (RaftLog_new (storage_ l)) = Ret l.
Proof.
  intros (-> & Hrs & Hf & _). unfold Load, RaftLog_new. cbn [firstIndex_ bytes_ offset_term_ storage_].
  assert (Storage_Read (le_bytes 8 (-1)) 0 (le_bytes 8 first ++ image rs) = le_bytes 8 first) as ->.
  { apply (Read_at [] (le_bytes 8 first) (image rs)). by rewrite !zlen_le_bytes. }
  rewrite le_val_i64 by lia. unfold FileSize.
  change (0 + 8) with (Z.of_nat 8). rewrite <- (zlen_le_bytes 8 first).
  rewrite Load_loop_ok; [|done|].
  - f_equal. rewrite app_nil_l. f_equal; rewrite ?zlen_app, zlen_le_bytes; done.
  - rewrite length_app. pose proof (length_image rs Hrs). lia.
Qed.

(** Truncate inside the log: what it leaves. *)
Lemma Truncate_inside first rs l i r0 :
  log_rep first rs l → first < i < 2 ^ 62 → znth (i - first) rs = Some r0 →
  Truncate i l = Ret (mkLog first (8 + zlen (image (ztake (i - first) rs)))
                            (delete (Z.to_nat (i - first)) (index_of 8 rs))
                            (le_bytes 8 first ++ image (ztake (i - first) rs))).
Proof.
  intros Hl Hi Hr. pose proof (znth_Some_inv _ _ _ Hr) as Hv. pose proof Hl as (_ & _ & Hf & _).
  unfold Truncate. rewrite (ValidIndex_rep first rs), bool_decide_true by (done || lia). cbn [mbind outcome_bind negb].
  assert (firstIndex_ l = first) as Hfi by (by destruct Hl as [-> _]).
  rewrite Hfi, (proj2 (Z.leb_gt _ _)) by lia. rewrite (entry_at_rep first rs l i r0) by (done || lia).
  cbn [mbind outcome_bind fst]. destruct Hl as (-> & _). cbn [offset_term_ storage_ firstIndex_]. f_equal. f_equal.
  unfold Storage_Truncate.
  assert (8 + zlen (image (ztake (i - first) rs)) = zlen (le_bytes 8 first ++ image (ztake (i - first) rs))) as ->.
  { rewrite zlen_app, zlen_le_bytes. lia. }
  assert (le_bytes 8 first ++ image rs
          = (le_bytes 8 first ++ image (ztake (i - first) rs)) ++ image (zdrop (i - first) rs)) as ->.
  { rewrite <- app_assoc, <- image_app. by rewrite ztake_zdrop. }
  rewrite <- app_assoc. apply ztake_app_length.
Qed.

Lemma LastIndex_eq first n idx b f :
  zlen idx = n → - 2 ^ 62 ≤ first < 2 ^ 62 → n < 2 ^ 62 → LastIndex (mkLog first b idx f) = first + n - 1.
Proof.
  intros <- Hf Hn. pose proof (zlen_nonneg idx). unfold LastIndex; simpl.
  unfold swrap, wrap. rewrite Zplus_mod_idemp_l.
  rewrite <- (swrap_id 64 (first + zlen idx - 1)) by lia. unfold swrap. do 3 f_equal. lia.
Qed.

Lemma LastIndex_rep first rs l : log_rep first rs l → LastIndex l = first + zlen rs - 1.
Proof. intros (-> & _ & Hf & Hn). by apply LastIndex_eq; [apply zlen_index_of| |]. Qed.

Lemma ContainLog_rep first rs l i t :
  log_rep first rs l → - 2 ^ 62 ≤ i < 2 ^ 62 →
  ContainLog i t l = Ret (match znth (i - first) rs with Some r => r_term r =? t | None => false end).
Proof.
  intros Hl Hi. unfold ContainLog. rewrite (ValidIndex_rep first rs) by done. cbn [mbind outcome_bind].
  case_bool_decide as Hv.
  - destruct (znth_is_Some _ _ Hv) as [r Hr]. rewrite (entry_at_rep first rs l i r), Hr by done. done.
  - destruct (znth _ rs) eqn:E; [|done]. by apply znth_Some_inv in E.
Qed.

(** ** Properties *)

(** C31: what RaftLog writes, a restart reads back.  After SetFirstIndex on an
    empty file and any number of Appends, a fresh RaftLog that Loads the file
    has the same first index, offsets, terms and write position. *)
Theorem log_roundtrip (first : Z) (rs : list rec) :
  - 2 ^ 62 ≤ first < 2 ^ 62 → Forall rec_ok rs → zlen rs < 2 ^ 62 →
  let l := append_all rs (SetFirstIndex first (RaftLog_new [])) in
  Load (RaftLog_new (storage_ l)) = Ret l.
Proof.
  intros Hf Hrs Hn l. apply (Load_rep first rs).
  apply (append_all_rep first [] rs); [by apply SetFirstIndex_rep|done|by rewrite zlen_nil].
Qed.

(** C32: RaftLog refines a list of records.  Append adds at the end; a failed
    write leaves the index as it was; ContainLog answers whether the record at
    an index has the term; LastIndex is the index of the last record. *)
Theorem log_refines_list (first : Z) (rs : list rec) (l : RaftLog) :
  log_rep first rs l →
  (∀ r, rec_ok r → zlen rs + 1 < 2 ^ 62 →
     log_rep first (rs ++ [r]) (Append true true (r_pad r) (r_term r) (r_data r) l))
  ∧ (∀ ok pad t d, offset_term_ (Append false ok pad t d l) = offset_term_ l
       ∧ offset_term_ (Append true false pad t d l) = offset_term_ l
       ∧ bytes_ (Append true false pad t d l) = bytes_ l)
  ∧ (∀ i t, - 2 ^ 62 ≤ i < 2 ^ 62 →
       ContainLog i t l = Ret (match znth (i - first) rs with Some r => r_term r =? t | None => false end))
  ∧ LastIndex l = first + zlen rs - 1.
Proof.
  intros Hl. split; [by intros; apply Append_rep|]. split; [done|]. split.
  - intros i t Hi. by apply ContainLog_rep.
  - by apply LastIndex_rep.
Qed.

(** Term never returns a stored term.  For an index of the log it returns
    0, and for any other index it accesses the vector outside its bounds. *)
Theorem term_inverted (first : Z) (rs : list rec) (l : RaftLog) (i : Z) :
  log_rep first rs l → - 2 ^ 62 ≤ i < 2 ^ 62 →
  Term i l = if bool_decide (first ≤ i ≤ LastIndex l) then Ret 0 else Fault OutOfBounds.
Proof.
  intros Hl Hi. unfold Term. rewrite (ValidIndex_rep first rs) by done. cbn [mbind outcome_bind].
  rewrite (LastIndex_rep first rs) by done.
  case_bool_decide as Hv.
  - by rewrite bool_decide_true by lia.
  - rewrite (entry_at_bad first rs l i), bool_decide_false by (done || lia). done.
Qed.

(** Get hands the parser a C string.  It returns the parsed entry only up
    to the first NUL byte of the record, and reads behind the local array when
    the record has none. *)
Theorem get_reads_c_string {E : Type} (parse : bytes → E) (first : Z) (rs : list rec) (l : RaftLog)
    (i : Z) (r : rec) :
  log_rep first rs l → - 2 ^ 62 ≤ i < 2 ^ 62 → znth (i - first) rs = Some r →
  Get parse i l = (s ← c_str (r_data r); Ret (Some (parse s))).
Proof.
  intros Hl Hi Hr. pose proof (znth_Some_inv _ _ _ Hr) as Hv. unfold Get.
  rewrite (ValidIndex_rep first rs), bool_decide_true by done. cbn [mbind outcome_bind negb].
  rewrite (entry_at_rep first rs l i r) by done. cbn [mbind outcome_bind fst].
  assert (rec_ok r) as (Ht & Hd & Hp).
  { destruct Hl as (_ & Hrs & _). unfold znth in Hr. rewrite bool_decide_true in Hr by lia.
    by eapply Forall_lookup_1. }
  destruct Hl as (-> & Hrs & Hf & _). cbn [storage_].
  set (pre := le_bytes 8 first ++ image (ztake (i - first) rs)).
  set (post := image (zdrop (i - first + 1) rs)).
  assert (le_bytes 8 first ++ image rs = pre ++ rec_bytes r ++ post) as ->.
  { unfold pre, post. rewrite <- app_assoc. f_equal. rewrite <- image_one, <- !image_app. f_equal.
    unfold ztake, zdrop, znth in *. rewrite bool_decide_true in Hr by lia.
    replace (Z.to_nat (i - first + 1)) with (S (Z.to_nat (i - first))) by lia. simpl.
    by rewrite take_drop_middle. }
  assert (8 + zlen (image (ztake (i - first) rs)) = zlen pre) as ->.
  { unfold pre. rewrite zlen_app, zlen_le_bytes. lia. }
  unfold rec_bytes. rewrite <- app_assoc, Read_at by (by rewrite !zlen_header).
  pose proof (zlen_nonneg (r_data r)).
  assert (header_of (header_bytes (mkHeader (r_term r) (zlen (r_data r))) (r_pad r))
          = mkHeader (r_term r) (zlen (r_data r))) as ->.
  { rewrite <- (app_nil_r (header_bytes _ _)). apply header_roundtrip; simpl; lia. }
  cbn [term_ len_].
  rewrite require_true by (apply Z.leb_le; lia). cbn [mbind outcome_bind].
  set (h := header_bytes (mkHeader (r_term r) (zlen (r_data r))) (r_pad r)).
  assert (zsub (zlen pre + sizeof_LogHeader) (zlen (r_data r)) (pre ++ h ++ r_data r ++ post) = r_data r) as ->;
    [|done].
  replace (zlen pre + sizeof_LogHeader) with (zlen (pre ++ h)) by (unfold h; by rewrite zlen_app, zlen_header).
  rewrite (app_assoc pre). unfold zsub. by rewrite zdrop_app_length, ztake_app_length.
Qed.

(** Truncate.  At the last index it removes that record: the result is a
    log of the other records.  At an earlier index it cuts the file there but
    erases one index entry only: LastIndex decreases by one, and the log still
    claims, at that index, the record that followed, which is no longer in the
    file (its bytes end where the record would start). *)
Theorem truncate_spec (first : Z) (rs : list rec) (r : rec) (l : RaftLog) (i : Z) :
  log_rep first (rs ++ [r]) l → first < i ≤ first + zlen rs → i < 2 ^ 62 →
  ∃ l', Truncate i l = Ret l' ∧ LastIndex l' = LastIndex l - 1
    ∧ (i = first + zlen rs → log_rep first rs l')
    ∧ (∀ r1, znth (i - first + 1) (rs ++ [r]) = Some r1 →
         ContainLog i (r_term r1) l' = Ret true ∧ FileSize (storage_ l') = bytes_ l').
Proof.
  intros Hl Hi Hi2. pose proof Hl as (_ & Hok & Hf & Hn). rewrite zlen_app in Hn. change (zlen [r]) with 1 in Hn.
  destruct (znth_is_Some (i - first) (rs ++ [r])) as [r0 Hr0].
  { rewrite zlen_app. change (zlen [r]) with 1. lia. }
  eexists. split; [apply (Truncate_inside first _ l i r0 Hl); [lia|done]|].
  set (k := Z.to_nat (i - first)). set (idx := delete k (index_of 8 (rs ++ [r]))).
  assert (length (index_of 8 (rs ++ [r])) = S (length rs)) as Hlen.
  { pose proof (zlen_index_of 8 (rs ++ [r])) as Hz. rewrite zlen_app in Hz. unfold zlen in Hz. simpl in Hz. lia. }
  assert (zlen idx = zlen rs) as Hidx.
  { unfold idx, zlen. rewrite length_delete by (apply lookup_lt_is_Some; unfold k, zlen in *; lia). lia. }
  split; [|split].
  - rewrite (LastIndex_rep _ _ _ Hl), (LastIndex_eq first (zlen rs)) by (done || lia).
    rewrite zlen_app. change (zlen [r]) with 1. lia.
  - intros ->. replace (first + zlen rs - first) with (zlen rs) by lia. rewrite ztake_app_length.
    apply Forall_app in Hok as [Hok _]. split; [|split_and!; done || lia]. f_equal.
    unfold idx, k. replace (first + zlen rs - first) with (zlen rs) by lia. rewrite index_of_app. simpl.
    pose proof (zlen_index_of 8 rs) as Hz. unfold zlen in Hz.
    replace (Z.to_nat (zlen rs)) with (length (index_of 8 rs)) by (unfold zlen; lia).
    by rewrite delete_middle, app_nil_r.
  - intros r1 Hr1. destruct (index_of_lookup 8 _ _ _ Hr1) as (o & Ho & _).
    pose proof (znth_Some_inv _ _ _ Hr1) as Hv1. rewrite zlen_app in Hv1. change (zlen [r]) with 1 in Hv1.
    split; [|unfold FileSize; cbn [storage_ bytes_]; rewrite zlen_app, zlen_le_bytes; lia].
    unfold znth in Ho. rewrite bool_decide_true in Ho by lia.
    assert (znth (i - first) idx = Some (o, r_term r1)) as Hat.
    { unfold znth. rewrite bool_decide_true by lia. unfold idx, k. rewrite list_lookup_delete_ge by lia.
      rewrite <- Ho. f_equal. lia. }
    unfold ContainLog, ValidIndex, entry_at, chk64. cbn [offset_term_ firstIndex_].
    rewrite (bool_decide_false (idx = [])) by (intros E; rewrite E in Hat; apply znth_Some_inv in Hat; unfold zlen in Hat; simpl in Hat; lia).
    rewrite bool_decide_true by lia. cbn [mbind outcome_bind]. rewrite wrap_id, Hidx by lia.
    rewrite (proj2 (Z.ltb_lt _ _)) by lia. cbn [mbind outcome_bind negb]. rewrite Hat. cbn.
    by rewrite Z.eqb_refl.
Qed.

(** ** A log of three records *)

Definition demo_recs : list rec :=
  [mkRec 1 [8; 1; 16; 0] [0; 0; 0; 0]; mkRec 1 [8; 1] [1; 2; 3; 4]; mkRec 3 [9; 9; 9] [0; 0; 0; 0]].

Definition demo_log : RaftLog := append_all demo_recs (SetFirstIndex 5 (RaftLog_new [])).

Lemma demo_recs_ok : Forall rec_ok demo_recs.
Proof. repeat constructor; by vm_compute. Qed.

Lemma demo_rep : log_rep 5 demo_recs demo_log.
Proof.
  apply (append_all_rep 5 [] demo_recs); [by apply SetFirstIndex_rep|apply demo_recs_ok|by vm_compute].
Qed.

Lemma log_roundtrip_witness : Load (RaftLog_new (storage_ demo_log)) = Ret demo_log.
Proof. apply (log_roundtrip 5 demo_recs); [lia|apply demo_recs_ok|by vm_compute]. Defined.

Lemma log_refines_list_witness : ContainLog 7 3 demo_log = Ret true ∧ LastIndex demo_log = 7.
Proof.
  destruct (log_refines_list 5 demo_recs demo_log demo_rep) as (_ & _ & Hc & Hl).
  split; [rewrite Hc by lia; by vm_compute|rewrite Hl; by vm_compute].
Defined.

Lemma term_inverted_witness : Term 7 demo_log = Ret 0 ∧ Term 8 demo_log = Fault OutOfBounds.
Proof.
  split; (rewrite (term_inverted 5 demo_recs demo_log); [by vm_compute|apply demo_rep|lia]).
Defined.

Lemma get_reads_c_string_witness :
  Get id 5 demo_log = Ret (Some [8; 1; 16]) ∧ Get id 6 demo_log = Fault OutOfBounds.
Proof.
  split.
  - rewrite (get_reads_c_string id 5 demo_recs demo_log 5 (mkRec 1 [8; 1; 16; 0] [0; 0; 0; 0]));
      [by vm_compute|apply demo_rep|lia|by vm_compute].
  - rewrite (get_reads_c_string id 5 demo_recs demo_log 6 (mkRec 1 [8; 1] [1; 2; 3; 4]));
      [by vm_compute|apply demo_rep|lia|by vm_compute].
Defined.

Lemma truncate_spec_witness :
  ∃ l', Truncate 6 demo_log = Ret l' ∧ LastIndex l' = 6 ∧ ContainLog 6 3 l' = Ret true.
Proof.
  destruct (truncate_spec 5 [mkRec 1 [8; 1; 16; 0] [0; 0; 0; 0]; mkRec 1 [8; 1] [1; 2; 3; 4]]
              (mkRec 3 [9; 9; 9] [0; 0; 0; 0]) demo_log 6) as (l' & H & Hl & _ & Hc).
  - apply demo_rep.
  - by vm_compute.
  - lia.
  - exists l'. split; [exact H|]. split; [rewrite Hl; by vm_compute|].
    apply (Hc (mkRec 3 [9; 9; 9] [0; 0; 0; 0])). by vm_compute.
Defined.
