(* ===== verification/Raft.v ===== *)
(** * raft/raft.*, raft/node.*, raft/raft_peer.*: consensus

    One Raft instance is a record with one definition per handler; the fields
    role_ and voted_ are not initialised by the constructor, nextIndex_ and
    matchIndex_ are never filled.  A cluster is a set of nodes with vote
    requests and replies in flight; Node::AppendEntries has an empty body, so
    only votes travel between nodes.  A node whose handler runs into undefined
    behaviour or a failed assertion is gone.

    The protobuf messages are records (an optional field is [None] while it is
    not set); the serialisation of a log entry is an argument. *)

From S2P Require Import Prelude RaftLog.

(** ** Data *)

Inductive Role : Type := kLeader | kCandidater | kFollower.

#[export] Instance Role_eq_dec : EqDecision Role.
Proof. solve_decision. Defined.

Record RequestVoteRequest : Type := mkVoteReq {
  vq_term : Z; vq_peerid : Z; vq_candidateid : Z; vq_lastlogindex : Z; vq_lastlogterm : Z }.

Record RequestVoteResponse : Type := mkVoteResp { vr_term : Z; vr_granted : bool; vr_peerid : Z }.

Record AppendEntriesRequest : Type := mkAppendReq {
  aq_term : Z; aq_peerid : Z; aq_prevlogindex : Z; aq_prevlogterm : Z; aq_commitedindex : Z;
  aq_type : list Z; aq_entries : list bytes }.

Record AppendEntriesResponse : Type := mkAppendResp { ar_term : Z; ar_success : option bool; ar_peerid : Z }.

Record Raft : Type := mkRaft {
  role_ : option Role;
  currentTerm_ : Z;
  votedFor_ : Z;
  logs_ : RaftLog;
  commitIndex_ : Z;
  lastApplied_ : Z;
  nextIndex_ : list Z;
  matchIndex_ : list Z;
  npeers : Z;                   (* peers_.size() *)
  id_ : Z;
  voted_ : option Z;
}.

Definition set_role (x : Role) (r : Raft) : Raft :=
  mkRaft (Some x) (currentTerm_ r) (votedFor_ r) (logs_ r) (commitIndex_ r) (lastApplied_ r)
         (nextIndex_ r) (matchIndex_ r) (npeers r) (id_ r) (voted_ r).
Definition SetCurrentTerm (t : Z) (r : Raft) : Raft :=
  mkRaft (role_ r) t (votedFor_ r) (logs_ r) (commitIndex_ r) (lastApplied_ r)
         (nextIndex_ r) (matchIndex_ r) (npeers r) (id_ r) (voted_ r).
Definition SetVotedFor (i : Z) (r : Raft) : Raft :=
  mkRaft (role_ r) (currentTerm_ r) i (logs_ r) (commitIndex_ r) (lastApplied_ r)
         (nextIndex_ r) (matchIndex_ r) (npeers r) (id_ r) (voted_ r).
Definition set_logs (l : RaftLog) (r : Raft) : Raft :=
  mkRaft (role_ r) (currentTerm_ r) (votedFor_ r) l (commitIndex_ r) (lastApplied_ r)
         (nextIndex_ r) (matchIndex_ r) (npeers r) (id_ r) (voted_ r).
Definition set_commit (c : Z) (r : Raft) : Raft :=
  mkRaft (role_ r) (currentTerm_ r) (votedFor_ r) (logs_ r) c (lastApplied_ r)
         (nextIndex_ r) (matchIndex_ r) (npeers r) (id_ r) (voted_ r).
Definition set_voted (v : Z) (r : Raft) : Raft :=
  mkRaft (role_ r) (currentTerm_ r) (votedFor_ r) (logs_ r) (commitIndex_ r) (lastApplied_ r)
         (nextIndex_ r) (matchIndex_ r) (npeers r) (id_ r) (Some v).
Definition set_indices (next match_ : list Z) (r : Raft) : Raft :=
  mkRaft (role_ r) (currentTerm_ r) (votedFor_ r) (logs_ r) (commitIndex_ r) (lastApplied_ r)
         next match_ (npeers r) (id_ r) (voted_ r).

(** ** Handlers *)

(** Raft(config, peers) on a file that holds [file] *)
Definition Raft_new (id npeers : Z) (file : bytes) : Raft :=
  mkRaft None 0 (-1) (RaftLog_new file) 0 0 [] [] npeers id None.

Definition NewestLog (q : RequestVoteRequest) (r : Raft) : outcome bool :=
  let newestIndex := LastIndex (logs_ r) in
  newestTerm ← Term newestIndex (logs_ r);
  Ret (if negb (vq_lastlogterm q =? newestTerm) then newestTerm <? vq_lastlogterm q
       else newestIndex <? vq_lastlogindex q).

Definition RequestVote (q : RequestVoteRequest) (r : Raft) : outcome (RequestVoteResponse * Raft) :=
  grant ← (if (currentTerm_ r <? vq_term q)
              && ((votedFor_ r =? -1) || (votedFor_ r =? vq_peerid q))
           then NewestLog q r else Ret false);
  Ret (if (grant : bool)
       then (mkVoteResp (currentTerm_ r) true (id_ r), SetVotedFor (vq_peerid q) r)
       else (mkVoteResp (currentTerm_ r) false (id_ r), r)).

(** voted_ > (peers_.size() + 1) / 2, unsigned *)
Definition Majority (voted : Z) (r : Raft) : bool := u64 (npeers r + 1) / 2 <? u64 voted.

Definition ToLeader (r : Raft) : Raft := set_role kLeader r.

Definition ToFollower (r : Raft) : Raft := SetVotedFor (-1) (set_voted 0 (set_role kFollower r)).

Definition OnRequestVote (p : RequestVoteResponse) (r : Raft) : outcome Raft :=
  role ← from_option_fault UninitRead (role_ r);
  if negb (bool_decide (role = kCandidater)) || negb (vr_granted p) || (vr_term p <? currentTerm_ r)
  then Ret r
  else
    voted ← from_option_fault UninitRead (voted_ r);
    let r := set_voted (voted + 1) r in
    Ret (if Majority (voted + 1) r then ToLeader r else r).

(** StartRequestVote: the request sent to every peer *)
Definition StartRequestVote (r : Raft) : RequestVoteRequest :=
  mkVoteReq (currentTerm_ r) (id_ r) (id_ r) 0 0.

Definition ToCandidater (r : Raft) : outcome (RequestVoteRequest * Raft) :=
  let r := set_role kCandidater r in
  t ← chk64 (currentTerm_ r + 1);
  let r := set_voted 1 (SetVotedFor (id_ r) (SetCurrentTerm t r)) in
  Ret (StartRequestVote r, r).

Definition Propose (cmd : bytes) (r : Raft) : outcome (RequestVoteRequest * Raft) := ToCandidater r.

Section Entries.
(** LogEntry::SerializeAsString on (type, term, index, command). *)
Context (serialize : Z → Z → Z → bytes → bytes).
(** The padding of the log headers written. *)
Context (pad : bytes).

(** The loop of AppendEntries over the new entries, from [i] on. *)
Fixpoint append_entries (entries : list bytes) (i : nat) (types : list Z) (insertIndex term : Z) (l : RaftLog)
  : outcome RaftLog :=
  match entries with
  | [] => Ret l
  | cmd :: entries =>
      type ← from_option_fault OutOfBounds (types !! i);
      append_entries entries (S i) types insertIndex term
        (Append true true pad term (serialize type term insertIndex cmd) l)
  end.

Definition AppendEntries (q : AppendEntriesRequest) (r : Raft) : outcome (AppendEntriesResponse * Raft) :=
  let reply := mkAppendResp (currentTerm_ r) None (id_ r) in
  insertIndex ← chk64 (aq_prevlogindex q + 1);
  let term := aq_term q in
  refuse ← (if term <? currentTerm_ r then Ret true
            else c ← ContainLog (aq_prevlogindex q) (aq_prevlogterm q) (logs_ r); Ret (negb c));
  if (refuse : bool) then Ret (mkAppendResp (currentTerm_ r) (Some false) (id_ r), r)
  else
    c ← ContainLog insertIndex term (logs_ r);
    l ← (if (c : bool) then Ret (logs_ r) else Truncate insertIndex (logs_ r));
    l ← append_entries (aq_entries q) 0 (aq_type q) insertIndex term l;
    let r := set_logs l r in
    Ret (reply, if commitIndex_ r <? aq_commitedindex q
                then set_commit (Z.min (aq_commitedindex q) insertIndex) r else r).

(** OnAppendEntries; RaftPeer::AppendEntries only prints a line.  When the
    reply is negative, the node's own AppendEntries is called. *)
Definition OnAppendEntries (q : AppendEntriesRequest) (p : AppendEntriesResponse) (r : Raft) : outcome Raft :=
  let peerid := ar_peerid p in
  if currentTerm_ r <? aq_term q then Ret r
  else
    next ← from_option_fault OutOfBounds (znth peerid (nextIndex_ r));
    if negb (default false (ar_success p)) then
      let next := next - 1 in
      let r := set_indices (<[Z.to_nat peerid := next]> (nextIndex_ r)) (matchIndex_ r) r in
      prevterm ← Term (next - 1) (logs_ r);
      _ ← require OutOfBounds (bool_decide (0 ≤ peerid < npeers r));
      a ← AppendEntries (mkAppendReq (aq_term q) (aq_peerid q) (next - 1) prevterm (aq_commitedindex q)
                                     (aq_type q) (aq_entries q)) r;
      Ret a.2
    else
      _ ← require OutOfBounds (bool_decide (0 ≤ peerid < zlen (matchIndex_ r)));
      Ret (set_commit (aq_prevlogindex q + 1)
             (set_indices (<[Z.to_nat peerid := next + 1]> (nextIndex_ r))
                          (<[Z.to_nat peerid := next]> (matchIndex_ r)) r)).

End Entries.

(** StartAppendEntries: set_entries(0, cmd) on the empty repeated field of a
    new message. *)
Definition StartAppendEntries (cmd : bytes) (r : Raft) : outcome Raft :=
  role ← from_option_fault UninitRead (role_ r);
  if negb (bool_decide (role = kLeader)) then Ret r
  else
    _ ← from_option_fault OutOfBounds (znth 0 (@nil bytes));
    Ret r.

(** ** Cluster *)

Record cluster : Type := mkCluster {
  nodes : gmap Z Raft;
  requests : list (Z * RequestVoteRequest);      (* destination, message *)
  replies : list (Z * RequestVoteResponse);
}.

(** The other nodes of node [i]. *)
Definition peers_of (i : Z) (c : cluster) : list Z := filter (λ j, j ≠ i) (map_to_list (nodes c)).*1.

(** Messages are delivered in any order, and may be lost. *)
Inductive cl_step : cluster → cluster → Prop :=
| cl_propose i r q r' c :
    nodes c !! i = Some r → ToCandidater r = Ret (q, r') →
    cl_step c (mkCluster (<[i := r']> (nodes c)) (((λ j, (j, q)) <$> peers_of i c) ++ requests c) (replies c))
| cl_request i q r p r' rs1 rs2 c :
    requests c = rs1 ++ (i, q) :: rs2 → nodes c !! i = Some r → RequestVote q r = Ret (p, r') →
    cl_step c (mkCluster (<[i := r']> (nodes c)) (rs1 ++ rs2) ((vq_peerid q, p) :: replies c))
| cl_crash i q r f rs1 rs2 c :
    requests c = rs1 ++ (i, q) :: rs2 → nodes c !! i = Some r → RequestVote q r = Fault f →
    cl_step c (mkCluster (delete i (nodes c)) (rs1 ++ rs2) (replies c))
| cl_reply i p r r' ps1 ps2 c :
    replies c = ps1 ++ (i, p) :: ps2 → nodes c !! i = Some r → OnRequestVote p r = Ret r' →
    cl_step c (mkCluster (<[i := r']> (nodes c)) (requests c) (ps1 ++ ps2))
| cl_lose rs ps c :
    rs ⊆ requests c → ps ⊆ replies c → cl_step c (mkCluster (nodes c) rs ps).

(** Nodes that have just been constructed. *)
Definition fresh_cluster (c : cluster) : Prop :=
  requests c = [] ∧ replies c = []
  ∧ ∀ i r, nodes c !! i = Some r → ∃ n file, r = Raft_new i n file.

(** ** Lemmas *)

Section VoteLemmas.
Implicit Types r : Raft.
Implicit Types q : RequestVoteRequest.

(** What a vote changes, and what its reply says. *)
Lemma RequestVote_Ret q r p r' :
  RequestVote q r = Ret (p, r') →
  vr_term p = currentTerm_ r ∧ vr_peerid p = id_ r
  ∧ (vr_granted p = false ∧ r' = r
     ∨ vr_granted p = true ∧ r' = SetVotedFor (vq_peerid q) r ∧ currentTerm_ r < vq_term q
       ∧ (votedFor_ r = -1 ∨ votedFor_ r = vq_peerid q)).
Proof.
  unfold RequestVote. intros H. inv_ret. destruct r0; injection H as <- <-; simpl; [|by auto].
  split_and!; try done. right. split_and!; try done.
  - destruct (Z.ltb_spec (currentTerm_ r) (vq_term q)); simpl in Hr; [lia|by inv_ret].
  - destruct (_ <? _); simpl in Hr; [|by inv_ret].
    destruct (Z.eqb_spec (votedFor_ r) (-1)); [by left|].
    destruct (Z.eqb_spec (votedFor_ r) (vq_peerid q)); [by right|]. by inv_ret.
Qed.

(** A granted vote carries the voter's old term, below the candidate's. *)
Lemma granted_stale q r p r' : RequestVote q r = Ret (p, r') → vr_granted p = true → vr_term p < vq_term q.
Proof. intros (-> & _ & [[-> _]|(_ & _ & ? & _)])%RequestVote_Ret; done || lia. Qed.

(** A candidate ignores a reply of an older term. *)
Lemma OnRequestVote_stale p r r' :
  (vr_granted p = true → vr_term p < currentTerm_ r) → OnRequestVote p r = Ret r' → r' = r.
Proof.
  intros Hs H. unfold OnRequestVote in H. inv_ret.
  destruct (vr_granted p); simpl in H.
  - rewrite (proj2 (Z.ltb_lt _ _)) in H by (by apply Hs). rewrite orb_true_r in H. by inv_ret.
  - rewrite orb_true_r in H. simpl in H. by inv_ret.
Qed.

Lemma ToCandidater_Ret r q r' :
  ToCandidater r = Ret (q, r') →
  id_ r' = id_ r ∧ role_ r' = Some kCandidater ∧ currentTerm_ r' = currentTerm_ r + 1
  ∧ vq_peerid q = id_ r ∧ vq_term q = currentTerm_ r'.
Proof.
  unfold ToCandidater, chk64. simpl. intros H. case_bool_decide; simpl in H; [|done].
  by injection H as <- <-.
Qed.

End VoteLemmas.

(** The requests in flight are not ahead of their sender, the granted replies
    in flight are behind their receiver, and there is no leader. *)
Definition cl_inv (c : cluster) : Prop :=
  (∀ i r, nodes c !! i = Some r → id_ r = i ∧ role_ r ≠ Some kLeader)
  ∧ (∀ j q r, (j, q) ∈ requests c → nodes c !! vq_peerid q = Some r → vq_term q ≤ currentTerm_ r)
  ∧ (∀ i p r, (i, p) ∈ replies c → vr_granted p = true → nodes c !! i = Some r → vr_term p < currentTerm_ r).

Section ClusterLemmas.
Implicit Types c : cluster.

(** A node is replaced by one of at least its term. *)
Lemma insert_node c i r r' j x :
  nodes c !! i = Some r → currentTerm_ r ≤ currentTerm_ r' → <[i := r']> (nodes c) !! j = Some x →
  ∃ y, nodes c !! j = Some y ∧ currentTerm_ y ≤ currentTerm_ x ∧ (j = i → x = r').
Proof.
  intros Hi Ht [[-> <-]|[Hne Hx]]%lookup_insert_Some; [by exists r|]. exists x. split_and!; done || lia.
Qed.

Lemma cl_step_inv c c' : cl_inv c → cl_step c c' → cl_inv c'.
Proof.
  intros (Hn & Hq & Hp) Hs. destruct Hs as [i r q r' c Hi H|i q r p r' rs1 rs2 c Hrq Hi H|i q r f rs1 rs2 c Hrq Hi H
    |i p r r' ps1 ps2 c Hps Hi H|rs ps c Hrs Hps].
  - apply ToCandidater_Ret in H as (Hid & Hrole & Hterm & Hqid & Hqt). split_and!; simpl.
    + intros j x [[-> <-]|[_ Hx]]%lookup_insert_Some; [|by apply Hn].
      rewrite Hid, Hrole. by destruct (Hn _ _ Hi).
    + intros j q' x [Hnew|Hold]%elem_of_app Hx.
      * apply list_elem_of_fmap in Hnew as (j' & [= -> ->] & _).
        destruct (insert_node c i r r' _ x Hi ltac:(lia) Hx) as (y & Hy & _ & Heq).
        rewrite Heq; [lia|]. rewrite Hqid. by destruct (Hn _ _ Hi).
      * destruct (insert_node c i r r' _ x Hi ltac:(lia) Hx) as (y & Hy & Hle & _).
        specialize (Hq _ _ _ Hold Hy). lia.
    + intros j p x Hin Hg Hx. destruct (insert_node c i r r' _ x Hi ltac:(lia) Hx) as (y & Hy & Hle & _).
      specialize (Hp _ _ _ Hin Hg Hy). lia.
  - pose proof (granted_stale _ _ _ _ H) as Hst.
    assert (id_ r' = id_ r ∧ role_ r' = role_ r ∧ currentTerm_ r' = currentTerm_ r) as (Hid & Hrole & Hterm).
    { apply RequestVote_Ret in H as (_ & _ & [[_ ->]|(_ & -> & _)]); done. }
    split_and!; simpl.
    + intros j x [[-> <-]|[_ Hx]]%lookup_insert_Some; [|by apply Hn].
      rewrite Hid, Hrole. by apply Hn.
    + intros j q' x Hin Hx. destruct (insert_node c i r r' _ x Hi ltac:(lia) Hx) as (y & Hy & Hle & _).
      assert ((j, q') ∈ requests c) as Hold by (rewrite Hrq; set_solver).
      specialize (Hq _ _ _ Hold Hy). lia.
    + intros j p' x [[= -> ->]|Hin]%elem_of_cons Hg Hx;
        destruct (insert_node c i r r' _ x Hi ltac:(lia) Hx) as (y & Hy & Hle & _).
      * assert ((i, q) ∈ requests c) as Hold by (rewrite Hrq; set_solver).
        specialize (Hq _ _ _ Hold Hy). specialize (Hst Hg). lia.
      * specialize (Hp _ _ _ Hin Hg Hy). lia.
  - split_and!; simpl.
    + intros j x [_ Hx]%lookup_delete_Some. by apply Hn.
    + intros j q' x Hin [_ Hx]%lookup_delete_Some. apply (Hq j); [|done]. rewrite Hrq. set_solver.
    + intros j p x Hin Hg [_ Hx]%lookup_delete_Some. by eapply Hp.
  - assert (r' = r) as ->.
    { eapply OnRequestVote_stale; [|done]. intros Hg. apply (Hp i); [|done|done]. rewrite Hps. set_solver. }
    rewrite insert_id by done. split_and!; simpl; [done|done|].
    intros j p' x Hin. apply (Hp j). rewrite Hps. set_solver.
  - split_and!; simpl; [done| |].
    + intros j q x Hin. apply (Hq j). by apply Hrs.
    + intros j p x Hin. apply (Hp j). by apply Hps.
Qed.

End ClusterLemmas.

(** *** Logs of a node *)

(** The records AppendEntries writes: all of them carry the index of the first. *)
Definition new_recs (serialize : Z → Z → Z → bytes → bytes) (pad : bytes) (insertIndex term : Z)
    (types : list Z) (entries : list bytes) : list rec :=
  zip_with (λ ty cmd, mkRec term (serialize ty term insertIndex cmd) pad) types entries.

Section EntryLemmas.
Context (serialize : Z → Z → Z → bytes → bytes) (pad : bytes).

Lemma append_entries_rep entries i types ins term first rs l :
  log_rep first rs l → length types = (i + length entries)%nat →
  Forall rec_ok (new_recs serialize pad ins term (drop i types) entries) →
  zlen rs + zlen entries < 2 ^ 62 →
  ∃ l', append_entries serialize pad entries i types ins term l = Ret l'
        ∧ log_rep first (rs ++ new_recs serialize pad ins term (drop i types) entries) l'.
Proof.
  revert i rs l. induction entries as [|cmd entries IH]; intros i rs l Hl Hlen Hok Hn; simpl in *.
  - exists l. split; [done|]. unfold new_recs. rewrite zip_with_nil_r, app_nil_r. done.
  - destruct (lookup_lt_is_Some_2 types i ltac:(lia)) as [ty Hty]. rewrite Hty. cbn [from_option_fault mbind outcome_bind].
    rewrite (drop_S _ _ _ Hty) in Hok |- *. cbn [new_recs zip_with] in Hok |- *.
    apply Forall_cons in Hok as [Hr Hok]. rewrite zlen_cons in Hn. pose proof (zlen_nonneg entries).
    destruct (IH (S i) (rs ++ [mkRec term (serialize ty term ins cmd) pad])
                 (Append true true pad term (serialize ty term ins cmd) l)) as (l' & E & Hl').
    + apply (Append_rep first rs l (mkRec term (serialize ty term ins cmd) pad)); [done|done|lia].
    + lia.
    + done.
    + rewrite zlen_app. unfold zlen at 2. simpl. lia.
    + exists l'. split; [done|]. by rewrite <- app_assoc in Hl'.
Qed.

End EntryLemmas.

(** A node asked for several votes in a row. *)
Fixpoint vote_all (qs : list RequestVoteRequest) (r : Raft) : outcome (list RequestVoteResponse * Raft) :=
  match qs with
  | [] => Ret ([], r)
  | q :: qs => a ← RequestVote q r; b ← vote_all qs a.2; Ret (a.1 :: b.1, b.2)
  end.

(** The candidates that got the votes. *)
Definition granted_to (qs : list RequestVoteRequest) (ps : list RequestVoteResponse) : list Z :=
  (vq_peerid ∘ fst) <$> filter (λ x, vr_granted x.2 = true) (zip qs ps).

Lemma vote_all_fixed w qs r ps r' :
  votedFor_ r = w → w ≠ -1 → vote_all qs r = Ret (ps, r') → ∀ x, x ∈ granted_to qs ps → x = w.
Proof.
  revert r ps. induction qs as [|q qs IH]; intros r ps Hw Hne H x Hx; simpl in H.
  - injection H as <- <-. by apply elem_of_nil in Hx.
  - apply bind_Ret_inv in H as ([p r1] & Hr & H). apply bind_Ret_inv in H as ([ps' r2] & Hr0 & H).
    injection H as <- <-. cbn [fst snd] in *.
    destruct (RequestVote_Ret q r p r1 Hr) as (_ & _ & Hcase). unfold granted_to in *. simpl in Hx.
    destruct Hcase as [[Hg ->]|(Hg & -> & _ & Hv)].
    + rewrite filter_cons_False in Hx by (simpl; by rewrite Hg). by eapply IH.
    + rewrite filter_cons_True in Hx by done. destruct Hv as [Hv|Hv]; [congruence|].
      apply elem_of_cons in Hx as [->|Hx]; [simpl; congruence|]. eapply IH; [|done|exact Hr0|done]. simpl. congruence.
Qed.

(** ** Properties *)

(** C13: no leader is ever elected.  A vote is granted only to a candidate of a
    higher term and its reply carries the voter's old term; OnRequestVote drops
    every reply with a term below the candidate's own.  So in every run of a
    cluster, with any logs, any loss and any order of messages, no node
    becomes leader. *)
Theorem no_leader_elected (c0 c : cluster) :
  requests c0 = [] → replies c0 = [] →
  (∀ i r, nodes c0 !! i = Some r → id_ r = i ∧ role_ r ≠ Some kLeader) →
  rtc cl_step c0 c → ∀ i r, nodes c !! i = Some r → role_ r ≠ Some kLeader.
Proof.
  intros Hrq Hrp Hn Hr i r Hi.
  assert (cl_inv c) as (Hc & _); [|by apply (Hc i)].
  eapply rtc_invariant; [|apply cl_step_inv|exact Hr]. split_and!; [done| |].
  - rewrite Hrq. by intros j q x ?%elem_of_nil.
  - rewrite Hrp. by intros j q x ?%elem_of_nil.
Qed.

(** A node that does not run for leader itself votes for one candidate
    only, in all terms: the grants of any sequence of vote requests go to one
    peer. *)
Theorem single_vote (qs : list RequestVoteRequest) (r r' : Raft) (ps : list RequestVoteResponse) :
  vote_all qs r = Ret (ps, r') → Forall (λ q, vq_peerid q ≠ -1) qs →
  ∃ w, ∀ x, x ∈ granted_to qs ps → x = w.
Proof.
  revert r ps. induction qs as [|q qs IH]; intros r ps H Hid; simpl in H.
  - injection H as <- <-. exists 0. by intros x ?%elem_of_nil.
  - apply bind_Ret_inv in H as ([p r1] & Hr & H). apply bind_Ret_inv in H as ([ps' r2] & Hr0 & H).
    injection H as <- <-. cbn [fst snd] in *.
    apply Forall_cons in Hid as [Hq Hid].
    destruct (RequestVote_Ret q r p r1 Hr) as (_ & _ & Hcase). unfold granted_to in *. simpl.
    destruct Hcase as [[Hg ->]|(Hg & -> & _ & _)].
    + rewrite filter_cons_False by (simpl; by rewrite Hg). by eapply IH.
    + rewrite filter_cons_True by done. exists (vq_peerid q). intros x [->|Hx]%elem_of_cons; [done|].
      by eapply (vote_all_fixed (vq_peerid q) qs); [|done|exact Hr0|exact Hx].
Qed.

(** C39: the answer to a vote request, for any log in memory: as Load, Append and
    Truncate leave it, with only a header, or new.  The vote is free when the
    request's term is higher than the current term, not equal to it, and the node has
    voted for nobody or for this candidate.  A vote that is not free is refused and
    nothing changes.  One that is free reads outside the index when the log has no
    entry.  Otherwise Term returns 0 for the last index, so the candidate wins with
    any positive last term, whatever the node's last term is, and at last term 0 only
    with a last index strictly behind the node's: a log as new as the node's is
    refused.  The current term never changes. *)
Theorem request_vote_spec (q : RequestVoteRequest) (r : Raft) :
  let size := zlen (offset_term_ (logs_ r)) in
  let last := firstIndex_ (logs_ r) + size - 1 in
  let free := (currentTerm_ r <? vq_term q) && ((votedFor_ r =? -1) || (votedFor_ r =? vq_peerid q)) in
  let newer := if vq_lastlogterm q =? 0 then last <? vq_lastlogindex q else 0 <? vq_lastlogterm q in
  - 2 ^ 62 ≤ firstIndex_ (logs_ r) < 2 ^ 62 → size < 2 ^ 62 →
  RequestVote q r =
    if negb free then Ret (mkVoteResp (currentTerm_ r) false (id_ r), r)
    else if size =? 0 then Fault OutOfBounds
    else Ret (mkVoteResp (currentTerm_ r) newer (id_ r), if newer then SetVotedFor (vq_peerid q) r else r).
Proof.
  intros size last free newer Hf Hs. unfold RequestVote. fold free. destruct free; [|done]. cbn [negb].
  assert (0 ≤ size) by apply zlen_nonneg. assert (LastIndex (logs_ r) = last) as Hlast.
  { unfold last, size in *. destruct (logs_ r); cbn in *. by apply LastIndex_eq. }
  assert (last - firstIndex_ (logs_ r) = size - 1) as Hd by (unfold last; lia).
  unfold NewestLog, Term. rewrite Hlast.
  unfold ValidIndex, entry_at, chk64. destruct (Z.eqb_spec size 0) as [Hz|Hz].
  - rewrite (bool_decide_true (offset_term_ (logs_ r) = [])) by (by apply zlen_0_nil). cbn [mbind outcome_bind].
    by rewrite Hd, Hz.
  - rewrite (bool_decide_false (offset_term_ (logs_ r) = [])) by (intros E; unfold size in Hz; by rewrite E in Hz).
    rewrite Hd, bool_decide_true by lia.
    cbn [mbind outcome_bind]. fold size. rewrite wrap_id by lia. rewrite (proj2 (Z.ltb_lt (size - 1) size)) by lia. cbn [mbind outcome_bind].
    unfold newer. destruct (vq_lastlogterm q =? 0); cbn [negb]; by destruct (_ <? _).
Qed.

(** C40: AppendEntries.  A request of an old term, or whose previous entry is
    not in the log, is refused and changes nothing.  One that continues the
    log at its end appends its entries, every one of them with the index of
    the first; the reply does not set success, and the commit index becomes
    the smaller of the leader's and the first new index, even when that is
    below the node's commit index. *)
Theorem append_entries_spec (serialize : Z → Z → Z → bytes → bytes) (pad : bytes) (first : Z) (rs : list rec)
    (q : AppendEntriesRequest) (r : Raft) :
  log_rep first rs (logs_ r) → - 2 ^ 61 ≤ aq_prevlogindex q < 2 ^ 61 →
  let prev := znth (aq_prevlogindex q - first) rs in
  let ins := aq_prevlogindex q + 1 in
  let new := new_recs serialize pad ins (aq_term q) (aq_type q) (aq_entries q) in
  ((aq_term q < currentTerm_ r ∨ (r_term <$> prev) ≠ Some (aq_prevlogterm q)) →
     AppendEntries serialize pad q r = Ret (mkAppendResp (currentTerm_ r) (Some false) (id_ r), r))
  ∧ (currentTerm_ r ≤ aq_term q → (r_term <$> prev) = Some (aq_prevlogterm q) → ins = first + zlen rs →
     length (aq_type q) = length (aq_entries q) → Forall rec_ok new → zlen rs + zlen (aq_entries q) < 2 ^ 62 →
     ∃ r', AppendEntries serialize pad q r = Ret (mkAppendResp (currentTerm_ r) None (id_ r), r')
       ∧ log_rep first (rs ++ new) (logs_ r')
       ∧ commitIndex_ r' = (if commitIndex_ r <? aq_commitedindex q
                            then Z.min (aq_commitedindex q) ins else commitIndex_ r)
       ∧ currentTerm_ r' = currentTerm_ r ∧ votedFor_ r' = votedFor_ r).
Proof.
  intros Hl Hp prev ins new. pose proof Hl as (_ & _ & Hf & Hn). unfold AppendEntries, chk64.
  rewrite bool_decide_true by lia. cbn [mbind outcome_bind]. fold ins.
  rewrite (ContainLog_rep first rs (logs_ r) (aq_prevlogindex q) (aq_prevlogterm q) Hl) by lia. fold prev. split.
  - intros Hrej. destruct (Z.ltb_spec (aq_term q) (currentTerm_ r)); [done|]. cbn [mbind outcome_bind].
    destruct Hrej as [?|Hrej]; [lia|]. clearbody prev. destruct prev as [x|]; [|done]. simpl in Hrej.
    rewrite (proj2 (Z.eqb_neq _ _)) by congruence. done.
  - intros Ht Hprev Hins Hlen Hok Hsz. rewrite (proj2 (Z.ltb_ge _ _)) by done. cbn [mbind outcome_bind].
    destruct prev as [x|]; [|done]. simpl in Hprev. injection Hprev as <-. rewrite Z.eqb_refl. cbn [negb].
    assert (znth (ins - first) rs = None) as Hend.
    { destruct (znth _ _) eqn:E; [|done]. apply znth_Some_inv in E. lia. }
    rewrite (ContainLog_rep first rs (logs_ r) ins (aq_term q) Hl), Hend by lia. cbn [mbind outcome_bind].
    unfold Truncate. rewrite (ValidIndex_rep first rs _ _ Hl), bool_decide_false by lia. cbn [negb mbind outcome_bind].
    destruct (append_entries_rep serialize pad (aq_entries q) 0 (aq_type q) ins (aq_term q) first rs (logs_ r) Hl)
      as (l' & -> & Hl'); [done|by rewrite drop_0|done|].
    cbn [mbind outcome_bind]. rewrite drop_0 in Hl'. eexists; split; [done|]. simpl.
    by destruct (_ <? _).
Qed.

(** ** A cluster of two nodes *)

Definition demo_raft (id : Z) (l : RaftLog) : Raft := set_logs l (Raft_new id 1 []).

Definition demo_cluster : cluster :=
  mkCluster {[0 := demo_raft 0 demo_log; 1 := demo_raft 1 demo_log]} [] [].

Definition demo_vote (term last : Z) : RequestVoteRequest := mkVoteReq term 0 0 last 0.

(** Node 0 proposes. *)
Definition demo_proposed : cluster :=
  match ToCandidater (demo_raft 0 demo_log) with
  | Ret (q, r') => mkCluster (<[0 := r']> (nodes demo_cluster))
                     (((λ j, (j, q)) <$> peers_of 0 demo_cluster) ++ []) []
  | _ => demo_cluster
  end.

Lemma no_leader_elected_witness :
  ∃ r, nodes demo_proposed !! 0 = Some r ∧ role_ r ≠ Some kLeader.
Proof.
  eexists; split; [by vm_compute|].
  refine (no_leader_elected demo_cluster demo_proposed _ _ _ _ 0 _ _);
    [done|done| | |by vm_compute].
  - intros i r. simpl. rewrite lookup_insert_Some, lookup_singleton_Some. by intros [[<- <-]|[_ [<- <-]]].
  - apply rtc_once. eapply (cl_propose 0 (demo_raft 0 demo_log)); by vm_compute.
Defined.

Lemma single_vote_witness :
  ∃ w, ∀ x, x ∈ granted_to [demo_vote 1 9; demo_vote 2 9]
              [mkVoteResp 0 true 1; mkVoteResp 0 true 1] → x = w.
Proof.
  apply (single_vote [demo_vote 1 9; demo_vote 2 9] (demo_raft 1 demo_log)
           (SetVotedFor 0 (demo_raft 1 demo_log)) [mkVoteResp 0 true 1; mkVoteResp 0 true 1]).
  - by vm_compute.
  - by repeat constructor.
Defined.

(** A log as new as the node's, a newer one, one that ends in an older term, an equal
    term, and a log of which only the header is there. *)
Lemma request_vote_spec_witness :
  let ask q := RequestVote q (demo_raft 1 demo_log) in
  let refused := Ret (mkVoteResp 0 false 1, demo_raft 1 demo_log) in
  let granted := Ret (mkVoteResp 0 true 1, SetVotedFor 0 (demo_raft 1 demo_log)) in
  ask (demo_vote 1 7) = refused ∧ ask (demo_vote 1 8) = granted ∧ ask (mkVoteReq 1 0 0 0 2) = granted
  ∧ ask (demo_vote 0 8) = refused
  ∧ RequestVote (demo_vote 1 8) (demo_raft 1 (SetFirstIndex 5 (RaftLog_new []))) = Fault OutOfBounds.
Proof.
  cbv zeta. split_and!; (rewrite request_vote_spec; [by vm_compute|by vm_compute|by vm_compute]).
Defined.

Lemma append_entries_spec_witness :
  ∃ r', AppendEntries (λ ty t i cmd, ty :: t :: i :: cmd) [0; 0; 0; 0]
          (mkAppendReq 4 0 7 3 100 [1; 1] [[65]; [66]]) (demo_raft 1 demo_log)
        = Ret (mkAppendResp 0 None 1, r')
        ∧ commitIndex_ r' = 8.
Proof.
  destruct (append_entries_spec (λ ty t i cmd, ty :: t :: i :: cmd) [0; 0; 0; 0] 5 demo_recs
              (mkAppendReq 4 0 7 3 100 [1; 1] [[65]; [66]]) (demo_raft 1 demo_log)) as [_ H].
  - apply demo_rep.
  - simpl. lia.
  - destruct H as (r' & E & _ & Hc & _); [by vm_compute..| |by vm_compute|].
    + repeat constructor; by vm_compute.
    + exists r'. split; [exact E|]. rewrite Hc. by vm_compute.
Defined.
