(* ===== verification/Rpc.v ===== *)
(** * rpc/protobuf/protobuf_codec.*, rpc/protorpc/rpc_channel.*, rpc_server.*

    ProtobufCodec frames a serialised message with its length (4 bytes, network
    order) in a Buffer; RpcChannel numbers the calls of a client, keeps the
    outstanding ones in a map and matches responses to them, and on the server
    side dispatches requests to services.

    Protobuf is not part of the program: messages are serialised by [encode]
    and parsed by [decode], arguments of the definitions; a service maps the
    method name and the serialised request to the serialised response, [None]
    when the method does not exist or the request does not parse. *)

From stdpp Require Import countable.
From S2P Require Import Prelude Buffer.

(** ** ProtobufCodec *)

Definition kHeaderLen : Z := 4.

(** SerializeToBuffer: the bytes are stored behind the header without asking
    the buffer for room; ByteSize() is an int. *)
Definition SerializeToBuffer (payload : bytes) (buf : Buffer) : outcome (Z * Buffer) :=
  let byte_size := i32 (zlen payload) in
  m ← write_cells (buf_ buf) (b_ buf + kHeaderLen) (Some <$> payload);
  Ret (byte_size, AddSize (u64 byte_size) (mkBuffer m (b_ buf) (e_ buf) (cap_ buf) (exp_ buf) (extra_ buf))).

Definition FillEmptyBuffer (payload : bytes) (buf : Buffer) : outcome Buffer :=
  _ ← assert_ (GetSize buf =? 0);
  buf ← AppendInt32 0 buf;
  r ← SerializeToBuffer payload buf;
  let buf := r.2 in
  m ← write_cells (buf_ buf) (b_ buf) (Some <$> be32_bytes r.1);
  Ret (mkBuffer m (b_ buf) (e_ buf) (cap_ buf) (exp_ buf) (extra_ buf)).

(** OnMessage: at most one message is taken from the input, when the buffer
    holds at least [len] bytes. *)
Definition OnMessage {X : Type} (messageCallback : bytes → outcome X) (buf : Buffer)
  : outcome (option X * Buffer) :=
  len ← PeekInt32 buf;
  if u64 len <=? GetSize buf then
    data ← read_cells (buf_ buf) (b_ buf + kHeaderLen) (b_ buf + kHeaderLen + len);
    data ← init_cells data;
    x ← messageCallback data;
    _ ← require SignedOverflow (len + kHeaderLen <? 2 ^ 31);
    Ret (Some x, Consume (u64 (len + kHeaderLen)) buf)
  else Ret (None, buf).

(** ** RpcChannel *)

Inductive MessageType : Type := REQUEST | RESPONSE.

Record RpcMessage : Type := mkRpc {
  m_type : MessageType;
  m_id : Z;
  m_service : string;
  m_method : string;
  m_request : bytes;
  m_response : bytes;
}.

(** A call in progress: the closure to run when the response is there. *)
Record RpcChannel : Type := mkChan {
  rpc_id_ : Z;                          (* std::atomic<int64_t> id_ *)
  outstandings_ : gmap Z nat;           (* std::map<int, OutstandingCall> *)
}.

(** CallMethod in two parts, between which another thread may run: the id is
    taken, then the call is stored under the value of [id_ - 1] at that time. *)
Definition CallMethod_take (service method : string) (request : bytes) (c : RpcChannel) : RpcMessage * RpcChannel :=
  (mkRpc REQUEST (rpc_id_ c) service method request [],
   mkChan (i64 (rpc_id_ c + 1)) (outstandings_ c)).

Definition CallMethod_store (done : nat) (c : RpcChannel) : RpcChannel :=
  mkChan (rpc_id_ c) (<[i32 (i64 (rpc_id_ c - 1)) := done]> (outstandings_ c)).

(** CallMethod without interference: the message to send. *)
Definition CallMethod (service method : string) (request : bytes) (done : nat) (c : RpcChannel)
  : RpcMessage * RpcChannel :=
  let r := CallMethod_take service method request c in
  (r.1, CallMethod_store done r.2).

(** OnRpcMessage for a RESPONSE: the closure that runs and its response. *)
Definition OnResponse (m : RpcMessage) (c : RpcChannel) : outcome (nat * bytes * RpcChannel) :=
  out ← from_option_fault AssertFailed (outstandings_ c !! i32 (m_id m));
  Ret (out, m_response m, mkChan (rpc_id_ c) (delete (i32 (m_id m)) (outstandings_ c))).

(** The services of RpcServer, by full name. *)
Abbreviation services := (gmap string (string → bytes → option bytes)).

Definition RegisterService (name : string) (s : string → bytes → option bytes) (ss : services) : services :=
  <[name := s]> ss.

(** DoneCallback: the message sent back. *)
Definition DoneCallback (response : bytes) (id : Z) : RpcMessage := mkRpc RESPONSE id "" "" [] response.

(** OnRpcMessage for a REQUEST; [None] is a channel without services. *)
Definition OnRequest (m : RpcMessage) (ss : option services) : outcome (option RpcMessage) :=
  ss ← from_option_fault AssertFailed ss;
  service ← from_option_fault AssertFailed (ss !! m_service m);
  Ret (match service (m_method m) (m_request m) with
       | Some response => Some (DoneCallback response (m_id m))
       | None => None
       end).

(** What handling a message does: a client's closure runs, or a server answers. *)
Inductive rpc_event : Type :=
| Ran (done : nat) (response : bytes)
| Answered (reply : option RpcMessage).

Definition OnRpcMessage (ss : option services) (m : RpcMessage) (c : RpcChannel)
  : outcome (rpc_event * RpcChannel) :=
  match m_type m with
  | RESPONSE => r ← OnResponse m c; Ret (Ran r.1.1 r.1.2, r.2)
  | REQUEST => r ← OnRequest m ss; Ret (Answered r, c)
  end.

(** Several responses in a row. *)
Fixpoint OnResponses (ms : list RpcMessage) (c : RpcChannel) : outcome (list (nat * bytes) * RpcChannel) :=
  match ms with
  | [] => Ret ([], c)
  | m :: ms => r ← OnResponse m c; rs ← OnResponses ms r.2; Ret (r.1 :: rs.1, rs.2)
  end.

(** ** Lemmas *)

Definition frame (payload : bytes) : bytes := be32_bytes (zlen payload) ++ payload.

Section FrameLemmas.

Lemma zlen_be32 x : zlen (be32_bytes x) = 4.
Proof. unfold zlen. by rewrite length_be32_bytes. Qed.

(** The header of an empty buffer: 4096 cells of which the first 4 are used. *)
Lemma AppendInt32_new :
  AppendInt32 0 Buffer_new
  = Ret (mkBuffer (Some ((Some <$> [0; 0; 0; 0]) ++ replicate 4092 None)) 0 4 4096 4096 0).
Proof. by vm_compute. Qed.

Lemma zsplice_app {A} (pre data post l : list A) :
  zlen l = zlen data → zsplice (zlen pre) data (pre ++ l ++ post) = pre ++ data ++ post.
Proof.
  intros Hl. unfold zsplice. rewrite ztake_app_length. do 2 f_equal. rewrite app_assoc.
  replace (zlen pre + zlen data) with (zlen (pre ++ l)) by (rewrite zlen_app; lia).
  apply zdrop_app_length.
Qed.

Lemma FillEmptyBuffer_ok payload :
  zlen payload ≤ 4092 →
  ∃ b, FillEmptyBuffer payload Buffer_new = Ret b ∧ buf_wf b ∧ content b = Some <$> frame payload.
Proof.
  intros Hlen. pose proof (zlen_nonneg payload) as H0. unfold FillEmptyBuffer.
  change (GetSize Buffer_new =? 0) with true. cbn [assert_ require mbind outcome_bind].
  rewrite AppendInt32_new. cbn [mbind outcome_bind]. unfold SerializeToBuffer. rewrite (swrap_id 32) by lia.
  cbn [buf_ b_ e_ cap_ exp_ extra_]. unfold kHeaderLen.
  set (hdr := Some <$> [0; 0; 0; 0]). set (n := Z.to_nat (zlen payload)).
  assert (replicate 4092 None = replicate n (@None Z) ++ replicate (4092 - n) None) as ->.
  { rewrite <- replicate_add. f_equal. unfold n. lia. }
  assert (zlen (replicate n (@None Z)) = zlen (Some <$> payload)) as Hn.
  { unfold zlen, n. rewrite length_replicate, length_fmap. unfold zlen. lia. }
  assert (zlen (replicate (4092 - n) (@None Z)) = 4092 - zlen payload) as Hm.
  { unfold zlen, n. rewrite length_replicate. unfold zlen in *. lia. }
  assert (zlen hdr = 4) as Hhdr by done. rewrite zlen_fmap in Hn.
  rewrite write_cells_ok; [|lia|]. 2:{ rewrite !zlen_app, zlen_fmap. lia. }
  change (0 + 4) with (zlen hdr). rewrite zsplice_app by (by rewrite zlen_fmap).
  cbn [mbind outcome_bind fst snd AddSize]. unfold AddSize. cbn [buf_ b_ e_ cap_ exp_ extra_].
  rewrite write_cells_ok; [|lia|].
  2:{ rewrite !zlen_app, !zlen_fmap, zlen_be32. lia. }
  cbn [mbind outcome_bind].
  assert (zsplice 0 (Some <$> be32_bytes (zlen payload)) (hdr ++ (Some <$> payload) ++ replicate (4092 - n) None)
          = (Some <$> be32_bytes (zlen payload)) ++ (Some <$> payload) ++ replicate (4092 - n) None) as ->.
  { apply (zsplice_app []). rewrite zlen_fmap, zlen_be32. done. }
  rewrite (wrap_id 64 (zlen payload)) by lia. rewrite wrap_id by lia.
  assert (zlen ((Some <$> be32_bytes (zlen payload)) ++ (Some <$> payload) ++ replicate (4092 - n) None) = 4096) as HL.
  { rewrite !zlen_app, !zlen_fmap, zlen_be32. lia. }
  assert (zsub 0 (4 + zlen payload - 0) ((Some <$> be32_bytes (zlen payload)) ++ (Some <$> payload) ++ replicate (4092 - n) None)
          = Some <$> frame payload) as Hc.
  { unfold zsub, frame. rewrite zdrop_0, app_assoc, <- fmap_app.
    replace (4 + zlen payload - 0) with (zlen (Some <$> (be32_bytes (zlen payload) ++ payload)))
      by (rewrite zlen_fmap, zlen_app, zlen_be32; lia).
    apply ztake_app_length. }
  clearbody n. revert HL Hc. generalize ((Some <$> be32_bytes (zlen payload)) ++ (Some <$> payload) ++ replicate (4092 - n) None).
  intros L HL Hc. eexists; split; [done|]. split; [|exact Hc]. unfold buf_wf, ptrdiff_max; simpl. lia.
Qed.

Lemma FillEmptyBuffer_overflow payload :
  4092 < zlen payload < 2 ^ 31 → FillEmptyBuffer payload Buffer_new = Fault OutOfBounds.
Proof.
  intros Hlen. unfold FillEmptyBuffer. change (GetSize Buffer_new =? 0) with true.
  cbn [assert_ require mbind outcome_bind]. rewrite AppendInt32_new. cbn [mbind outcome_bind].
  unfold SerializeToBuffer. cbn [buf_ b_]. unfold write_cells.
  rewrite zlen_fmap, (proj2 (Z.eqb_neq _ _)) by lia.
  rewrite (proj2 (Z.ltb_lt _ _)); [done|]. unfold kHeaderLen.
  replace (zlen ((Some <$> [0; 0; 0; 0]) ++ replicate 4092 None)) with 4096 by (by vm_compute). lia.
Qed.

(** The receiver takes the first frame of its input. *)
Lemma OnMessage_frame {X} (cb : bytes → outcome X) payload rest b :
  buf_wf b → zlen payload < 2 ^ 30 → content b = (Some <$> frame payload) ++ rest →
  OnMessage cb b = (x ← cb payload; Ret (Some x, Consume (4 + zlen payload) b)).
Proof.
  intros Hwf Hlen Hc. pose proof (zlen_nonneg payload). pose proof (zlen_nonneg rest).
  unfold frame in Hc. rewrite fmap_app, <- app_assoc in Hc.
  unfold OnMessage. rewrite (PeekInt32_front b (zlen payload) ((Some <$> payload) ++ rest) Hwf Hc).
  rewrite i32_u32 by lia. cbn [mbind outcome_bind]. rewrite wrap_id by lia.
  pose proof (zlen_content b Hwf) as Hz. rewrite Hc, !zlen_app, !zlen_fmap, zlen_be32 in Hz.
  rewrite GetSize_wf by done. rewrite (proj2 (Z.leb_le _ _)) by lia. unfold kHeaderLen.
  pose proof Hwf as (_ & Hb & _). rewrite read_cells_ok by (done || lia). cbn [mbind outcome_bind].
  replace (b_ b + 4 + zlen payload - (b_ b + 4)) with (zlen payload) by lia.
  assert (zsub (b_ b + 4) (zlen payload) (mem b) = Some <$> payload) as ->.
  { assert (zsub 4 (zlen payload) (content b) = Some <$> payload) as <-.
    { rewrite Hc. unfold zsub. replace 4 with (zlen (Some <$> be32_bytes (zlen payload))) at 1
        by (by rewrite zlen_fmap, zlen_be32).
      rewrite zdrop_app_length. rewrite <- (zlen_fmap Some payload) at 1. apply ztake_app_length. }
    unfold content, zsub, ztake, zdrop. rewrite skipn_firstn_comm, take_take, drop_drop.
    f_equal; [unfold zlen in *; lia|f_equal; lia]. }
  unfold init_cells. rewrite mapM_id_Some. cbn [from_option_fault mbind outcome_bind].
  destruct (cb payload); cbn [mbind outcome_bind]; [|done..].
  rewrite require_true by (apply Z.ltb_lt; lia). cbn [mbind outcome_bind]. rewrite wrap_id by lia.
  by rewrite (Z.add_comm (zlen payload)).
Qed.

End FrameLemmas.

Section AppendNew.

Lemma Expand_new n :
  0 ≤ n ≤ 4096 → Expand n Buffer_new = Ret (mkBuffer (Some (replicate 4096 None)) 0 0 4096 4096 0).
Proof.
  intros Hn. unfold Expand. rewrite next_cap_eq by (apply wf_new || (unfold ptrdiff_max; lia)).
  assert (next_cap n Buffer_new = 4096) as -> by (unfold next_cap; simpl; lia).
  by vm_compute.
Qed.

(** The buffer after the first Append: the cells behind the data are still
    indeterminate. *)
Lemma AppendStr_new (s : bytes) :
  0 < zlen s ≤ 4096 →
  AppendStr s Buffer_new
  = Ret (mkBuffer (Some ((Some <$> s) ++ replicate (4096 - length s) None)) 0 (zlen s) 4096 4096 0).
Proof.
  intros Hs. unfold AppendStr, Append, AllocRoom. rewrite zlen_fmap.
  rewrite MakeRoom_eq by (apply wf_new || (unfold ptrdiff_max; lia)).
  cbn [e_ b_ cap_ Buffer_new]. rewrite (proj2 (Z.leb_gt _ _)), (proj2 (Z.ltb_ge _ _)) by lia.
  rewrite Expand_new by lia. cbn [mbind outcome_bind fst snd]. unfold AddSize. cbn [buf_ b_ e_ cap_ exp_ extra_].
  assert (replicate 4096 None = replicate (length s) (@None Z) ++ replicate (4096 - length s) None) as ->.
  { rewrite <- replicate_add. f_equal. unfold zlen in Hs. lia. }
  assert (zlen (replicate (length s) (@None Z)) = zlen s) as Hr by (unfold zlen; by rewrite length_replicate).
  rewrite write_cells_ok; [|lia|].
  2:{ rewrite zlen_app, zlen_fmap. pose proof (zlen_nonneg (replicate (4096 - length s) (@None Z))). lia. }
  cbn [mbind outcome_bind]. rewrite wrap_id, Z.add_0_l by lia. do 3 f_equal.
  apply (zsplice_app []). by rewrite zlen_fmap.
Qed.

Lemma mapM_id_None (l : list cell) : None ∈ l → mapM id l = None.
Proof.
  induction l as [|x l IH]; [by intros ?%elem_of_nil|]. intros [<-|Hl]%elem_of_cons; [done|].
  simpl. destruct x; [|done]. by rewrite IH.
Qed.

(** A frame of which the last bytes are missing. *)
Lemma OnMessage_partial {X} (cb : bytes → outcome X) (len : Z) (part : bytes) b :
  4 ≤ len ≤ 4092 → len - 4 ≤ zlen part < len →
  AppendStr (be32_bytes len ++ part) Buffer_new = Ret b → OnMessage cb b = Fault UninitRead.
Proof.
  intros Hlen Hp H. pose proof (zlen_nonneg part).
  assert (zlen (be32_bytes len ++ part) = 4 + zlen part) as Hz by (by rewrite zlen_app, zlen_be32).
  set (s := be32_bytes len ++ part) in *. rewrite AppendStr_new in H by lia. set (k := (4096 - length s)%nat) in *.
  assert (b = mkBuffer (Some ((Some <$> s) ++ replicate k None)) 0 (zlen s) 4096 4096 0) as -> by congruence.
  assert (Z.of_nat k = 4096 - zlen s) as Hk by (unfold k, zlen in *; lia).
  assert (Hwf : buf_wf (mkBuffer (Some ((Some <$> s) ++ replicate k None)) 0 (zlen s) 4096 4096 0)).
  { unfold buf_wf, ptrdiff_max. cbn [buf_ b_ e_ cap_ exp_]. rewrite zlen_app, zlen_fmap.
    unfold zlen at 2. rewrite length_replicate. lia. }
  unfold OnMessage. rewrite (PeekInt32_front _ len (Some <$> part) Hwf).
  2:{ unfold content, mem, zsub. cbn [buf_ b_ e_ default from_option]. rewrite zdrop_0, Z.sub_0_r.
      rewrite <- (zlen_fmap Some s). unfold id. rewrite ztake_app_length. unfold s. by rewrite fmap_app. }
  rewrite i32_u32 by lia. cbn [mbind outcome_bind]. rewrite wrap_id, GetSize_wf by (done || lia).
  cbn [buf_ b_ e_ cap_]. rewrite (proj2 (Z.leb_le _ _)) by lia. unfold kHeaderLen, read_cells.
  rewrite (proj2 (Z.eqb_neq (0 + 4) (0 + 4 + len))), (proj2 (Z.ltb_ge (0 + 4 + len) (0 + 4))) by lia.
  rewrite (proj2 (Z.ltb_ge (zlen ((Some <$> s) ++ replicate k None)) _))
    by (rewrite zlen_app, zlen_fmap; unfold zlen at 2; rewrite length_replicate; lia).
  cbn [mbind outcome_bind]. unfold init_cells. rewrite mapM_id_None; [done|].
  apply list_elem_of_lookup. exists (Z.to_nat (zlen part)). unfold zsub, ztake, zdrop.
  rewrite lookup_take_lt by lia. rewrite lookup_drop.
  rewrite lookup_app_r by (rewrite length_fmap; unfold zlen in *; lia).
  apply lookup_replicate_2. rewrite length_fmap. unfold zlen in *. lia.
Qed.

End AppendNew.

(** *** Numbering of calls *)

(** [n] calls in a row; the i-th one has the closure [i]. *)
Fixpoint call_n (n : nat) (c : RpcChannel) : RpcChannel :=
  match n with
  | O => c
  | S n => (CallMethod "" "" [] n (call_n n c)).2
  end.

(** The response to the i-th call of a channel that started at [id0]. *)
Definition response_to (id0 : Z) (reply : nat → bytes) (i : nat) : RpcMessage :=
  DoneCallback (reply i) (id0 + Z.of_nat i).

Section CallLemmas.

Lemma next_id x : - 2 ^ 63 ≤ x < 2 ^ 63 → i64 (i64 (x + 1) - 1) = x.
Proof.
  intros Hx. unfold swrap. set (y := (x + 1 + 2 ^ (64 - 1)) mod 2 ^ 64).
  replace (y - 2 ^ (64 - 1) - 1 + 2 ^ (64 - 1)) with (y - 1) by lia. unfold y.
  rewrite Zminus_mod_idemp_l. replace (x + 1 + 2 ^ (64 - 1) - 1) with (x + 2 ^ (64 - 1)) by lia.
  rewrite Z.mod_small by lia. lia.
Qed.

Lemma i32_inj x y : i32 x = i32 y → - 2 ^ 32 < x - y < 2 ^ 32 → x = y.
Proof.
  unfold swrap. intros H Hxy. set (a := x + 2 ^ (32 - 1)) in *. set (b := y + 2 ^ (32 - 1)) in *.
  assert (a mod 2 ^ 32 = b mod 2 ^ 32) as E by lia.
  pose proof (Z.div_mod a (2 ^ 32) ltac:(lia)). pose proof (Z.div_mod b (2 ^ 32) ltac:(lia)).
  unfold a, b in *. nia.
Qed.

Lemma CallMethod_eq s m q d c :
  - 2 ^ 63 ≤ rpc_id_ c < 2 ^ 63 →
  CallMethod s m q d c = (mkRpc REQUEST (rpc_id_ c) s m q [],
    mkChan (i64 (rpc_id_ c + 1)) (<[i32 (rpc_id_ c) := d]> (outstandings_ c))).
Proof.
  intros Hid. unfold CallMethod, CallMethod_take, CallMethod_store. cbn [fst snd rpc_id_ outstandings_].
  by rewrite next_id.
Qed.

Lemma call_n_spec n id0 :
  0 ≤ id0 → id0 + Z.of_nat n < 2 ^ 63 → Z.of_nat n ≤ 2 ^ 32 →
  rpc_id_ (call_n n (mkChan id0 ∅)) = id0 + Z.of_nat n
  ∧ ∀ j d, outstandings_ (call_n n (mkChan id0 ∅)) !! j = Some d ↔ (d < n)%nat ∧ j = i32 (id0 + Z.of_nat d).
Proof.
  intros H0. induction n as [|n IH]; intros Hlt Hn.
  - split; [simpl; lia|]. intros j d. simpl. rewrite lookup_empty. split; [done|lia].
  - destruct IH as [Hid Hout]; [lia|lia|]. cbn [call_n].
    rewrite CallMethod_eq by (rewrite Hid; lia). rewrite Hid. cbn [snd rpc_id_ outstandings_]. split.
    { rewrite (swrap_id 64) by lia. lia. }
    intros j d. rewrite lookup_insert_Some, Hout. split.
    + intros [[<- <-]|[_ [? ->]]]; split; done || lia.
    + intros [Hd ->]. destruct (decide (d = n)) as [->|Hne]; [by left|]. right. split; [|split; [lia|done]].
      intros E%i32_inj; lia.
Qed.

(** Responses to the calls that are still outstanding, in any order. *)
Lemma OnResponses_ok id0 reply ks c :
  NoDup ks → (∀ k, k ∈ ks → Z.of_nat k < 2 ^ 32) →
  (∀ j d, outstandings_ c !! j = Some d ↔ d ∈ ks ∧ j = i32 (id0 + Z.of_nat d)) →
  OnResponses (response_to id0 reply <$> ks) c = Ret ((λ k, (k, reply k)) <$> ks, mkChan (rpc_id_ c) ∅).
Proof.
  revert c. induction ks as [|k ks IH]; intros c Hnd Hb Hout.
  - simpl. do 2 f_equal. destruct c as [id out]. simpl in *. f_equal. apply map_eq. intros j.
    rewrite lookup_empty. destruct (out !! j) eqn:E; [|done]. apply Hout in E as [?%elem_of_nil _]. done.
  - apply NoDup_cons in Hnd as [Hk Hnd]. cbn [fmap list_fmap OnResponses]. unfold OnResponse.
    assert (outstandings_ c !! i32 (m_id (response_to id0 reply k)) = Some k) as ->.
    { apply Hout. split; [set_solver|done]. }
    cbn [from_option_fault mbind outcome_bind fst snd].
    rewrite IH; [done|done|set_solver|]. cbn [outstandings_]. intros j d.
    rewrite lookup_delete_Some, Hout, elem_of_cons. simpl. split.
    + intros [Hne [[->|Hd] ->]]; done.
    + intros [Hd ->]. split; [|by auto]. intros E%i32_inj.
      * assert (d = k) as -> by lia. done.
      * pose proof (Hb k ltac:(set_solver)). pose proof (Hb d ltac:(set_solver)). lia.
Qed.

End CallLemmas.

(** ** Properties *)

(** Framing.  A message of up to 4092 bytes is framed as its length in
    network order followed by its bytes; a receiver whose input starts with a
    frame hands exactly the message to its callback and leaves what follows in
    the buffer. *)
Theorem frame_roundtrip {X : Type} (cb : bytes → outcome X) (payload : bytes) (rest : list cell) (b : Buffer) (x : X) :
  zlen payload ≤ 4092 → buf_wf b → content b = (Some <$> frame payload) ++ rest → cb payload = Ret x →
  (∃ f, FillEmptyBuffer payload Buffer_new = Ret f ∧ content f = Some <$> frame payload)
  ∧ ∃ b', OnMessage cb b = Ret (Some x, b') ∧ buf_wf b' ∧ content b' = rest.
Proof.
  intros Hlen Hwf Hc Hcb. split.
  - destruct (FillEmptyBuffer_ok payload Hlen) as (f & ? & _ & ?). eauto.
  - rewrite (OnMessage_frame cb payload rest b Hwf) by (done || lia). rewrite Hcb. cbn [mbind outcome_bind].
    assert (zlen (Some <$> frame payload) = 4 + zlen payload) as Hz.
    { unfold frame. by rewrite zlen_fmap, zlen_app, zlen_be32. }
    pose proof (zlen_nonneg payload). pose proof (zlen_nonneg rest).
    destruct (Consume_ok (4 + zlen payload) b Hwf) as (Hw & Hd & _).
    { rewrite Hc, zlen_app, Hz. lia. }
    eexists; split; [done|]. split; [done|]. rewrite Hd, Hc, <- Hz. apply zdrop_app_length.
Qed.

(** Limits of the framing.  A message of more than 4092 bytes overruns the
    4096 bytes the buffer allocates; and a receiver does not wait for a frame
    whose last one to four bytes are missing, but reads behind the data it
    has. *)
Theorem frame_limits {X : Type} (cb : bytes → outcome X) (payload part : bytes) (len : Z) (b : Buffer) :
  (4092 < zlen payload < 2 ^ 31 → FillEmptyBuffer payload Buffer_new = Fault OutOfBounds)
  ∧ (4 ≤ len ≤ 4092 → len - 4 ≤ zlen part < len →
     AppendStr (be32_bytes len ++ part) Buffer_new = Ret b → OnMessage cb b = Fault UninitRead).
Proof. split; [apply FillEmptyBuffer_overflow|apply OnMessage_partial]. Qed.

(** C33: a client with up to 2^32 calls in progress matches the responses: in
    whatever order the servers answer, every closure runs exactly once, with
    its own response, and no call stays outstanding. *)
Theorem responses_matched (n : nat) (id0 : Z) (reply : nat → bytes) (ks : list nat) :
  0 ≤ id0 → id0 + Z.of_nat n < 2 ^ 63 → Z.of_nat n ≤ 2 ^ 32 → ks ≡ₚ seq 0 n →
  ∃ c', OnResponses (response_to id0 reply <$> ks) (call_n n (mkChan id0 ∅))
        = Ret ((λ k, (k, reply k)) <$> ks, c')
    ∧ outstandings_ c' = ∅.
Proof.
  intros H0 Hid Hn Hks. destruct (call_n_spec n id0 H0 Hid Hn) as [_ Hout].
  assert (Hin : ∀ k, k ∈ ks ↔ (k < n)%nat) by (intros k; rewrite Hks, elem_of_seq; lia).
  rewrite OnResponses_ok.
  - by eexists.
  - rewrite Hks. apply NoDup_seq.
  - intros k Hk%Hin. lia.
  - intros j d. rewrite Hout, Hin. done.
Qed.

(** A whole call.  For any serialisation that parses back, a client's call
    reaches the service registered under its name, and the client's closure
    runs with the service's response; the set of outstanding calls is as
    before. *)
Theorem rpc_call_roundtrip (encode : RpcMessage → bytes) (decode : bytes → RpcMessage)
    (ss : services) (h : string → bytes → option bytes)
    (service method : string) (request response : bytes) (done : nat) (c : RpcChannel) :
  (∀ m, decode (encode m) = m) → - 2 ^ 63 ≤ rpc_id_ c < 2 ^ 63 → outstandings_ c !! i32 (rpc_id_ c) = None →
  h method request = Some response →
  let call := CallMethod service method request done c in
  let reply := DoneCallback response (rpc_id_ c) in
  zlen (encode call.1) ≤ 4092 → zlen (encode reply) ≤ 4092 →
  ∃ f1 f2 b1 b2 c',
    FillEmptyBuffer (encode call.1) Buffer_new = Ret f1
    ∧ OnMessage (λ d, OnRpcMessage (Some (RegisterService service h ss)) (decode d) (mkChan 0 ∅)) f1
      = Ret (Some (Answered (Some reply), mkChan 0 ∅), b1)
    ∧ FillEmptyBuffer (encode reply) Buffer_new = Ret f2
    ∧ OnMessage (λ d, OnRpcMessage None (decode d) call.2) f2 = Ret (Some (Ran done response, c'), b2)
    ∧ outstandings_ c' = outstandings_ c.
Proof.
  intros Hdec Hid Hfree Hh call reply Hl1 Hl2.
  destruct (FillEmptyBuffer_ok _ Hl1) as (f1 & Hf1 & Hw1 & Hc1).
  destruct (FillEmptyBuffer_ok _ Hl2) as (f2 & Hf2 & Hw2 & Hc2).
  assert (Hcall : call = (mkRpc REQUEST (rpc_id_ c) service method request [],
     mkChan (i64 (rpc_id_ c + 1)) (<[i32 (rpc_id_ c) := done]> (outstandings_ c)))) by (by apply CallMethod_eq).
  eexists f1, f2, _, _, _. split; [done|]. split.
  { rewrite (OnMessage_frame _ (encode call.1) [] f1 Hw1) by (lia || by rewrite app_nil_r).
    rewrite Hdec, Hcall. unfold OnRpcMessage, OnRequest, RegisterService. cbn. rewrite lookup_insert_eq. cbn.
    rewrite Hh. done. }
  split; [done|]. split.
  { rewrite (OnMessage_frame _ (encode reply) [] f2 Hw2) by (lia || by rewrite app_nil_r).
    rewrite Hdec, Hcall. unfold OnRpcMessage, OnResponse. cbn. rewrite lookup_insert_eq. done. }
  cbn. by rewrite delete_insert_id.
Qed.

(** Calls from two threads at once can be lost.  CallMethod takes its id
    and later stores the call under the current id minus one; when a second
    thread takes an id in between, both calls are stored under the second id,
    the first closure is gone and the response to the first call fails an
    assertion. *)
Theorem concurrent_calls_collide (d1 d2 : nat) (reply : bytes) (c : RpcChannel) :
  - 2 ^ 63 ≤ rpc_id_ c < 2 ^ 63 - 2 → outstandings_ c !! i32 (rpc_id_ c) = None →
  let t1 := CallMethod_take "" "" [] c in
  let t2 := CallMethod_take "" "" [] t1.2 in
  let c' := CallMethod_store d2 (CallMethod_store d1 t2.2) in
  outstandings_ c' = <[i32 (rpc_id_ c + 1) := d2]> (outstandings_ c)
  ∧ OnResponse (DoneCallback reply (m_id t1.1)) c' = Fault AssertFailed.
Proof.
  intros Hid Hfree t1 t2 c'.
  assert (outstandings_ c' = <[i32 (rpc_id_ c + 1) := d2]> (outstandings_ c)) as Hout.
  { unfold c', CallMethod_store, t2, t1, CallMethod_take. cbn [fst snd rpc_id_ outstandings_].
    rewrite insert_insert_eq. f_equal. rewrite (swrap_id 64 (rpc_id_ c + 1)) by lia.
    rewrite next_id by lia. done. }
  split; [done|]. unfold OnResponse. rewrite Hout. unfold DoneCallback, t1. cbn [m_id CallMethod_take fst].
  rewrite lookup_insert_ne, Hfree; [done|]. intros E%i32_inj; lia.
Qed.

(** ** Witnesses *)

Lemma frame_roundtrip_witness :
  ∃ f b', FillEmptyBuffer [7; 8] Buffer_new = Ret f
       ∧ OnMessage (λ d, Ret d) f = Ret (Some [7; 8], b').
Proof.
  destruct (FillEmptyBuffer_ok [7; 8]) as (f & Hf & Hw & Hc); [by vm_compute|].
  destruct (frame_roundtrip (λ d, Ret d) [7; 8] [] f [7; 8]) as [_ (b' & Hb & _)].
  - by vm_compute.
  - exact Hw.
  - rewrite app_nil_r. exact Hc.
  - done.
  - exists f, b'. split; [exact Hf|exact Hb].
Defined.

Lemma responses_matched_witness :
  ∃ c', OnResponses (response_to 5 (λ i, [Z.of_nat i]) <$> [2; 0; 1]%nat) (call_n 3 (mkChan 5 ∅))
        = Ret ([(2%nat, [2]); (0%nat, [0]); (1%nat, [1])], c').
Proof.
  destruct (responses_matched 3 5 (λ i, [Z.of_nat i]) [2; 0; 1]%nat) as (c' & H & _).
  - lia.
  - lia.
  - lia.
  - by_decide.
  - exists c'. exact H.
Defined.

(** A serialisation to try the whole call with: a message as one number. *)
Definition rpc_tuple (m : RpcMessage) : bool * Z * string * string * bytes * bytes :=
  (match m_type m with REQUEST => true | RESPONSE => false end,
   m_id m, m_service m, m_method m, m_request m, m_response m).

Definition demo_request : RpcMessage := mkRpc REQUEST 0 "Echo" "echo" [1; 2] [].

Definition demo_encode (m : RpcMessage) : bytes := [Z.pos (encode (rpc_tuple m))].

Definition demo_decode (l : bytes) : RpcMessage :=
  match l with
  | [Z.pos p] =>
      match (decode p : option (bool * Z * string * string * bytes * bytes)) with
      | Some (t, i, sv, me, rq, rs) => mkRpc (if t then REQUEST else RESPONSE) i sv me rq rs
      | None => demo_request
      end
  | _ => demo_request
  end.

Lemma demo_decode_encode m : demo_decode (demo_encode m) = m.
Proof. unfold demo_decode, demo_encode. rewrite decode_encode. by destruct m as [[] ? ? ? ? ?]. Qed.

(** The echo service. *)
Definition demo_echo (method : string) (request : bytes) : option bytes := Some request.

Lemma rpc_call_roundtrip_witness :
  ∃ f b c', FillEmptyBuffer (demo_encode (DoneCallback [1; 2] 0)) Buffer_new = Ret f
    ∧ OnMessage (λ d, OnRpcMessage None (demo_decode d) (CallMethod "Echo" "echo" [1; 2] 9 (mkChan 0 ∅)).2) f
      = Ret (Some (Ran 9 [1; 2], c'), b).
Proof.
  destruct (rpc_call_roundtrip demo_encode demo_decode ∅ demo_echo "Echo" "echo" [1; 2] [1; 2] 9 (mkChan 0 ∅))
    as (f1 & f2 & b1 & b2 & c' & _ & _ & H3 & H4 & _).
  - apply demo_decode_encode.
  - simpl. lia.
  - done.
  - done.
  - unfold demo_encode, zlen. simpl. lia.
  - unfold demo_encode, zlen. simpl. lia.
  - exists f2, b2, c'. split; [exact H3|exact H4].
Defined.

Lemma concurrent_calls_collide_witness :
  OnResponse (DoneCallback [] 0)
    (CallMethod_store 2 (CallMethod_store 1
       (CallMethod_take "" "" [] (CallMethod_take "" "" [] (mkChan 0 ∅)).2).2)) = Fault AssertFailed.
Proof. apply (concurrent_calls_collide 1 2 [] (mkChan 0 ∅)); [simpl; lia|done]. Defined.
