(* ===== verification/RpcStream.v ===== *)
(** * rpc/protobuf/protobuf_codec.*, rpc/protorpc/rpc_channel.*, rpc_server.cc:
      remote calls over connections

    The codec and the channel of Rpc.v on top of the byte streams of TcpConn.v:
    ProtobufCodec::Send writes a frame to a connection, a read event puts bytes
    into the input buffer and calls OnMessage once, and a server's channel
    answers on the connection the request came from.  Serialisation is the
    argument pair [encode], [decode] as in Rpc.v. *)

From S2P Require Import Prelude Buffer Channel Time TimerQueue TcpConn Rpc.

(** ** The codec on a connection *)

(** ProtobufCodec::Send *)
Definition codec_Send (payload : bytes) (c : TcpConn) : outcome TcpConn :=
  buf ← FillEmptyBuffer payload Buffer_new;
  r ← Send_buffer buf c;
  Ret r.2.

(** ProtobufCodec::OnMessage on a connection: the callback may send; the frame is
    consumed after it. *)
Definition codec_OnMessage {X : Type} (messageCallback : bytes → TcpConn → outcome (X * TcpConn)) (c : TcpConn)
  : outcome (option X * TcpConn) :=
  len ← PeekInt32 (input_ c);
  if u64 len <=? GetSize (input_ c) then
    data ← read_cells (buf_ (input_ c)) (b_ (input_ c) + kHeaderLen) (b_ (input_ c) + kHeaderLen + len);
    data ← init_cells data;
    r ← messageCallback data c;
    _ ← require SignedOverflow (len + kHeaderLen <? 2 ^ 31);
    Ret (Some r.1, set_input (Consume (u64 (len + kHeaderLen)) (input_ r.2)) r.2)
  else Ret (None, c).

(** A message object: its type and what was parsed. *)
Record Message : Type := mkMessage { msg_type : string; msg_data : bytes }.

(** prototype_->New() and ParseFromBuffer; the result of the parser is not looked at. *)
Definition ParseFromBuffer (prototype : string) (data : bytes) : Message := mkMessage prototype data.

(** ProtobufCodecT<MSG>::OnRpcMessage: dynamic_pointer_cast<MSG>, null when the
    type is another one. *)
Definition CodecT_OnRpcMessage (MSG : string) (m : Message) : option Message :=
  if bool_decide (msg_type m = MSG) then Some m else None.

(** ** RpcChannel on a connection *)

Record RpcPeer : Type := mkPeer {
  rp_chan : RpcChannel;
  rp_conn : TcpConn;
  rp_services : option services;       (* services_, null on a client *)
}.

(** RpcChannel(conn): id_ is not initialised, its value is [id]. *)
Definition RpcChannel_new (id : Z) (conn : TcpConn) : RpcPeer := mkPeer (mkChan id ∅) conn None.
Definition SetServices (ss : services) (p : RpcPeer) : RpcPeer := mkPeer (rp_chan p) (rp_conn p) (Some ss).

(** ~RpcChannel: the calls whose response and closure are deleted. *)
Definition RpcChannel_destroy (p : RpcPeer) : list nat := (map_to_list (outstandings_ (rp_chan p))).*2.

(** RpcServer::OnConnection: the channel that reads from [conn]. *)
Definition OnConnection (id : Z) (ss : services) (conn : TcpConn) : RpcPeer :=
  let p := SetServices ss (RpcChannel_new id conn) in
  mkPeer (rp_chan p) (set_callbacks true (statecb_ (rp_conn p)) (rp_conn p)) (rp_services p).

Section Peer.
Context (encode : RpcMessage → bytes) (decode : bytes → RpcMessage).

(** CallMethod with the message sent. *)
Definition peer_CallMethod (service method : string) (request : bytes) (done : nat) (p : RpcPeer) : outcome RpcPeer :=
  let r := CallMethod service method request done (rp_chan p) in
  conn ← codec_Send (encode r.1) (rp_conn p);
  Ret (mkPeer r.2 conn (rp_services p)).

(** OnRpcMessage on the channel: a request is answered on the connection.  The
    result says which closure ran. *)
Definition peer_OnRpcMessage (m : RpcMessage) (p : RpcPeer) : outcome (option (nat * bytes) * RpcPeer) :=
  r ← OnRpcMessage (rp_services p) m (rp_chan p);
  match r.1 with
  | Ran done response => Ret (Some (done, response), mkPeer r.2 (rp_conn p) (rp_services p))
  | Answered None => Ret (None, mkPeer r.2 (rp_conn p) (rp_services p))
  | Answered (Some reply) =>
      conn ← codec_Send (encode reply) (rp_conn p);
      Ret (None, mkPeer r.2 conn (rp_services p))
  end.

(** RpcChannel::OnMessage *)
Definition peer_OnMessage (p : RpcPeer) : outcome (option (option (nat * bytes)) * RpcPeer) :=
  r ← codec_OnMessage
        (λ data conn,
           r ← peer_OnRpcMessage (decode data) (mkPeer (rp_chan p) conn (rp_services p));
           Ret ((r.1, rp_chan r.2), rp_conn r.2))
        (rp_conn p);
  Ret (match r.1 with
       | Some (ran, ch) => (Some ran, mkPeer ch r.2 (rp_services p))
       | None => (None, mkPeer (rp_chan p) r.2 (rp_services p))
       end).

End Peer.

(** ** Read events *)

(** A read event that brings [chunk]: HandleRead drains the socket into the input
    buffer and then calls the read callback, OnMessage, once.  [cb] handles a
    message. *)
Definition read_event {X : Type} (cb : bytes → outcome X) (chunk : bytes) (c : TcpConn) : outcome (option X * TcpConn) :=
  c ← HandleRead (λ c, Ret c) (λ c, Ret c) 0 0 (set_reads [RData chunk; REagain] c);
  r ← OnMessage cb (input_ c);
  Ret (r.1, set_input r.2 c).

Fixpoint read_events {X : Type} (cb : bytes → outcome X) (chunks : list bytes) (c : TcpConn)
  : outcome (list (option X) * TcpConn) :=
  match chunks with
  | [] => Ret ([], c)
  | chunk :: chunks =>
      r ← read_event cb chunk c;
      rs ← read_events cb chunks r.2;
      Ret (r.1 :: rs.1, rs.2)
  end.

Fixpoint send_all (ps : list bytes) (c : TcpConn) : outcome TcpConn :=
  match ps with
  | [] => Ret c
  | p :: ps => c ← codec_Send p c; send_all ps c
  end.

(** ** Lemmas *)

Section Lemmas.
Implicit Types c : TcpConn.

(** Send(Buffer&) returns when the output is empty or has room. *)
Lemma Send_buffer_returns m c :
  open_inv c → buf_wf m → content (output_ c) = [] ∨ append_room (content m) (output_ c) →
  zlen (content m) ≤ ptrdiff_max →
  ∃ r, Send_buffer m c = Ret r.
Proof.
  intros (Hst & Hwf & Hws & ch & Hch & Hfd & Hw) Hm Hroom Hlen. unfold Send_buffer. rewrite Hch.
  assert (Habs : ∀ out b, buf_wf out → buf_wf b → content out = [] ∨ append_room (content b) out →
            zlen (content b) ≤ ptrdiff_max → ∃ r, Absorb out b = Ret r).
  { intros out b Hwo Hwb Hr Hl. unfold Absorb. rewrite GetSize_content by done.
    destruct (Z.eqb_spec (zlen (content out)) 0) as [|Hz]; [by eexists|].
    rewrite read_all by done. cbn [mbind outcome_bind]. destruct Hr as [E|Hr]; [by rewrite E, zlen_nil in Hz|].
    destruct (Append_ok (content b) out Hwo Hl Hr) as (b' & -> & _). by eexists. }
  destruct (IsWriting ch) eqn:Hiw.
  { destruct (Habs (output_ c) m) as [r ->]; try done. by eexists. }
  assert (content (output_ c) = []) as He.
  { destruct (content (output_ c)); [done|]. by specialize (Hw ltac:(done)). }
  destruct (GetSize m =? 0); cbn [negb]; [by eexists|]. rewrite read_all by done. cbn [mbind outcome_bind].
  destruct (ISend_ok (content m) c ch Hws Hch Hfd) as (n & ws' & ch' & -> & Hn & _). cbn [mbind outcome_bind fst snd].
  destruct (Consume_ok n m Hm Hn) as (Hmw & Hmc & _).
  destruct (GetSize (Consume n m) =? 0); cbn [negb]; [by eexists|].
  destruct (Habs (output_ c) (Consume n m)) as [r E]; try done; [by left| |].
  { rewrite Hmc, zlen_zdrop by lia. lia. }
  cbn [output_ set_writes set_channel]. rewrite E. cbn. by eexists.
Qed.

(** A frame put on an open connection. *)
Lemma codec_Send_ok payload c :
  open_inv c → zlen payload ≤ 4092 →
  content (output_ c) = [] ∨ append_room (Some <$> frame payload) (output_ c) →
  ∃ c', codec_Send payload c = Ret c' ∧ open_inv c' ∧ flow c' = flow c ++ (Some <$> frame payload).
Proof.
  intros Hi Hlen Hroom. unfold codec_Send. destruct (FillEmptyBuffer_ok payload Hlen) as (b & -> & Hwb & Hcb).
  cbn [mbind outcome_bind]. destruct (Send_buffer_returns b c Hi Hwb) as [r Hr].
  - by rewrite Hcb.
  - rewrite Hcb, zlen_fmap. unfold frame. rewrite zlen_app, zlen_be32. unfold ptrdiff_max. lia.
  - rewrite Hr. destruct (Send_buffer_Ret b c r Hi Hwb Hr) as (? & Hf & _). cbn. eexists. split; [done|].
    by rewrite Hf, Hcb.
Qed.

(** Send(Buffer&) does not touch the input. *)
Lemma ISend_loop_input ws data s c r : ISend_loop ws data s c = Ret r → input_ r.2 = input_ c.
Proof.
  revert s c. induction ws as [|w ws IH]; intros s c; cbn [ISend_loop]; destruct (zlen data <=? s);
    try (by intros [= <-]); unfold chan; destruct (channel_ c) as [ch|]; cbn [from_option_fault mbind outcome_bind]; try done;
    destruct (fd_ ch <? 0); try (by intros [= <-]).
  - intros [= <-]. by destruct (IsWriting ch).
  - destruct w as [n| | |].
    + destruct (0 <? _); [|by intros [= <-]]. intros H. by apply IH in H.
    + intros H. by apply IH in H.
    + intros [= <-]. by destruct (IsWriting ch).
    + by intros [= <-].
Qed.

Lemma Send_buffer_input m c r : Send_buffer m c = Ret r → input_ r.2 = input_ c.
Proof.
  unfold Send_buffer. destruct (channel_ c) as [ch|]; [|by intros [= <-]]. destruct (IsWriting ch).
  - intros H. inv_ret. by subst.
  - destruct (negb _); [|by intros [= <-]]. intros H. inv_ret. unfold ISend in Hr0. apply ISend_loop_input in Hr0.
    destruct (negb _); inv_ret; subst; cbn; [|done]. by destruct (IsWriting _).
Qed.

Lemma codec_Send_input payload c c' : codec_Send payload c = Ret c' → input_ c' = input_ c.
Proof. unfold codec_Send. intros H. inv_ret. subst. by eapply Send_buffer_input. Qed.

(** A callback that leaves the input alone: OnMessage of Rpc.v on the input. *)
Lemma codec_OnMessage_eq {X} (cb : bytes → TcpConn → outcome (X * TcpConn)) c :
  (∀ d x, cb d c = Ret x → input_ x.2 = input_ c) →
  codec_OnMessage cb c
  = (r ← OnMessage (λ d, cb d c) (input_ c);
     Ret (match r.1 with Some x => (Some x.1, set_input r.2 x.2) | None => (None, c) end)).
Proof.
  intros Hcb. unfold codec_OnMessage, OnMessage. destruct (PeekInt32 (input_ c)) as [len|f|]; cbn [mbind outcome_bind]; [|done..].
  destruct (u64 len <=? GetSize (input_ c)); [|done].
  destruct (read_cells _ _ _) as [data|f|]; cbn [mbind outcome_bind]; [|done..].
  destruct (init_cells data) as [d|f|]; cbn [mbind outcome_bind]; [|done..].
  destruct (cb d c) as [x|f|] eqn:E; cbn [mbind outcome_bind]; [|done..].
  destruct (require _ _) as [u|f|]; cbn [mbind outcome_bind]; [|done..]. by rewrite (Hcb d x E).
Qed.

Lemma codec_OnMessage_frame {X} (cb : bytes → TcpConn → outcome (X * TcpConn)) payload rest c x :
  (∀ d y, cb d c = Ret y → input_ y.2 = input_ c) → buf_wf (input_ c) → zlen payload < 2 ^ 30 →
  content (input_ c) = (Some <$> frame payload) ++ rest → cb payload c = Ret x →
  ∃ b, codec_OnMessage cb c = Ret (Some x.1, set_input b x.2) ∧ buf_wf b ∧ content b = rest.
Proof.
  intros Hcb Hwf Hlen Hc Hx. rewrite codec_OnMessage_eq by done.
  rewrite (OnMessage_frame (λ d, cb d c) payload rest (input_ c)) by done. rewrite Hx. cbn [mbind outcome_bind fst snd].
  pose proof (zlen_nonneg payload). pose proof (zlen_nonneg rest).
  assert (zlen (Some <$> frame payload) = 4 + zlen payload) as Hz by (unfold frame; by rewrite zlen_fmap, zlen_app, zlen_be32).
  destruct (Consume_ok (4 + zlen payload) (input_ c) Hwf) as (Hw & Hd & _).
  { rewrite Hc, zlen_app, Hz. lia. }
  eexists. split; [done|]. split; [done|]. rewrite Hd, Hc, <- Hz. apply zdrop_app_length.
Qed.

End Lemmas.

(** *** The two ends *)

Section PeerLemmas.
Context (encode : RpcMessage → bytes) (decode : bytes → RpcMessage).
Context (Hdec : ∀ m, decode (encode m) = m).
Implicit Types p : RpcPeer.

Lemma peer_OnRpcMessage_input m p r :
  peer_OnRpcMessage encode m p = Ret r → input_ (rp_conn r.2) = input_ (rp_conn p).
Proof.
  unfold peer_OnRpcMessage. intros H. inv_ret. destruct r0.1 as [d resp|[reply|]]; inv_ret; subst; [done| |done].
  cbn. by eapply codec_Send_input.
Qed.

(** A peer that handles a frame in its input. *)
Lemma peer_OnMessage_frame m rest p ran p1 :
  buf_wf (input_ (rp_conn p)) → zlen (encode m) ≤ 4092 →
  content (input_ (rp_conn p)) = (Some <$> frame (encode m)) ++ rest →
  peer_OnRpcMessage encode m p = Ret (ran, p1) →
  ∃ b, peer_OnMessage encode decode p = Ret (Some ran, mkPeer (rp_chan p1) (set_input b (rp_conn p1)) (rp_services p))
    ∧ buf_wf b ∧ content b = rest.
Proof.
  intros Hwf Hlen Hc Hm. unfold peer_OnMessage.
  destruct (codec_OnMessage_frame
    (λ data conn, r ← peer_OnRpcMessage encode (decode data) (mkPeer (rp_chan p) conn (rp_services p));
                  Ret ((r.1, rp_chan r.2), rp_conn r.2)) (encode m) rest (rp_conn p) ((ran, rp_chan p1), rp_conn p1))
    as (b & -> & Hw & Hb); try done.
  - intros d y H. inv_ret. subst. cbn. by apply peer_OnRpcMessage_input in Hr.
  - lia.
  - rewrite Hdec. destruct p as [ch conn ss]. cbn in *. by rewrite Hm.
  - by exists b.
Qed.

(** A server answers a request. *)
Lemma peer_answers m rest p ss h response :
  m_type m = REQUEST → rp_services p = Some ss → ss !! m_service m = Some h → h (m_method m) (m_request m) = Some response →
  open_inv (rp_conn p) → buf_wf (input_ (rp_conn p)) → zlen (encode m) ≤ 4092 →
  zlen (encode (DoneCallback response (m_id m))) ≤ 4092 →
  content (output_ (rp_conn p)) = [] ∨ append_room (Some <$> frame (encode (DoneCallback response (m_id m)))) (output_ (rp_conn p)) →
  content (input_ (rp_conn p)) = (Some <$> frame (encode m)) ++ rest →
  ∃ p', peer_OnMessage encode decode p = Ret (Some None, p') ∧ rp_chan p' = rp_chan p
    ∧ flow (rp_conn p') = flow (rp_conn p) ++ (Some <$> frame (encode (DoneCallback response (m_id m))))
    ∧ content (input_ (rp_conn p')) = rest.
Proof.
  intros Ht Hss Hh Hr Hi Hwf Hl1 Hl2 Hroom Hc.
  destruct (codec_Send_ok (encode (DoneCallback response (m_id m))) (rp_conn p) Hi Hl2 Hroom) as (c' & Hs & Hi' & Hf).
  destruct (peer_OnMessage_frame m rest p None (mkPeer (rp_chan p) c' (rp_services p)) Hwf Hl1 Hc) as (b & -> & Hw & Hb).
  { unfold peer_OnRpcMessage, OnRpcMessage, OnRequest. rewrite Ht, Hss. cbn [from_option_fault mbind outcome_bind].
    rewrite Hh. cbn [from_option_fault mbind outcome_bind fst snd]. rewrite Hr. cbn [fst snd]. by rewrite Hs. }
  eexists. split; [done|]. split; [done|]. split; [|done]. rewrite <- Hf. done.
Qed.

(** A client runs the closure of a response. *)
Lemma peer_runs id response rest p done :
  buf_wf (input_ (rp_conn p)) → zlen (encode (DoneCallback response id)) ≤ 4092 →
  outstandings_ (rp_chan p) !! i32 id = Some done →
  content (input_ (rp_conn p)) = (Some <$> frame (encode (DoneCallback response id))) ++ rest →
  ∃ p', peer_OnMessage encode decode p = Ret (Some (Some (done, response)), p')
    ∧ outstandings_ (rp_chan p') = delete (i32 id) (outstandings_ (rp_chan p))
    ∧ content (input_ (rp_conn p')) = rest.
Proof.
  intros Hwf Hl Ho Hc.
  destruct (peer_OnMessage_frame (DoneCallback response id) rest p (Some (done, response))
    (mkPeer (mkChan (rpc_id_ (rp_chan p)) (delete (i32 id) (outstandings_ (rp_chan p)))) (rp_conn p) (rp_services p)) Hwf Hl Hc)
    as (b & -> & Hw & Hb).
  { unfold peer_OnRpcMessage, OnRpcMessage, OnResponse. cbn [DoneCallback m_type m_id m_response]. by rewrite Ho. }
  eexists. split; [reflexivity|]. split; [done|exact Hb].
Qed.

End PeerLemmas.

(** *** One frame per event *)

(** A connection that can receive up to [n] more bytes. *)
Definition can_read (n : Z) (c : TcpConn) : Prop :=
  state_ c = kConnected ∧ (∃ ch, channel_ c = Some ch ∧ 0 ≤ fd_ ch) ∧ buf_wf (input_ c)
  ∧ 0 < exp_ (input_ c) ∧ 2 * (e_ (input_ c) + n + exp_ (input_ c)) ≤ ptrdiff_max.

Lemma read_event_ok {X} (cb : bytes → outcome X) n chunk payload rest x c :
  can_read n c → chunk ≠ [] → zlen chunk ≤ n → zlen payload < 2 ^ 30 →
  content (input_ c) ++ (Some <$> chunk) = (Some <$> frame payload) ++ rest → cb payload = Ret x →
  ∃ c', read_event cb chunk c = Ret (Some x, c') ∧ can_read (n - zlen chunk) c' ∧ content (input_ c') = rest.
Proof.
  intros (Hst & (ch & Hch & Hfd) & Hwf & Hexp & Hsz) Hne Hn Hlen Hc Hcb. unfold read_event.
  set (c1 := set_reads [RData chunk; REagain] c).
  destruct (HandleRead_loop_ok (λ c, Ret c) (λ c, Ret c) (reads_size (reads c1)) c1 ch)
    as (c2 & E & (inp & rs & ->) & Hwf2 & Hc2 & [He1 He2] & _); try done.
  { repeat constructor; done. }
  { cbn. rewrite app_nil_r. lia. }
  cbn [reads c1 set_reads read_plan fst snd] in *. rewrite app_nil_r in *.
  assert (∃ c3, HandleRead (λ c, Ret c) (λ c, Ret c) 0 0 c1 = Ret c3 ∧ input_ c3 = inp ∧ state_ c3 = kConnected ∧ channel_ c3 = Some ch)
    as (c3 & -> & Hi3 & Hs3 & Hch3).
  { unfold HandleRead. change (state_ c1) with (state_ c). rewrite Hst, bool_decide_false by done.
    change (reads c1) with [RData chunk; REagain]. rewrite E. unfold call_read. destruct (_ && _); by eexists. }
  cbn [mbind outcome_bind]. rewrite Hi3. cbn [input_ set_input] in *.
  rewrite (OnMessage_frame cb payload rest inp Hwf2 Hlen) by (by rewrite Hc2). rewrite Hcb. cbn [mbind outcome_bind fst snd].
  assert (zlen (Some <$> frame payload) = 4 + zlen payload) as Hz by (unfold frame; by rewrite zlen_fmap, zlen_app, zlen_be32).
  pose proof (zlen_nonneg payload). pose proof (zlen_nonneg rest).
  destruct (Consume_ok (4 + zlen payload) inp Hwf2) as (Hw & Hd & Hx & Hy & _).
  { rewrite Hc2. change (content (input_ c1)) with (content (input_ c)). rewrite Hc, zlen_app, Hz. lia. }
  eexists. split; [done|]. split.
  - split_and!; cbn; [done|by exists ch|done|rewrite Hx, He1; done|]. rewrite Hx, He1. cbn in *. lia.
  - cbn. rewrite Hd, Hc2. change (content (input_ c1)) with (content (input_ c)). rewrite Hc, <- Hz. apply zdrop_app_length.
Qed.

Definition frames (ps : list bytes) : bytes := concat (frame <$> ps).

Lemma frames_app ps qs : frames (ps ++ qs) = frames ps ++ frames qs.
Proof. unfold frames. by rewrite fmap_app, concat_app. Qed.

Lemma frames_nonempty ps : ps ≠ [] → frames ps ≠ [].
Proof.
  destruct ps as [|p ps]; [done|]. intros _ E%(f_equal zlen). change (frames (p :: ps)) with (frame p ++ frames ps) in E.
  unfold frame in E. rewrite !zlen_app, zlen_be32, zlen_nil in E.
  pose proof (zlen_nonneg p). pose proof (zlen_nonneg (frames ps)). lia.
Qed.

Lemma length_concat_nonempty {A} (gs : list (list A)) :
  Forall (λ g, g ≠ []) gs → (length gs ≤ length (concat gs))%nat.
Proof. induction 1 as [|g gs Hg _ IH]; cbn; [done|]. rewrite length_app. destruct g; [done|]. cbn. lia. Qed.

Lemma read_events_ok {X} (f : bytes → X) groups q c n :
  can_read n c → Forall (λ p, zlen p < 2 ^ 30) (q ++ concat groups) → Forall (λ g, g ≠ []) groups →
  zlen (frames (concat groups)) ≤ n → content (input_ c) = Some <$> frames q →
  ∃ c', read_events (λ d, Ret (f d)) (frames <$> groups) c
        = Ret (Some ∘ f <$> take (length groups) (q ++ concat groups), c')
    ∧ content (input_ c') = Some <$> frames (drop (length groups) (q ++ concat groups)).
Proof.
  revert q c n. induction groups as [|g groups IH]; intros q c n Hr Hp Hg Hn Hc.
  - exists c. split; [done|]. cbn. rewrite app_nil_r, drop_0. done.
  - apply Forall_cons in Hg as [Hg0 Hg]. cbn [concat] in *. rewrite frames_app, zlen_app in Hn.
    pose proof (zlen_nonneg (frames (concat groups))). pose proof (zlen_nonneg (frames g)).
    destruct (q ++ g) as [|p q'] eqn:Eq; [by apply app_eq_nil in Eq as [_ ->]|].
    rewrite app_assoc, Eq in Hp |- *. cbn [app] in Hp. apply Forall_cons in Hp as [Hp0 Hp].
    cbn [fmap list_fmap read_events].
    destruct (read_event_ok (λ d, Ret (f d)) n (frames g) p (Some <$> frames q') (f p) c) as (c1 & -> & Hr1 & Hc1); try done.
    + by apply frames_nonempty.
    + lia.
    + rewrite Hc, <- fmap_app, <- frames_app, Eq. unfold frames. cbn. by rewrite fmap_app.
    + cbn [mbind outcome_bind fst snd]. destruct (IH q' c1 (n - zlen (frames g)) Hr1 Hp Hg) as (c' & -> & Hc'); [lia|done|].
      exists c'. split; [done|exact Hc'].
Qed.

(** *** A whole call *)

Lemma exchange_ok (encode : RpcMessage → bytes) (decode : bytes → RpcMessage) (ss : services)
    (h : string → bytes → option bytes) (service method : string) (request response : bytes) (done : nat) (pc ps : RpcPeer) :
  let call := (CallMethod service method request done (rp_chan pc)).1 in
  let reply := DoneCallback response (rpc_id_ (rp_chan pc)) in
  (∀ m, decode (encode m) = m) → zlen (encode call) ≤ 4092 → zlen (encode reply) ≤ 4092 →
  - 2 ^ 63 ≤ rpc_id_ (rp_chan pc) < 2 ^ 63 → outstandings_ (rp_chan pc) !! i32 (rpc_id_ (rp_chan pc)) = None →
  h method request = Some response → rp_services ps = Some (RegisterService service h ss) →
  open_inv (rp_conn pc) → flow (rp_conn pc) = [] → open_inv (rp_conn ps) → flow (rp_conn ps) = [] →
  ∃ pc', peer_CallMethod encode service method request done pc = Ret pc' ∧
    ∀ sin, buf_wf sin → content sin = flow (rp_conn pc') →
    ∃ ps', peer_OnMessage encode decode (mkPeer (rp_chan ps) (set_input sin (rp_conn ps)) (rp_services ps)) = Ret (Some None, ps')
      ∧ content (input_ (rp_conn ps')) = [] ∧
    ∀ cin, buf_wf cin → content cin = flow (rp_conn ps') →
    ∃ pc'', peer_OnMessage encode decode (mkPeer (rp_chan pc') (set_input cin (rp_conn pc')) (rp_services pc'))
            = Ret (Some (Some (done, response)), pc'')
      ∧ content (input_ (rp_conn pc'')) = [] ∧ outstandings_ (rp_chan pc'') = outstandings_ (rp_chan pc).
Proof.
  intros call reply Hdec Hl1 Hl2 Hid Hfree Hh Hss Hic Hfc His Hfs.
  apply app_eq_nil in Hfc as [Hwc Hoc]. apply app_eq_nil in Hfs as [Hws Hos].
  unfold peer_CallMethod. fold call. destruct (codec_Send_ok (encode call) (rp_conn pc) Hic Hl1 (or_introl Hoc)) as (c1 & -> & Hi1 & Hf1).
  unfold flow at 2 in Hf1. rewrite Hwc, Hoc in Hf1. cbn [mbind outcome_bind].
  assert (Hcall : CallMethod service method request done (rp_chan pc) = (mkRpc REQUEST (rpc_id_ (rp_chan pc)) service method request [],
     mkChan (i64 (rpc_id_ (rp_chan pc) + 1)) (<[i32 (rpc_id_ (rp_chan pc)) := done]> (outstandings_ (rp_chan pc))))) by (by apply CallMethod_eq).
  eexists. split; [reflexivity|]. cbn [rp_conn rp_chan rp_services]. intros sin Hwsin Hsin.
  destruct (peer_answers encode decode Hdec call [] (mkPeer (rp_chan ps) (set_input sin (rp_conn ps)) (rp_services ps))
              (RegisterService service h ss) h response) as (ps' & E2 & Hch2 & Hf2 & Hc2); try done.
  - unfold call. rewrite Hcall. unfold RegisterService. cbn. apply lookup_insert_eq.
  - by left.
  - cbn. rewrite app_nil_r. by rewrite Hsin, Hf1.
  - exists ps'. split; [done|]. split; [done|]. intros cin Hwcin Hcin.
    assert (m_id call = rpc_id_ (rp_chan pc)) as Hmid by (unfold call; by rewrite Hcall).
    assert (content cin = (Some <$> frame (encode reply)) ++ []) as Hcin'.
    { rewrite app_nil_r, Hcin, Hf2. unfold flow. cbn. rewrite Hws, Hos. cbn. unfold reply. by rewrite <- Hmid. }
    destruct (peer_runs encode decode Hdec (rpc_id_ (rp_chan pc)) response []
                (mkPeer (CallMethod service method request done (rp_chan pc)).2 (set_input cin c1) (rp_services pc)) done)
      as (pc'' & E3 & Ho3 & Hc3); try done.
    + rewrite Hcall. cbn. apply lookup_insert_eq.
    + exists pc''. split; [exact E3|]. split; [done|]. rewrite Ho3, Hcall. cbn. by apply delete_insert_id.
Qed.

(** ** Properties *)

(** C11: a remote call over two connections, from end to end.  For any serialisation
    that parses back and messages of at most 4092 bytes: the bytes a client's
    CallMethod puts on its connection, once they are in the server's input in
    whatever pieces they came, make the service registered under the name run,
    and the bytes the server puts on its connection, once they are in the
    client's input, run the closure of this call with the service's response;
    every byte is consumed and the set of outstanding calls is as before. *)
Theorem rpc_exchange (encode : RpcMessage → bytes) (decode : bytes → RpcMessage) (ss : services)
    (h : string → bytes → option bytes) (service method : string) (request response : bytes) (done : nat) (pc ps : RpcPeer) :
  let call := (CallMethod service method request done (rp_chan pc)).1 in
  let reply := DoneCallback response (rpc_id_ (rp_chan pc)) in
  (∀ m, decode (encode m) = m) → zlen (encode call) ≤ 4092 → zlen (encode reply) ≤ 4092 →
  - 2 ^ 63 ≤ rpc_id_ (rp_chan pc) < 2 ^ 63 → outstandings_ (rp_chan pc) !! i32 (rpc_id_ (rp_chan pc)) = None →
  h method request = Some response → rp_services ps = Some (RegisterService service h ss) →
  open_inv (rp_conn pc) → flow (rp_conn pc) = [] → open_inv (rp_conn ps) → flow (rp_conn ps) = [] →
  ∃ pc', peer_CallMethod encode service method request done pc = Ret pc' ∧
    ∀ sin, buf_wf sin → content sin = flow (rp_conn pc') →
    ∃ ps', peer_OnMessage encode decode (mkPeer (rp_chan ps) (set_input sin (rp_conn ps)) (rp_services ps)) = Ret (Some None, ps')
      ∧ content (input_ (rp_conn ps')) = [] ∧
    ∀ cin, buf_wf cin → content cin = flow (rp_conn ps') →
    ∃ pc'', peer_OnMessage encode decode (mkPeer (rp_chan pc') (set_input cin (rp_conn pc')) (rp_services pc'))
            = Ret (Some (Some (done, response)), pc'')
      ∧ content (input_ (rp_conn pc'')) = [] ∧ outstandings_ (rp_chan pc'') = outstandings_ (rp_chan pc).
Proof. apply exchange_ok. Qed.

(** C34: one message per read event.  When the frames of a sender arrive in groups,
    one or more whole frames in each read event, the receiver handles exactly
    one message per event, in the order they were sent; the others stay in its
    input buffer, where only the arrival of more bytes makes it look at them
    again. *)
Theorem one_message_per_event {X : Type} (f : bytes → X) (groups : list (list bytes)) (c : TcpConn) (n : Z) :
  can_read n c → content (input_ c) = [] → Forall (λ g, g ≠ []) groups →
  Forall (λ p, zlen p < 2 ^ 30) (concat groups) → zlen (frames (concat groups)) ≤ n →
  ∃ c', read_events (λ d, Ret (f d)) (frames <$> groups) c
        = Ret (Some ∘ f <$> take (length groups) (concat groups), c')
    ∧ content (input_ c') = Some <$> frames (drop (length groups) (concat groups))
    ∧ (content (input_ c') = [] ↔ Forall (λ g, length g = 1%nat) groups).
Proof.
  intros Hr Hc Hg Hp Hn. destruct (read_events_ok f groups [] c n) as (c' & E & Hc'); try done.
  exists c'. split; [done|]. split; [done|]. cbn [app] in Hc'. rewrite Hc'.
  pose proof (length_concat_nonempty groups Hg) as Hle.
  transitivity (length (concat groups) = length groups).
  - split.
    + intros Hd%fmap_nil_inv. destruct (drop (length groups) (concat groups)) as [|p ps] eqn:Ed; [|by apply frames_nonempty in Hd].
      apply (f_equal length) in Ed. rewrite length_drop in Ed. cbn in Ed. lia.
    + intros Hl. by rewrite drop_ge by lia.
  - clear -Hg Hle. induction Hg as [|g gs Hg Hgs IH]; cbn; [split; done || constructor|].
    pose proof (length_concat_nonempty gs Hgs). rewrite length_app, Forall_cons. destruct g as [|p g]; [done|]. cbn [length] in *. split.
    + intros Hl. split; [lia|]. apply IH; lia.
    + intros [H1 H2]. apply IH in H2; lia.
Qed.

(** The typed codec: a message made from the codec's own prototype is never lost
    in the cast. *)
Lemma CodecT_typed MSG data : CodecT_OnRpcMessage MSG (ParseFromBuffer MSG data) = Some (mkMessage MSG data).
Proof. unfold CodecT_OnRpcMessage. by rewrite bool_decide_true. Qed.

(** ** Witnesses *)

(** An open connection that has sent nothing. *)
Definition demo_peer (id : Z) (ss : option services) : RpcPeer := mkPeer (mkChan id ∅) demo_conn ss.

Lemma rpc_exchange_witness :
  ∃ pc', peer_CallMethod demo_encode "Echo" "echo" [1; 2] 9 (demo_peer 0 None) = Ret pc' ∧
    ∀ sin, buf_wf sin → content sin = flow (rp_conn pc') →
    ∃ ps', peer_OnMessage demo_encode demo_decode
             (mkPeer (mkChan 0 ∅) (set_input sin demo_conn) (Some (RegisterService "Echo" demo_echo ∅))) = Ret (Some None, ps').
Proof.
  destruct (rpc_exchange demo_encode demo_decode ∅ demo_echo "Echo" "echo" [1; 2] [1; 2] 9
              (demo_peer 0 None) (demo_peer 0 (Some (RegisterService "Echo" demo_echo ∅)))) as (pc' & H1 & H2).
  - apply demo_decode_encode.
  - unfold demo_encode, zlen. cbn. lia.
  - unfold demo_encode, zlen. cbn. lia.
  - cbn. lia.
  - done.
  - done.
  - done.
  - exact demo_open.
  - done.
  - exact demo_open.
  - done.
  - exists pc'. split; [exact H1|]. intros sin Hw Hc. destruct (H2 sin Hw Hc) as (ps' & H3 & _). exists ps'. exact H3.
Defined.

Lemma one_message_per_event_witness :
  ∃ c', read_events (λ d, Ret d) [frames [[1]; [2]]; frames [[3]]] demo_conn = Ret ([Some [1]; Some [2]], c')
    ∧ content (input_ c') = Some <$> frames [[3]].
Proof.
  destruct (one_message_per_event (λ d, d) [[[1]; [2]]; [[3]]] demo_conn 100) as (c' & H1 & H2 & _).
  - split; [done|]. split; [by exists demo_chan|]. split; [apply wf_new|]. split; by vm_compute.
  - done.
  - by repeat constructor.
  - by repeat constructor.
  - by vm_compute.
  - exists c'. split; [exact H1|exact H2].
Defined.
