(* ===== verification/RaftNode.v ===== *)
(** * raft/node.*, raft/raft_peer.*, raft/raft_service.*, raft/config.h, raft/random.h:
      a Raft node and its messages over RPC

    A Node owns a Raft instance, an RPC server with the Raft service, and a
    RaftPeer per other node: an RPC channel on a connection.  The vote messages
    travel as the requests and responses of Rpc.v and RpcStream.v; their
    serialisation and the one of the RPC messages are arguments.  The theorem
    relates a vote that is exchanged this way to the steps of the cluster of
    Raft.v. *)

From S2P Require Import Prelude TcpServer Buffer Channel Time TimerQueue TcpConn Rpc RpcStream RaftLog Raft.

(** ** Configuration, randomness and timeouts *)

Record Config : Type := mkConfig {
  cfg_id_ : Z;
  cfg_path_ : bytes;
  cfg_heartbeatTimeout_ : Z;
  cfg_electionTimeout_ : Z;
  cfg_millisecond_ : Z;
  cfg_serverAddress_ : Ip4Addr;
  cfg_localAddress_ : Ip4Addr;
  cfg_peerAddresses_ : list Ip4Addr;
}.

(** The default values of the fields. *)
Definition Config_new (id : Z) (path : bytes) (server local : Ip4Addr) (peers : list Ip4Addr) : Config :=
  mkConfig id path 1 5 100 server local peers.

(** std::default_random_engine with std::uniform_int_distribution: [uniform]
    draws a number between the bounds. *)
Record Random : Type := mkRandom { e_state : Z; u_left : Z; u_right : Z }.

Definition Generate (uniform : Z → Z → Z → Z * Z) (g : Random) : Z * Random :=
  let '(x, e) := uniform (e_state g) (u_left g) (u_right g) in (x, mkRandom e (u_left g) (u_right g)).

(** The timeout fields of Raft. *)
Record RaftTimers : Type := mkTimers {
  heartbeatTimeout_ : Z;
  electionTimeout_ : Z;
  randomizedElectionTimeout_ : Z;
  elpasedTime_ : Z;
  random_ : Random;
}.

(** The constructor's part: the configuration is not used, random_(0, 0, 0). *)
Definition RaftTimers_new (uniform : Z → Z → Z → Z * Z) (cfg : Config) : RaftTimers :=
  let '(x, g) := Generate uniform (mkRandom 0 0 0) in mkTimers 0 0 x 0 g.

Definition ResetTimer (uniform : Z → Z → Z → Z * Z) (t : RaftTimers) : RaftTimers :=
  let '(x, g) := Generate uniform (random_ t) in mkTimers (heartbeatTimeout_ t) (electionTimeout_ t) x 0 g.
Definition ResetElectionTime (t : RaftTimers) : RaftTimers :=
  mkTimers (heartbeatTimeout_ t) 0 (randomizedElectionTimeout_ t) (elpasedTime_ t) (random_ t).
Definition ResetHeartbeatTime (t : RaftTimers) : RaftTimers :=
  mkTimers 0 (electionTimeout_ t) (randomizedElectionTimeout_ t) (elpasedTime_ t) (random_ t).

Fixpoint reset_n (n : nat) (uniform : Z → Z → Z → Z * Z) (t : RaftTimers) : RaftTimers :=
  match n with O => t | S n => ResetTimer uniform (reset_n n uniform t) end.

(** ** RaftPeer *)

Record RaftPeer : Type := mkRaftPeer {
  peer_rpc : RpcPeer;          (* conn_, channel_, stub_ *)
  onPreVote_ : bool;
  onRequestVote_ : bool;
  onAppendEntries_ : bool;
}.

(** RaftPeer(loop, local, peer): the channel reads from the new connection. *)
Definition RaftPeer_new (id : Z) (conn : TcpConn) : RaftPeer :=
  mkRaftPeer (RpcChannel_new id (set_callbacks true (statecb_ conn) conn)) false false false.

Definition SetOnPreVote (p : RaftPeer) : RaftPeer := mkRaftPeer (peer_rpc p) true (onRequestVote_ p) (onAppendEntries_ p).
Definition SetOnRequestVote (p : RaftPeer) : RaftPeer := mkRaftPeer (peer_rpc p) (onPreVote_ p) true (onAppendEntries_ p).
Definition SetOnAppendEntries (p : RaftPeer) : RaftPeer := mkRaftPeer (peer_rpc p) (onPreVote_ p) (onRequestVote_ p) true.

Definition raft_service : string := "jraft.RaftService".

Section Messages.
(** Serialisation of the RPC envelope and of the vote messages. *)
Context (encode : RpcMessage → bytes) (decode : bytes → RpcMessage).
Context (ser_req : RequestVoteRequest → bytes) (parse_req : bytes → option RequestVoteRequest).
Context (ser_resp : RequestVoteResponse → bytes) (parse_resp : bytes → RequestVoteResponse).
Context (parse_app : bytes → option AppendEntriesRequest).
(** What SerializeAsString gives for a new response in which no field was set. *)
Context (unset_vote unset_append : bytes).

(** RaftPeer::RequestVote: the stub calls the channel; [done] names the closure. *)
Definition RaftPeer_RequestVote (q : RequestVoteRequest) (done : nat) (p : RaftPeer) : outcome RaftPeer :=
  rpc ← peer_CallMethod encode raft_service "RequestVote" (ser_req q) done (peer_rpc p);
  Ret (mkRaftPeer rpc (onPreVote_ p) (onRequestVote_ p) (onAppendEntries_ p)).

(** PreVote and AppendEntries of a peer print a line. *)
Definition RaftPeer_PreVote (q : RequestVoteRequest) (p : RaftPeer) : RaftPeer := p.
Definition RaftPeer_AppendEntries (q : AppendEntriesRequest) (p : RaftPeer) : RaftPeer := p.

(** ** RaftServiceImpl and Node *)

Record Node : Type := mkNode {
  raft_ : Raft;
  peers_ : list RaftPeer;
  svc_preVote_ : bool;         (* the callbacks of service_ are set *)
  svc_requestVote_ : bool;
  svc_appendEntries_ : bool;
}.

(** Node(config, loop): [conns] are the connections of the new peers, [ids] the
    values of their channels' id_, [file] the log file. *)
Definition Node_new (cfg : Config) (file : bytes) (ids : list Z) (conns : list TcpConn) : Node :=
  let peers := zip_with (λ id conn, SetOnAppendEntries (SetOnRequestVote (SetOnPreVote (RaftPeer_new id conn)))) ids conns in
  mkNode (Raft_new (cfg_id_ cfg) (zlen peers) file) peers true true true.

(** Node::RequestVote in the loop thread, Node::PreVote, Node::AppendEntries: the
    response, [None] when nothing was written to it. *)
Definition Node_RequestVote (q : RequestVoteRequest) (n : Node) : outcome (option RequestVoteResponse * Node) :=
  r ← RequestVote q (raft_ n);
  Ret (Some r.1, mkNode r.2 (peers_ n) (svc_preVote_ n) (svc_requestVote_ n) (svc_appendEntries_ n)).
Definition Node_PreVote (q : RequestVoteRequest) (n : Node) : outcome (option RequestVoteResponse * Node) := Ret (None, n).
Definition Node_AppendEntries (q : AppendEntriesRequest) (n : Node) : outcome (option AppendEntriesResponse * Node) := Ret (None, n).

Definition Node_OnRequestVote (p : RequestVoteResponse) (n : Node) : outcome Node :=
  r ← OnRequestVote p (raft_ n);
  Ret (mkNode r (peers_ n) (svc_preVote_ n) (svc_requestVote_ n) (svc_appendEntries_ n)).
Definition Node_OnPreVote (p : RequestVoteResponse) (n : Node) : Node := n.
(** [serialize] and [pad] are those of the log entries, as in Raft.v. *)
Definition Node_OnAppendEntries (serialize : Z → Z → Z → bytes → bytes) (pad : bytes) (q : AppendEntriesRequest)
    (p : AppendEntriesResponse) (n : Node) : outcome Node :=
  r ← OnAppendEntries serialize pad q p (raft_ n);
  Ret (mkNode r (peers_ n) (svc_preVote_ n) (svc_requestVote_ n) (svc_appendEntries_ n)).

(** RaftServiceImpl: the callback that [node] stands for, then done->Run(); the
    bytes of the response.  A request that does not parse is not answered. *)
Definition serve {Q P : Type} (parse : bytes → option Q) (callback : bool) (node : Q → Node → outcome (option P * Node))
    (ser : P → bytes) (unset : bytes) (req : bytes) (n : Node) : outcome (option bytes * Node) :=
  match parse req with
  | None => Ret (None, n)
  | Some q =>
      _ ← require EmptyFunction callback;
      r ← node q n;
      Ret (Some (match r.1 with Some p => ser p | None => unset end), r.2)
  end.

Definition Service_PreVote (req : bytes) (n : Node) : outcome (option bytes * Node) :=
  serve parse_req (svc_preVote_ n) Node_PreVote ser_resp unset_vote req n.
Definition Service_RequestVote (req : bytes) (n : Node) : outcome (option bytes * Node) :=
  serve parse_req (svc_requestVote_ n) Node_RequestVote ser_resp unset_vote req n.
(** No response of AppendEntries is ever filled in. *)
Definition Service_AppendEntries (req : bytes) (n : Node) : outcome (option bytes * Node) :=
  serve parse_app (svc_appendEntries_ n) Node_AppendEntries (λ _, unset_append) unset_append req n.

(** The service by the name of the method. *)
Definition Service (method : string) (req : bytes) (n : Node) : outcome (option bytes * Node) :=
  if bool_decide (method = "PreVote"%string) then Service_PreVote req n
  else if bool_decide (method = "RequestVote"%string) then Service_RequestVote req n
  else if bool_decide (method = "AppendEntries"%string) then Service_AppendEntries req n
  else Ret (None, n).

(** The service as a function of the request, in the state [n]. *)
Definition service_of (n : Node) (method : string) (req : bytes) : option bytes :=
  match Service method req n with Ret (o, _) => o | _ => None end.

(** The closure of a vote: the response is parsed, whatever the result, then
    RaftPeer::OnRequestVote and Node::OnRequestVote. *)
Definition vote_closure (p : RaftPeer) (response : bytes) (n : Node) : outcome Node :=
  _ ← require EmptyFunction (onRequestVote_ p);
  Node_OnRequestVote (parse_resp response) n.

(** StartRequestVote's loop over the peers; the closures are numbered. *)
Fixpoint send_votes (q : RequestVoteRequest) (k : nat) (ps : list RaftPeer) : outcome (list RaftPeer) :=
  match ps with
  | [] => Ret []
  | p :: ps => p ← RaftPeer_RequestVote q k p; ps ← send_votes q (S k) ps; Ret (p :: ps)
  end.

(** Node::Propose *)
Definition Node_Propose (cmd : bytes) (n : Node) : outcome Node :=
  r ← Propose cmd (raft_ n);
  ps ← send_votes r.1 0 (peers_ n);
  Ret (mkNode r.2 ps (svc_preVote_ n) (svc_requestVote_ n) (svc_appendEntries_ n)).

End Messages.

(** ** Lemmas *)

(** A distribution over [0, 0] has one value: the randomised election timeout of
    every node is always 0. *)
Lemma election_timeout_constant uniform cfg n :
  (∀ e l r, l ≤ r → l ≤ (uniform e l r).1 ≤ r) →
  randomizedElectionTimeout_ (reset_n n uniform (RaftTimers_new uniform cfg)) = 0.
Proof.
  intros Hu. assert (∀ e, (uniform e 0 0).1 = 0) as Hz by (intros e; specialize (Hu e 0 0); lia).
  assert (∀ n, randomizedElectionTimeout_ (reset_n n uniform (RaftTimers_new uniform cfg)) = 0
     ∧ u_left (random_ (reset_n n uniform (RaftTimers_new uniform cfg))) = 0
     ∧ u_right (random_ (reset_n n uniform (RaftTimers_new uniform cfg))) = 0) as H; [|by apply H].
  intros m. induction m as [|m (_ & Hl & Hr)]; cbn [reset_n].
  - unfold RaftTimers_new, Generate. cbn. specialize (Hz 0). by destruct (uniform 0 0 0).
  - unfold ResetTimer, Generate. rewrite Hl, Hr. specialize (Hz (e_state (random_ (reset_n m uniform (RaftTimers_new uniform cfg))))).
    by destruct (uniform _ 0 0).
Qed.

Section VoteOverRpc.
Context (encode : RpcMessage → bytes) (decode : bytes → RpcMessage).
Context (ser_req : RequestVoteRequest → bytes) (parse_req : bytes → option RequestVoteRequest).
Context (ser_resp : RequestVoteResponse → bytes) (parse_resp : bytes → RequestVoteResponse).
Context (parse_app : bytes → option AppendEntriesRequest) (unset_vote unset_append : bytes).

(** The service of a node answers a vote request as RequestVote does. *)
Lemma service_of_vote n q p r' :
  parse_req (ser_req q) = Some q → svc_requestVote_ n = true → RequestVote q (raft_ n) = Ret (p, r') →
  service_of parse_req ser_resp parse_app unset_vote unset_append n "RequestVote" (ser_req q) = Some (ser_resp p)
  ∧ Service_RequestVote parse_req ser_resp unset_vote (ser_req q) n
    = Ret (Some (ser_resp p), mkNode r' (peers_ n) (svc_preVote_ n) (svc_requestVote_ n) (svc_appendEntries_ n)).
Proof.
  intros Hreq Hs Hv. assert (Service_RequestVote parse_req ser_resp unset_vote (ser_req q) n
    = Ret (Some (ser_resp p), mkNode r' (peers_ n) (svc_preVote_ n) (svc_requestVote_ n) (svc_appendEntries_ n))) as E.
  { unfold Service_RequestVote, serve, Node_RequestVote. by rewrite Hreq, Hs, Hv. }
  split; [|done]. unfold service_of, Service. by rewrite bool_decide_false, bool_decide_true, E.
Qed.

(** Delivering a request and then its reply, as steps of the cluster. *)
Lemma cluster_vote i j rc rv q p rv' rc' c :
  i ≠ j → vq_peerid q = i → nodes c !! i = Some rc → nodes c !! j = Some rv →
  RequestVote q rv = Ret (p, rv') → OnRequestVote p rc = Ret rc' →
  rtc cl_step (mkCluster (nodes c) ((j, q) :: requests c) (replies c))
              (mkCluster (<[i := rc']> (<[j := rv']> (nodes c))) (requests c) (replies c)).
Proof.
  intros Hij Hq Hi Hj Hv Ho. eapply rtc_l.
  - eapply (cl_request j q rv p rv' []); [done|done|done].
  - apply rtc_once. cbn. rewrite Hq.
    refine (cl_reply i p rc rc' [] (replies c) (mkCluster (<[j := rv']> (nodes c)) (requests c) ((i, p) :: replies c)) _ _ _);
      [done|cbn; by rewrite lookup_insert_ne|done].
Qed.

(** The framed call of RequestVote on the connection of every peer. *)
Definition vote_call (q : RequestVoteRequest) (p : RaftPeer) : RpcMessage :=
  mkRpc REQUEST (rpc_id_ (rp_chan (peer_rpc p))) raft_service "RequestVote" (ser_req q) [].

Lemma send_votes_ok q k ps :
  Forall (λ p, open_inv (rp_conn (peer_rpc p)) ∧ content (output_ (rp_conn (peer_rpc p))) = []
               ∧ zlen (encode (vote_call q p)) ≤ 4092) ps →
  ∃ ps', send_votes encode ser_req q k ps = Ret ps'
    ∧ Forall2 (λ p p', flow (rp_conn (peer_rpc p'))
                       = flow (rp_conn (peer_rpc p)) ++ (Some <$> frame (encode (vote_call q p)))) ps ps'.
Proof.
  intros H. revert k. induction H as [|p ps (Ho & Hc & Hl) _ IH]; intros k; cbn [send_votes]; [by exists []|].
  unfold RaftPeer_RequestVote, peer_CallMethod.
  change (CallMethod raft_service "RequestVote" (ser_req q) k (rp_chan (peer_rpc p))).1 with (vote_call q p).
  destruct (codec_Send_ok (encode (vote_call q p)) _ Ho Hl (or_introl Hc)) as (c' & -> & _ & Hf). cbn [mbind outcome_bind].
  destruct (IH (S k)) as (ps' & -> & Hps'). cbn [mbind outcome_bind]. eexists. split; [done|]. by constructor.
Qed.

(** ** Properties *)

(** C15: a vote over RPC is a vote of the cluster.  When a candidate's peer sends a
    vote request and the bytes reach the voter's server, the service answers
    with RequestVote of the voter's Raft; when the answer's bytes are back, the
    closure runs Raft::OnRequestVote on the candidate.  The two new Raft states
    are those of one request step and one reply step of the cluster in Raft.v,
    for any serialisation that parses back. *)
Theorem vote_over_rpc (i j : Z) (q : RequestVoteRequest) (p : RequestVoteResponse) (done : nat) (ss : services)
    (pc : RaftPeer) (ps : RpcPeer) (nc nv : Node) (rv' rc' : Raft) (c : cluster) :
  (∀ m, decode (encode m) = m) → parse_req (ser_req q) = Some q → parse_resp (ser_resp p) = p →
  i ≠ j → vq_peerid q = i → nodes c !! i = Some (raft_ nc) → nodes c !! j = Some (raft_ nv) →
  RequestVote q (raft_ nv) = Ret (p, rv') → OnRequestVote p (raft_ nc) = Ret rc' →
  svc_requestVote_ nv = true → onRequestVote_ pc = true →
  let chan := rp_chan (peer_rpc pc) in
  zlen (encode (CallMethod raft_service "RequestVote" (ser_req q) done chan).1) ≤ 4092 →
  zlen (encode (DoneCallback (ser_resp p) (rpc_id_ chan))) ≤ 4092 →
  - 2 ^ 63 ≤ rpc_id_ chan < 2 ^ 63 → outstandings_ chan !! i32 (rpc_id_ chan) = None →
  rp_services ps = Some (RegisterService raft_service (service_of parse_req ser_resp parse_app unset_vote unset_append nv) ss) →
  open_inv (rp_conn (peer_rpc pc)) → flow (rp_conn (peer_rpc pc)) = [] → open_inv (rp_conn ps) → flow (rp_conn ps) = [] →
  ∃ pc', RaftPeer_RequestVote encode ser_req q done pc = Ret pc' ∧
    ∀ sin, buf_wf sin → content sin = flow (rp_conn (peer_rpc pc')) →
    ∃ ps' nv', peer_OnMessage encode decode (mkPeer (rp_chan ps) (set_input sin (rp_conn ps)) (rp_services ps)) = Ret (Some None, ps')
      ∧ Service_RequestVote parse_req ser_resp unset_vote (ser_req q) nv = Ret (Some (ser_resp p), nv') ∧
    ∀ cin, buf_wf cin → content cin = flow (rp_conn ps') →
    ∃ pc'' response nc',
      peer_OnMessage encode decode
        (mkPeer (rp_chan (peer_rpc pc')) (set_input cin (rp_conn (peer_rpc pc'))) (rp_services (peer_rpc pc')))
      = Ret (Some (Some (done, response)), pc'')
      ∧ vote_closure parse_resp pc' response nc = Ret nc'
      ∧ rtc cl_step (mkCluster (nodes c) ((j, q) :: requests c) (replies c))
                    (mkCluster (<[i := raft_ nc']> (<[j := raft_ nv']> (nodes c))) (requests c) (replies c)).
Proof.
  intros Hdec Hreq Hresp Hij Hq Hi Hj Hv Ho Hsvc Hcb chan Hl1 Hl2 Hid Hfree Hss Hic Hfc His Hfs.
  destruct (service_of_vote nv q p rv' Hreq Hsvc Hv) as [Hfn Hstep].
  destruct (exchange_ok encode decode ss (service_of parse_req ser_resp parse_app unset_vote unset_append nv) raft_service "RequestVote" (ser_req q) (ser_resp p)
              done (peer_rpc pc) ps Hdec Hl1 Hl2 Hid Hfree Hfn Hss Hic Hfc His Hfs) as (rpc' & E1 & H1).
  unfold RaftPeer_RequestVote. rewrite E1. cbn [mbind outcome_bind]. eexists. split; [reflexivity|].
  cbn [peer_rpc]. intros sin Hws Hcs. destruct (H1 sin Hws Hcs) as (ps' & E2 & _ & H2).
  eexists ps', _. split; [exact E2|]. split; [exact Hstep|]. intros cin Hwc Hcc.
  destruct (H2 cin Hwc Hcc) as (pc'' & E3 & _).
  exists pc'', (ser_resp p), (mkNode rc' (peers_ nc) (svc_preVote_ nc) (svc_requestVote_ nc) (svc_appendEntries_ nc)).
  split; [exact E3|]. split.
  - unfold vote_closure, Node_OnRequestVote. rewrite Hresp, Hcb. cbn. by rewrite Ho.
  - cbn [raft_]. by eapply cluster_vote.
Qed.

(** A proposal asks every peer.  Propose makes the node a candidate of the next
    term that has voted for itself, and on every open, idle peer connection the
    bytes sent are exactly one framed call of RequestVote with the new term,
    under the id of that peer's channel. *)
Theorem propose_asks_all (cmd : bytes) (n : Node) (t : Z) :
  currentTerm_ (raft_ n) = t → - 2 ^ 63 ≤ t < 2 ^ 63 - 1 →
  let q := mkVoteReq (t + 1) (id_ (raft_ n)) (id_ (raft_ n)) 0 0 in
  Forall (λ p, open_inv (rp_conn (peer_rpc p)) ∧ content (output_ (rp_conn (peer_rpc p))) = []
               ∧ zlen (encode (vote_call q p)) ≤ 4092) (peers_ n) →
  ∃ n', Node_Propose encode ser_req cmd n = Ret n' ∧ role_ (raft_ n') = Some kCandidater ∧ currentTerm_ (raft_ n') = t + 1
    ∧ votedFor_ (raft_ n') = id_ (raft_ n)
    ∧ Forall2 (λ p p', flow (rp_conn (peer_rpc p'))
                       = flow (rp_conn (peer_rpc p)) ++ (Some <$> frame (encode (vote_call q p)))) (peers_ n) (peers_ n').
Proof.
  intros Ht Hb q Hps. unfold Node_Propose, Propose, ToCandidater, chk64. cbn [set_role currentTerm_]. rewrite Ht.
  rewrite bool_decide_true by lia. cbn [mbind outcome_bind fst snd].
  match goal with |- context [StartRequestVote ?r] => change (StartRequestVote r) with q end.
  destruct (send_votes_ok q 0 _ Hps) as (ps' & -> & HF). cbn [mbind outcome_bind]. eexists. split; [done|]. done.
Qed.

End VoteOverRpc.

(** ** Witnesses *)

Definition demo_ser_req (q : RequestVoteRequest) : bytes :=
  [vq_term q; vq_peerid q; vq_candidateid q; vq_lastlogindex q; vq_lastlogterm q].
Definition demo_parse_req (l : bytes) : option RequestVoteRequest :=
  match l with [t; p; c; i; lt] => Some (mkVoteReq t p c i lt) | _ => None end.
Definition demo_ser_resp (p : RequestVoteResponse) : bytes := [vr_term p; if vr_granted p then 1 else 0; vr_peerid p].
Definition demo_parse_resp (l : bytes) : RequestVoteResponse :=
  match l with [t; g; p] => mkVoteResp t (g =? 1) p | _ => mkVoteResp 0 false 0 end.
Definition demo_parse_app (l : bytes) : option AppendEntriesRequest := None.

(** Node 0 is a candidate, node 1 has a log. *)
Definition demo_candidate : Node :=
  mkNode (match ToCandidater (demo_raft 0 demo_log) with Ret (_, r) => r | _ => demo_raft 0 demo_log end)
    [SetOnRequestVote (RaftPeer_new 0 demo_conn)] true true true.
Definition demo_voter : Node := mkNode (demo_raft 1 demo_log) [] true true true.
Definition demo_raft_peer : RaftPeer := SetOnRequestVote (RaftPeer_new 0 demo_conn).

Lemma vote_over_rpc_witness :
  ∃ pc', RaftPeer_RequestVote demo_encode demo_ser_req (demo_vote 1 9) 0 demo_raft_peer = Ret pc' ∧
    ∀ sin, buf_wf sin → content sin = flow (rp_conn (peer_rpc pc')) →
    ∃ nv', Service_RequestVote demo_parse_req demo_ser_resp [] (demo_ser_req (demo_vote 1 9)) demo_voter
           = Ret (Some [0; 1; 1], nv').
Proof.
  destruct (vote_over_rpc demo_encode demo_decode demo_ser_req demo_parse_req demo_ser_resp demo_parse_resp demo_parse_app [] [] 0 1
    (demo_vote 1 9) (mkVoteResp 0 true 1) 0 ∅ demo_raft_peer
    (mkPeer (mkChan 0 ∅) demo_conn (Some (RegisterService raft_service (service_of demo_parse_req demo_ser_resp demo_parse_app [] [] demo_voter) ∅)))
    demo_candidate demo_voter (SetVotedFor 0 (demo_raft 1 demo_log)) (raft_ demo_candidate)
    (mkCluster {[0 := raft_ demo_candidate; 1 := raft_ demo_voter]} [] [])) as (pc' & H1 & H2).
  - apply demo_decode_encode.
  - done.
  - done.
  - done.
  - done.
  - by vm_compute.
  - by vm_compute.
  - by vm_compute.
  - by vm_compute.
  - done.
  - done.
  - unfold demo_encode, zlen. cbn. lia.
  - unfold demo_encode, zlen. cbn. lia.
  - cbn. lia.
  - done.
  - done.
  - exact demo_open.
  - done.
  - exact demo_open.
  - done.
  - exists pc'. split; [exact H1|]. intros sin Hw Hc. destruct (H2 sin Hw Hc) as (ps' & nv' & _ & H & _). exists nv'. exact H.
Defined.

Lemma propose_asks_all_witness :
  ∃ n', Node_Propose demo_encode demo_ser_req [] (mkNode (demo_raft 0 demo_log) [demo_raft_peer] true true true) = Ret n'
    ∧ currentTerm_ (raft_ n') = 1.
Proof.
  destruct (propose_asks_all demo_encode demo_ser_req [] (mkNode (demo_raft 0 demo_log) [demo_raft_peer] true true true) 0)
    as (n' & H1 & _ & H2 & _).
  - done.
  - lia.
  - constructor; [|constructor]. split; [exact demo_open|]. split; [done|]. unfold demo_encode, zlen. cbn. lia.
  - exists n'. split; [exact H1|exact H2].
Defined.
