(* ===== verification/NodeStart.v ===== *)
(** * raft/node.cc, raft/raft_peer.h, rpc/protorpc/rpc_server.cc: starting and ending a node

    RaftNode.v has the messages of a running node.  Here a new node connects to its
    peers and starts its server: Node::Start, Node::StartServer and ~Node, with the
    RpcServer around the TcpServer of TcpServer.v.  The descriptors and ids of the new
    channels are arguments, by the number of the peer. *)

From S2P Require Import Prelude EventLoopPool TcpServer Buffer Channel Poller Time TimerQueue LoopLife TcpConn.
From S2P Require Import Rpc RpcStream RaftLog Raft RaftNode.

(** ** Connecting *)

(** TcpConn::Connect(): the members of the constructor, no timeout. *)
Definition Connect_self (fd id : Z) (c : TcpConn) : outcome TcpConn := Connect (λ _, None) fd id 0 0 0 0 c.

Definition RaftPeer_Connect (fd id : Z) (p : RaftPeer) : outcome RaftPeer :=
  conn ← Connect_self fd id (rp_conn (peer_rpc p));
  Ret (mkRaftPeer (mkPeer (rp_chan (peer_rpc p)) conn (rp_services (peer_rpc p)))
         (onPreVote_ p) (onRequestVote_ p) (onAppendEntries_ p)).

(** The loop of Node::Start over the peers from number [k] on. *)
Fixpoint connect_peers (fds ids : nat → Z) (k : nat) (ps : list RaftPeer) : outcome (list RaftPeer) :=
  match ps with
  | [] => Ret []
  | p :: ps =>
      p ← RaftPeer_Connect (fds k) (ids k) p;
      ps ← connect_peers fds ids (S k) ps;
      Ret (p :: ps)
  end.

Definition Node_Start (fds ids : nat → Z) (n : Node) : outcome Node :=
  ps ← connect_peers fds ids 0 (peers_ n);
  Ret (mkNode (raft_ n) ps (svc_preVote_ n) (svc_requestVote_ n) (svc_appendEntries_ n)).

(** ** The server *)

Record RpcServer : Type := mkRpcServer {
  rpc_server_ : TcpServer;
  rpc_services_ : services;
}.

(** RpcServer(loop, addr): OnConnection is the callback of new connections. *)
Definition RpcServer_new (loop : Z) : RpcServer := mkRpcServer (OnConnCreate (TcpServer_new loop)) ∅.

Definition RpcServer_SetThreadNum (num : Z) (s : RpcServer) : RpcServer :=
  let t := rpc_server_ s in
  mkRpcServer (mkServer (server_loop_ t) (listen_fd_ t) (TcpServer.statecb_ t) (TcpServer.readcb_ t) (createcb_ t)
                 (SetThreadNum num (threadPool_ t)) (conns_ t) (next_conn t)) (rpc_services_ s).

Definition RpcServer_RegisterService (name : string) (f : string → bytes → option bytes) (s : RpcServer) : RpcServer :=
  mkRpcServer (rpc_server_ s) (RegisterService name f (rpc_services_ s)).

(** Start(reusePort); [fd], [bound] and [errno] are the kernel's answers to Bind. *)
Definition RpcServer_Start (loop_of : nat → Z) (fd : Z) (bound : bool) (errno : Z) (s : RpcServer) : outcome RpcServer :=
  t ← TcpServer_Start loop_of fd bound errno (rpc_server_ s); Ret (mkRpcServer t (rpc_services_ s)).

(** The server_ of Node(config, loop). *)
Definition Node_server (loop : Z) (f : string → bytes → option bytes) : RpcServer :=
  RpcServer_RegisterService raft_service f (RpcServer_new loop).

(** Node::StartServer *)
Definition Node_StartServer (loop_of : nat → Z) (fd : Z) (bound : bool) (errno : Z) : RpcServer → outcome RpcServer :=
  RpcServer_Start loop_of fd bound errno.

(** ** The end *)

(** ~Node in thread [t]: raft_ is deleted, then the loop. *)
Definition Node_destroy (t : Z) (l : LoopParts) (n : Node) : outcome LoopParts := EventLoop_destroy t l.

(** ** Lemmas *)

(** A connection that was never attached. *)
Definition fresh (c : TcpConn) : Prop :=
  channel_ c = None ∧ buf_wf (output_ c) ∧ content (output_ c) = [] ∧ wire c = [] ∧ Forall wres_ok (writes c).

(** After Connect: the handshake is awaited. *)
Definition connecting (c : TcpConn) (m : list cell) : Prop :=
  state_ c = kHandShakeing ∧ buf_wf (output_ c) ∧ content (output_ c) = m ∧ wire c = [] ∧ Forall wres_ok (writes c)
  ∧ ∃ x, channel_ c = Some x ∧ 0 ≤ fd_ x ∧ IsWriting x = true.

Section Lemmas.
Implicit Types c : TcpConn.

Lemma Connect_self_ok fd id c :
  fresh c → 0 ≤ fd → ∃ c', Connect_self fd id c = Ret c' ∧ connecting c' [].
Proof.
  intros (_ & Hwf & Hc & Hw & Hws) Hfd. eexists. split; [done|]. split_and!; try done.
  eexists. split; [done|]. split; [done|]. by vm_compute.
Qed.

(** A message sent during the handshake waits in the output buffer. *)
Lemma codec_Send_connecting payload c :
  connecting c [] → zlen payload ≤ 4092 →
  ∃ c', codec_Send payload c = Ret c' ∧ connecting c' (Some <$> frame payload).
Proof.
  intros (Hst & Hwf & Hc & Hw & Hws & x & Hx & Hfd & Hiw) Hlen. unfold codec_Send.
  destruct (FillEmptyBuffer_ok payload Hlen) as (b & -> & Hwb & Hcb). cbn [mbind outcome_bind].
  unfold Send_buffer. rewrite Hx, Hiw. destruct (Absorb (output_ c) b) as [r| |] eqn:E.
  2,3: unfold Absorb in E; rewrite GetSize_content, Hc in E by done; done.
  destruct (Absorb_Ret _ _ _ Hwf Hwb E) as (Hwr & _ & Hcr & _). cbn. eexists. split; [done|].
  split_and!; try done; [by cbn; rewrite Hcr, Hc, Hcb|]. by exists x.
Qed.

(** Before Connect a message is dropped. *)
Lemma codec_Send_fresh payload c : fresh c → zlen payload ≤ 4092 → codec_Send payload c = Ret c.
Proof.
  intros (Hx & _) Hlen. unfold codec_Send. destruct (FillEmptyBuffer_ok payload Hlen) as (b & -> & _).
  cbn [mbind outcome_bind]. unfold Send_buffer. by rewrite Hx.
Qed.

(** The writable event of the handshake, and the one after it. *)
Lemma handshake_opens on_read on_state c m :
  connecting c m →
  ∃ c1, HandleWrite on_read on_state 1 POLLOUT c = Ret c1 ∧ open_inv c1 ∧ wire c1 = [] ∧ content (output_ c1) = m ∧ writes c1 = writes c.
Proof.
  intros (Hst & Hwf & Hc & Hw & Hws & x & Hx & Hfd & Hiw). unfold HandleWrite. rewrite Hst.
  unfold HandleHandShake, chan. rewrite Hx. cbn. eexists. split; [done|]. split; [|done].
  apply (open_intro (EnableRead x)); try done. intros _. unfold IsWriting, EnableRead in *. cbn.
  rewrite land_i16, lor_land_disjoint by done. done.
Qed.

Lemma writable_drains on_read on_state c n ws :
  open_inv c → content (output_ c) ≠ [] → writes c = Wrote n :: ws → zlen (content (output_ c)) ≤ n →
  ∃ c', HandleWrite on_read on_state 1 POLLOUT c = Ret c' ∧ wire c' = wire c ++ content (output_ c) ∧ content (output_ c') = [].
Proof.
  intros Ho Hne Hws Hn. pose proof Ho as (Hst & Hwf & _ & x & Hx & Hfd & _).
  unfold HandleWrite. rewrite Hst, read_all by done. cbn [mbind outcome_bind]. unfold ISend. rewrite Hws.
  set (d := content (output_ c)) in *. assert (0 < zlen d) as Hd.
  { pose proof (zlen_nonneg d). destruct (decide (zlen d = 0)) as [E|]; [by apply zlen_0_nil in E|lia]. }
  cbn [ISend_loop]. rewrite (proj2 (Z.leb_gt _ _)) by lia. unfold chan. rewrite Hx. cbn [from_option_fault mbind outcome_bind].
  rewrite (proj2 (Z.ltb_ge (fd_ x) 0)), Z.sub_0_r, Z.min_r, (proj2 (Z.ltb_lt 0 _)) by lia.
  assert (∀ w c, ISend_loop w d (0 + zlen d) c = Ret (zlen d, set_writes w (wire c) c)) as Hend.
  { intros w c1. rewrite Z.add_0_l. destruct w; cbn [ISend_loop]; by rewrite Z.leb_refl. }
  rewrite Hend. cbn [mbind outcome_bind fst snd]. unfold zsub. rewrite zdrop_0, ztake_all by lia.
  destruct (Consume_ok (zlen d) (output_ c) Hwf) as (Hcw & Hcc & _); [fold d; lia|]. fold d in Hcc. rewrite zdrop_all in Hcc by lia.
  cbn. rewrite IsEmpty_content by done. rewrite Hcc, bool_decide_true by done.
  cbn. rewrite Hx. cbn. destruct (IsWriting x); (eexists; split; [done|]; split; [done|]; exact Hcc).
Qed.

Lemma connect_peers_ok fds ids k ps :
  (∀ j, 0 ≤ fds j) → Forall (λ p, fresh (rp_conn (peer_rpc p))) ps →
  ∃ ps', connect_peers fds ids k ps = Ret ps'
    ∧ Forall2 (λ p p', rp_chan (peer_rpc p') = rp_chan (peer_rpc p) ∧ connecting (rp_conn (peer_rpc p')) []) ps ps'.
Proof.
  intros Hfd H. revert k. induction H as [|p ps Hp _ IH]; intros k; cbn [connect_peers]; [by exists []|].
  unfold RaftPeer_Connect. destruct (Connect_self_ok (fds k) (ids k) _ Hp (Hfd k)) as (c' & -> & Hc). cbn [mbind outcome_bind].
  destruct (IH (S k)) as (ps' & -> & HF). cbn [mbind outcome_bind]. eexists. split; [done|]. by constructor.
Qed.

End Lemmas.

Section Election.
Context (encode : RpcMessage → bytes) (ser_req : RequestVoteRequest → bytes).
Implicit Types p : RaftPeer.

(** The call that [send_votes] makes on the connection of [p]. *)
Lemma RaftPeer_RequestVote_eq q k p c' :
  codec_Send (encode (vote_call ser_req q p)) (rp_conn (peer_rpc p)) = Ret c' →
  RaftPeer_RequestVote encode ser_req q k p
  = Ret (mkRaftPeer (mkPeer (CallMethod raft_service "RequestVote" (ser_req q) k (rp_chan (peer_rpc p))).2 c'
           (rp_services (peer_rpc p))) (onPreVote_ p) (onRequestVote_ p) (onAppendEntries_ p)).
Proof.
  intros E. unfold RaftPeer_RequestVote, peer_CallMethod.
  change (CallMethod raft_service "RequestVote" (ser_req q) k (rp_chan (peer_rpc p))).1 with (vote_call ser_req q p).
  by rewrite E.
Qed.

(** A run of [send_votes] from what each of its sends does. *)
Lemma send_votes_each (P : RaftPeer → Prop) (Q : TcpConn → TcpConn → RaftPeer → Prop) q k ps :
  (∀ p, P p → ∃ c', codec_Send (encode (vote_call ser_req q p)) (rp_conn (peer_rpc p)) = Ret c' ∧ Q (rp_conn (peer_rpc p)) c' p) →
  Forall P ps →
  ∃ ps', send_votes encode ser_req q k ps = Ret ps' ∧ Forall2 (λ p p', Q (rp_conn (peer_rpc p)) (rp_conn (peer_rpc p')) p) ps ps'
    ∧ ∀ i p p', ps !! i = Some p → ps' !! i = Some p' →
        rp_chan (peer_rpc p') = (CallMethod raft_service "RequestVote" (ser_req q) (k + i) (rp_chan (peer_rpc p))).2.
Proof.
  intros HQ H. revert k. induction H as [|p ps Hp _ IH]; intros k; cbn [send_votes].
  { exists []. split_and!; [done|done|]. intros i p p'. by rewrite lookup_nil. }
  destruct (HQ p Hp) as (c' & E & Hq). rewrite (RaftPeer_RequestVote_eq _ _ _ _ E). cbn [mbind outcome_bind].
  destruct (IH (S k)) as (ps' & -> & HF & Hch). cbn [mbind outcome_bind]. eexists. split; [done|]. split; [by constructor|].
  intros [|i] p1 p2; cbn.
  - intros [= <-] [= <-]. by rewrite Nat.add_0_r.
  - intros H1 H2. rewrite (Hch i p1 p2 H1 H2). by rewrite Nat.add_succ_r.
Qed.

Lemma Node_Propose_eq cmd n :
  - 2 ^ 63 ≤ currentTerm_ (raft_ n) < 2 ^ 63 - 1 →
  let q := mkVoteReq (currentTerm_ (raft_ n) + 1) (id_ (raft_ n)) (id_ (raft_ n)) 0 0 in
  ∃ r, role_ r = Some kCandidater ∧ currentTerm_ r = currentTerm_ (raft_ n) + 1 ∧
    Node_Propose encode ser_req cmd n
    = (ps ← send_votes encode ser_req q 0 (peers_ n);
       Ret (mkNode r ps (svc_preVote_ n) (svc_requestVote_ n) (svc_appendEntries_ n))).
Proof.
  intros Hb q. unfold Node_Propose, Propose, ToCandidater, chk64. cbn [set_role currentTerm_].
  rewrite bool_decide_true by lia. cbn [mbind outcome_bind fst snd]. eexists. split; [|split]; [| |reflexivity]; done.
Qed.

End Election.

(** ** Properties *)

(** C14: the first election of a node.  A new node connects to its peers, then
    something is proposed before any connection is there.  Every peer's request
    waits in the output buffer; the writable event with which the handshake
    succeeds opens the connection and keeps it; and a writable event after it, on a
    socket that takes the bytes, puts exactly the framed RequestVote of the next term
    on the wire and empties the buffer.  No request is lost or sent twice. *)
Theorem first_election (encode : RpcMessage → bytes) (ser_req : RequestVoteRequest → bytes) (fds ids : nat → Z)
    (cmd : bytes) (n : Node) (on_read on_state : TcpConn → outcome TcpConn) :
  let q := mkVoteReq (currentTerm_ (raft_ n) + 1) (id_ (raft_ n)) (id_ (raft_ n)) 0 0 in
  - 2 ^ 63 ≤ currentTerm_ (raft_ n) < 2 ^ 63 - 1 → (∀ k, 0 ≤ fds k) →
  Forall (λ p, fresh (rp_conn (peer_rpc p)) ∧ zlen (encode (vote_call ser_req q p)) ≤ 4092) (peers_ n) →
  ∃ n1 n2, Node_Start fds ids n = Ret n1 ∧ Node_Propose encode ser_req cmd n1 = Ret n2
    ∧ role_ (raft_ n2) = Some kCandidater
    ∧ Forall2 (λ p p2,
        let m := Some <$> frame (encode (vote_call ser_req q p)) in
        let c := rp_conn (peer_rpc p2) in
        wire c = [] ∧ content (output_ c) = m
        ∧ ∃ c1, HandleWrite on_read on_state 1 POLLOUT c = Ret c1 ∧ open_inv c1 ∧ wire c1 = []
          ∧ ∀ w ws, writes c1 = Wrote w :: ws → zlen m ≤ w →
            ∃ c2, HandleWrite on_read on_state 1 POLLOUT c1 = Ret c2 ∧ wire c2 = m ∧ content (output_ c2) = [])
      (peers_ n) (peers_ n2).
Proof.
  intros q Hb Hfd Hps. assert (Forall (λ p, fresh (rp_conn (peer_rpc p))) (peers_ n)) as Hfresh.
  { eapply Forall_impl; [exact Hps|]. by intros p []. }
  destruct (connect_peers_ok fds ids 0 (peers_ n) Hfd Hfresh) as (ps1 & E1 & HF1). unfold Node_Start. rewrite E1.
  cbn [mbind outcome_bind]. set (n1 := mkNode _ _ _ _ _). destruct (Node_Propose_eq encode ser_req cmd n1 Hb) as (r & Hr & _ & E2).
  set (call p := encode (vote_call ser_req q p)).
  assert (Forall (λ p, connecting (rp_conn (peer_rpc p)) [] ∧ zlen (call p) ≤ 4092) ps1) as Hps1.
  { clear -HF1 Hps. induction HF1 as [|p p' ps ps' [Hc Hp'] _ IH]; [done|]. apply Forall_cons in Hps as [[_ Hl] Hps].
    constructor; [split; [done|]|by apply IH]. unfold call, vote_call in *. by rewrite Hc. }
  destruct (send_votes_each encode ser_req (λ p, connecting (rp_conn (peer_rpc p)) [] ∧ zlen (call p) ≤ 4092)
    (λ _ c' p, connecting c' (Some <$> frame (call p))) q 0 ps1) as (ps2 & E3 & HF2 & _); [|done|].
  { intros p [Hc Hl]. by apply codec_Send_connecting. }
  exists n1, (mkNode r ps2 (svc_preVote_ n) (svc_requestVote_ n) (svc_appendEntries_ n)). split; [done|]. split; [|split; [done|]].
  { rewrite E2. unfold n1. cbn [peers_]. fold q. change (mkVoteReq _ _ _ 0 0) with q. by rewrite E3. }
  cbn [peers_]. clear -HF1 HF2. revert ps2 HF2. induction HF1 as [|p p1 ps ps1 [Hc _] _ IH]; intros ps2 HF2.
  { apply Forall2_nil_inv_l in HF2 as ->. done. }
  apply Forall2_cons_inv_l in HF2 as (p2 & ps2' & Hp2 & HF2 & ->). constructor; [|by apply IH].
  assert (call p1 = call p) as Hcall by (unfold call, vote_call; by rewrite Hc). rewrite Hcall in Hp2.
  fold (call p). cbv zeta. set (m := Some <$> frame (call p)) in *. pose proof Hp2 as (_ & _ & Hout & Hw & _).
  destruct (handshake_opens on_read on_state _ _ Hp2) as (c1 & E & Ho & Hw1 & Ho1 & _).
  split_and!; try done. exists c1. split_and!; try done. intros w ws Hws Hl.
  destruct (writable_drains on_read on_state c1 w ws Ho) as (c2 & E' & Hw2 & Ho2); [|done|by rewrite Ho1|].
  { rewrite Ho1. unfold m, frame. by destruct (be32_bytes _) eqn:Eb; [apply (f_equal zlen) in Eb; rewrite zlen_be32 in Eb|]. }
  exists c2. split; [done|]. by rewrite Hw2, Hw1, Ho1.
Qed.

(** An election before Start is lost.  When something is proposed before the node
    has connected, Propose returns and the node is a candidate that has stored the
    calls as outstanding; but Send drops the messages, so after Start and a
    successful handshake nothing is on the wire or in the buffer, and no answer will
    ever run the closures. *)
Theorem propose_before_start (encode : RpcMessage → bytes) (ser_req : RequestVoteRequest → bytes) (fds ids : nat → Z)
    (cmd : bytes) (n : Node) (on_read on_state : TcpConn → outcome TcpConn) :
  let q := mkVoteReq (currentTerm_ (raft_ n) + 1) (id_ (raft_ n)) (id_ (raft_ n)) 0 0 in
  - 2 ^ 63 ≤ currentTerm_ (raft_ n) < 2 ^ 63 - 1 → (∀ k, 0 ≤ fds k) →
  Forall (λ p, fresh (rp_conn (peer_rpc p)) ∧ zlen (encode (vote_call ser_req q p)) ≤ 4092
               ∧ - 2 ^ 63 ≤ rpc_id_ (rp_chan (peer_rpc p)) < 2 ^ 63) (peers_ n) →
  ∃ n1 n2, Node_Propose encode ser_req cmd n = Ret n1 ∧ role_ (raft_ n1) = Some kCandidater ∧ Node_Start fds ids n1 = Ret n2
    ∧ length (peers_ n2) = length (peers_ n)
    ∧ ∀ k p p2, peers_ n !! k = Some p → peers_ n2 !! k = Some p2 →
        outstandings_ (rp_chan (peer_rpc p2)) !! i32 (rpc_id_ (rp_chan (peer_rpc p))) = Some k
        ∧ ∃ c1, HandleWrite on_read on_state 1 POLLOUT (rp_conn (peer_rpc p2)) = Ret c1 ∧ open_inv c1 ∧ flow c1 = [].
Proof.
  intros q Hb Hfd Hps. destruct (Node_Propose_eq encode ser_req cmd n Hb) as (r & Hr & _ & E1).
  destruct (send_votes_each encode ser_req (λ p, fresh (rp_conn (peer_rpc p)) ∧ zlen (encode (vote_call ser_req q p)) ≤ 4092
      ∧ - 2 ^ 63 ≤ rpc_id_ (rp_chan (peer_rpc p)) < 2 ^ 63) (λ c c' p, fresh c ∧ c' = c) q 0 (peers_ n)) as (ps1 & E2 & HF1 & Hch); [|done|].
  { intros p (Hf & Hl & _). eexists. split; [by apply codec_Send_fresh|done]. }
  exists (mkNode r ps1 (svc_preVote_ n) (svc_requestVote_ n) (svc_appendEntries_ n)).
  destruct (connect_peers_ok fds ids 0 ps1 Hfd) as (ps2 & E3 & HF2).
  { clear -HF1. induction HF1 as [|p p' ps ps' [Hf Hc] _ IH]; [done|]. constructor; [by rewrite Hc|done]. }
  eexists. split; [rewrite E1; fold q; by rewrite E2|]. split; [done|]. unfold Node_Start. cbn [peers_]. rewrite E3.
  split; [done|]. cbn [peers_]. split; [by rewrite <- (Forall2_length _ _ _ HF2), <- (Forall2_length _ _ _ HF1)|].
  intros k p p2 Hp Hp2. destruct (Forall2_lookup_r _ _ _ _ _ HF2 Hp2) as (p1 & Hp1 & Hc & Hcon). split.
  - rewrite Hc, (Hch k p p1 Hp Hp1), CallMethod_eq; [apply lookup_insert_eq|].
    apply (Forall_lookup_1 _ _ _ _ Hps) in Hp as (_ & _ & ?). done.
  - destruct (handshake_opens on_read on_state _ _ Hcon) as (c1 & E & Ho & Hw & Hout & _). exists c1. split_and!; try done.
    unfold flow. by rewrite Hw, Hout.
Qed.

(** A node's server.  StartServer runs in the base loop with the default of no
    threads: when the address can be bound, every accepted connection whose names can
    be read is attached to the node's own loop, with OnConnection called on it; when
    it cannot, StartServer returns all the same, there is no listening channel, and
    nothing tells the node.  Calling it twice fails an assertion. *)
Theorem node_server (loop : Z) (f : string → bytes → option bytes) (loop_of : nat → Z) (fd errno : Z) :
  0 ≤ fd →
  ∃ s, Node_StartServer loop_of fd true errno (Node_server loop f) = Ret s
    ∧ rpc_services_ s !! raft_service = Some f
    ∧ (∀ rs, ∃ evs s', HandleAccept rs (rpc_server_ s) = Ret (evs, s')
         ∧ omap attached evs = imap (λ i fd, (loop, i, fd)) (served rs)
         ∧ conns_ s' = imap (λ i fd, mkSConn i fd loop) (served rs))
    ∧ (∀ fd' b errno', Node_StartServer loop_of fd' b errno' s = Fault AssertFailed)
    ∧ ∃ s0, Node_StartServer loop_of fd false errno (Node_server loop f) = Ret s0 ∧ listen_fd_ (rpc_server_ s0) = None.
Proof.
  intros Hfd. eexists. split; [reflexivity|]. split; [apply lookup_insert_eq|]. split; [|split].
  - intros rs. set (s := rpc_server_ _). unfold HandleAccept. change (listen_fd_ s) with (Some fd).
    cbn [from_option_fault mbind outcome_bind]. rewrite (proj2 (Z.leb_le _ _)) by done.
    destruct (accept_loop_ok rs s) as (evs & s' & E & Ha & _ & Hc & _); [by_decide|].
    assert (assignment (threadPool_ s) (next_conn s) (served rs) = imap (λ i fd, (loop, i, fd)) (served rs)) as Has.
    { unfold assignment. apply imap_ext. intros i x _. unfold round_robin, znth. by case_bool_decide. }
    rewrite Has in Ha, Hc. exists evs, s'. split_and!; try done. rewrite Hc, fmap_imap. done.
  - intros fd' b errno'. by destruct b.
  - by eexists.
Qed.

(** A node cannot be destroyed.  After any work of a loop that started as its
    constructor leaves it, ~Node, which deletes the loop, ends the process. *)
Theorem node_destructor_aborts (t tfd tch efd ech id : Z) :
  tfd ≠ efd → tch ≠ ech → 0 ≤ efd →
  ∃ l, EventLoop_start t tfd tch efd ech id = Ret l
    ∧ ∀ l' n t', rtc (user_step t) l l' → Node_destroy t' l' n = Fault AssertFailed.
Proof.
  intros Hne Hch Hfd. destruct (EventLoop_start_ok t tfd tch efd ech id Hne Hch Hfd) as (l & E & _ & _ & _ & Hok).
  exists l. split; [done|]. intros l' n t' Hs. apply EventLoop_destroy_aborts.
  exact (rtc_invariant _ wakeup_ok _ _ Hok (user_step_ok t) Hs).
Qed.

(** ** Witnesses *)

(** A node with one peer, whose socket will take twenty bytes. *)
Definition demo_addr : Ip4Addr := mkAddr 16777343 20480.
Definition demo_fresh : TcpConn := set_state kInvalid (set_channel None (set_writes [Wrote 20] [] demo_conn)).
Definition demo_node : Node := Node_new (Config_new 0 [] demo_addr demo_addr [demo_addr]) [] [0] [demo_fresh].
Definition demo_fds (k : nat) : Z := 5.
Definition demo_ids (k : nat) : Z := 1.

Lemma demo_fresh_ok : fresh (set_callbacks true (TcpConn.statecb_ demo_fresh) demo_fresh).
Proof. split; [done|]. split; [apply wf_new|]. split; [done|]. split; [done|]. by repeat constructor. Qed.

Lemma first_election_witness :
  ∃ n1 n2, Node_Start demo_fds demo_ids demo_node = Ret n1 ∧ Node_Propose demo_encode demo_ser_req [] n1 = Ret n2
    ∧ role_ (raft_ n2) = Some kCandidater.
Proof.
  destruct (first_election demo_encode demo_ser_req demo_fds demo_ids [] demo_node idle idle) as (n1 & n2 & E1 & E2 & E3 & _).
  - cbn. lia.
  - by intros k.
  - constructor; [|constructor]. split; [exact demo_fresh_ok|]. unfold demo_encode, zlen. cbn. lia.
  - exists n1, n2. split; [exact E1|]. split; [exact E2|exact E3].
Defined.

Lemma propose_before_start_witness :
  ∃ n1 n2, Node_Propose demo_encode demo_ser_req [] demo_node = Ret n1 ∧ Node_Start demo_fds demo_ids n1 = Ret n2
    ∧ length (peers_ n2) = 1%nat.
Proof.
  destruct (propose_before_start demo_encode demo_ser_req demo_fds demo_ids [] demo_node idle idle)
    as (n1 & n2 & E1 & _ & E2 & E3 & _).
  - cbn. lia.
  - by intros k.
  - constructor; [|constructor]. split; [exact demo_fresh_ok|]. split; [unfold demo_encode, zlen; cbn; lia|cbn; lia].
  - exists n1, n2. split; [exact E1|]. split; [exact E2|exact E3].
Defined.

Lemma node_server_witness :
  ∃ s, Node_StartServer (λ _, 0) 3 true 0 (Node_server 7 (λ _ _, None)) = Ret s
    ∧ ∃ evs s', HandleAccept [AConn 9 true true] (rpc_server_ s) = Ret (evs, s') ∧ omap attached evs = [(7, 0%nat, 9)].
Proof.
  destruct (node_server 7 (λ _ _, None) (λ _, 0) 3 0) as (s & E & _ & H & _); [lia|].
  exists s. split; [exact E|]. destruct (H [AConn 9 true true]) as (evs & s' & E' & Ha & _). exists evs, s'. split; [exact E'|exact Ha].
Defined.

Lemma node_destructor_aborts_witness :
  ∃ l, EventLoop_start 7 3 64 4 80 1 = Ret l ∧ Node_destroy 7 l demo_node = Fault AssertFailed.
Proof.
  destruct (node_destructor_aborts 7 3 64 4 80 1) as (l & E & H); [lia|lia|lia|].
  exists l. split; [exact E|]. apply (H l demo_node 7). constructor.
Defined.
