(* ===== verification/Http.v ===== *)
(** * net/http.h, net/http.cc: HTTP messages, connections and server

    Strings are byte lists; positions are ints, so that a failed find is -1.
    [substr] throws when the position is behind the end.  headers_ is the
    sequence of its entries in key order, args_ a finite map.  Reading a
    character outside a string is a fault, except at the end, where it is NUL.
    The first line of a message is printed with "%s" of c_str(), so each of its
    strings ends at its first NUL ([c_text] of Prelude.v). *)

From stdpp Require Import pretty.
From S2P Require Import Prelude Text Buffer.

(** ** std::string and libc *)

(** (int) s.find(p, pos) *)
Definition find_int (p s : bytes) (pos : Z) : Z := i32 (find_ret (find p s (u64 pos))).

(** s.substr(pos, n), with size_t arguments converted from int *)
Definition substr (s : bytes) (pos n : Z) : outcome bytes :=
  if zlen s <? u64 pos then Fault ThrowRange else Ret (ztake (u64 n) (zdrop (u64 pos) s)).

(** s[i] *)
Definition char_at (s : bytes) (i : Z) : outcome Z :=
  if i =? zlen s then Ret 0 else from_option_fault OutOfBounds (znth i s).

(** "%lu" *)
Definition show_size (n : Z) : bytes := str (pretty (Z.to_N n)).

(** ** Messages *)

Inductive Result : Type := Error | Complete | NotComplete | Continue.

Record HttpMsg : Type := mkMsg {
  headers_ : list (bytes * bytes);
  version_ : bytes;
  body_ : bytes;
  complete_ : bool;
  contentLen_ : Z;
  scanned_ : Z;
}.

Record HttpRequest : Type := mkReq {
  req_msg : HttpMsg;
  args_ : gmap bytes bytes;
  method_ : bytes;
  uri_ : bytes;
  query_uri_ : bytes;
}.

Record HttpResponse : Type := mkRep { rep_msg : HttpMsg; statusWord_ : bytes; status_ : Z }.

Definition HttpMsg_Clear : HttpMsg := mkMsg [] (str "HTTP/1.1") [] false 0 0.
Definition HttpRequest_Clear : HttpRequest := mkReq HttpMsg_Clear ∅ (str "Get") [] [].
Definition HttpResponse_Clear : HttpResponse := mkRep HttpMsg_Clear (str "OK") 200.

(** GetHeader / GetValueFromMap_ *)
Definition GetHeader (n : bytes) (m : HttpMsg) : bytes :=
  default [] (list_find (λ kv, kv.1 = n) (headers_ m) ≫= λ x, Some x.2.2).

Definition GetArg (n : bytes) (r : HttpRequest) : bytes := default [] (args_ r !! n).

(** headers_[k] = v, keeping one entry per key (the order of the keys is not
    looked at by the decoder). *)
Definition set_header (k v : bytes) (l : list (bytes * bytes)) : list (bytes * bytes) :=
  (k, v) :: filter (λ kv, kv.1 ≠ k) l.

(** The first loop of TrimeSpaceAndToLower. *)
Fixpoint trim (fuel : nat) (buf : bytes) (start end_ : Z) : outcome (Z * Z) :=
  match fuel with
  | O => Diverge
  | S fuel =>
      cs ← char_at buf start;
      if isspace cs then trim fuel buf (start + 1) end_
      else
        ce ← char_at buf end_;
        if isspace ce then trim fuel buf start (end_ - 1) else Ret (start, end_)
  end.

(** TrimeSpaceAndToLower: the second loop tests [i <= end] and changes neither. *)
Definition TrimeSpaceAndToLower (buf : bytes) (start end_ : Z) : outcome (Z * Z) :=
  r ← trim (2 * length buf + 2) buf start end_;
  if r.1 <=? r.2 then Diverge else Ret r.

Fixpoint DecodeHeader_ (fuel : nat) (buf : bytes) (start end_ : Z) (hs : list (bytes * bytes))
  : outcome (list (bytes * bytes)) :=
  match fuel with
  | O => Diverge
  | S fuel =>
      if start <? end_ then
        let i := find_int crlf buf start in
        let oldI := i in
        let kEnd := find_int [58] buf start in
        let vStart := kEnd + 1 in
        k ← TrimeSpaceAndToLower buf start kEnd;
        v ← TrimeSpaceAndToLower buf vStart i;
        ks ← substr buf k.1 (k.2 - k.1);
        vs ← substr buf v.1 (v.2 - v.1);
        DecodeHeader_ fuel buf (oldI + 2) end_ (set_header ks vs hs)
      else Ret hs
  end.

(** TryDecode_: the result, the line found (start, end) and the message. *)
Definition TryDecode_ (buf : bytes) (m : HttpMsg) : outcome (Result * (Z * Z) * HttpMsg) :=
  if complete_ m then Ret (Complete, (0, 0), m)
  else if contentLen_ m =? 0 then
    match find (crlf ++ crlf) buf 0 with
    | None => Ret (NotComplete, (0, 0), m)
    | Some p =>
        let lineEnd := find_int crlf buf 0 - 1 in
        hs ← DecodeHeader_ (length buf) buf (lineEnd + 4) (i32 p) (headers_ m);
        let len := u64 (atoi (GetHeader (str "content-length") (mkMsg hs [] [] false 0 0))) in
        let scanned := u64 (p + 4) in
        _ ← require ThrowRange (scanned <=? zlen buf);
        Ret (Complete, (0, lineEnd), mkMsg hs (version_ m) (ztake len (zdrop scanned buf)) true len scanned)
    end
  else Ret (NotComplete, (0, 0), m).

(** *** Query strings *)

(** The first position from [c] on whose character does not satisfy [p]. *)
Fixpoint skip_while (p : Z → bool) (s : bytes) (c : Z) : Z :=
  match s with
  | x :: s => if p x then skip_while p s (c + 1) else c
  | [] => c
  end.

Definition skip (p : Z → bool) (qs : bytes) (c : Z) : Z := skip_while p (zdrop c qs) c.

(** [if (c < qs.size() && qs[c] == x) c++] *)
Definition skip_one (x : Z) (qs : bytes) (c : Z) : Z :=
  if bool_decide (znth c qs = Some x) then c + 1 else c.

(** std::string(qs.data()+b, qs.data()+e) *)
Definition slice (qs : bytes) (b e : Z) : bytes := zsub b (e - b) qs.

(** The loop of DecodeArgs; at its start kb = ke = vb = ve = c. *)
Fixpoint args_loop (fuel : nat) (qs : bytes) (c : Z) (args : gmap bytes bytes) : outcome (gmap bytes bytes) :=
  match fuel with
  | O => Diverge
  | S fuel =>
      if c <? zlen qs then
        let kb := c in
        let ke := skip (λ x, negb (x =? 61) && negb (x =? 38)) qs c in
        let vb := skip_one 61 qs ke in
        let ve := skip (λ x, negb (x =? 38)) qs vb in
        let c := skip_one 38 qs ve in
        args_loop fuel qs c (if kb =? ke then args else <[slice qs kb ke := slice qs vb ve]> args)
      else Ret args
  end.

(** DecodeArgs on query_uri_: the path and the arguments. *)
Definition DecodeArgs (q : bytes) (args : gmap bytes bytes) : outcome (bytes * gmap bytes bytes) :=
  match find [63] q 0 with
  | None => Ret (q, args)
  | Some i =>
      let qs := zdrop (i + 1) q in
      a ← args_loop (S (length qs)) qs 0 args;
      Ret (ztake i q, a)
  end.

(** *** Requests and responses *)

Definition HttpRequest_TryDecode (buf : bytes) (r : HttpRequest) : outcome (Result * HttpRequest) :=
  t ← TryDecode_ buf (req_msg r);
  let '(res, (start, end_), m) := t in
  let i := find_int [32] buf start in
  method ← substr buf start (i - start);
  let oldI := i + 1 in
  let i := find_int [32] buf (i + 1) in
  query ← substr buf oldI (i - oldI);
  version ← substr buf (i + 1) (end_ - i);
  let m := mkMsg (headers_ m) version (body_ m) (complete_ m) (contentLen_ m) (scanned_ m) in
  if bool_decide (head query ≠ Some 47)
  then Ret (Error, mkReq m (args_ r) method (uri_ r) query)
  else
    a ← DecodeArgs query (args_ r);
    Ret (res, mkReq m a.2 method a.1 query).

Definition HttpResponse_TryDecode (buf : bytes) (r : HttpResponse) : outcome (Result * HttpResponse) :=
  t ← TryDecode_ buf (rep_msg r);
  let '(res, (start, end_), m) := t in
  if start <? end_ then
    let i := find_int [32] buf start in
    version ← substr buf start (i - start);
    let oldI := i in
    let i := find_int [32] buf (i + 1) in
    s ← substr buf (i + 1) (i - oldI);
    word ← substr buf (i + 1) end_;
    Ret (res, mkRep (mkMsg (headers_ m) version (body_ m) (complete_ m) (contentLen_ m) (scanned_ m)) word (atoi s))
  else Ret (res, mkRep m (statusWord_ r) (status_ r)).

(** *** Encoding *)

(** snprintf of [line], which has no NUL, into an array of [size] chars, then
    Append(const char* ).  The callers print their strings with "%s" of c_str(). *)
Definition append_line (size : Z) (line : bytes) (b : Buffer) : outcome Buffer :=
  AppendStr (ztake (size - 1) line) b.

Fixpoint append_headers (hs : list (bytes * bytes)) (b : Buffer) : outcome Buffer :=
  match hs with
  | [] => Ret b
  | h :: hs =>
      b ← AppendStr h.1 b; b ← AppendStr (str ": ") b; b ← AppendStr h.2 b; b ← AppendStr crlf b;
      append_headers hs b
  end.

(** The part of Encode behind the first line. *)
Definition encode_rest (m : HttpMsg) (b : Buffer) : outcome Buffer :=
  b ← append_headers (headers_ m) b;
  b ← AppendStr (str "Connection: Keep-Alive" ++ crlf) b;
  b ← append_line 1024 (str "Content-Length: " ++ show_size (zlen (body_ m)) ++ crlf) b;
  b ← AppendStr crlf b;
  AppendStr (body_ m) b.

Definition HttpRequest_Encode (r : HttpRequest) (b : Buffer) : outcome (Z * Buffer) :=
  let osz := GetSize b in
  b ← append_line 4096 (c_text (method_ r) ++ [32] ++ c_text (query_uri_ r) ++ [32] ++ c_text (version_ (req_msg r)) ++ crlf) b;
  b ← encode_rest (req_msg r) b;
  Ret (i32 (u64 (GetSize b - osz)), b).

Definition show_int (n : Z) : bytes := if n <? 0 then 45 :: show_size (- n) else show_size n.

Definition HttpResponse_Encode (r : HttpResponse) (b : Buffer) : outcome (Z * Buffer) :=
  let osz := GetSize b in
  b ← append_line 1024 (c_text (version_ (rep_msg r)) ++ [32] ++ show_int (status_ r) ++ [32] ++ c_text (statusWord_ r) ++ crlf) b;
  b ← encode_rest (rep_msg r) b;
  Ret (i32 (u64 (GetSize b - osz)), b).

(** ** Connections and server *)

(** TcpConn::IsClient: the peer's port as a short. *)
Definition IsClient (peer_port : Z) : bool := 0 <? i16 peer_port.

Record HttpContext : Type := mkCtx { req : HttpRequest; rep : HttpResponse }.

(** GetContext().AnyCast<HttpContext>(): the context of a connection is [None]
    until someone stores one. *)
Definition GetContext (ctx : option HttpContext) : outcome HttpContext := from_option_fault ThrowCast ctx.

(** What HandleRead_ does: it closes the connection, sends the interim answer,
    calls the user, or waits. *)
Inductive http_action : Type := HClose | HSendContinue | HCallback | HWait.

Definition HandleRead_ (peer_port : Z) (input : bytes) (ctx : option HttpContext)
  : outcome (http_action * HttpContext) :=
  c ← GetContext ctx;
  if negb (IsClient peer_port) then
    r ← HttpRequest_TryDecode input (req c);
    Ret (match r.1 with
         | Error => HClose | Continue => HSendContinue | Complete => HCallback | NotComplete => HWait
         end, mkCtx r.2 (rep c))
  else
    r ← HttpResponse_TryDecode input (rep c);
    Ret (match r.1 with Error => HClose | Complete => HCallback | _ => HWait end, mkCtx (req c) r.2).

(** ClearData: the bytes consumed and the context after it. *)
Definition ClearData (peer_port : Z) (input : Buffer) (c : HttpContext) : Buffer * HttpContext :=
  if IsClient peer_port
  then (Consume (u64 (i32 (scanned_ (rep_msg (rep c))))) input, mkCtx (req c) HttpResponse_Clear)
  else (Consume (u64 (i32 (scanned_ (req_msg (req c))))) input, mkCtx HttpRequest_Clear (rep c)).

(** The callbacks of HttpServer by method and uri; a callback is a number. *)
Abbreviation routes := (gmap bytes (gmap bytes nat)).

Definition OnRequest (method uri : bytes) (cb : nat) (cbs : routes) : routes :=
  <[method := <[uri := cb]> (default ∅ (cbs !! method))]> cbs.

Definition OnGet (uri : bytes) (cb : nat) (cbs : routes) : routes := OnRequest (str "GET") uri cb cbs.

(** The callback HttpServer gives to OnHttpMsg; [None] is defcb_. *)
Definition route (r : HttpRequest) (cbs : routes) : option nat :=
  cbs !! method_ r ≫= λ m, m !! uri_ r.

(** ** Lemmas *)

Section StringLemmas.

Lemma zdrop_pre {A} (pre s : list A) : zdrop (zlen pre) (pre ++ s) = s.
Proof. apply zdrop_app_length. Qed.

Lemma znth_pre {A} (pre s : list A) : znth (zlen pre) (pre ++ s) = head s.
Proof.
  unfold znth. rewrite bool_decide_true by apply zlen_nonneg. unfold zlen. rewrite Nat2Z.id.
  rewrite lookup_app_r, Nat.sub_diag by lia. by destruct s.
Qed.

Lemma find_pre p pre s : find p (pre ++ s) (zlen pre) = find_from p s (zlen pre).
Proof.
  unfold find. rewrite bool_decide_true by (rewrite zlen_app; pose proof (zlen_nonneg s); lia).
  by rewrite zdrop_pre.
Qed.

(** A pattern is not found inside bytes that differ from its first one. *)
Lemma find_from_head c p l s i : c ∉ l → find_from (c :: p) (l ++ s) i = find_from (c :: p) s (i + zlen l).
Proof.
  intros Hc. apply find_from_skip. intros n Hn.
  destruct (lookup_lt_is_Some_2 l n Hn) as [x Hx]. rewrite (drop_S _ _ _ Hx). simpl.
  rewrite (proj2 (Z.eqb_neq c x)); [done|]. intros ->. apply Hc. by eapply list_elem_of_lookup_2.
Qed.

Lemma find_int_pre c p pre l s :
  c ∉ l → zlen (pre ++ l ++ (c :: p) ++ s) < 2 ^ 31 →
  find_int (c :: p) (pre ++ l ++ (c :: p) ++ s) (zlen pre) = zlen pre + zlen l.
Proof.
  intros Hc Hlen. rewrite !zlen_app in Hlen. pose proof (zlen_nonneg pre). pose proof (zlen_nonneg l).
  pose proof (zlen_nonneg s). pose proof (zlen_nonneg (c :: p)).
  unfold find_int. rewrite wrap_id, find_pre, find_from_head by (done || lia).
  assert (find_from (c :: p) ((c :: p) ++ s) (zlen pre + zlen l) = Some (zlen pre + zlen l)) as ->.
  { simpl. rewrite Z.eqb_refl, is_prefix_app. done. }
  simpl. apply (swrap_id 32); lia.
Qed.

Lemma substr_pre pre l s : zlen (pre ++ l ++ s) < 2 ^ 31 → substr (pre ++ l ++ s) (zlen pre) (zlen l) = Ret l.
Proof.
  intros Hlen. rewrite !zlen_app in Hlen. pose proof (zlen_nonneg pre). pose proof (zlen_nonneg l).
  pose proof (zlen_nonneg s). unfold substr. rewrite !wrap_id by lia.
  rewrite (proj2 (Z.ltb_ge _ _)) by (rewrite !zlen_app; lia). by rewrite zdrop_pre, ztake_app_length.
Qed.

Lemma char_pre pre c s : char_at (pre ++ c :: s) (zlen pre) = Ret c.
Proof.
  unfold char_at. rewrite (proj2 (Z.eqb_neq _ _)).
  - by rewrite znth_pre.
  - rewrite zlen_app, zlen_cons. pose proof (zlen_nonneg s). lia.
Qed.

Lemma skip_pre p pre k s :
  (∀ x, x ∈ k → p x = true) → (∀ y, head s = Some y → p y = false) →
  skip p (pre ++ k ++ s) (zlen pre) = zlen pre + zlen k.
Proof.
  intros Hk Hs. unfold skip. rewrite zdrop_pre. generalize (zlen pre) as i. intros i. revert i.
  induction k as [|x k IH]; intros i; simpl.
  - rewrite zlen_nil, Z.add_0_r. destruct s as [|y s]; [done|]. simpl. by rewrite Hs.
  - rewrite Hk by set_solver. rewrite IH by set_solver. rewrite zlen_cons. lia.
Qed.

Lemma skip_one_hit x pre s : skip_one x (pre ++ x :: s) (zlen pre) = zlen pre + 1.
Proof. unfold skip_one. by rewrite znth_pre, bool_decide_true. Qed.

Lemma slice_pre pre k s : slice (pre ++ k ++ s) (zlen pre) (zlen pre + zlen k) = k.
Proof.
  unfold slice, zsub. rewrite zdrop_pre. replace (zlen pre + zlen k - zlen pre) with (zlen k) by lia.
  apply ztake_app_length.
Qed.

End StringLemmas.

(** A query string and the pairs it can carry. *)
Fixpoint encode_args (kvs : list (bytes * bytes)) : bytes :=
  match kvs with
  | [] => []
  | [(k, v)] => k ++ [61] ++ v
  | (k, v) :: kvs => k ++ [61] ++ v ++ [38] ++ encode_args kvs
  end.

Definition arg_ok (kv : bytes * bytes) : Prop :=
  kv.1 ≠ [] ∧ (61 ∉ kv.1) ∧ (38 ∉ kv.1) ∧ (38 ∉ kv.2).

Definition set_args (kvs : list (bytes * bytes)) (args : gmap bytes bytes) : gmap bytes bytes :=
  foldl (λ m kv, <[kv.1 := kv.2]> m) args kvs.

Section ArgsLemmas.

(** One pair is read and stored; the position moves behind it. *)
Lemma args_loop_pair fuel pre k v s args :
  arg_ok (k, v) → s = [] ∨ (∃ s', s = 38 :: s') →
  args_loop (S fuel) (pre ++ k ++ [61] ++ v ++ s) (zlen pre) args
  = args_loop fuel (pre ++ k ++ [61] ++ v ++ s)
      (zlen pre + zlen k + 1 + zlen v + (if bool_decide (s = []) then 0 else 1)) (<[k := v]> args).
Proof.
  intros (Hne & Hk1 & Hk2 & Hv) Hs. simpl in Hne, Hk1, Hk2, Hv.
  assert (0 < zlen k) by (destruct k as [|x k]; [done|]; rewrite zlen_cons; pose proof (zlen_nonneg k); lia).
  set (qs := pre ++ k ++ [61] ++ v ++ s). cbn [args_loop].
  rewrite (proj2 (Z.ltb_lt _ _)).
  2:{ unfold qs. rewrite !zlen_app. pose proof (zlen_nonneg v). pose proof (zlen_nonneg s).
      pose proof (zlen_nonneg [61]). lia. }
  assert (skip (λ x, negb (x =? 61) && negb (x =? 38)) qs (zlen pre) = zlen pre + zlen k) as ->.
  { unfold qs. apply skip_pre.
    - intros x Hx. rewrite !(proj2 (Z.eqb_neq _ _)); [done|..]; by intros ->.
    - by intros y [= <-]. }
  assert (skip_one 61 qs (zlen pre + zlen k) = zlen pre + zlen k + 1) as ->.
  { unfold qs. rewrite app_assoc, <- zlen_app. apply skip_one_hit. }
  assert (skip (λ x, negb (x =? 38)) qs (zlen pre + zlen k + 1) = zlen pre + zlen k + 1 + zlen v) as ->.
  { unfold qs. rewrite (app_assoc k), (app_assoc pre).
    replace (zlen pre + zlen k + 1) with (zlen (pre ++ k ++ [61])) by (rewrite !zlen_app; unfold zlen at 3; simpl; lia).
    apply skip_pre.
    - intros x Hx. rewrite (proj2 (Z.eqb_neq _ _)); [done|]. by intros ->.
    - destruct Hs as [->|[s' ->]]; [done|]. by intros y [= <-]. }
  assert (slice qs (zlen pre) (zlen pre + zlen k) = k) as -> by apply slice_pre.
  assert (slice qs (zlen pre + zlen k + 1) (zlen pre + zlen k + 1 + zlen v) = v) as ->.
  { unfold qs. rewrite (app_assoc k), (app_assoc pre).
    replace (zlen pre + zlen k + 1) with (zlen (pre ++ k ++ [61])) by (rewrite !zlen_app; unfold zlen at 3; simpl; lia).
    apply slice_pre. }
  rewrite (proj2 (Z.eqb_neq _ _)) by lia. f_equal.
  assert (qs = (pre ++ k ++ [61] ++ v) ++ s) as -> by (unfold qs; by rewrite <- !app_assoc).
  replace (zlen pre + zlen k + 1 + zlen v) with (zlen (pre ++ k ++ [61] ++ v))
    by (rewrite !zlen_app; unfold zlen at 3; simpl; lia).
  destruct Hs as [->|[s' ->]].
  - unfold skip_one. rewrite znth_pre. cbn [head]. rewrite bool_decide_false by done. rewrite (bool_decide_true (@nil Z = [])) by done. lia.
  - by rewrite skip_one_hit.
Qed.

Lemma args_loop_ok kvs fuel pre args :
  Forall arg_ok kvs → (length kvs < fuel)%nat →
  args_loop fuel (pre ++ encode_args kvs) (zlen pre) args = Ret (set_args kvs args).
Proof.
  revert fuel pre args. induction kvs as [|[k v] kvs IH]; intros fuel pre args Hok Hf;
    (destruct fuel as [|fuel]; [simpl in Hf; lia|]).
  - cbn [encode_args args_loop]. rewrite app_nil_r, (proj2 (Z.ltb_ge _ _)) by lia. done.
  - apply Forall_cons in Hok as [Hkv Hok]. simpl in Hf. cbn [set_args foldl]. fold (set_args kvs).
    destruct kvs as [|kv kvs].
    + pose proof (args_loop_pair fuel pre k v [] args Hkv (or_introl eq_refl)) as E.
      cbn [encode_args]. rewrite app_nil_r in E. rewrite E.
      destruct fuel as [|fuel]; [simpl in Hf; lia|]. cbn [args_loop].
      rewrite (proj2 (Z.ltb_ge _ _)); [done|]. rewrite !zlen_app. rewrite bool_decide_true by done.
      unfold zlen at 3. simpl. lia.
    + change (encode_args ((k, v) :: kv :: kvs)) with (k ++ [61] ++ v ++ [38] ++ encode_args (kv :: kvs)).
      set (s := encode_args (kv :: kvs)) in *.
      rewrite (args_loop_pair fuel pre k v ([38] ++ s) args Hkv) by (right; by exists s).
      rewrite bool_decide_false by done.
      assert (pre ++ k ++ [61] ++ v ++ [38] ++ s = (pre ++ k ++ [61] ++ v ++ [38]) ++ s) as -> by (by rewrite <- !app_assoc).
      replace (zlen pre + zlen k + 1 + zlen v + 1) with (zlen (pre ++ k ++ [61] ++ v ++ [38])).
      { apply IH; [done|simpl in *; lia]. }
      rewrite !zlen_app. change (zlen [61]) with 1. change (zlen [38]) with 1. lia.
Qed.

Lemma encode_args_length kvs : (length kvs ≤ length (encode_args kvs))%nat.
Proof.
  induction kvs as [|[k v] [|kv kvs] IH]; [done| |].
  - simpl. rewrite !length_app. simpl. lia.
  - change (encode_args ((k, v) :: kv :: kvs)) with (k ++ [61] ++ v ++ [38] ++ encode_args (kv :: kvs)).
    rewrite !length_app. simpl in *. lia.
Qed.

Lemma DecodeArgs_ok path kvs args :
  63 ∉ path → Forall arg_ok kvs →
  DecodeArgs (path ++ [63] ++ encode_args kvs) args = Ret (path, set_args kvs args).
Proof.
  intros Hp Hok. unfold DecodeArgs.
  assert (find [63] (path ++ [63] ++ encode_args kvs) 0 = Some (zlen path)) as ->.
  { pose proof (find_pre [63] [] (path ++ [63] ++ encode_args kvs)) as E. rewrite zlen_nil in E. simpl in E.
    simpl. rewrite E. by apply find_byte_first. }
  assert (zdrop (zlen path + 1) (path ++ [63] ++ encode_args kvs) = encode_args kvs) as ->.
  { rewrite app_assoc. replace (zlen path + 1) with (zlen (path ++ [63])) by (by rewrite zlen_app). apply zdrop_pre. }
  pose proof (args_loop_ok kvs (S (length (encode_args kvs))) [] args Hok) as E. rewrite app_nil_l in E.
  change (zlen (@nil Z)) with 0 in E. rewrite E by (pose proof (encode_args_length kvs); lia). cbn. by rewrite ztake_app_length.
Qed.

Lemma DecodeArgs_none path args : 63 ∉ path → DecodeArgs path args = Ret (path, args).
Proof.
  intros Hp. unfold DecodeArgs, find. rewrite bool_decide_true by apply zlen_nonneg.
  by rewrite zdrop_0, find_byte_none.
Qed.

End ArgsLemmas.

(** *** Decoding *)

Section DecodeLemmas.

(** The head of a message that starts with the line [l]. *)
Lemma find_line_end l s :
  13 ∉ l → zlen (l ++ crlf ++ s) < 2 ^ 31 → find_int crlf (l ++ crlf ++ s) 0 = zlen l.
Proof. intros Hl Hlen. by apply (find_int_pre 13 [10] [] l s). Qed.

Lemma TryDecode_head l rest m :
  13 ∉ l → zlen (l ++ crlf ++ crlf ++ rest) < 2 ^ 31 → complete_ m = false → contentLen_ m = 0 → headers_ m = [] →
  TryDecode_ (l ++ crlf ++ crlf ++ rest) m
  = Ret (Complete, (0, zlen l - 1), mkMsg [] (version_ m) [] true 0 (zlen l + 4)).
Proof.
  intros Hl Hlen Hc Hn Hh. unfold TryDecode_. rewrite Hc, Hn. cbn [Z.eqb].
  pose proof (zlen_nonneg l). pose proof (zlen_nonneg rest).
  assert (zlen (l ++ crlf ++ crlf ++ rest) = zlen l + 4 + zlen rest) as Hz.
  { rewrite !zlen_app. change (zlen crlf) with 2. lia. }
  assert (find (crlf ++ crlf) (l ++ crlf ++ crlf ++ rest) 0 = Some (zlen l)) as ->.
  { pose proof (find_pre (crlf ++ crlf) [] (l ++ crlf ++ crlf ++ rest)) as E. rewrite app_nil_l in E.
    change (zlen (@nil Z)) with 0 in E. rewrite E. change (crlf ++ crlf) with (13 :: [10; 13; 10]).
    rewrite find_from_head by done. reflexivity. }
  rewrite find_line_end by done. rewrite (swrap_id 32) by lia.
  assert (DecodeHeader_ (length (l ++ crlf ++ crlf ++ rest)) (l ++ crlf ++ crlf ++ rest) (zlen l - 1 + 4) (zlen l) (headers_ m)
          = Ret []) as ->.
  { destruct (length (l ++ crlf ++ crlf ++ rest)) eqn:E; [unfold zlen in Hz; lia|].
    cbn [DecodeHeader_]. rewrite (proj2 (Z.ltb_ge _ _)) by lia. by rewrite Hh. }
  cbn [mbind outcome_bind]. rewrite (wrap_id 64 (zlen l + 4)) by lia.
  change (u64 (atoi (GetHeader (str "content-length") (mkMsg [] [] [] false 0 0)))) with 0.
  rewrite require_true by (apply Z.leb_le; lia). done.
Qed.

(** A header line: the lower-casing loop does not end. *)
Lemma TryDecode_header_hangs l x y key s p m :
  13 ∉ l → 58 ∉ y :: key → isspace y = false →
  zlen (l ++ crlf ++ x :: (y :: key) ++ 58 :: s) < 2 ^ 31 →
  find (crlf ++ crlf) (l ++ crlf ++ x :: (y :: key) ++ 58 :: s) 0 = Some p → zlen l + 3 < p < 2 ^ 31 →
  complete_ m = false → contentLen_ m = 0 →
  TryDecode_ (l ++ crlf ++ x :: (y :: key) ++ 58 :: s) m = Diverge.
Proof.
  intros Hl Hkey Hy Hlen Hfind Hp Hc Hn. unfold TryDecode_. rewrite Hc, Hn, Hfind. cbn [Z.eqb].
  rewrite find_line_end by done. set (buf := l ++ crlf ++ x :: (y :: key) ++ 58 :: s) in *.
  pose proof (zlen_nonneg l). rewrite (swrap_id 32 p) by lia. replace (zlen l - 1 + 4) with (zlen l + 3) by lia.
  set (pre := l ++ crlf ++ [x]). assert (zlen pre = zlen l + 3) as Hpre.
  { unfold pre. rewrite !zlen_app. change (zlen crlf) with 2. change (zlen [x]) with 1. lia. }
  assert (buf = pre ++ (y :: key) ++ [58] ++ s) as Hbuf by (unfold buf, pre; by rewrite <- !app_assoc).
  rewrite <- Hpre in *. clearbody pre. pose proof (zlen_nonneg pre) as Hp0.
  assert (length buf ≠ 0%nat) as Hne by (rewrite Hbuf, length_app; simpl; lia).
  destruct (length buf) as [|n] eqn:Hlb; [done|]. cbn [DecodeHeader_].
  rewrite (proj2 (Z.ltb_lt _ _)) by lia.
  assert (find_int [58] buf (zlen pre) = zlen pre + zlen (y :: key)) as ->.
  { rewrite Hbuf. apply (find_int_pre 58 [] pre (y :: key) s); [done|]. by rewrite <- Hbuf. }
  assert (TrimeSpaceAndToLower buf (zlen pre) (zlen pre + zlen (y :: key)) = Diverge) as ->; [|done].
  unfold TrimeSpaceAndToLower. rewrite Nat.add_comm. cbn [Nat.add trim].
  assert (char_at buf (zlen pre) = Ret y) as -> by (rewrite Hbuf; apply char_pre).
  assert (char_at buf (zlen pre + zlen (y :: key)) = Ret 58) as ->.
  { rewrite Hbuf, app_assoc, <- zlen_app. apply char_pre. }
  cbn [mbind outcome_bind]. rewrite Hy. cbn. pose proof (zlen_nonneg (y :: key)).
  by rewrite (proj2 (Z.leb_le _ _)) by lia.
Qed.

(** The parts of a request line. *)
Definition request_line (method uri version : bytes) : bytes := method ++ [32] ++ uri ++ [32] ++ version.

Definition word_ok (w : bytes) : Prop := (32 ∉ w) ∧ (13 ∉ w).

Lemma line_no_cr method uri version :
  word_ok method → word_ok uri → word_ok version → 13 ∉ request_line method uri version.
Proof. intros [_ ?] [_ ?] [_ ?]. unfold request_line. set_solver. Qed.

(** Reading the three words of a request line back. *)
Lemma request_words method uri version s (buf := request_line method uri version ++ s) :
  word_ok method → word_ok uri → zlen buf < 2 ^ 31 →
  find_int [32] buf 0 = zlen method
  ∧ substr buf 0 (zlen method - 0) = Ret method
  ∧ find_int [32] buf (zlen method + 1) = zlen method + 1 + zlen uri
  ∧ substr buf (zlen method + 1) (zlen method + 1 + zlen uri - (zlen method + 1)) = Ret uri
  ∧ substr buf (zlen method + 1 + zlen uri + 1) (zlen version) = Ret version.
Proof.
  intros [Hm _] [Hu _] Hlen.
  assert (buf = [] ++ method ++ [32] ++ (uri ++ [32] ++ version ++ s)) as E0.
  { unfold buf, request_line. by rewrite <- !app_assoc. }
  assert (buf = (method ++ [32]) ++ uri ++ [32] ++ (version ++ s)) as E1.
  { unfold buf, request_line. by rewrite <- !app_assoc. }
  assert (buf = (method ++ [32] ++ uri ++ [32]) ++ version ++ s) as E2.
  { unfold buf, request_line. by rewrite <- !app_assoc. }
  assert (zlen (method ++ [32]) = zlen method + 1) as Z1 by (by rewrite zlen_app).
  assert (zlen (method ++ [32] ++ uri ++ [32]) = zlen method + 1 + zlen uri + 1) as Z2.
  { rewrite !zlen_app. change (zlen [32]) with 1. lia. }
  clearbody buf. split_and!.
  - rewrite E0 in Hlen |- *. by apply (find_int_pre 32 [] [] method).
  - rewrite Z.sub_0_r. rewrite E0 in Hlen |- *. by apply (substr_pre []).
  - rewrite <- Z1. rewrite E1 in Hlen |- *. by apply (find_int_pre 32 []).
  - rewrite <- Z1. replace (zlen (method ++ [32]) + zlen uri - zlen (method ++ [32])) with (zlen uri) by lia.
    rewrite E1 in Hlen |- *. by apply substr_pre.
  - rewrite <- Z2. rewrite E2 in Hlen |- *. by apply substr_pre.
Qed.

End DecodeLemmas.

(** A path with its arguments, as a query uri. *)
Definition query (path : bytes) (kvs : list (bytes * bytes)) : bytes :=
  match kvs with [] => path | _ => path ++ [63] ++ encode_args kvs end.

Lemma DecodeArgs_query path kvs args :
  63 ∉ path → Forall arg_ok kvs → DecodeArgs (query path kvs) args = Ret (path, set_args kvs args).
Proof.
  intros Hp Hok. unfold query. destruct kvs as [|kv kvs]; [by apply DecodeArgs_none|by apply DecodeArgs_ok].
Qed.

(** A request without header lines. *)
Lemma TryDecode_request method path version rest kvs :
  let uri := query path kvs in
  let line := request_line method uri version in
  let buf := line ++ crlf ++ crlf ++ rest in
  word_ok method → word_ok uri → word_ok version → head path = Some 47 → 63 ∉ path → Forall arg_ok kvs →
  zlen buf < 2 ^ 31 →
  HttpRequest_TryDecode buf HttpRequest_Clear
  = Ret (Complete, mkReq (mkMsg [] version [] true 0 (zlen line + 4)) (set_args kvs ∅) method path uri).
Proof.
  intros uri line buf Hm Hu Hv Hhead Hp Hok Hlen.
  unfold HttpRequest_TryDecode, buf. rewrite TryDecode_head by (done || by apply line_no_cr). cbn [mbind outcome_bind].
  pose proof (request_words method uri version (crlf ++ crlf ++ rest) Hm Hu Hlen) as Hw. cbv zeta in Hw. fold line in Hw.
  destruct Hw as (-> & -> & -> & -> & E).
  cbn [mbind outcome_bind].
  assert (zlen line - 1 - (zlen method + 1 + zlen uri) = zlen version) as ->.
  { unfold line, request_line. rewrite !zlen_app. change (zlen [32]) with 1. lia. }
  rewrite E. cbn [mbind outcome_bind]. rewrite bool_decide_false.
  + cbn [args_ HttpRequest_Clear]. unfold uri. by rewrite DecodeArgs_query.
  + assert (head uri = Some 47) as Hq; [|by rewrite Hq; intros []].
    unfold uri, query. destruct path; [done|]. by destruct kvs.
Qed.

(** ** Properties *)

(** Query strings.  Parsing [path?k1=v1&...&kn=vn] gives back the path and
    the arguments, a later value for a key replacing an earlier one. *)
Theorem query_roundtrip (path : bytes) (kvs : list (bytes * bytes)) (args : gmap bytes bytes) :
  63 ∉ path → Forall arg_ok kvs →
  DecodeArgs (path ++ [63] ++ encode_args kvs) args = Ret (path, set_args kvs args)
  ∧ DecodeArgs path args = Ret (path, args).
Proof. intros Hp Hok. split; [by apply DecodeArgs_ok|by apply DecodeArgs_none]. Qed.

(** A request without header lines is decoded: method, path, arguments and
    version come back, the bytes of the head are marked as scanned, and a GET
    request reaches the callback registered for its path. *)
Theorem request_decoded (method path version rest : bytes) (kvs : list (bytes * bytes)) (cb : nat) (cbs : routes) :
  let uri := query path kvs in
  let line := request_line method uri version in
  let buf := line ++ crlf ++ crlf ++ rest in
  word_ok method → word_ok uri → word_ok version → head path = Some 47 → 63 ∉ path → Forall arg_ok kvs →
  zlen buf < 2 ^ 31 →
  let r := mkReq (mkMsg [] version [] true 0 (zlen line + 4)) (set_args kvs ∅) method path uri in
  HttpRequest_TryDecode buf HttpRequest_Clear = Ret (Complete, r)
  ∧ (method = str "GET" → route r (OnGet path cb cbs) = Some cb).
Proof.
  intros uri line buf Hm Hu Hv Hhead Hp Hok Hlen r. split; [by apply TryDecode_request|].
  intros ->. unfold route, OnGet, OnRequest, r. cbn [method_ uri_]. rewrite lookup_insert_eq. simpl.
  by rewrite lookup_insert_eq.
Qed.

(** Any header line makes the decoder hang.  A request whose head has a
    line behind the request line (its first character is skipped; the rest
    starts with a key) never returns: the loop that lower-cases the key does
    not advance. *)
Theorem header_hangs (line key s : bytes) (x y p port : Z) (c : HttpContext) :
  let buf := line ++ crlf ++ x :: (y :: key) ++ 58 :: s in
  13 ∉ line → 58 ∉ y :: key → isspace y = false → zlen buf < 2 ^ 31 →
  find (crlf ++ crlf) buf 0 = Some p → zlen line + 3 < p < 2 ^ 31 → req c = HttpRequest_Clear →
  IsClient port = false →
  HandleRead_ port buf (Some c) = Diverge.
Proof.
  intros buf Hl Hk Hy Hlen Hf Hp Hc Hport. unfold HandleRead_, GetContext. cbn [from_option_fault mbind outcome_bind].
  rewrite Hport. cbn [negb]. rewrite Hc. unfold HttpRequest_TryDecode, buf.
  by rewrite (TryDecode_header_hangs line x y key s p).
Qed.

(** A request that arrives in pieces is refused.  While the input has no
    complete head and not even a space, TryDecode goes on to parse it and
    reports an error, so HandleRead_ closes the connection instead of waiting
    for the rest. *)
Theorem partial_request_closes (buf : bytes) (port : Z) (c : HttpContext) :
  find (crlf ++ crlf) buf 0 = None → 32 ∉ buf → head buf ≠ Some 47 → zlen buf < 2 ^ 31 →
  req c = HttpRequest_Clear → IsClient port = false →
  ∃ c', HandleRead_ port buf (Some c) = Ret (HClose, c').
Proof.
  intros Hf Hsp Hhead Hlen Hc Hport. pose proof (zlen_nonneg buf).
  unfold HandleRead_, GetContext. cbn [from_option_fault mbind outcome_bind]. rewrite Hport. cbn [negb]. rewrite Hc.
  unfold HttpRequest_TryDecode, TryDecode_. cbn [complete_ contentLen_ req_msg HttpRequest_Clear HttpMsg_Clear Z.eqb].
  rewrite Hf. cbn [mbind outcome_bind].
  assert (find_int [32] buf 0 = -1) as Hi.
  { unfold find_int, find. change (u64 0) with 0. rewrite bool_decide_true, zdrop_0, find_byte_none by done. done. }
  assert (∀ n, 2 ^ 31 ≤ u64 n → substr buf 0 n = Ret buf) as Hsub.
  { intros n Hn. unfold substr. change (u64 0) with 0. rewrite (proj2 (Z.ltb_ge _ _)), zdrop_0, ztake_all by lia. done. }
  rewrite Hi. change (-1 + 1) with 0. rewrite Hi, !(Hsub (-1 - 0)) by (by vm_compute). cbn [mbind outcome_bind]. change (-1 + 1) with 0.
  assert (∃ v, substr buf 0 (0 - -1) = Ret v) as [v ->].
  { unfold substr. change (u64 0) with 0. rewrite (proj2 (Z.ltb_ge _ _)) by lia. by eexists. }
  cbn [mbind outcome_bind]. rewrite bool_decide_true by done. by eexists.
Qed.

(** A client reads the wrong status.  Of a response [version code word]
    the code is never looked at: status_ is the number at the start of the
    word, 0 for the usual words. *)
Theorem response_status_wrong (version code word rest : bytes) (c : Z) :
  let line := request_line version code (c :: word) in
  let buf := line ++ crlf ++ crlf ++ rest in
  word_ok version → word_ok code → 13 ∉ line → version ≠ [] → zlen buf < 2 ^ 31 →
  isspace c = false → isdigit c = false → c ≠ 45 → c ≠ 43 →
  ∃ r, HttpResponse_TryDecode buf HttpResponse_Clear = Ret (Complete, r) ∧ status_ r = 0.
Proof.
  intros line buf Hv Hcode Hl Hne Hlen Hs Hd Hm Hp. unfold HttpResponse_TryDecode, buf.
  rewrite TryDecode_head by done. cbn [mbind outcome_bind].
  pose proof (request_words version code (c :: word) (crlf ++ crlf ++ rest) Hv Hcode Hlen) as Hw. cbv zeta in Hw. fold line in Hw.
  destruct Hw as (-> & -> & -> & _ & _).
  pose proof (zlen_nonneg version). pose proof (zlen_nonneg code). pose proof (zlen_nonneg word).
  assert (zlen line = zlen version + 1 + zlen code + 1 + (1 + zlen word)) as Hz.
  { unfold line, request_line. rewrite !zlen_app. change (zlen [32]) with 1. rewrite zlen_cons. lia. }
  unfold buf in Hlen. rewrite zlen_app in Hlen. pose proof (zlen_nonneg (crlf ++ crlf ++ rest)).
  rewrite (proj2 (Z.ltb_lt _ _)) by lia. cbn [mbind outcome_bind].
  set (pos := zlen version + 1 + zlen code + 1).
  assert (Hsub : ∀ n, 0 < n < 2 ^ 31 → ∃ t, substr (line ++ crlf ++ crlf ++ rest) pos n = Ret (c :: t)).
  { intros n Hn. unfold substr. rewrite !wrap_id by (unfold pos; lia).
    rewrite (proj2 (Z.ltb_ge _ _)) by (rewrite zlen_app; pose proof (zlen_nonneg (crlf ++ crlf ++ rest)); unfold pos; lia).
    assert (line ++ crlf ++ crlf ++ rest = (version ++ [32] ++ code ++ [32]) ++ c :: (word ++ crlf ++ crlf ++ rest)) as ->.
    { unfold line, request_line. by rewrite <- !app_assoc. }
    assert (pos = zlen (version ++ [32] ++ code ++ [32])) as ->.
    { unfold pos. rewrite !zlen_app. change (zlen [32]) with 1. lia. }
    rewrite zdrop_pre. unfold ztake. destruct (Z.to_nat n) eqn:En; [lia|]. simpl. by eexists. }
  destruct (Hsub (zlen version + 1 + zlen code - zlen version)) as [t ->]; [unfold pos in *; lia|].
  destruct (Hsub (zlen line - 1)) as [w ->]; [lia|].
  cbn [mbind outcome_bind]. eexists; split; [done|]. cbn [status_ atoi].
  rewrite Hs, (proj2 (Z.eqb_neq c 45)), (proj2 (Z.eqb_neq c 43)) by done. cbn [digits_val]. by rewrite Hd.
Qed.

(** ** Witnesses *)

Lemma query_roundtrip_witness :
  DecodeArgs (str "/a?x=1&y=2") ∅ = Ret (str "/a", set_args [(str "x", str "1"); (str "y", str "2")] ∅).
Proof.
  destruct (query_roundtrip (str "/a") [(str "x", str "1"); (str "y", str "2")] ∅) as [H _].
  - by_decide.
  - repeat constructor; first [done|by_decide].
  - exact H.
Defined.

Lemma request_decoded_witness :
  ∃ r, HttpRequest_TryDecode (str "GET /a?x=1 HTTP/1.1" ++ crlf ++ crlf) HttpRequest_Clear = Ret (Complete, r)
       ∧ route r (OnGet (str "/a") 3 ∅) = Some 3%nat.
Proof.
  destruct (request_decoded (str "GET") (str "/a") (str "HTTP/1.1") [] [(str "x", str "1")] 3 ∅) as [H Hr].
  - split; by_decide.
  - split; by_decide.
  - split; by_decide.
  - done.
  - by_decide.
  - repeat constructor; first [done|by_decide].
  - by vm_compute.
  - eexists. split; [exact H|]. apply Hr. done.
Defined.

Definition demo_ctx : HttpContext := mkCtx HttpRequest_Clear HttpResponse_Clear.

Lemma header_hangs_witness :
  HandleRead_ 40000 (str "GET / HTTP/1.1" ++ crlf ++ str "Host: a" ++ crlf ++ crlf) (Some demo_ctx) = Diverge.
Proof.
  apply (header_hangs (str "GET / HTTP/1.1") (str "st") (str " a" ++ crlf ++ crlf) 72 111 23 40000 demo_ctx);
    first [done|by_decide|by vm_compute].
Defined.

Lemma partial_request_closes_witness :
  ∃ c', HandleRead_ 40000 (str "GE") (Some demo_ctx) = Ret (HClose, c').
Proof. apply (partial_request_closes (str "GE") 40000 demo_ctx); first [done|by_decide|by vm_compute]. Defined.

Lemma response_status_wrong_witness :
  ∃ r, HttpResponse_TryDecode (str "HTTP/1.1 404 Not Found" ++ crlf ++ crlf) HttpResponse_Clear = Ret (Complete, r)
       ∧ status_ r = 0.
Proof.
  apply (response_status_wrong (str "HTTP/1.1") (str "404") (str "ot Found") [] 78);
    first [split; by_decide|done|by_decide|by vm_compute].
Defined.
