(* ===== verification/HttpConn.v ===== *)
(** * net/http.h, net/http.cc: HTTP connections and the HTTP server

    HttpConnPtr on top of a TcpConn: the messages live in the connection's Any
    context (Any.v), requests are decoded from its input buffer (Http.v) and
    answers encoded into its output buffer.  A callback of the user is a function
    on the connection.  The theorems compose the HTTP layer with the byte streams
    of TcpConn.v. *)

From stdpp Require Import pretty.
From S2P Require Import Prelude Any Buffer Channel Time Text TimerQueue TcpConn Http.

(** ** Setters of the messages *)

Definition SetBody (body : bytes) (m : HttpMsg) : HttpMsg :=
  mkMsg (headers_ m) (version_ m) body (complete_ m) (contentLen_ m) (scanned_ m).
Definition SetVersion (version : bytes) (m : HttpMsg) : HttpMsg :=
  mkMsg (headers_ m) version (body_ m) (complete_ m) (contentLen_ m) (scanned_ m).
Definition SetHeaders (headers : list (bytes * bytes)) (m : HttpMsg) : HttpMsg :=
  mkMsg headers (version_ m) (body_ m) (complete_ m) (contentLen_ m) (scanned_ m).

(** The field is a size_t, the result an int. *)
Definition GetByte (m : HttpMsg) : Z := i32 (scanned_ m).

Definition SetMethod (method : bytes) (r : HttpRequest) : HttpRequest :=
  mkReq (req_msg r) (args_ r) method (uri_ r) (query_uri_ r).
Definition SetUri (uri : bytes) (r : HttpRequest) : HttpRequest :=
  mkReq (req_msg r) (args_ r) (method_ r) uri (query_uri_ r).
Definition SetQueryUri (query_uri : bytes) (r : HttpRequest) : HttpRequest :=
  mkReq (req_msg r) (args_ r) (method_ r) (uri_ r) query_uri.

Definition SetStatus (st : Z) (msg : bytes) (r : HttpResponse) : HttpResponse := mkRep (rep_msg r) msg st.

(** ** The connection *)

(** What programs keep in a connection's context: the HTTP layer its messages,
    users other types. *)
Inductive ctx_code : Type := CtxHttp | CtxUser (n : nat).

#[export] Instance ctx_code_dec : EqDecision ctx_code.
Proof. solve_decision. Defined.

Section HttpConn.
Context {user : nat → Type}.

#[export] Instance ctx_universe : Universe :=
  {| tcode := ctx_code; El := λ c, match c with CtxHttp => HttpContext | CtxUser n => user n end |}.

Record HttpConnPtr : Type := mkHttpConn {
  tcp_ : TcpConn;
  ctx_ : Any ctx_universe;
  ctx_heap : gmap Z (@Derived ctx_universe);
  peer_port : Z;
}.

Abbreviation HttpCallBack := (HttpConnPtr → outcome HttpConnPtr).

Definition set_tcp (t : TcpConn) (h : HttpConnPtr) : HttpConnPtr := mkHttpConn t (ctx_ h) (ctx_heap h) (peer_port h).

(** TcpConn::SetContext(ctx): a temporary Any is assigned and destroyed. *)
Definition SetContext (v : @Derived ctx_universe) (h : HttpConnPtr) : outcome HttpConnPtr :=
  let '(t, hp) := Any_value v (ctx_heap h) in
  '(x, hp) ← assign (ctx_ h) t hp;
  hp ← delete_ptr (m_ptr t) hp;
  Ret (mkHttpConn (tcp_ h) x hp (peer_port h)).

(** tcp_->GetContext().AnyCast<HttpContext>() *)
Definition context (h : HttpConnPtr) : outcome (Z * HttpContext) :=
  AnyCast (CtxHttp : @tcode ctx_universe) (ctx_ h) (ctx_heap h).

(** A write through the reference to it. *)
Definition put_context (a : Z) (c : HttpContext) (h : HttpConnPtr) : HttpConnPtr :=
  mkHttpConn (tcp_ h) (ctx_ h)
    (<[a := mkDerived (CtxHttp : @tcode ctx_universe) c]> (ctx_heap h)) (peer_port h).

Definition GetRequest (h : HttpConnPtr) : outcome HttpRequest := r ← context h; Ret (req r.2).
Definition GetResponse (h : HttpConnPtr) : outcome HttpResponse := r ← context h; Ret (rep r.2).

Definition ConnClearData (h : HttpConnPtr) : outcome HttpConnPtr :=
  '(a, c) ← context h;
  let '(inp, c) := ClearData (peer_port h) (input_ (tcp_ h)) c in
  Ret (put_context a c (set_tcp (set_input inp (tcp_ h)) h)).

(** SendRequest(req), SendResponse(rep): encode into the output buffer, clear the
    message that was received, send. *)
Definition SendEncoded (encode : Buffer → outcome (Z * Buffer)) (h : HttpConnPtr) : outcome HttpConnPtr :=
  r ← encode (output_ (tcp_ h));
  h ← ConnClearData (set_tcp (set_output r.2 (tcp_ h)) h);
  t ← SendOutput (tcp_ h);
  Ret (set_tcp t h).
Definition SendRequest_req (r : HttpRequest) : HttpCallBack := SendEncoded (HttpRequest_Encode r).
Definition SendResponse_rep (r : HttpResponse) : HttpCallBack := SendEncoded (HttpResponse_Encode r).
Definition SendRequest (h : HttpConnPtr) : outcome HttpConnPtr := r ← GetRequest h; SendRequest_req r h.
Definition SendResponse (h : HttpConnPtr) : outcome HttpConnPtr := r ← GetResponse h; SendResponse_rep r h.

(** std::string buf(GetInput().GetData(), GetInput().GetSize()) *)
Definition input_string (t : TcpConn) : outcome bytes :=
  data ← read_cells (buf_ (input_ t)) (b_ (input_ t)) (b_ (input_ t) + GetSize (input_ t));
  init_cells data.

(** HandleRead_(cb), with Close() and Send run in the loop thread. *)
Definition ConnHandleRead (cb : HttpCallBack) (h : HttpConnPtr) : outcome HttpConnPtr :=
  '(a, c) ← context h;
  buf ← input_string (tcp_ h);
  '(act, c) ← HandleRead_ (peer_port h) buf (Some c);
  let h := put_context a c h in
  match act with
  | HClose => Ret (set_tcp (CloseInLoop (tcp_ h)) h)
  | HSendContinue =>
      t ← Send_string (str "Http/1.1 100 Continue" ++ [chr_nl; chr_cr; chr_nl]) (tcp_ h); Ret (set_tcp t h)
  | HCallback => cb h
  | HWait => Ret h
  end.

(** ** The server *)

(** The default callback the constructor sets. *)
Definition not_found (r : HttpResponse) : HttpResponse :=
  let r := SetStatus 404 (str "Not Found") r in
  mkRep (SetBody (str "Not Found") (rep_msg r)) (statusWord_ r) (status_ r).

Definition default_callback (h : HttpConnPtr) : outcome HttpConnPtr :=
  '(a, c) ← context h;
  SendResponse (put_context a (mkCtx (req c) (not_found (rep c))) h).

(** [handlers] gives the callbacks their bodies. *)
Record HttpServer : Type := mkHttpServer { defcb_ : HttpCallBack; cbs_ : routes }.

Definition HttpServer_new : HttpServer := mkHttpServer default_callback ∅.
Definition OnDefault (cb : HttpCallBack) (s : HttpServer) : HttpServer := mkHttpServer cb (cbs_ s).
Definition ServerOnRequest (method uri : bytes) (cb : nat) (s : HttpServer) : HttpServer :=
  mkHttpServer (defcb_ s) (OnRequest method uri cb (cbs_ s)).

(** The callback given to OnHttpMsg for every connection. *)
Definition dispatch (handlers : nat → HttpCallBack) (s : HttpServer) (h : HttpConnPtr) : outcome HttpConnPtr :=
  r ← GetRequest h;
  match route r (cbs_ s) with
  | Some cb => handlers cb h
  | None => defcb_ s h
  end.

(** The read callback that OnConnCreate installs on a connection. *)
Definition server_read (handlers : nat → HttpCallBack) (s : HttpServer) : HttpCallBack :=
  ConnHandleRead (dispatch handlers s).

End HttpConn.
Arguments HttpConnPtr : clear implicits.

(** ** What Encode writes *)

Fixpoint headers_text (hs : list (bytes * bytes)) : bytes :=
  match hs with
  | [] => []
  | h :: hs => h.1 ++ str ": " ++ h.2 ++ crlf ++ headers_text hs
  end.

Definition rest_text (m : HttpMsg) : bytes :=
  headers_text (headers_ m) ++ (str "Connection: Keep-Alive" ++ crlf)
  ++ ztake (1024 - 1) (str "Content-Length: " ++ show_size (zlen (body_ m)) ++ crlf) ++ crlf ++ body_ m.

Definition request_text (r : HttpRequest) : bytes :=
  ztake (4096 - 1) (c_text (method_ r) ++ [32] ++ c_text (query_uri_ r) ++ [32] ++ c_text (version_ (req_msg r)) ++ crlf) ++ rest_text (req_msg r).

Definition response_text (r : HttpResponse) : bytes :=
  ztake (1024 - 1) (c_text (version_ (rep_msg r)) ++ [32] ++ show_int (status_ r) ++ [32] ++ c_text (statusWord_ r) ++ crlf)
  ++ rest_text (rep_msg r).

(** [f] appends [s] to a buffer that has room for it. *)
Definition appends (n : Z) (f : Buffer → outcome Buffer) (s : bytes) : Prop :=
  ∀ b, appendable n b → e_ b + zlen s ≤ n →
  ∃ b', f b = Ret b' ∧ appendable n b' ∧ e_ b' ≤ e_ b + zlen s ∧ content b' = content b ++ (Some <$> s).

Section EncodeLemmas.
Context (n : Z) (Hn : 2 * n ≤ ptrdiff_max).

Lemma appends_str s : appends n (AppendStr s) s.
Proof. intros b Hb Hs. by apply AppendStr_fits. Qed.

Lemma appends_seq f g s t : appends n f s → appends n g t → appends n (λ b, b ← f b; g b) (s ++ t).
Proof.
  intros Hf Hg b Hb Hs. rewrite zlen_app in Hs |- *. pose proof (zlen_nonneg t). pose proof (zlen_nonneg s).
  destruct (Hf b Hb) as (b1 & -> & Hb1 & He1 & Hc1); [lia|]. cbn.
  destruct (Hg b1 Hb1) as (b2 & -> & Hb2 & He2 & Hc2); [lia|].
  exists b2. split_and!; [done|done|lia|]. by rewrite Hc2, Hc1, fmap_app, app_assoc.
Qed.

Lemma appends_headers hs : appends n (append_headers hs) (headers_text hs).
Proof.
  induction hs as [|h hs IH]; cbn [append_headers headers_text].
  - intros b Hb _. exists b. rewrite app_nil_r. split_and!; [done|done|rewrite zlen_nil; lia|done].
  - repeat (apply appends_seq; [apply appends_str|]). apply IH.
Qed.

Lemma appends_rest m : appends n (encode_rest m) (rest_text m).
Proof.
  unfold encode_rest, rest_text. apply appends_seq; [apply appends_headers|].
  repeat (apply appends_seq; [apply appends_str|]). apply appends_str.
Qed.

Lemma Response_Encode_fits r : appends n (λ b, q ← HttpResponse_Encode r b; Ret q.2) (response_text r).
Proof.
  intros b Hb Hs. unfold HttpResponse_Encode.
  destruct (appends_seq _ _ _ _ (appends_str _) (appends_rest (rep_msg r)) b Hb Hs) as (b' & E & H).
  exists b'. split; [|done]. unfold append_line. apply bind_Ret_inv in E as (b1 & -> & E). cbn. by rewrite E.
Qed.

Lemma Request_Encode_fits r : appends n (λ b, q ← HttpRequest_Encode r b; Ret q.2) (request_text r).
Proof.
  intros b Hb Hs. unfold HttpRequest_Encode.
  destruct (appends_seq _ _ _ _ (appends_str _) (appends_rest (req_msg r)) b Hb Hs) as (b' & E & H).
  exists b'. split; [|done]. unfold append_line. apply bind_Ret_inv in E as (b1 & -> & E). cbn. by rewrite E.
Qed.

End EncodeLemmas.

(** ** Sending and receiving *)

(** A connection that can write, whatever its output buffer holds. *)
Definition can_write (c : TcpConn) : Prop :=
  state_ c = kConnected ∧ Forall wres_ok (writes c) ∧ ∃ ch, channel_ c = Some ch ∧ 0 ≤ fd_ ch.

Lemma open_can_write c : open_inv c → can_write c.
Proof. intros (? & _ & ? & ch & ? & ? & _). split_and!; eauto. Qed.

(** SendOutput flushes what was put into the output buffer. *)
Lemma SendOutput_flush c :
  can_write c → buf_wf (output_ c) →
  ∃ c', SendOutput c = Ret c' ∧ open_inv c' ∧ flow c' = flow c ∧ input_ c' = input_ c.
Proof.
  intros (Hst & Hws & ch & Hch & Hfd) Hwf. unfold SendOutput. rewrite Hch.
  destruct (IsWriting ch) eqn:Hiw.
  { eexists. split; [done|]. split_and!; [|by destruct c|done]. by apply (open_intro ch). }
  rewrite GetSize_content by done. destruct (Z.eqb_spec (zlen (content (output_ c))) 0) as [Hz|Hz]; cbn [negb].
  { exists c. split_and!; try done. apply zlen_0_nil in Hz. by apply (open_intro ch). }
  rewrite <- GetSize_content, read_all by done. cbn [mbind outcome_bind].
  destruct (ISend_ok (content (output_ c)) c ch Hws Hch Hfd) as (k & ws' & ch' & -> & Hk & Hws' & Hfd' & Hnw & Hkeep).
  cbn [mbind outcome_bind fst snd output_].
  destruct (Consume_ok k (output_ c) Hwf Hk) as (Hmw & Hmc & _).
  assert (Hflow : (wire c ++ ztake k (content (output_ c))) ++ content (Consume k (output_ c)) = flow c).
  { unfold flow. by rewrite Hmc, ztake_zdrop_app. }
  assert (Hfd1 : 0 ≤ fd_ ch') by lia.
  destruct (Z.eqb_spec (GetSize (Consume k (output_ c))) 0) as [Hz'|Hz']; cbn.
  - eexists. split; [by rewrite Hz'|]. split_and!; try done. apply (open_intro ch'); try done.
    rewrite GetSize_content in Hz' by done. by apply zlen_0_nil in Hz'.
  - rewrite (proj2 (Z.eqb_neq _ _)) by done. cbn.
    assert (IsWriting ch' = true) as Hon.
    { apply Hnw. destruct (decide (k = zlen (content (output_ c)))) as [->|]; [|lia].
      rewrite GetSize_content, Hmc, zdrop_all, zlen_nil in Hz' by (done || lia). done. }
    rewrite Hon. eexists. split; [done|]. split_and!; try done. by apply (open_intro ch').
Qed.

Section Exchange.
Context {user : nat → Type}.
Implicit Types h : HttpConnPtr user.

(** The connection's context is the HttpContext [c] at address [a]. *)
Definition holds (a : Z) (c : HttpContext) h : Prop :=
  m_ptr (ctx_ h) = Some a ∧ m_tpIndex (ctx_ h) = Some (CtxHttp : @tcode (@ctx_universe user))
  ∧ ctx_heap h !! a = Some (mkDerived (CtxHttp : @tcode (@ctx_universe user)) c).

Lemma context_holds a c h : holds a c h → context h = Ret (a, c).
Proof.
  intros (Hp & Ht & Hh). unfold context, AnyCast, Is. rewrite bool_decide_true by done. cbn [negb]. rewrite Hp.
  unfold any_deref. rewrite Hh. cbn [from_option_fault mbind outcome_bind]. by rewrite dyn_cast_same.
Qed.

Lemma put_holds a c c' h : holds a c h → holds a c' (put_context a c' h).
Proof. intros (? & ? & ?). split_and!; [done..|]. cbn. by rewrite lookup_insert_eq. Qed.

Lemma set_tcp_holds a c t h : holds a c h → holds a c (set_tcp t h).
Proof. done. Qed.

(** SetContext on a connection that has no context yet. *)
Lemma SetContext_holds c h :
  ctx_ h = Any_void → ∃ h' a, SetContext (mkDerived (CtxHttp : @tcode (@ctx_universe user)) c) h = Ret h'
    ∧ holds a c h' ∧ tcp_ h' = tcp_ h ∧ peer_port h' = peer_port h.
Proof.
  intros Hv. unfold SetContext, Any_value, new_derived, assign, Clone, any_deref, delete_ptr. rewrite Hv. cbn -[fresh].
  set (a := fresh (dom (ctx_heap h))). rewrite lookup_insert_eq. cbn -[fresh]. set (hp := <[a := _]> (ctx_heap h)).
  set (b := fresh (dom hp)). assert (hp !! b = None) as Hb by apply fresh_lookup_heap.
  assert (b ≠ a) as Hba by (intros E; rewrite E in Hb; unfold hp in Hb; by rewrite lookup_insert_eq in Hb).
  rewrite bool_decide_false by done. cbn [mbind outcome_bind]. unfold any_deref. rewrite lookup_insert_ne by done.
  assert (hp !! a = Some (mkDerived (CtxHttp : @tcode (@ctx_universe user)) c)) as -> by apply lookup_insert_eq.
  cbn [from_option_fault mbind outcome_bind].
  eexists _, b. split; [done|]. split; [|done]. split_and!; [done..|]. cbn. by rewrite lookup_delete_ne, lookup_insert_eq.
Qed.

(** Reading the input buffer as a string. *)
Lemma input_string_ok t buf : buf_wf (input_ t) → content (input_ t) = Some <$> buf → input_string t = Ret buf.
Proof. intros Hwf Hc. unfold input_string. rewrite read_all by done. cbn. rewrite Hc. unfold init_cells. by rewrite mapM_id_Some. Qed.

(** Sending an answer from a server: the text is appended to the stream, the
    scanned bytes leave the input, the request is cleared. *)
Lemma SendEncoded_server n encode text a c h :
  2 * n ≤ ptrdiff_max → appends n (λ b, q ← encode b; Ret q.2) text → holds a c h → IsClient (peer_port h) = false →
  can_write (tcp_ h) → appendable n (output_ (tcp_ h)) → e_ (output_ (tcp_ h)) + zlen text ≤ n →
  buf_wf (input_ (tcp_ h)) → 0 ≤ scanned_ (req_msg (req c)) ≤ zlen (content (input_ (tcp_ h))) →
  scanned_ (req_msg (req c)) < 2 ^ 31 →
  ∃ h', SendEncoded encode h = Ret h' ∧ open_inv (tcp_ h') ∧ flow (tcp_ h') = flow (tcp_ h) ++ (Some <$> text)
    ∧ buf_wf (input_ (tcp_ h'))
    ∧ content (input_ (tcp_ h')) = zdrop (scanned_ (req_msg (req c))) (content (input_ (tcp_ h)))
    ∧ holds a (mkCtx HttpRequest_Clear (rep c)) h'.
Proof.
  intros Hn Henc Hh Hport Hw Hout Hsz Hin Hsc Hsc'. unfold SendEncoded.
  destruct (Henc _ Hout Hsz) as (b & E & (Hwb & _) & _ & Hcb). apply bind_Ret_inv in E as ([k b'] & -> & [= ->]).
  cbn [mbind outcome_bind]. unfold ConnClearData. rewrite (context_holds a c) by done. cbn [mbind outcome_bind].
  unfold ClearData. cbn [peer_port set_tcp tcp_ input_ set_output]. rewrite Hport. cbn [mbind outcome_bind].
  rewrite (swrap_id 32), (wrap_id 64) by lia.
  destruct (Consume_ok (scanned_ (req_msg (req c))) (input_ (tcp_ h)) Hin Hsc) as (Hwi & Hci & _).
  match goal with |- context [SendOutput ?t] => set (t1 := t) end.
  destruct (SendOutput_flush t1) as (t2 & -> & Ho & Hf & Hi); [done|done|].
  cbn [mbind outcome_bind]. eexists. split; [done|]. cbn. split_and!; [done| | | |].
  - rewrite Hf. unfold flow. cbn. by rewrite Hcb, app_assoc.
  - by rewrite Hi.
  - by rewrite Hi.
  - apply set_tcp_holds. by eapply (put_holds a c).
Qed.

End Exchange.

(** ** Lemmas on the encoded head *)

Lemma find_from_some p pre suf i : ∃ k, find_from p (pre ++ p ++ suf) i = Some k ∧ i ≤ k ≤ i + zlen pre.
Proof.
  revert i. induction pre as [|x pre IH]; intros i.
  - exists i. rewrite zlen_nil. split; [|lia]. cbn [app]. destruct (p ++ suf) eqn:E; cbn [find_from].
    + destruct p; [done|]. done.
    + rewrite <- E. by rewrite is_prefix_app.
  - rewrite zlen_cons. pose proof (zlen_nonneg pre). cbn [app find_from]. destruct (is_prefix p _); [exists i; split; [done|lia]|].
    destruct (IH (i + 1)) as (k & -> & ?). exists k. split; [done|lia].
Qed.

Lemma zlen_app_r {A} (l k : list A) : zlen k ≤ zlen (l ++ k).
Proof. rewrite zlen_app. pose proof (zlen_nonneg l). lia. Qed.

(** A number has at most as many decimal as binary digits. *)
Lemma length_pretty_N_go x s : (String.length (pretty_N_go x s) ≤ String.length s + N.to_nat (N.size x))%nat.
Proof.
  revert s. induction (N.lt_wf_0 x) as [x _ IH]; intros s. destruct (decide (x = 0%N)) as [->|Hx].
  { rewrite pretty_N_go_0. lia. }
  rewrite pretty_N_go_step by lia. etrans; [apply IH; apply N.div_lt; lia|]. cbn [String.length].
  destruct (decide (x < 10)%N) as [Hs|Hs].
  - rewrite N.div_small by done. cbn. destruct x; [done|]. cbn. lia.
  - assert (x / 10 ≠ 0)%N by (intros E%N.div_small_iff; lia).
    rewrite !N.size_log2 by done. assert (N.log2 (x / 10) < N.log2 x)%N; [|lia].
    assert (x / 10 ≤ x / 2)%N by (apply N.div_le_compat_l; lia).
    assert (N.log2 (x / 10) ≤ N.log2 (x / 2))%N by (by apply N.log2_le_mono).
    assert (N.log2 (x / 2) = N.log2 x - 1)%N as E by (rewrite <- N.div2_div; apply (N.log2_shiftr x 1)).
    assert (1 ≤ N.log2 x)%N by (apply N.log2_le_pow2; cbn; lia). lia.
Qed.

Lemma show_size_short n : 0 ≤ n < 2 ^ 64 → zlen (show_size n) ≤ 65.
Proof.
  intros Hn. unfold show_size, str, zlen. rewrite length_fmap.
  assert (∀ t, length (String.list_ascii_of_string t) = String.length t) as -> by (induction t; cbn; congruence).
  unfold pretty, pretty_N. case_decide; [cbn; lia|]. etrans.
  { apply inj_le, length_pretty_N_go. }
  cbn. assert (N.log2 (Z.to_N n) ≤ 64)%N; [|rewrite N.size_log2 by done; lia].
  etrans; [apply N.log2_le_mono with (b := (2 ^ 64)%N); lia|]. done.
Qed.

(** The head of an encoded request makes the decoder loop. *)
Lemma encoded_request_TryDecode r m :
  let line := request_line (c_text (method_ r)) (c_text (query_uri_ r)) (c_text (version_ (req_msg r))) in
  headers_ (req_msg r) = [] → 13 ∉ line → zlen line ≤ 4093 → zlen (request_text r) < 2 ^ 31 →
  complete_ m = false → contentLen_ m = 0 → TryDecode_ (request_text r) m = Diverge.
Proof.
  intros line Hh Hcr Hline Hlen Hc Hn. pose proof (zlen_nonneg (body_ (req_msg r))). pose proof (zlen_nonneg line).
  assert (zlen (body_ (req_msg r)) < 2 ^ 31) as Hb.
  { eapply Z.le_lt_trans; [|exact Hlen]. unfold request_text, rest_text. rewrite !app_assoc. apply zlen_app_r. }
  set (size := show_size (zlen (body_ (req_msg r)))) in *.
  assert (zlen size ≤ 65) as Hsz by (apply show_size_short; lia).
  set (mid := str "nnection: Keep-Alive" ++ crlf ++ str "Content-Length: " ++ size).
  assert (request_text r = (line ++ crlf ++ str "Co") ++ mid ++ (crlf ++ crlf) ++ body_ (req_msg r)) as Ht.
  { unfold request_text, rest_text. rewrite Hh. fold size. cbn [headers_text].
    rewrite (ztake_all (4096 - 1)), (ztake_all (1024 - 1)).
    - unfold line, request_line, mid. rewrite <- !app_assoc. reflexivity.
    - rewrite !zlen_app. change (zlen (str "Content-Length: ")) with 16. change (zlen crlf) with 2. lia.
    - unfold line, request_line in Hline. rewrite !zlen_app in *. change (zlen [32]) with 1 in *. change (zlen crlf) with 2. lia. }
  assert (∃ p, find (crlf ++ crlf) (request_text r) 0 = Some p ∧ zlen line + 4 ≤ p ≤ zlen (request_text r)) as (p & Hf & Hp).
  { unfold find. rewrite bool_decide_true, zdrop_0 by apply zlen_nonneg. rewrite Ht, find_from_skip.
    - destruct (find_from_some (crlf ++ crlf) mid (body_ (req_msg r)) (0 + zlen (line ++ crlf ++ str "Co"))) as (p & -> & Hp).
      exists p. split; [done|]. rewrite !zlen_app in *. change (zlen crlf) with 2 in *. change (zlen (str "Co")) with 2 in *. lia.
    - intros k Hk. rewrite !length_app in Hk. change (length crlf) with 2%nat in Hk. change (length (str "Co")) with 2%nat in Hk.
      destruct (decide (k < length line)%nat) as [Hl|Hl].
      + destruct (lookup_lt_is_Some_2 line k Hl) as [x Hx]. rewrite drop_app_le, (drop_S _ _ _ Hx) by lia.
        change (((13 =? x) && is_prefix [10; 13; 10] ((drop (S k) line ++ crlf ++ str "Co") ++ mid ++ (crlf ++ crlf) ++ body_ (req_msg r))) = false).
        rewrite (proj2 (Z.eqb_neq 13 x)); [done|]. intros <-. apply Hcr. by eapply list_elem_of_lookup_2.
      + rewrite drop_app_ge by lia. assert (k - length line < 4)%nat as Hk4 by lia.
        destruct (k - length line)%nat as [|[|[|[|]]]]; [reflexivity..|lia]. }
  assert (request_text r = line ++ crlf ++ 67 :: (111 :: str "nnection") ++ 58 ::
            (str " Keep-Alive" ++ crlf ++ str "Content-Length: " ++ size ++ crlf ++ crlf ++ body_ (req_msg r))) as Ht2.
  { rewrite Ht. unfold mid. rewrite <- !app_assoc. reflexivity. }
  rewrite Ht2 in Hlen, Hf |- *. apply (TryDecode_header_hangs line 67 111 _ _ p); try done; [by_decide|].
  rewrite <- Ht2 in Hlen. lia.
Qed.

(** Behind the head of a request. *)
Lemma zdrop_head (line rest : bytes) :
  zdrop (zlen line + 4) (Some <$> (line ++ crlf ++ crlf ++ rest)) = Some <$> rest.
Proof.
  replace (line ++ crlf ++ crlf ++ rest) with ((line ++ crlf ++ crlf) ++ rest) by (by rewrite <- !app_assoc).
  rewrite fmap_app. replace (zlen line + 4) with (zlen (Some <$> (line ++ crlf ++ crlf))); [apply zdrop_app_length|].
  by rewrite zlen_fmap, !zlen_app.
Qed.

(** ** Properties *)

Section Properties.
Context {user : nat → Type}.
Implicit Types h : HttpConnPtr user.

(** A read event with a request without header lines: it is decoded into the
    context and dispatched. *)
Lemma server_read_request (handlers : nat → HttpConnPtr user → outcome (HttpConnPtr user)) (s : @HttpServer user)
    (method path version rest : bytes) (kvs : list (bytes * bytes)) (a : Z) (rep0 : HttpResponse) h :
  let line := request_line method (query path kvs) version in
  let buf := line ++ crlf ++ crlf ++ rest in
  let r := mkReq (mkMsg [] version [] true 0 (zlen line + 4)) (set_args kvs ∅) method path (query path kvs) in
  word_ok method → word_ok (query path kvs) → word_ok version → head path = Some 47 → 63 ∉ path → Forall arg_ok kvs →
  zlen buf < 2 ^ 31 → holds a (mkCtx HttpRequest_Clear rep0) h → IsClient (peer_port h) = false →
  buf_wf (input_ (tcp_ h)) → content (input_ (tcp_ h)) = Some <$> buf →
  server_read handlers s h = match route r (cbs_ s) with
                             | Some cb => handlers cb (put_context a (mkCtx r rep0) h)
                             | None => defcb_ s (put_context a (mkCtx r rep0) h)
                             end.
Proof.
  intros line buf r Hm Hu Hv Hhead Hp Hok Hlen Hh Hport Hwf Hc.
  assert (Hh1 : holds a (mkCtx r rep0) (put_context a (mkCtx r rep0) h)) by (by eapply put_holds).
  unfold server_read, ConnHandleRead. rewrite (context_holds a _ h Hh). cbn [mbind outcome_bind].
  rewrite (input_string_ok _ buf Hwf Hc). cbn [mbind outcome_bind]. unfold HandleRead_, GetContext.
  cbn [from_option_fault mbind outcome_bind req rep]. rewrite Hport. cbn [negb].
  unfold buf, line. rewrite TryDecode_request by done.
  change (dispatch handlers s (put_context a (mkCtx r rep0) h) = match route r (cbs_ s) with
    | Some cb => handlers cb (put_context a (mkCtx r rep0) h) | None => defcb_ s (put_context a (mkCtx r rep0) h) end).
  unfold dispatch, GetRequest. by rewrite (context_holds a _ _ Hh1).
Qed.

(** C16: an HTTP exchange over the byte stream.  On a server connection that holds
    a cleared context, a request without header lines that is in the input
    buffer is dispatched: the handler registered for its method and path is
    called with the decoded request in the context; without one the default
    callback appends exactly the text of the 404 response to the connection's
    stream (its version and status word up to a NUL), removes exactly the request from the input (a following request
    stays), and leaves a cleared request for the next one. *)
Theorem http_exchange (handlers : nat → HttpConnPtr user → outcome (HttpConnPtr user)) (s : @HttpServer user)
    (method path version rest : bytes) (kvs : list (bytes * bytes)) (n a : Z) (rep0 : HttpResponse) h :
  let uri := query path kvs in
  let line := request_line method uri version in
  let buf := line ++ crlf ++ crlf ++ rest in
  let r := mkReq (mkMsg [] version [] true 0 (zlen line + 4)) (set_args kvs ∅) method path uri in
  word_ok method → word_ok uri → word_ok version → head path = Some 47 → 63 ∉ path → Forall arg_ok kvs →
  zlen buf < 2 ^ 31 → holds a (mkCtx HttpRequest_Clear rep0) h → IsClient (peer_port h) = false →
  buf_wf (input_ (tcp_ h)) → content (input_ (tcp_ h)) = Some <$> buf →
  (∀ cb, route r (cbs_ s) = Some cb →
     server_read handlers s h = handlers cb (put_context a (mkCtx r rep0) h)
     ∧ GetRequest (put_context a (mkCtx r rep0) h) = Ret r)
  ∧ (route r (cbs_ s) = None → defcb_ s = default_callback → open_inv (tcp_ h) → appendable n (output_ (tcp_ h)) →
     e_ (output_ (tcp_ h)) + zlen (response_text (not_found rep0)) ≤ n → 2 * n ≤ ptrdiff_max →
     ∃ h', server_read handlers s h = Ret h' ∧ open_inv (tcp_ h')
       ∧ flow (tcp_ h') = flow (tcp_ h) ++ (Some <$> response_text (not_found rep0))
       ∧ content (input_ (tcp_ h')) = Some <$> rest
       ∧ holds a (mkCtx HttpRequest_Clear (not_found rep0)) h').
Proof.
  intros uri line buf r Hm Hu Hv Hhead Hp Hok Hlen Hh Hport Hwf Hc.
  assert (Hh1 : holds a (mkCtx r rep0) (put_context a (mkCtx r rep0) h)) by (by eapply put_holds).
  pose proof (server_read_request handlers s method path version rest kvs a rep0 h Hm Hu Hv Hhead Hp Hok Hlen Hh Hport Hwf Hc) as Hsr.
  cbv zeta in Hsr. rewrite Hsr. clear Hsr. fold uri line r. unfold GetRequest. rewrite (context_holds a _ _ Hh1).
  cbn [mbind outcome_bind snd req].
  split; [by intros cb ->|]. intros -> -> Hopen Happ Hsz Hn2. unfold default_callback. rewrite (context_holds a _ _ Hh1).
  cbn [mbind outcome_bind req rep].
  assert (Hh2 : holds a (mkCtx r (not_found rep0)) (put_context a (mkCtx r (not_found rep0)) (put_context a (mkCtx r rep0) h)))
    by (by eapply put_holds).
  unfold SendResponse, GetResponse. rewrite (context_holds a _ _ Hh2). cbn [mbind outcome_bind snd rep].
  assert (zlen line + 4 ≤ zlen buf) as Hl4.
  { unfold buf. rewrite !zlen_app. change (zlen crlf) with 2. pose proof (zlen_nonneg rest). lia. }
  pose proof (zlen_nonneg line).
  destruct (SendEncoded_server n (HttpResponse_Encode (not_found rep0)) (response_text (not_found rep0)) a _ _ Hn2
              (Response_Encode_fits n Hn2 _) Hh2 Hport (open_can_write _ Hopen) Happ Hsz Hwf)
    as (h' & E & H1 & H2 & H3 & H4 & H5).
  - cbn. rewrite Hc, zlen_fmap. lia.
  - cbn. lia.
  - exists h'. split_and!; try done. rewrite H4. cbn [req r req_msg scanned_ tcp_ put_context]. rewrite Hc. apply zdrop_head.
Qed.

(** C36: HttpServer cannot serve.  Nothing in the HTTP layer stores a context in the
    connections it accepts; with the context of a new connection every read
    event that finds or brings bytes ends in bad_cast, also the one that
    closes the connection, whatever callbacks are registered. *)
Theorem http_server_bad_cast (handlers : nat → HttpConnPtr user → outcome (HttpConnPtr user)) (s : @HttpServer user)
    (on_state : TcpConn → outcome TcpConn) (hp : gmap Z Derived) (port r rev : Z) (c : TcpConn) (ch : Channel) :
  let on_read t := tcp_ <$> server_read handlers s (mkHttpConn t Any_void hp port) in
  state_ c = kConnected → channel_ c = Some ch → 0 ≤ fd_ ch → Forall rres_ok (reads c) → readcb_ c = true →
  buf_wf (input_ c) → 0 < exp_ (input_ c) →
  2 * (e_ (input_ c) + zlen (read_plan (reads c)).1 + exp_ (input_ c)) ≤ ptrdiff_max →
  content (input_ c) ++ (Some <$> (read_plan (reads c)).1) ≠ [] →
  HandleRead on_read on_state r rev c = Fault ThrowCast.
Proof.
  intros on_read Hst Hch Hfd Hok Hcb Hwf Hexp Hsz Hne.
  assert (∀ t, on_read t = Fault ThrowCast) as Hthrow.
  { intros t. unfold on_read, server_read, ConnHandleRead, context. cbn [ctx_ ctx_heap]. by rewrite AnyCast_void. }
  unfold HandleRead. rewrite bool_decide_false by (by rewrite Hst).
  destruct (HandleRead_loop_ok on_read on_state (reads_size (reads c)) c ch) as (c' & -> & (inp & rs & ->) & Hwf' & Hc' & _); try done.
  assert (call_read on_read (set_input inp (set_reads rs c)) = Fault ThrowCast) as Hcall.
  { unfold call_read. cbn [readcb_ set_input set_reads input_]. rewrite Hcb.
    rewrite GetSize_content by done. rewrite (proj2 (Z.eqb_neq _ _)); [apply Hthrow|].
    intros Hz%zlen_0_nil. apply Hne. by rewrite <- Hc'. }
  unfold CleanUp. rewrite Hcall. by destruct (read_plan (reads c)).2.
Qed.

(** The client and the server do not fit together.  The text HttpRequest::Encode
    writes for any request without headers of the user, on a line of ordinary
    length, always has header lines, and a server that receives it never
    returns from decoding it. *)
Theorem encoded_request_hangs (r : HttpRequest) (rep0 : HttpResponse) (port : Z) :
  let line := request_line (c_text (method_ r)) (c_text (query_uri_ r)) (c_text (version_ (req_msg r))) in
  headers_ (req_msg r) = [] → 13 ∉ line → zlen line ≤ 4093 → zlen (request_text r) < 2 ^ 31 →
  IsClient port = false →
  HandleRead_ port (request_text r) (Some (mkCtx HttpRequest_Clear rep0)) = Diverge
  ∧ ∀ n b, 2 * n ≤ ptrdiff_max → appendable n b → e_ b + zlen (request_text r) ≤ n →
      ∃ k b', HttpRequest_Encode r b = Ret (k, b') ∧ content b' = content b ++ (Some <$> request_text r).
Proof.
  intros line Hh Hcr Hline Hlen Hport. split.
  - unfold HandleRead_, GetContext. cbn [from_option_fault mbind outcome_bind]. rewrite Hport. cbn [negb].
    unfold HttpRequest_TryDecode. by rewrite encoded_request_TryDecode.
  - intros n b Hn Hb Hsz. destruct (Request_Encode_fits n Hn r b Hb Hsz) as (b' & E & _ & _ & Hc).
    apply bind_Ret_inv in E as ([k b2] & E & [= ->]). by exists k, b'.
Qed.

End Properties.

(** ** Witnesses *)

Definition demo_user (n : nat) : Type := unit.
Abbreviation http_code := (CtxHttp : @tcode (@ctx_universe demo_user)).

(** A buffer that holds [s]. *)
Definition buffer_of (s : bytes) : Buffer := mkBuffer (Some (Some <$> s)) 0 (zlen s) (zlen s) 4096 0.

(** A server connection with a cleared context and [s] in its input. *)
Definition demo_http (s : bytes) : HttpConnPtr demo_user :=
  mkHttpConn (set_input (buffer_of s) demo_conn) (mkAny (Some 8) (Some http_code))
    {[8 := mkDerived http_code (mkCtx HttpRequest_Clear HttpResponse_Clear)]} 40000.

Lemma http_exchange_witness :
  ∃ h', server_read (λ _ h, Ret h) HttpServer_new (demo_http (str "GET /a HTTP/1.1" ++ crlf ++ crlf ++ str "GET")) = Ret h'
    ∧ flow (tcp_ h') = Some <$> response_text (not_found HttpResponse_Clear)
    ∧ content (input_ (tcp_ h')) = Some <$> str "GET".
Proof.
  destruct (http_exchange (user := demo_user) (λ _ h, Ret h) HttpServer_new (str "GET") (str "/a") (str "HTTP/1.1") (str "GET") []
              4096 8 HttpResponse_Clear (demo_http (str "GET /a HTTP/1.1" ++ crlf ++ crlf ++ str "GET"))) as [_ H].
  - split; by_decide.
  - split; by_decide.
  - split; by_decide.
  - done.
  - by_decide.
  - constructor.
  - by vm_compute.
  - split; [|split]; by vm_compute.
  - by vm_compute.
  - split_and!; by vm_compute.
  - by vm_compute.
  - destruct H as (h' & H1 & _ & H2 & H3 & _).
    + by vm_compute.
    + reflexivity.
    + exact demo_open.
    + split_and!; [apply wf_new|by vm_compute..].
    + by vm_compute.
    + by vm_compute.
    + exists h'. split; [exact H1|]. split; [rewrite H2; reflexivity|exact H3].
Defined.

Lemma http_server_bad_cast_witness :
  HandleRead (λ t, tcp_ <$> server_read (user := demo_user) (λ _ h, Ret h) HttpServer_new (mkHttpConn t Any_void ∅ 40000))
    idle 1 4 demo_conn = Fault ThrowCast.
Proof.
  apply (http_server_bad_cast (user := demo_user) (λ _ h, Ret h) HttpServer_new idle ∅ 40000 1 4 demo_conn demo_chan);
    [done|done|by vm_compute|by repeat constructor|done|apply wf_new|by vm_compute|by vm_compute|done].
Defined.

Lemma encoded_request_hangs_witness :
  HandleRead_ 40000 (request_text (SetQueryUri (str "/") HttpRequest_Clear))
    (Some (mkCtx HttpRequest_Clear HttpResponse_Clear)) = Diverge.
Proof.
  apply (encoded_request_hangs (SetQueryUri (str "/") HttpRequest_Clear) HttpResponse_Clear 40000);
    first [by_decide|by vm_compute].
Defined.
