(* ===== verification/Programs.v ===== *)
(** * Programs on top of the library: examples/http/http_server.cc, unit_test/unit_test.cc,
      net/tcpclient.*, and the diagnostics of sockets

    The example server with the callback it registers, run on the HTTP layer of
    HttpConn.v and on the accepting server of TcpServer.v; the registry of unit tests;
    the class TcpClient, whose operations are empty; and the operations of Socket and
    TcpConn that print the kernel's statistics of a connection. *)

From S2P Require Import Prelude Any EventLoopPool TcpServer Buffer Channel Time Text TimerQueue TcpConn Http HttpConn.

(** ** The HTTP example *)

Section Example.
Context {user : nat → Type}.

(** The callback for /ref: the body of the request is the body of the answer, and the
    connection of an HTTP/1.0 client is closed behind it. *)
Definition ref_handler (h : HttpConnPtr user) : outcome (HttpConnPtr user) :=
  r ← GetRequest h;
  let b := body_ (req_msg r) in
  let v := version_ (req_msg r) in
  let rep := mkRep (SetBody b (rep_msg HttpResponse_Clear)) (statusWord_ HttpResponse_Clear) (status_ HttpResponse_Clear) in
  h ← SendResponse_rep rep h;
  Ret (if bool_decide (v = str "HTTP/1.0") then set_tcp (CloseInLoop (tcp_ h)) h else h).

(** The server of main, with the callback number 0. *)
Definition ref_server : HttpServer := ServerOnRequest (str "GET") (str "/ref") 0 (@HttpServer_new user).
Definition ref_read (h : HttpConnPtr user) : outcome (HttpConnPtr user) := server_read (λ _, ref_handler) ref_server h.

End Example.

(** The listening side of main: HttpServer server(&loop); server.Bind("0.0.0.0", 8080). *)
Definition main_listening (gethost : bytes → option Z) (loop fd : Z) (bound : bool) (errno : Z) : TcpServer :=
  (BindHost gethost (str "0.0.0.0") 8080 fd bound errno (TcpServer_new loop)).2.

(** ** The registry of unit tests *)

Section UnitTest.
(** What the functions of tests act on. *)
Context {W : Type}.

Record Test : Type := mkTest { test_base : bytes; test_name : bytes; test_func : W → outcome W }.

(** The static vector of GetVectorTest is the argument [tests]. *)
Definition RegisterTest (base name : bytes) (func : W → outcome W) (tests : list Test) : bool * list Test :=
  (true, tests ++ [mkTest base name func]).

Fixpoint run_tests (tests : list Test) (w : W) : outcome W :=
  match tests with
  | [] => Ret w
  | t :: tests => w ← test_func t w; run_tests tests w
  end.

Definition RunAllTests (tests : list Test) (w : W) : outcome (Z * W) :=
  w ← (if negb (zlen tests =? 0) then run_tests tests w else Ret w); Ret (0, w).

End UnitTest.
Arguments Test : clear implicits.

(** ** TcpClient *)

Record TcpClient : Type := mkTcpClient {
  client_loop_ : Z;
  client_conn_ : TcpConn;
  client_readCb_ : bool;
  client_writeCb_ : bool;
  client_stateCb_ : bool;
}.

Definition TcpClient_new (loop : Z) (conn : TcpConn) : TcpClient := mkTcpClient loop conn false false false.
Definition TcpClient_Connect (c : TcpClient) : TcpClient := c.
Definition TcpClient_Disconnect (c : TcpClient) : TcpClient := c.
Definition SetReadCallback (c : TcpClient) : TcpClient :=
  mkTcpClient (client_loop_ c) (client_conn_ c) true (client_writeCb_ c) (client_stateCb_ c).
Definition SetWriteCallback (c : TcpClient) : TcpClient :=
  mkTcpClient (client_loop_ c) (client_conn_ c) (client_readCb_ c) true (client_stateCb_ c).
Definition SetStateCallback (c : TcpClient) : TcpClient :=
  mkTcpClient (client_loop_ c) (client_conn_ c) (client_readCb_ c) (client_writeCb_ c) true.

(** ** Statistics of a socket *)

(** The fields of tcp_info that are printed, as the source names them. *)
Record tcp_info : Type := mkInfo {
  tcpi_retransmits : Z; tcpi_rto : Z; tcpi_ato : Z; tcpi_snd_mss : Z; tcpi_rcv_mss : Z; tcpi_lost : Z;
  tcpi_retrans : Z; tcpi_rtt : Z; tcpi_rttvar : Z; tcpi_snd_ssthresh : Z; tcpi_snd_cwnd : Z; tcpi_total_retrans : Z;
}.

Definition info_text (i : tcp_info) : bytes :=
  str "unrecoverd=" ++ dec (tcpi_retransmits i)
  ++ str " rto=" ++ dec (tcpi_rto i) ++ str " ato=" ++ dec (tcpi_ato i) ++ str " snd_mss=" ++ dec (tcpi_snd_mss i)
  ++ str " rcv_mss=" ++ dec (tcpi_rcv_mss i)
  ++ str " lost=" ++ dec (tcpi_lost i) ++ str " retrans=" ++ dec (tcpi_retrans i) ++ str " rtt=" ++ dec (tcpi_rtt i)
  ++ str " rttvar=" ++ dec (tcpi_rttvar i)
  ++ str " sshthresh=" ++ dec (tcpi_snd_ssthresh i) ++ str " cwnd=" ++ dec (tcpi_snd_cwnd i)
  ++ str " total_retrans=" ++ dec (tcpi_total_retrans i).

(** GetTcpInfo: [ans] is what getsockopt(2) gives, [None] an error. *)
Definition GetTcpInfo (ans : option tcp_info) : bool * tcp_info :=
  match ans with
  | Some i => (true, i)
  | None => (false, mkInfo 0 0 0 0 0 0 0 0 0 0 0 0)      (* bzero *)
  end.

(** GetTcpInfoString(buf, len): the array [buf] afterwards. *)
Definition GetTcpInfoString (ans : option tcp_info) (len : Z) (buf : list cell) : bool * list cell :=
  let '(ok, i) := GetTcpInfo ans in
  if ok then let s := snprintf len (info_text i) in (ok, (Some <$> s) ++ zdrop (zlen s) buf)
  else (ok, buf).

(** TcpConn::GetTcpInfo *)
Definition Conn_GetTcpInfo (ans : option tcp_info) (c : TcpConn) : outcome (bool * tcp_info) :=
  _ ← assert_ (bool_decide (state_ c = kConnected));
  Ret (true, (GetTcpInfo ans).2).

(** The C string in an array whose cells may not be initialised. *)
Fixpoint c_str_mem (l : list cell) : outcome bytes :=
  match l with
  | [] => Fault OutOfBounds
  | None :: _ => Fault UninitRead
  | Some x :: l => if x =? 0 then Ret [] else k ← c_str_mem l; Ret (x :: k)
  end.

(** TcpConn::GetTcpinfoString: char buf[1024] is not initialised and the result of
    GetTcpInfoString not looked at. *)
Definition GetTcpinfoString (ans : option tcp_info) : outcome bytes :=
  c_str_mem (GetTcpInfoString ans 1024 (replicate 1024 None)).2.

(** ** Lemmas *)

Lemma c_str_mem_init l t s : c_str l = Ret s → c_str_mem ((Some <$> l) ++ t) = Ret s.
Proof.
  revert s. induction l as [|x l IH]; intros s; cbn; [done|]. destruct (x =? 0); [done|].
  destruct (c_str l) as [k| |]; [|done..]. cbn. intros [= <-]. by rewrite (IH k).
Qed.

Lemma run_tests_app {W} (ts us : list (Test W)) w : run_tests (ts ++ us) w = (w ← run_tests ts w; run_tests us w).
Proof. revert w. induction ts as [|t ts IH]; intros w; [done|]. cbn. destruct (test_func t w); cbn; [apply IH|done..]. Qed.

(** The test for an empty vector makes no difference. *)
Lemma RunAllTests_eq {W} (ts : list (Test W)) w : RunAllTests ts w = (w ← run_tests ts w; Ret (0, w)).
Proof. by destruct ts. Qed.

(** A test registered last runs after all the others, when they return. *)
Lemma RunAllTests_register {W} base name (f : W → outcome W) ts w w' :
  RunAllTests ts w = Ret (0, w') → RunAllTests (RegisterTest base name f ts).2 w = (w ← f w'; Ret (0, w)).
Proof.
  rewrite !RunAllTests_eq. cbn [RegisterTest snd]. rewrite run_tests_app. 
  destruct (run_tests ts w) as [w1| |]; [|done..]. cbn. intros [= ->]. by destruct (f w').
Qed.

(** The numbers that %u prints. *)
Definition is_u32 (x : Z) : Prop := 0 ≤ x < 2 ^ 32.

Definition info_ok (i : tcp_info) : Prop :=
  Forall is_u32 [tcpi_retransmits i; tcpi_rto i; tcpi_ato i; tcpi_snd_mss i; tcpi_rcv_mss i; tcpi_lost i;
    tcpi_retrans i; tcpi_rtt i; tcpi_rttvar i; tcpi_snd_ssthresh i; tcpi_snd_cwnd i; tcpi_total_retrans i].

(** A text without NUL of at most [n] bytes. *)
Definition short_text (n : Z) (s : bytes) : Prop := zlen s ≤ n ∧ 0 ∉ s.

Lemma short_app n m s t : short_text n s → short_text m t → short_text (n + m) (s ++ t).
Proof. intros [H1 H2] [H3 H4]. split; [rewrite zlen_app; lia|]. rewrite elem_of_app. naive_solver. Qed.

Lemma short_dec x : is_u32 x → short_text 10 (dec x).
Proof. intros Hx. destruct (dec_ok 9 x) as [? ?]; [unfold is_u32 in Hx; lia|]. split; [lia|done]. Qed.

Lemma info_text_short i : info_ok i → ∃ n, n < 1024 ∧ short_text n (info_text i).
Proof.
  unfold info_ok. rewrite !Forall_cons. intros Hi. destruct_and! Hi. eexists. split; cycle 1.
  - unfold info_text. repeat (eapply short_app; [first [by apply short_dec|split; [reflexivity|by_decide]]|]). by apply short_dec.
  - by vm_compute.
Qed.

(** ** Properties *)

(** The text of the answer of /ref to a request without a body. *)
Definition ref_answer : bytes := response_text (mkRep (SetBody [] (rep_msg HttpResponse_Clear)) (statusWord_ HttpResponse_Clear) (status_ HttpResponse_Clear)).

Section Properties.
Context {user : nat → Type}.
Implicit Types h : HttpConnPtr user.

(** The example server.  On a connection that holds a cleared HTTP context, a
    request GET /ref with any arguments and without headers puts exactly the answer
    200 OK on the connection's stream, takes exactly the request from the input, and
    leaves a cleared request; the connection of an HTTP/1.0 client is then closed at
    once, so what the socket did not take by then is never sent, any other stays open.
    But main never calls Start: the first connection that is accepted fails the
    assertion of GetNextLoop that the pool has started. *)
Theorem http_example (version rest : bytes) (kvs : list (bytes * bytes)) (n a : Z) (rep0 : HttpResponse) h :
  let line := request_line (str "GET") (query (str "/ref") kvs) version in
  let buf := line ++ crlf ++ crlf ++ rest in
  word_ok (query (str "/ref") kvs) → word_ok version → Forall arg_ok kvs → zlen buf < 2 ^ 31 →
  holds a (mkCtx HttpRequest_Clear rep0) h → IsClient (peer_port h) = false →
  buf_wf (input_ (tcp_ h)) → content (input_ (tcp_ h)) = Some <$> buf → open_inv (tcp_ h) → appendable n (output_ (tcp_ h)) →
  e_ (output_ (tcp_ h)) + zlen ref_answer ≤ n → 2 * n ≤ ptrdiff_max →
  (∃ h', ref_read h = Ret h' ∧ flow (tcp_ h') = flow (tcp_ h) ++ (Some <$> ref_answer)
     ∧ content (input_ (tcp_ h')) = Some <$> rest ∧ holds a (mkCtx HttpRequest_Clear rep0) h'
     ∧ (version = str "HTTP/1.0" → fd_ <$> channel_ (tcp_ h') = Some (-1))
     ∧ (version ≠ str "HTTP/1.0" → open_inv (tcp_ h')))
  ∧ ∀ gethost loop lfd errno fd rs, 0 ≤ lfd →
      HandleAccept (AConn fd true true :: rs) (main_listening gethost loop lfd true errno) = Fault AssertFailed.
Proof.
  intros line buf Hu Hv Hok Hlen Hh Hport Hwf Hc Hopen Happ Hsz Hn. split.
  2:{ intros gethost loop lfd errno fd rs Hl. unfold HandleAccept, main_listening. cbn [BindHost Bind negb snd listen_fd_].
      cbn [from_option_fault mbind outcome_bind]. by rewrite (proj2 (Z.leb_le 0 lfd)). }
  set (m := mkMsg [] version [] true 0 (zlen line + 4)).
  set (r := mkReq m (set_args kvs ∅) (str "GET") (str "/ref") (query (str "/ref") kvs)).
  pose proof (server_read_request (λ _, ref_handler) ref_server (str "GET") (str "/ref") version rest kvs a rep0 h) as Hs.
  cbv zeta in Hs. fold line m r in Hs. change (route r (cbs_ ref_server)) with (Some 0%nat) in Hs.
  unfold ref_read. rewrite Hs; try done; [|split; by_decide|by_decide]. clear Hs.
  assert (Hh1 : holds a (mkCtx r rep0) (put_context a (mkCtx r rep0) h)) by (by eapply put_holds).
  unfold ref_handler, GetRequest. rewrite (context_holds a _ _ Hh1). cbn [mbind outcome_bind snd req r req_msg m body_ version_].
  assert (zlen line + 4 ≤ zlen buf) as Hl4.
  { unfold buf. rewrite !zlen_app. change (zlen crlf) with 2. pose proof (zlen_nonneg rest). lia. }
  pose proof (zlen_nonneg line).
  destruct (SendEncoded_server n _ ref_answer a _ _ Hn (Response_Encode_fits n Hn _) Hh1 Hport (open_can_write _ Hopen) Happ Hsz Hwf)
    as (h' & E & H1 & H2 & H3 & H4 & H5); [cbn [tcp_ put_context req req_msg]; unfold r, m; cbn [req_msg scanned_]; rewrite Hc, zlen_fmap; lia|unfold r, m; cbn [req req_msg scanned_]; lia|].
  unfold SendResponse_rep. unfold ref_answer in E. rewrite E. cbn [mbind outcome_bind].
  assert (content (input_ (tcp_ h')) = Some <$> rest) as Hrest.
  { rewrite H4. unfold r, m. cbn [req req_msg scanned_ tcp_ put_context]. rewrite Hc. apply zdrop_head. }
  pose proof H1 as (_ & _ & _ & x & Hx & _).
  eexists. split; [done|]. case_bool_decide as Hver; [|by split_and!].
  unfold CloseInLoop. rewrite Hx. cbn [tcp_ set_tcp]. split_and!; done.
Qed.

End Properties.

(** The statistics of a connection as text.  When the kernel gives them,
    GetTcpinfoString returns the whole text, which always fits the array; when it does
    not, it returns an array nobody has written. *)
Theorem tcp_info_string (i : tcp_info) :
  info_ok i → GetTcpinfoString (Some i) = Ret (info_text i) ∧ GetTcpinfoString None = Fault UninitRead.
Proof.
  intros Hi. split; [|done]. destruct (info_text_short i Hi) as (n & Hn & Hl & H0).
  unfold GetTcpinfoString, GetTcpInfoString, GetTcpInfo. cbn [snd]. apply c_str_mem_init, snprintf_fits; [lia|done].
Qed.

(** ** Witnesses *)

Lemma http_example_witness :
  ∃ h', ref_read (demo_http (str "GET /ref?x=1 HTTP/1.0" ++ crlf ++ crlf ++ str "GET")) = Ret h'
    ∧ fd_ <$> channel_ (tcp_ h') = Some (-1) ∧ content (input_ (tcp_ h')) = Some <$> str "GET".
Proof.
  destruct (http_example (user := demo_user) (str "HTTP/1.0") (str "GET") [(str "x", str "1")] 4096 8 HttpResponse_Clear
              (demo_http (str "GET /ref?x=1 HTTP/1.0" ++ crlf ++ crlf ++ str "GET"))) as [(h' & H1 & _ & H2 & _ & H3 & _) _].
  - split; by_decide.
  - split; by_decide.
  - constructor; [split_and!; by_decide|constructor].
  - by vm_compute.
  - split; [|split]; by vm_compute.
  - by vm_compute.
  - split_and!; by vm_compute.
  - by vm_compute.
  - exact demo_open.
  - split_and!; [apply wf_new|by vm_compute..].
  - by vm_compute.
  - by vm_compute.
  - exists h'. split; [exact H1|]. split; [exact (H3 eq_refl)|exact H2].
Defined.

Definition demo_info : tcp_info := mkInfo 0 200000 40000 1448 536 0 0 1250 625 2147483647 10 0.

Lemma tcp_info_string_witness : GetTcpinfoString (Some demo_info) = Ret (info_text demo_info).
Proof.
  destruct (tcp_info_string demo_info) as [H _]; [|exact H]. repeat constructor; by vm_compute.
Defined.

(** Two tests run in the order of registration. *)
Definition demo_tests : list (Test (list Z)) :=
  (RegisterTest (str "A") (str "two") (λ l, Ret (l ++ [2])) (RegisterTest (str "A") (str "one") (λ l, Ret (l ++ [1])) []).2).2.

Lemma demo_tests_run : RunAllTests demo_tests [] = Ret (0, [1; 2]).
Proof. reflexivity. Qed.
